(* ===== verification/_CoqProject ===== *)
-Q . S2P
Prelude.v
GoIO.v
Codec.v
CodecFacts.v
CodecTypes.v
Transport.v
GoTime.v
GoFloat.v
Store.v
Server.v
CodecErrors.v
ServerFacts.v
ServerDrain.v
ServerProps.v
ServerRaces.v
ServerSpec.v
ServerRefine.v
Wire.v
ServerCalls.v
ServerPushes.v
ServerComplete.v
ServerCalm.v
ServerListen.v
ServerListenProps.v
Logging.v
Status.v
Backoff.v
ClientOptions.v
ClientDial.v
ClientKeepalive.v
ClientAdaptive.v
ClientAdaptiveRuns.v
ClientKeepaliveLoop.v
Heartbeat.v
ClientNet.v
ClientToken.v
HandlerCalls.v
ClientComms.v
ClientCommsFacts.v
ClientCommsProps.v
ClientMessages.v
ClientWire.v
EndToEnd.v
Programs.v
Client.v
ClientDisconnect.v
ClientLife.v
ClientLifeFacts.v
ClientLifeRest.v
ClientLifeProps.v
ClientCallbacks.v
ClientPush.v
Devices.v
Delivery.v
