(* ===== verification/Prelude.v ===== *)
(** * rmtt-go: a verification development of the rmtt client/server library

    rmtt-go is a small publish protocol over a byte stream: a client opens a
    connection (TCP, TLS, KCP, QUIC or WebSocket), sends CONNECT with a
    credential, the server answers CONNACK with a return code and the keepalive
    it decided, and then both sides exchange PUSH, PINGREQ/PINGRESP and
    DISCONNECT packets.  The repository has a codec (src/codec), a server
    (src/server), a client (src/client), two command-line programs and an
    end-to-end harness.

    ** How the program is modelled

    The files, in dependency order, and the code they model:
    - [Prelude] (this file): machine integers at their width, Go strings and
      errors, the error/state monad in which the decoders are written,
      automation and the generic lemmas.
    - [GoIO]: io.Reader and io.Writer as type classes, io.ReadFull,
      bytes.Buffer, and the interfaces [Stream] and [Reliable] that a transport
      promises to the codec.
    - [Codec], [CodecFacts]: src/codec/*.go, every function and method: the
      length and field encoders, the six packets with Write and Unpack,
      NewControlPacket, ReadPacket.  [CodecFacts] has its theorems.
    - [CodecTypes]: decoded packets stay in the ranges of their Go types.
    - [CodecErrors]: the tables of return codes in src/codec/errors.go and
      constants.go.
    - [Transport]: the WebSocket adapters (src/server/wsconn.go, wsStreamConn of
      src/client/net.go) and the QUIC adapters (src/server/quicconn.go, quicConn of
      src/client/net.go); they are instances of [Stream], so every theorem about
      the decoder holds over them.
    - [GoTime]: time.Time, time.Duration and the float64 arithmetic of the
      keepalive timeouts; [GoFloat]: where that arithmetic is exact and how far it
      is from exact elsewhere.
    - [Store]: src/server/store.go and src/server/keepalive.go.
    - [Server]: src/server/conn.go and src/server/server.go as a transition
      system.  The state [server] is what the goroutines share; handleConnection
      of a connection stands at one [phase], every other goroutine (takeover,
      keepalive reaper, message handler, Push, Kick, Close) is a [task];
      [exec_handler] and [exec_task] are their atomic actions, [env_step] what
      peers, network, timers and the application do.
    - [ServerFacts] (the invariant of all reachable states), [ServerDrain] (a
      measure every server action decreases), [ServerProps] (the server's
      theorems, and executable schedules for concrete runs) and [ServerRaces]
      (two runs that go wrong).
    - [ServerSpec], [ServerRefine]: an abstract specification of the server, in
      which sessions exchange whole packets, and the simulation that shows that
      [Server] implements it.
    - [Wire]: what a network carries from one end of a connection to the other:
      whole chunks, and of the first torn one a part; [ServerCalls], [ServerPushes]:
      runs with the history of the application's calls of Push, and their accounts
      from above and from below; [ServerComplete]: runs with a ledger of what the
      packet loops have read, and [ServerCalm] those in which nothing is cut short.
    - [ServerListen], [ServerListenProps]: src/server/options.go, handler.go, the
      listeners (src/server/listener*.go), NewServer and ListenAndServeContext, as
      a transition system of Serve calls, with the handlers that a connection, a QUIC
      session or an HTTP connection gets ([handlers_of]); a connection handed to a
      handler there enters [Server] at its phase [PStart].
    - [Logging]: src/client/log.go and src/server/log.go, two packages with loggers
      of their own.
    - [Status]: src/client/status.go as a transition system with Go's channels
      by identity (closing nil or twice panics, receiving from nil blocks).
    - [Backoff]: src/client/backoff.go, the jitter in binary64 included.
    - [ClientOptions]: src/client/options.go and quicConf.
    - [ClientDial]: openConnection and dialWebSocket of src/client/net.go, with the
      resources they open.
    - [ClientKeepalive], [ClientAdaptive]: src/client/keepalive.go, the fixed and
      the adaptive heartbeat, one function per tick; [ClientAdaptiveRuns] puts the
      ticks of the adaptive one in time, [ClientKeepaliveLoop] is the goroutine;
      [Heartbeat] sets it against the server's keepalive timer, over a network with a
      bounded delay.
    - [ClientNet]: the handshake and what the loops of src/client/net.go do with
      one packet, and attemptConnection of src/client/client.go.
    - [ClientToken]: src/client/token.go, a token with everybody that waits for it.
    - [HandlerCalls]: the goroutines of dispatch that call the handlers, one per
      message and handler, in any order.
    - [ClientComms], [ClientCommsFacts], [ClientCommsProps]: the goroutines behind
      one connection (startWorkers, dispatch and stopCommsWorkers of
      src/client/client.go, startComms and its loops of src/client/net.go) with
      their channels, as a transition system; its invariants; its theorems.
      [ClientMessages]: src/client/message.go and the list of handlers.
    - [ClientWire], [EndToEnd]: what a client writes on its connection, and a client
      at the other end of a server's connection.
    - [Programs]: src/e2e and src/cmd: the programs around the library.
    - [Client]: the control flow of Connect, Push, IsConnected,
      internalConnLost, reconnect, Disconnect and CloseConnect; [ClientDisconnect]:
      how long Disconnect takes.
    - [ClientLife], [ClientLifeFacts], [ClientLifeRest], [ClientLifeProps]: the
      same functions as goroutines that share the status machine, c.conn, c.connMu
      and one generation of workers per connection.  What they need of the workers
      is the interface [Workers] with its laws [WorkersLaws]; the invariant and the
      bound on the client's moves are proved against it, and [ClientLifeProps]
      discharges it with [ClientComms] and states the theorems.
    - [ClientCallbacks]: the calls of OnConnectionLost and OnReconnecting along the
      runs of [ClientLife]; [ClientPush]: calls of Push next to it, from their first
      look at the status to the connection that takes the message.
    - [Devices]: that client, with all its connections, as a device of the server;
      [Delivery]: client and server when nothing cuts them short.

    ** What the theorems show

    Codec: round trip over every lawful transport, well-typed results,
    independence of fragmentation, totality with a classification of every error,
    rejection of every truncated frame, exactness of the unsupported-type test,
    and where the length encodings stop being faithful.  Server: for every
    interleaving, it refines the packet-level specification, the store is never
    stale, no connection bypasses authentication, the bytes written are complete
    frames after CONNACK until a write is cut short, no message is forged, every
    message is handed over exactly once when the server comes to rest, every call of
    Push is sent once or answered with an error, lifecycle callbacks are ordered and
    balanced (with one more OnConnectionClosed for each Kick), and the server always
    comes to rest with nothing leaked; plus the behaviour of handshake, packet loop, Push
    and takeover on every branch.  Listening: what arrives is accepted in order
    while the listener is open and gets its handlers, and the Serve calls end together.  Client: the status machine never panics,
    loses no wake-up and only follows its diagram (and can be wedged by two
    overlapping disconnects); the goroutines of a connection never panic, never
    deadlock, keep messages in order up to dispatch, call every handler once per
    message in an order of their own ([handlers_out_of_order]), and end on shutdown but
    for handlers that have not returned and the goroutine that waits for them; with any number of
    Connect and Disconnect calls, losses and reconnections interleaved, generations
    of workers never overlap, none of their connections is left open when the client is
    disconnected (what attemptConnection opens and gives up is another matter:
    [ClientNet.attempt_leaks]),
    every Connect completes its token once, and the client comes to rest connected
    or disconnected except at two dead ends; connections whose
    workers were started are reported lost once or closed by a Disconnect; every Push
    returns a token that completes, and success means that the frame was written unless
    the call found the client reconnecting, when the message is dropped; tokens give every
    waiter the verdict; dialing leaks nothing; with a keepalive of a
    few seconds or more and a response window no longer than it, the heartbeat outpaces
    the server's reaper whichever it is, so that a live session is not reaped; the fixed
    one reports a loss exactly after one and a half heartbeats of silence; the adaptive
    one stays in its bounds, settles, and detects a dead peer from any state it can
    reach unless the client keeps sending ([adaptive_blind_while_sending]); backoff
    doubles and is capped, and no pause of any reconnection exceeds the cap by more than
    the jitter's quarter; Disconnect returns within its quiesce.  Client and server together: the handshake agrees end
    to end; on one connection messages keep their order in both directions and
    every message whose token reported success is in the sequence the server reads;
    on a connection that stays whole nothing is lost, and a device all of whose
    connections went well has every message delivered exactly once each way; across all connections of a
    device, reconnections included, a call of Push on either side is worth at most
    one message on the other; and when the end-to-end client reports success, the
    server program was handed every message.

    ** Choices and bounds

    Reading is by fuel: [ReadFull] has one unit per byte wanted, [decodeLength]
    five for its at most four rounds, [encodeLength] ten for at most nine
    base-128 digits of an int, [incoming] one per byte of input; the theorems
    prove the fuel is never exhausted.  An atomic action of the server is a
    stretch of code between two points at which another goroutine can interfere;
    a check of [active] and the write or close that follows count as one,
    because a close in between makes the write fail exactly as if it had come
    first.  A write may fail after any prefix of a frame.  A read returns once
    the peer has sent data or the connection has ended; a peer that stays silent
    for ever is not modelled (until a device is registered the server has no
    timer against it), and neither is a listener that goes on accepting while
    the server is asked to come to rest.  The exactness of
    the floating-point timeouts is established for every period a CONNACK can carry
    (below 65536 seconds), by bounds on the mantissas.
    In [ClientComms] a send and the receive that takes it are one action, as on
    an unbuffered channel; [dispatched] is what dispatch has taken, and the calls of
    handlers are those of [hc_called], made later by goroutines of their own; CloseConnect and internalConnLost, which the loops call,
    are calls that return (Disconnect by its timer), and that they stop the workers
    is an action of the environment; [ClientLife] puts the two together: a worker's
    call starts the goroutine that runs it, and counts as not ended while that
    goroutine is inside the call.  There the pauses between attempts to connect
    belong to the attempt, closing c.stop and c.conn is one action, and what
    attemptConnection returns is the environment's (the function itself, with the
    connections it opens, closes and leaks, is in [ClientNet]): a generation of workers
    begins where a connection is handed to startWorkers.  A generation is wound down
    when its connection is closed and its goroutines have ended, handlers that have not
    returned and the goroutine of dispatch that waits for them aside.  OnConnectionLost and
    OnReconnecting are application code: that they are called is observed, what they
    do is calls of Connect and Disconnect like any other.  [ClientPush] lets
    connections accept no messages but those of its calls; a timer that fires is a
    move that can always be made.  [EndToEnd] relates the two ends of a connection by
    the bytes alone ([carried]): a network that loses the tail of either direction,
    at any moment; the server of [Programs] answers messages it was handed, each
    once.  A float64 that rand.Float64 returns is one of the 2^53 multiples of 2^-53
    below one.  In [ServerListen] the cancellation and the
    closing of the listeners in Close are one action, and the streams of a QUIC session
    and the requests of an HTTP connection come with its arrival.  Locks are modelled where a
    goroutine can block on one for long (the token's, in [ClientToken]) and are
    part of the atomicity of actions elsewhere.

    The runs of [ClientKeepalive] and [ClientAdaptiveRuns] take the readings of the
    clock within one tick to be one time, and a ticker to be never late by more than
    its period; ticks of the adaptive heartbeat are 250 ms apart, and its detection
    time counts five of them and begins at the last event before the silence.  [ServerComplete] counts a message as read when
    ReadPacket has returned it to the packet loop.

    ** Not modelled

    The transport libraries and url.Parse (parameters: no source of theirs is here),
    deadlines and TLS (their effect on a write or read is the environment's), what the
    application does in its callbacks, the printing of the server programs' callbacks
    and their signals, and the error that OnConnectionLost is given.  The server's
    transition system has no clock: a keepalive timer may fire there whenever the loop
    it guards runs; when it does in time is [Heartbeat], with the timer alone.  Interface types without code of
    their own (Server, Client, Token, DeviceConnection) appear as the operations of the
    types that implement them. *)

From Stdlib Require Import ZArith Lia String Ascii.
From stdpp Require Import base list strings gmap numbers.

Local Open Scope Z_scope.

(** ** Machine integers

    Go integers are kept at their width: a conversion to a [w]-bit unsigned
    type is reduction modulo [2^w]; [int64] (and [int], which is 64 bits wide
    on the supported platforms) wraps into the symmetric signed range. *)

Definition u8 (z : Z) : Z := z mod 2 ^ 8.

Definition u16 (z : Z) : Z := z mod 2 ^ 16.

Definition u32 (z : Z) : Z := z mod 2 ^ 32.

Definition i64 (z : Z) : Z := (z + 2 ^ 63) mod 2 ^ 64 - 2 ^ 63.

(** A value that fits in a byte. *)
Definition byte_ok (b : Z) : Prop := 0 <= b < 256.

#[global] Instance byte_ok_dec b : Decision (byte_ok b).
Proof. unfold byte_ok. apply _. Defined.

Definition bytes_ok (bs : list Z) : Prop := Forall byte_ok bs.

(** Go strings are immutable byte sequences; both strings and byte slices
    are modelled by lists of byte values.  Literals are written as Rocq
    strings and converted by [go_bytes]. *)
Abbreviation gostring := (list Z) (only parsing).

Fixpoint go_bytes (s : string) : list Z :=
  match s with
  | EmptyString => []
  | String c s' => Z.of_nat (nat_of_ascii c) :: go_bytes s'
  end.

Fixpoint go_string (bs : list Z) : string :=
  match bs with
  | [] => EmptyString
  | b :: bs' => String (ascii_of_nat (Z.to_nat b)) (go_string bs')
  end.

(** ** Errors

    A Go [error] made once by [errors.New] at package level is compared by
    identity, so it is named after its variable; an error made by
    [fmt.Errorf] at run time, or handed over by a transport, is only ever
    inspected through its text. *)
Inductive error : Type :=
| Sentinel (var text : string)
| Errorf (text : string).

#[global] Instance error_eq_dec : EqDecision error.
Proof. solve_decision. Defined.

(** [err.Error()] *)
Definition Error (e : error) : string :=
  match e with
  | Sentinel _ t => t
  | Errorf t => t
  end.

Definition io_EOF : error := Sentinel "io.EOF" "EOF".
Definition io_ErrUnexpectedEOF : error :=
  Sentinel "io.ErrUnexpectedEOF" "unexpected EOF".
Definition io_ErrShortWrite : error := Sentinel "io.ErrShortWrite" "short write".
Definition net_ErrClosed : error :=
  Sentinel "net.ErrClosed" "use of closed network connection".

(** [strings.Contains] *)
Fixpoint Contains (s sub : string) : bool :=
  match s with
  | EmptyString => match sub with EmptyString => true | _ => false end
  | String _ s' => if String.prefix sub s then true else Contains s' sub
  end.

(** ** Results of fallible, possibly non-terminating code *)

Inductive outcome (A : Type) : Type :=
| Ret (a : A)
| Throw (e : error)
| Diverge.
Arguments Ret {_} _.
Arguments Throw {_} _.
Arguments Diverge {_}.

(** Code that works on a reader (or any other mutable object) of type [S]
    and returns an [A] or an error. *)
Definition M (S A : Type) : Type := S -> outcome A * S.

Definition mreturn {S A} (a : A) : M S A := fun s => (Ret a, s).

Definition mthrow {S A} (e : error) : M S A := fun s => (Throw e, s).

Definition mthen {S A B} (m : M S A) (k : A -> M S B) : M S B := fun s =>
  match m s with
  | (Ret a, s') => k a s'
  | (Throw e, s') => (Throw e, s')
  | (Diverge, s') => (Diverge, s')
  end.

Declare Scope go_scope.
Delimit Scope go_scope with go.
Notation "'let!' x ':=' m 'in' k" := (mthen m (fun x => k))
  (at level 10, x pattern, m at level 200, k at level 200) : go_scope.

(** ** Tactics of the development *)

(** Case analysis on every [match] and [if] of the goal, with cleanup. *)
Ltac go_cases :=
  repeat (case_match; simplify_eq/=; try done).

(** Linear arithmetic with the machine-width conversions unfolded. *)
Ltac wrap_lia :=
  unfold u8, u16, u32, i64, byte_ok in *; Z.to_euclidean_division_equations; lia.

Create HintDb rmtt.

(** ** Lemmas on machine integers *)

Lemma u8_small z : 0 <= z < 256 -> u8 z = z.
Proof. intros. unfold u8. by rewrite Z.mod_small. Qed.

Lemma u16_small z : 0 <= z < 65536 -> u16 z = z.
Proof. intros. unfold u16. by rewrite Z.mod_small. Qed.

Lemma u32_small z : 0 <= z < 2 ^ 32 -> u32 z = z.
Proof. intros. unfold u32. by rewrite Z.mod_small. Qed.

Lemma i64_small z : - 2 ^ 63 <= z < 2 ^ 63 -> i64 z = z.
Proof. intros. unfold i64. rewrite Z.mod_small; lia. Qed.

Lemma u8_ok z : byte_ok (u8 z).
Proof. unfold byte_ok, u8. apply (Z.mod_pos_bound z 256). lia. Qed.

Lemma u16_range z : 0 <= u16 z < 65536.
Proof. unfold u16. apply (Z.mod_pos_bound z 65536). lia. Qed.

Lemma u32_range z : 0 <= u32 z < 2 ^ 32.
Proof. unfold u32. apply (Z.mod_pos_bound z (2 ^ 32)). lia. Qed.

#[export] Hint Resolve u8_ok u16_range u32_range : rmtt.

(** Disjoint bit ranges: the low part and a shifted high part add up. *)
Lemma lor_shiftl_add a b n :
  0 <= n -> 0 <= a < 2 ^ n -> Z.lor a (Z.shiftl b n) = a + b * 2 ^ n.
Proof.
  intros Hn Ha. rewrite <- (Z.shiftl_mul_pow2 b n), <- Z.add_lor_land by lia.
  enough (Z.land a (Z.shiftl b n) = 0) by lia.
  apply Z.bits_inj_0. intros k. rewrite Z.land_spec.
  destruct (Z.neg_nonneg_cases k); [by rewrite !Z.testbit_neg_r by lia|].
  destruct (Z.lt_ge_cases k n).
  - by rewrite Z.shiftl_spec_low, andb_false_r by lia.
  - rewrite <- (Z.mod_small a (2 ^ n)), Z.mod_pow2_bits_high by lia. done.
Qed.

(** ** Lemmas on lists *)

Lemma take_min_length {A} n (l : list A) : take (n `min` length l) l = take n l.
Proof.
  destruct (Nat.min_spec n (length l)) as [[? ->]|[? ->]]; [done|].
  by rewrite firstn_all, take_ge.
Qed.

Lemma drop_min_length {A} n (l : list A) : drop (n `min` length l) l = drop n l.
Proof.
  destruct (Nat.min_spec n (length l)) as [[? ->]|[? ->]]; [done|].
  by rewrite drop_all, drop_ge.
Qed.

Lemma Forall_mono {A} (P Q : A -> Prop) (l : list A) :
  Forall P l -> (forall x, P x -> Q x) -> Forall Q l.
Proof. induction 1; auto. Qed.

(** ** Sums over finite maps *)

Definition map_sum {A} (f : nat -> A -> nat) (m : gmap nat A) : nat :=
  map_fold (fun k v acc => (f k v + acc)%nat) 0%nat m.

Lemma map_sum_insert {A} (f : nat -> A -> nat) m k v :
  m !! k = None -> map_sum f (<[k := v]> m) = (f k v + map_sum f m)%nat.
Proof.
  intros Hk. unfold map_sum. rewrite (map_fold_insert_L _ _ k v m); [done|lia|done].
Qed.

Lemma map_sum_lookup {A} (f : nat -> A -> nat) m k v :
  m !! k = Some v -> map_sum f m = (f k v + map_sum f (delete k m))%nat.
Proof.
  intros Hk. rewrite <- (insert_delete_id m k v Hk) at 1.
  by rewrite map_sum_insert by apply lookup_delete_eq.
Qed.

Lemma map_sum_update {A} (f : nat -> A -> nat) m k v :
  map_sum f (<[k := v]> m) = (f k v + map_sum f (delete k m))%nat.
Proof. rewrite <- insert_delete_eq. by rewrite map_sum_insert by apply lookup_delete_eq. Qed.

Lemma map_sum_le {A} (f g : nat -> A -> nat) m :
  (forall k v, m !! k = Some v -> (f k v <= g k v)%nat) -> (map_sum f m <= map_sum g m)%nat.
Proof.
  induction m as [|k v m Hk IH] using map_ind; intros Hfg; [done|].
  rewrite !map_sum_insert by done. apply Nat.add_le_mono.
  - apply Hfg. by rewrite lookup_insert_eq.
  - apply IH. intros k' v' Hk'. apply Hfg. rewrite lookup_insert_ne; [done|congruence].
Qed.

Lemma map_sum_ext {A} (f g : nat -> A -> nat) m :
  (forall k v, m !! k = Some v -> f k v = g k v) -> map_sum f m = map_sum g m.
Proof.
  intros Hfg. apply Nat.le_antisymm; apply map_sum_le; intros k v Hk; by rewrite (Hfg k v Hk).
Qed.

Lemma map_sum_zero {A} (f : nat -> A -> nat) m :
  (forall k v, m !! k = Some v -> f k v = 0%nat) -> map_sum f m = 0%nat.
Proof.
  induction m as [|k v m Hk IH] using map_ind; intros Hf; [done|].
  rewrite map_sum_insert, (Hf k v), IH; [done| |by rewrite lookup_insert_eq|done].
  intros k' v' Hk'. apply (Hf k'). rewrite lookup_insert_ne; [done|congruence].
Qed.

(** Maps with the same keys and related values. *)
Lemma map_sum_rel {A B} (f : nat -> A -> nat) (g : nat -> B -> nat) m1 m2 :
  (forall k, match m1 !! k, m2 !! k with
             | Some a, Some b => f k a = g k b
             | None, None => True
             | _, _ => False
             end) -> map_sum f m1 = map_sum g m2.
Proof.
  revert m2. induction m1 as [|k a m1 Hk IH] using map_ind; intros m2 Hm.
  - assert (m2 = ∅) as ->; [|done]. apply map_empty. intros k. specialize (Hm k).
    rewrite lookup_empty in Hm. by destruct (m2 !! k).
  - pose proof (Hm k) as Hmk. rewrite lookup_insert_eq in Hmk.
    destruct (m2 !! k) as [b|] eqn:Hb; [|done].
    rewrite map_sum_insert, (map_sum_lookup g m2 k b Hb), Hmk by done. f_equal. apply IH.
    intros k'. destruct (decide (k' = k)) as [->|Hne].
    + by rewrite Hk, lookup_delete_eq.
    + specialize (Hm k'). rewrite lookup_insert_ne in Hm by done. by rewrite lookup_delete_ne.
Qed.

Lemma map_sum_delete {A} (f : nat -> A -> nat) m k : (map_sum f (delete k m) <= map_sum f m)%nat.
Proof.
  destruct (m !! k) as [v|] eqn:Hk; [rewrite (map_sum_lookup f m k v Hk); lia|].
  by rewrite delete_id.
Qed.

(** Sums over maps whose keys differ where nothing is added: [n] more at [k0]. *)
Lemma map_sum_bump {A B} (f : nat -> A -> nat) (g : nat -> B -> nat) m1 m2 k0 n :
  (forall k, (from_option (f k) 0 (m1 !! k) <=
     (if decide (k = k0) then n else 0) + from_option (g k) 0 (m2 !! k))%nat) ->
  (map_sum f m1 <= n + map_sum g m2)%nat.
Proof.
  revert n m2. induction m1 as [|k a m1 Hk IH] using map_ind; intros n m2 Hm;
    [apply Nat.le_0_l|].
  rewrite map_sum_insert by done. pose proof (Hm k) as Hmk. rewrite lookup_insert_eq in Hmk. cbn in Hmk.
  assert (Hrest : (map_sum f m1 <= (if decide (k = k0) then 0 else n) + map_sum g (delete k m2))%nat).
  { apply IH. intros k'. destruct (decide (k' = k)) as [->|Hne]; [rewrite Hk; cbn; lia|].
    specialize (Hm k'). rewrite lookup_insert_ne in Hm by done. rewrite lookup_delete_ne by done.
    repeat case_decide; simplify_eq; lia. }
  destruct (m2 !! k) as [b|] eqn:Hb; cbn in Hmk.
  - rewrite (map_sum_lookup g m2 k b Hb). case_decide; lia.
  - rewrite (delete_id m2 k Hb) in Hrest. case_decide; lia.
Qed.
