(* ===== verification/GoIO.v ===== *)
(** * io.Reader, io.Writer and the helpers of Go's io and bytes packages

    The codec is written against [io.Reader] and [io.Writer], so the model is
    too: [Reader] and [Writer] are type classes with the one operation of the
    Go interfaces.  [Stream] states what a transport promises: however it
    fragments the data, its reads deliver one fixed byte sequence and then one
    fixed error.  [sim] relates code run on such a transport to the same code
    run on the plain byte sequence; it is closed under the monad, so a
    decoder built from [ReadFull] cannot observe fragmentation. *)

From Stdlib Require Import ZArith Lia String.
From stdpp Require Import base list strings gmap numbers.
From S2P Require Import Prelude.

Local Open Scope Z_scope.
Local Open Scope go_scope.

(** [Read n r] is [r.Read(p)] with [len(p) = n]: the bytes stored into [p],
    the error, and the reader afterwards. *)
Class Reader (R : Type) : Type :=
  Read : nat -> R -> (list Z * option error) * R.

(** [Write bs w] is [w.Write(bs)]: the count, the error, the writer after. *)
Class Writer (W : Type) : Type :=
  Write : list Z -> W -> (Z * option error) * W.

(** ** io.ReadFull

    [io.ReadAtLeast] with [min = len(buf)]: keep reading into the free part of
    the buffer until it is full or an error arrives.  A reader that forever
    returns [0, nil] makes Go loop; the loop has one unit of fuel per byte
    still wanted, and running out of it is [Diverge]. *)
Fixpoint ReadFull_loop {R} `{Reader R} (fuel min : nat) (acc : list Z) (r : R)
  : outcome (list Z) * R :=
  if (min <=? length acc)%nat then (Ret acc, r) else
  match fuel with
  | O => (Diverge, r)
  | S fuel =>
      let '((bs, e), r') := Read (min - length acc)%nat r in
      let acc' := acc ++ bs in
      match e with
      | None => ReadFull_loop fuel min acc' r'
      | Some e =>
          if (min <=? length acc')%nat then (Ret acc', r')
          else if (0 <? length acc')%nat && bool_decide (e = io_EOF)
               then (Throw io_ErrUnexpectedEOF, r')
               else (Throw e, r')
      end
  end.

Definition ReadFull {R} `{Reader R} (n : nat) : M R (list Z) :=
  ReadFull_loop n n [].

(** ** bytes.Buffer

    Reading removes from the front, writing appends and never fails. *)
Record Buffer : Type := mkBuffer { buf : list Z }.

#[global] Instance Buffer_reader : Reader Buffer := fun n b =>
  match buf b with
  | [] => (([], if (n =? 0)%nat then None else Some io_EOF), b)
  | bs => ((take n bs, None), mkBuffer (drop n bs))
  end.

#[global] Instance Buffer_writer : Writer Buffer := fun bs b =>
  ((Z.of_nat (length bs), None), mkBuffer (buf b ++ bs)).

(** [Buffer.WriteTo]: nothing is written when the buffer is empty,
    otherwise one [Write] call carries the whole content; a count below the
    length without an error is reported as a short write. *)
Definition WriteTo {W} `{Writer W} (b : Buffer) (w : W) : option error * W :=
  match buf b with
  | [] => (None, w)
  | bs =>
      let '((m, e), w') := Write bs w in
      match e with
      | Some e => (Some e, w')
      | None =>
          if m =? Z.of_nat (length bs) then (None, w')
          else (Some io_ErrShortWrite, w')
      end
  end.

(** ** What a transport promises to the decoder *)

(** A byte sequence followed by a terminal error, delivered as fast as it is
    asked for. *)
Record flat : Type := Flat { fl_bytes : list Z; fl_end : error }.

#[global] Instance flat_reader : Reader flat := fun n f =>
  match fl_bytes f with
  | [] => (([], Some (fl_end f)), f)
  | bs => ((take n bs, None), Flat (drop n bs) (fl_end f))
  end.

Class Stream (R : Type) `{Reader R} : Type := {
  pending : R -> list Z;
  ending : R -> error;
  Read_spec : forall n r, (0 < n)%nat ->
    exists k e r',
      Read n r = ((take k (pending r), e), r') /\
      (k <= n)%nat /\
      pending r' = drop k (pending r) /\ ending r' = ending r /\
      ((e = None /\ (0 < k <= length (pending r))%nat) \/
       (e = Some (ending r) /\ (length (pending r) <= k)%nat));
}.

Definition flatten {R} `{Stream R} (r : R) : flat := Flat (pending r) (ending r).

(** A writer that accepts everything it is given. *)
Class Reliable (W : Type) `{Writer W} : Type := {
  written : W -> list Z;
  Write_spec : forall bs w, exists w',
    Write bs w = ((Z.of_nat (length bs), None), w') /\
    written w' = written w ++ bs;
}.

(** ** The specification of io.ReadFull on a byte sequence *)

Definition readfull_spec (n : nat) (f : flat) : outcome (list Z) * flat :=
  if (n <=? length (fl_bytes f))%nat
  then (Ret (take n (fl_bytes f)), Flat (drop n (fl_bytes f)) (fl_end f))
  else (Throw (if (0 <? length (fl_bytes f))%nat && bool_decide (fl_end f = io_EOF)
               then io_ErrUnexpectedEOF else fl_end f),
        Flat [] (fl_end f)).

Section readfull.
Context {R : Type} `{Stream R}.

Lemma ReadFull_loop_spec fuel n acc (r : R) :
  (length acc <= n)%nat -> (n - length acc <= fuel)%nat ->
  let '(o, r') := ReadFull_loop fuel n acc r in
  (o, flatten r') =
    if (n - length acc <=? length (pending r))%nat
    then (Ret (acc ++ take (n - length acc) (pending r)),
          Flat (drop (n - length acc) (pending r)) (ending r))
    else (Throw (if (0 <? length (acc ++ pending r))%nat && bool_decide (ending r = io_EOF)
                 then io_ErrUnexpectedEOF else ending r), Flat [] (ending r)).
Proof.
  revert acc r. induction fuel as [|fuel IH]; intros acc r Hle Hf; cbn [ReadFull_loop].
  - rewrite (proj2 (Nat.leb_le _ _)) by lia.
    replace (n - length acc)%nat with 0%nat by lia. cbn. by rewrite app_nil_r.
  - destruct (Nat.leb_spec n (length acc)).
    { replace (n - length acc)%nat with 0%nat by lia. cbn. by rewrite app_nil_r. }
    destruct (Read_spec (n - length acc) r) as (k & e & r' & -> & Hk & Hp & He & Hc); [lia|].
    destruct Hc as [[-> Hk']|[-> Hk']].
    + assert (Hl : length (acc ++ take k (pending r)) = (length acc + k)%nat)
        by (rewrite length_app, length_take; lia).
      specialize (IH (acc ++ take k (pending r)) r'). rewrite Hl in IH.
      destruct (ReadFull_loop _ _ _ _) as [o r'']. rewrite IH by lia.
      rewrite Hp, He, length_drop, drop_drop.
      replace (n - (length acc + k))%nat with (n - length acc - k)%nat by lia.
      destruct (Nat.leb_spec (n - length acc - k) (length (pending r) - k)),
        (Nat.leb_spec (n - length acc) (length (pending r))); try lia.
      * rewrite <- app_assoc, take_take_drop.
        by replace (k + (n - length acc - k))%nat with (n - length acc)%nat by lia.
      * rewrite <- app_assoc, take_drop. done.
    + rewrite take_ge by lia. rewrite length_app.
      assert (flatten r' = Flat [] (ending r)) as Hfl.
      { unfold flatten. by rewrite Hp, He, drop_ge by lia. }
      destruct (Nat.leb_spec n (length acc + length (pending r))),
        (Nat.leb_spec (n - length acc) (length (pending r))); try lia.
      * assert (n - length acc = length (pending r))%nat as -> by lia.
        cbn. by rewrite Hfl, firstn_all, drop_all.
      * by destruct (_ && _); cbn; rewrite Hfl.
Qed.

(** On a lawful stream [ReadFull] terminates and is exactly [readfull_spec]. *)
Lemma ReadFull_spec n (r : R) :
  let '(o, r') := ReadFull n r in (o, flatten r') = readfull_spec n (flatten r).
Proof.
  unfold ReadFull, readfull_spec.
  pose proof (ReadFull_loop_spec n n [] r) as Hl. cbn [length app] in Hl.
  rewrite Nat.sub_0_r in Hl. destruct (ReadFull_loop _ _ _ _). apply Hl; lia.
Qed.

End readfull.

(** ** Instances *)

#[global] Program Instance flat_stream : Stream flat := {|
  pending := fl_bytes; ending := fl_end;
|}.
Next Obligation.
  intros n [[|b bs] e] Hn; cbn.
  - exists 0%nat, (Some e), (Flat [] e). cbn. repeat split; auto with lia.
  - exists (n `min` length (b :: bs))%nat, None, (Flat (drop n (b :: bs)) e).
    rewrite take_min_length, drop_min_length. cbn [fl_bytes fl_end].
    repeat split; [lia|left; split; [done|cbn; lia]].
Qed.

#[global] Program Instance Buffer_stream : Stream Buffer := {|
  pending := buf; ending := fun _ => io_EOF;
|}.
Next Obligation.
  intros n [bs] Hn.
  destruct (Read_spec n (Flat bs io_EOF)) as (k & e & r' & Hr & Hk & Hp & He & Hc); [done|].
  exists k, e, (mkBuffer (fl_bytes r')). cbn in *. repeat split; auto.
  unfold Read, Buffer_reader, flat_reader in *. cbn in *.
  destruct bs as [|b bs]; inversion Hr; subst; cbn; [|done].
  destruct n; [lia|]. done.
Qed.

#[global] Program Instance Buffer_reliable : Reliable Buffer := {| written := buf |}.
Next Obligation. intros bs [b]. eexists. by split. Qed.

(** ReadFull on a byte sequence, in the form the decoders use it. *)
Lemma ReadFull_flat n f : ReadFull n f = readfull_spec n f.
Proof.
  pose proof (ReadFull_spec n f) as Hr. destruct f.
  by destruct (ReadFull n _) as [o [? ?]].
Qed.

(** ** Simulation: code on a lawful stream against code on its byte sequence *)

Definition sim {R A} `{Stream R} (m : M R A) (m' : M flat A) : Prop :=
  forall r, m' (flatten r) = let '(o, r') := m r in (o, flatten r').

Section sim.
Context {R : Type} `{Stream R}.

Lemma sim_return {A} (a : A) : sim (R := R) (mreturn a) (mreturn a).
Proof. done. Qed.

Lemma sim_throw {A} e : sim (R := R) (A := A) (mthrow e) (mthrow e).
Proof. done. Qed.

Lemma sim_then {A B} (m : M R A) m' (k : A -> M R B) k' :
  sim m m' -> (forall a, sim (k a) (k' a)) -> sim (mthen m k) (mthen m' k').
Proof.
  intros Hm Hk r. unfold mthen. rewrite Hm.
  destruct (m r) as [[a|e|] r']; [apply Hk | done | done].
Qed.

Lemma sim_if {A} (b : bool) (m1 m2 : M R A) m1' m2' :
  sim m1 m1' -> sim m2 m2' -> sim (if b then m1 else m2) (if b then m1' else m2').
Proof. by destruct b. Qed.

Lemma sim_ReadFull n : sim (R := R) (ReadFull n) (ReadFull n).
Proof.
  intros r. rewrite ReadFull_flat. by pose proof (ReadFull_spec n r); destruct (ReadFull n r).
Qed.

End sim.

#[export] Hint Resolve sim_return sim_throw sim_then sim_if sim_ReadFull : rmtt.

Lemma ReadFull_buffer n bs :
  let '(o, b) := ReadFull n (mkBuffer bs) in
  (o, flatten b) = readfull_spec n (Flat bs io_EOF).
Proof. exact (ReadFull_spec n (mkBuffer bs)). Qed.

(** ** Parsing a known prefix

    [reads m bs a]: on any lawful stream that starts with [bs], [m] consumes
    exactly [bs] and returns [a]. *)
Definition reads {R A} `{Stream R} (m : M R A) (bs : list Z) (a : A) : Prop :=
  forall r rest, pending r = bs ++ rest ->
    exists r', m r = (Ret a, r') /\ pending r' = rest /\ ending r' = ending r.

Section reads.
Context {R : Type} `{Stream R}.

Lemma reads_return {A} (a : A) : reads (R := R) (mreturn a) [] a.
Proof. intros r rest Hr. by exists r. Qed.

Lemma reads_then {A B} (m : M R A) (k : A -> M R B) bs1 bs2 a b :
  reads m bs1 a -> reads (k a) bs2 b -> reads (mthen m k) (bs1 ++ bs2) b.
Proof.
  intros Hm Hk r rest Hr. rewrite <- app_assoc in Hr.
  destruct (Hm r _ Hr) as (r1 & Hm1 & Hp1 & He1).
  destruct (Hk r1 rest Hp1) as (r2 & Hk2 & Hp2 & He2).
  exists r2. unfold mthen. rewrite Hm1. repeat split; congruence.
Qed.

(** A computation that consumes nothing further. *)
Lemma reads_map {A B} (m : M R A) (f : A -> B) bs a :
  reads m bs a -> reads (mthen m (fun x => mreturn (f x))) bs (f a).
Proof.
  intros Hm. rewrite <- (app_nil_r bs). eapply reads_then; [done|apply reads_return].
Qed.

Lemma reads_ReadFull n bs : length bs = n -> reads (R := R) (ReadFull n) bs bs.
Proof.
  intros <- r rest Hr. pose proof (ReadFull_spec (length bs) r) as Hs.
  unfold readfull_spec in Hs. cbn [flatten fl_bytes] in Hs. rewrite Hr in Hs.
  rewrite (proj2 (Nat.leb_le _ _)) in Hs by (rewrite length_app; lia).
  rewrite take_app_length, drop_app_length in Hs.
  destruct (ReadFull (length bs) r) as [o r']. simplify_eq.
  exists r'. by unfold flatten in *; simplify_eq/=.
Qed.

End reads.

#[export] Hint Resolve reads_return reads_map reads_ReadFull : rmtt.

(** ** Parsing an unknown input

    [parser m P E] describes [m] on every byte sequence: it terminates; a
    result [a] comes with the consumed bytes [c] that [P a c] relates it to,
    and is not affected by what follows; a failure is either the end of the
    input or an error of its own, satisfying [E], that more input would not
    change. *)

Definition io_fail (e x : error) : Prop :=
  x = e \/ (e = io_EOF /\ x = io_ErrUnexpectedEOF).

Definition parser {A} (m : M flat A) (P : A -> list Z -> Prop) (E : error -> Prop) : Prop :=
  forall bs e, exists o rest, m (Flat bs e) = (o, Flat rest e) /\
    match o with
    | Ret a => exists c, bs = c ++ rest /\ P a c /\
        forall suf, m (Flat (bs ++ suf) e) = (Ret a, Flat (rest ++ suf) e)
    | Throw x => (rest = [] /\ io_fail e x) \/
        (E x /\ forall suf, m (Flat (bs ++ suf) e) = (Throw x, Flat (rest ++ suf) e))
    | Diverge => False
    end.

Lemma parser_return {A} (a : A) (P : A -> list Z -> Prop) E :
  P a [] -> parser (mreturn a) P E.
Proof. intros Ha bs e. exists (Ret a), bs. split; [done|]. by exists []. Qed.

Lemma parser_throw {A} x (P : A -> list Z -> Prop) (E : error -> Prop) :
  E x -> parser (mthrow x) P E.
Proof. intros Hx bs e. exists (Throw x), bs. split; [done|]. by right. Qed.

Lemma parser_weaken {A} (m : M flat A) (P Q : A -> list Z -> Prop) (E F : error -> Prop) :
  parser m P E -> (forall a c, P a c -> Q a c) -> (forall x, E x -> F x) -> parser m Q F.
Proof.
  intros Hm HPQ HEF bs e. destruct (Hm bs e) as (o & rest & Ho & Hc).
  exists o, rest. split; [done|]. destruct o; naive_solver.
Qed.

Lemma parser_then {A B} (m : M flat A) (k : A -> M flat B) P E
    (Q : B -> list Z -> Prop) :
  parser m P E ->
  (forall a c1, P a c1 -> parser (k a) (fun b c2 => Q b (c1 ++ c2)) E) ->
  parser (mthen m k) Q E.
Proof.
  intros Hm Hk bs e. unfold mthen. destruct (Hm bs e) as (o & rest & Ho & Hc).
  destruct o as [a|x|]; [|rewrite Ho|done].
  - destruct Hc as (c & Hbs & HP & Hext).
    destruct (Hk a c HP rest e) as (o2 & rest2 & Ho2 & Hc2). rewrite Ho.
    exists o2, rest2. split; [done|]. destruct o2 as [b|x|]; [| |done].
    + destruct Hc2 as (c2 & -> & HQ & Hext2). exists (c ++ c2).
      rewrite <- app_assoc. repeat split; [done|done|].
      intros suf. by rewrite Hext, Hext2.
    + destruct Hc2 as [?|[? Hext2]]; [by left|right]. split; [done|].
      intros suf. by rewrite Hext, Hext2.
  - exists (Throw x), rest. split; [done|]. destruct Hc as [?|[? Hext]]; [by left|right].
    split; [done|]. intros suf. by rewrite Hext.
Qed.

Lemma parser_ReadFull n E :
  parser (ReadFull n) (fun a c => a = c /\ length c = n) E.
Proof.
  intros bs e. rewrite ReadFull_flat. unfold readfull_spec. cbn [fl_bytes fl_end].
  destruct (Nat.leb_spec n (length bs)) as [Hl|Hl].
  - eexists _, _. split; [done|]. exists (take n bs). rewrite take_drop, length_take.
    repeat split; [lia|]. intros suf. rewrite ReadFull_flat. unfold readfull_spec.
    cbn [fl_bytes fl_end]. rewrite (proj2 (Nat.leb_le _ _)) by (rewrite length_app; lia).
    by rewrite take_app_le, drop_app_le by lia.
  - eexists _, _. split; [done|]. left. split; [done|]. unfold io_fail.
    destruct (_ && _) eqn:Hb; [|by left].
    apply andb_prop in Hb as [_ Hb%bool_decide_eq_true]. by right.
Qed.
