(* ===== verification/Codec.v ===== *)
(** * Package codec: the rmtt wire protocol

    Fixed header and remaining-length encoding, the field encoders, the six
    control packets with their [Write] and [Unpack] methods, and [ReadPacket].
    Every decoder is generic in the [Reader] it consumes, every encoder in the
    [Writer] it feeds. *)

From Stdlib Require Import ZArith Lia String.
From stdpp Require Import base list strings gmap numbers.
From S2P Require Import Prelude GoIO.

Local Open Scope Z_scope.
Local Open Scope go_scope.

(** ** constants.go *)

(** Control packet types. *)
Definition Connect : Z := 1.
Definition Connack : Z := 2.
Definition Push : Z := 3.
Definition Pingreq : Z := 5.
Definition Pingresp : Z := 6.
Definition Disconnect : Z := 14.

(** CONNACK return codes. *)
Definition Accepted : Z := 0x00.
Definition ErrRefusedBadProtocolVersion : Z := 0x01.
Definition ErrRefusedServerUnavailable : Z := 0x02.
Definition ErrRefusedNotAuthorised : Z := 0x03.
Definition ErrNetworkError : Z := 0xFE.
Definition ErrProtocolViolation : Z := 0xFF.

(** DISCONNECT reason codes. *)
Definition DiscNormalDisconnect : Z := 0x00.
Definition DiscCredentialExpired : Z := 0x01.
Definition DiscSessionTakenOver : Z := 0x02.
Definition DiscServerShutdown : Z := 0x03.
Definition DiscProtocolViolation : Z := 0x04.
Definition DiscKeepaliveTimeout : Z := 0x05.
Definition DiscKickedByAdmin : Z := 0x06.
Definition DiscRateLimited : Z := 0x07.
Definition DiscCredentialRejected : Z := 0x08.
Definition DiscUnknownError : Z := 0xFE.

(** ** Packet types *)

Record FixedHeader : Type := mkHeader {
  MessageType : Z;
  Flags : Z;
  RemainingLength : Z;
}.

Record ConnectPacket : Type := mkConnect {
  connect_header : FixedHeader;
  MagicNumber : Z;
  ProtocolVersion : Z;
  connect_Reserved : Z;
  Keepalive : Z;
  Credential : gostring;
}.

Record ConnackPacket : Type := mkConnack {
  connack_header : FixedHeader;
  ReturnCode : Z;
  ServerKeepalive : Z;
}.

Record DisconnectPacket : Type := mkDisconnect {
  disconnect_header : FixedHeader;
  returnCode : Z;
}.

Record PushPacket : Type := mkPush {
  push_header : FixedHeader;
  push_Reserved : Z;
  Payload : list Z;
}.

Record PingreqPacket : Type := mkPingreq { pingreq_header : FixedHeader }.

Record PingrespPacket : Type := mkPingresp { pingresp_header : FixedHeader }.

(** The dynamic types behind the ControlPacket interface. *)
Inductive ControlPacket : Type :=
| PConnect (p : ConnectPacket)
| PConnack (p : ConnackPacket)
| PDisconnect (p : DisconnectPacket)
| PPush (p : PushPacket)
| PPingreq (p : PingreqPacket)
| PPingresp (p : PingrespPacket).

#[global] Instance FixedHeader_eq_dec : EqDecision FixedHeader.
Proof. solve_decision. Defined.
#[global] Instance ConnectPacket_eq_dec : EqDecision ConnectPacket.
Proof. solve_decision. Defined.
#[global] Instance ConnackPacket_eq_dec : EqDecision ConnackPacket.
Proof. solve_decision. Defined.
#[global] Instance DisconnectPacket_eq_dec : EqDecision DisconnectPacket.
Proof. solve_decision. Defined.
#[global] Instance PushPacket_eq_dec : EqDecision PushPacket.
Proof. solve_decision. Defined.
#[global] Instance PingreqPacket_eq_dec : EqDecision PingreqPacket.
Proof. solve_decision. Defined.
#[global] Instance PingrespPacket_eq_dec : EqDecision PingrespPacket.
Proof. solve_decision. Defined.
#[global] Instance ControlPacket_eq_dec : EqDecision ControlPacket.
Proof. solve_decision. Defined.

(** ** Formatting of the codec's error texts: the verb [%x] on a byte *)

Definition hex_digit (d : Z) : string :=
  match d with
  | 0 => "0" | 1 => "1" | 2 => "2" | 3 => "3" | 4 => "4" | 5 => "5"
  | 6 => "6" | 7 => "7" | 8 => "8" | 9 => "9" | 10 => "a" | 11 => "b"
  | 12 => "c" | 13 => "d" | 14 => "e" | _ => "f"
  end%string.

Definition fmt_x (b : Z) : string :=
  if b <? 16 then hex_digit b
  else String.append (hex_digit (b / 16)) (hex_digit (b mod 16)).

Definition err_flags (flags : Z) : error :=
  Errorf (String.append "non-zero fixed header flags: 0x" (fmt_x flags)).

Definition err_unsupported (t : Z) : error :=
  Errorf (String.append "unsupported packet type 0x" (fmt_x t)).

(** ** Integer and field encoders *)

(** One iteration per base-128 digit, least significant first.  Go's [%] and
    [/] truncate towards zero. *)
Fixpoint encodeLength_loop (fuel : nat) (length : Z) : option (list Z) :=
  match fuel with
  | O => None
  | S fuel =>
      let digit := u8 (Z.rem length 128) in
      let length := Z.quot length 128 in
      let digit := if 0 <? length then Z.lor digit 0x80 else digit in
      if length =? 0 then Some [digit]
      else match encodeLength_loop fuel length with
           | Some rest => Some (digit :: rest)
           | None => None
           end
  end.

(** An [int] has at most nine base-128 digits, so ten rounds are enough. *)
Definition encodeLength (length : Z) : list Z :=
  match encodeLength_loop 10 length with
  | Some digits => digits
  | None => []
  end.

(** [binary.BigEndian.PutUint16], [PutUint32] and their inverses. *)
Definition encodeUint16 (num : Z) : list Z :=
  [u8 (Z.shiftr num 8); u8 num].

Definition encodeUint32 (num : Z) : list Z :=
  [u8 (Z.shiftr num 24); u8 (Z.shiftr num 16); u8 (Z.shiftr num 8); u8 num].

Definition BigEndian_Uint16 (b : list Z) : Z :=
  match b with
  | [b0; b1] => Z.lor b1 (Z.shiftl b0 8)
  | _ => 0
  end.

Definition BigEndian_Uint32 (b : list Z) : Z :=
  match b with
  | [b0; b1; b2; b3] =>
      Z.lor (Z.lor (Z.lor b3 (Z.shiftl b2 8)) (Z.shiftl b1 16)) (Z.shiftl b0 24)
  | _ => 0
  end.

Definition encodeBytes (field : list Z) : list Z :=
  encodeUint16 (u16 (Z.of_nat (length field))) ++ field.

Definition encodeString (field : gostring) : list Z := encodeBytes field.

(** [fh.pack()] *)
Definition pack (fh : FixedHeader) : list Z :=
  Z.lor (u8 (Z.shiftl (MessageType fh) 4)) 0x00 :: encodeLength (RemainingLength fh).

(** ** Integer and field decoders *)

Section decoders.
Context {R : Type} `{Reader R}.

Definition decodeByte : M R Z :=
  let! num := ReadFull 1 in mreturn (nth 0 num 0).

Definition decodeUint16 : M R Z :=
  let! num := ReadFull 2 in mreturn (BigEndian_Uint16 num).

Definition decodeUint32 : M R Z :=
  let! num := ReadFull 4 in mreturn (BigEndian_Uint32 num).

Definition decodeBytes : M R (list Z) :=
  let! fieldLength := decodeUint16 in
  ReadFull (Z.to_nat fieldLength).

Definition decodeString : M R gostring := decodeBytes.

(** [for multiplier < 27]: at most four rounds, since the multiplier grows by
    seven; the fuel is never used up. *)
Fixpoint decodeLength_loop (fuel : nat) (rLength multiplier : Z) : M R Z :=
  if multiplier <? 27 then
    match fuel with
    | O => fun r => (Diverge, r)
    | S fuel =>
        let! b := ReadFull 1 in
        let digit := nth 0 b 0 in
        let rLength := u32 (Z.lor rLength (u32 (Z.shiftl (Z.land digit 127) multiplier))) in
        if Z.land digit 128 =? 0 then mreturn rLength
        else decodeLength_loop fuel rLength (u32 (multiplier + 7))
    end
  else mreturn rLength.

Definition decodeLength : M R Z := decodeLength_loop 5 0 0.

(** [fh.unpack(typeAndFlags, r)] on the zero FixedHeader. *)
Definition unpack (typeAndFlags : Z) : M R FixedHeader :=
  let mt := Z.shiftr typeAndFlags 4 in
  let flags := Z.land typeAndFlags 0x0F in
  if negb (flags =? 0x00) then mthrow (err_flags flags) else
  let! n := decodeLength in
  mreturn (mkHeader mt flags n).

(** ** The Unpack methods *)

Definition ConnectPacket_Unpack (c : ConnectPacket) : M R ConnectPacket :=
  let! magic := decodeUint32 in
  let! version := decodeByte in
  let! reserved := decodeByte in
  let! keepalive := decodeUint16 in
  let! credential := decodeString in
  mreturn (mkConnect (connect_header c) magic version reserved keepalive credential).

Definition ConnackPacket_Unpack (ca : ConnackPacket) : M R ConnackPacket :=
  let! code := decodeByte in
  let! sk := decodeUint16 in
  mreturn (mkConnack (connack_header ca) code sk).

Definition DisconnectPacket_Unpack (d : DisconnectPacket) : M R DisconnectPacket :=
  let! b := ReadFull 1 in
  mreturn (mkDisconnect (disconnect_header d) (nth 0 b 0)).

(** The payload slice is allocated first and filled by a single Read, so what
    that Read does not deliver stays zero. *)
Definition PushPacket_Unpack (p : PushPacket) : M R PushPacket :=
  let! reserved := decodeByte in
  let payloadLength := RemainingLength (push_header p) - 1 in
  if payloadLength <? 0
  then mthrow (Errorf "error unpacking, payload length < 0") else
  fun r =>
    let n := Z.to_nat payloadLength in
    let '((bs, e), r') := Read n r in
    match e with
    | Some e => (Throw e, r')
    | None =>
        (Ret (mkPush (push_header p) reserved
                (bs ++ replicate (n - length bs) 0)), r')
    end.

Definition PingreqPacket_Unpack (p : PingreqPacket) : M R PingreqPacket := mreturn p.

Definition PingrespPacket_Unpack (p : PingrespPacket) : M R PingrespPacket := mreturn p.

(** Dynamic dispatch of [cp.Unpack]. *)
Definition Unpack (cp : ControlPacket) : M R ControlPacket :=
  match cp with
  | PConnect p => let! p := ConnectPacket_Unpack p in mreturn (PConnect p)
  | PConnack p => let! p := ConnackPacket_Unpack p in mreturn (PConnack p)
  | PDisconnect p => let! p := DisconnectPacket_Unpack p in mreturn (PDisconnect p)
  | PPush p => let! p := PushPacket_Unpack p in mreturn (PPush p)
  | PPingreq p => let! p := PingreqPacket_Unpack p in mreturn (PPingreq p)
  | PPingresp p => let! p := PingrespPacket_Unpack p in mreturn (PPingresp p)
  end.

End decoders.

(** An empty packet with the given header: the struct literals of
    NewControlPacket and NewControlPacketWithHeader. *)
Definition NewControlPacketWithHeader (fh : FixedHeader) : outcome ControlPacket :=
  let t := MessageType fh in
  if t =? Connect then Ret (PConnect (mkConnect fh 0 0 0 0 []))
  else if t =? Connack then Ret (PConnack (mkConnack fh 0 0))
  else if t =? Disconnect then Ret (PDisconnect (mkDisconnect fh 0))
  else if t =? Push then Ret (PPush (mkPush fh 0 []))
  else if t =? Pingreq then Ret (PPingreq (mkPingreq fh))
  else if t =? Pingresp then Ret (PPingresp (mkPingresp fh))
  else Throw (err_unsupported t).

Definition NewControlPacket (packetType : Z) : option ControlPacket :=
  let fh := mkHeader packetType 0 0 in
  if packetType =? Connect then Some (PConnect (mkConnect fh 0 0 0 0 []))
  else if packetType =? Connack then Some (PConnack (mkConnack fh 0 0))
  else if packetType =? Disconnect then Some (PDisconnect (mkDisconnect fh 0))
  else if packetType =? Push then Some (PPush (mkPush fh 0 []))
  else if packetType =? Pingreq then Some (PPingreq (mkPingreq fh))
  else if packetType =? Pingresp then Some (PPingresp (mkPingresp fh))
  else None.

(** A result of pure or buffer-local code, as a step of code on [R]. *)
Definition lift {R A} (o : outcome A) : M R A := fun r => (o, r).

(** [ReadPacket(r)].  The body is read in full first and then unpacked from a
    bytes.Buffer of its own, whatever the packet type leaves of it. *)
Definition ReadPacket {R} `{Reader R} : M R ControlPacket :=
  let! b := ReadFull 1 in
  let! fh := unpack (nth 0 b 0) in
  let! cp := lift (NewControlPacketWithHeader fh) in
  let! packetBytes := ReadFull (Z.to_nat (RemainingLength fh)) in
  if negb (Z.of_nat (length packetBytes) =? RemainingLength fh)
  then mthrow (Errorf "failed to read expected data") else
  lift (fst (Unpack cp (mkBuffer packetBytes))).

(** ** The Write methods

    Each returns the packet with the header it updated, and the error. *)

Definition set_length (fh : FixedHeader) (n : Z) : FixedHeader :=
  mkHeader (MessageType fh) (Flags fh) n.

Section encoders.
Context {W : Type} `{Writer W}.

Definition ConnectPacket_Write (c : ConnectPacket) (w : W)
  : (ConnectPacket * option error) * W :=
  let body := encodeUint32 (MagicNumber c) ++ [ProtocolVersion c] ++ [connect_Reserved c]
                ++ encodeUint16 (Keepalive c) ++ encodeString (Credential c) in
  let fh := set_length (connect_header c) (Z.of_nat (length body)) in
  let '(err, w') := WriteTo (mkBuffer (pack fh ++ body)) w in
  ((mkConnect fh (MagicNumber c) (ProtocolVersion c) (connect_Reserved c)
      (Keepalive c) (Credential c), err), w').

Definition ConnackPacket_Write (ca : ConnackPacket) (w : W)
  : (ConnackPacket * option error) * W :=
  let body := [ReturnCode ca] ++ encodeUint16 (ServerKeepalive ca) in
  let fh := set_length (connack_header ca) 3 in
  let '(err, w') := WriteTo (mkBuffer (pack fh ++ body)) w in
  ((mkConnack fh (ReturnCode ca) (ServerKeepalive ca), err), w').

Definition DisconnectPacket_Write (d : DisconnectPacket) (w : W)
  : (DisconnectPacket * option error) * W :=
  let body := [returnCode d] in
  let fh := set_length (disconnect_header d) 1 in
  let '(err, w') := WriteTo (mkBuffer (pack fh ++ body)) w in
  ((mkDisconnect fh (returnCode d), err), w').

(** The reserved byte on the wire is always zero, and the frame goes out
    through [w.Write] itself: a short count is not turned into an error. *)
Definition PushPacket_Write (p : PushPacket) (w : W)
  : (PushPacket * option error) * W :=
  let body := [0x00] in
  let fh := set_length (push_header p)
              (Z.of_nat (length body) + Z.of_nat (length (Payload p))) in
  let '((_, err), w') := Write (pack fh ++ body ++ Payload p) w in
  ((mkPush fh (push_Reserved p) (Payload p), err), w').

Definition PingreqPacket_Write (p : PingreqPacket) (w : W)
  : (PingreqPacket * option error) * W :=
  let '(err, w') := WriteTo (mkBuffer (pack (pingreq_header p))) w in
  ((p, err), w').

Definition PingrespPacket_Write (p : PingrespPacket) (w : W)
  : (PingrespPacket * option error) * W :=
  let '(err, w') := WriteTo (mkBuffer (pack (pingresp_header p))) w in
  ((p, err), w').

(** Dynamic dispatch of [cp.Write]. *)
Definition Packet_Write (cp : ControlPacket) (w : W)
  : (ControlPacket * option error) * W :=
  match cp with
  | PConnect p => let '((p, e), w') := ConnectPacket_Write p w in ((PConnect p, e), w')
  | PConnack p => let '((p, e), w') := ConnackPacket_Write p w in ((PConnack p, e), w')
  | PDisconnect p => let '((p, e), w') := DisconnectPacket_Write p w in ((PDisconnect p, e), w')
  | PPush p => let '((p, e), w') := PushPacket_Write p w in ((PPush p, e), w')
  | PPingreq p => let '((p, e), w') := PingreqPacket_Write p w in ((PPingreq p, e), w')
  | PPingresp p => let '((p, e), w') := PingrespPacket_Write p w in ((PPingresp p, e), w')
  end.

End encoders.

(** [GetReturnCode] and [SetReturnCode] of the DISCONNECT packet. *)
Definition GetReturnCode (d : DisconnectPacket) : Z := returnCode d.

Definition SetReturnCode (d : DisconnectPacket) (code : Z) : DisconnectPacket :=
  mkDisconnect (disconnect_header d) code.

(** The packets made by NewControlPacket and a type assertion, one per type used. *)
Definition new_packet (t : Z) : FixedHeader := mkHeader t 0 0.

Definition new_connack (code keepalive : Z) : ControlPacket :=
  PConnack (mkConnack (new_packet Connack) code keepalive).

Definition new_disconnect (reason : Z) : ControlPacket :=
  PDisconnect (SetReturnCode (mkDisconnect (new_packet Disconnect) 0) reason).

Definition new_push (payload : list Z) : ControlPacket :=
  PPush (mkPush (new_packet Push) 0 payload).

Definition new_pingresp : ControlPacket := PPingresp (mkPingresp (new_packet Pingresp)).

Definition new_pingreq : ControlPacket := PPingreq (mkPingreq (new_packet Pingreq)).
