(* ===== verification/CodecFacts.v ===== *)
(** * Correctness of package codec

    The remaining-length encoding and its decoder, the fixed-width fields, and
    on top of them the round trip of every control packet, framing, truncation
    and the classification of decode errors. *)

From Stdlib Require Import ZArith Lia String.
From stdpp Require Import base list strings gmap numbers.
From S2P Require Import Prelude GoIO Codec.

Local Open Scope Z_scope.
Local Open Scope go_scope.

(** ** Remaining length: encoder *)

Lemma encodeLength_loop_S fuel n l :
  encodeLength_loop fuel n = Some l -> encodeLength_loop (S fuel) n = Some l.
Proof.
  revert n l. induction fuel as [|fuel IH]; intros n l; [done|].
  cbn [encodeLength_loop]. intros Hl. case_match; [done|].
  destruct (encodeLength_loop fuel (n ÷ 128)) as [rest|] eqn:Hr; [|done].
  apply IH in Hr. cbn [encodeLength_loop] in Hr. by rewrite Hr.
Qed.

(** One base-128 digit of a non-negative length. *)
Lemma encodeLength_loop_step fuel n :
  0 <= n ->
  encodeLength_loop (S fuel) n =
    if n <? 128 then Some [n]
    else cons (128 + n mod 128) <$> encodeLength_loop fuel (n / 128).
Proof.
  intros Hn. cbn [encodeLength_loop].
  rewrite Z.quot_div_nonneg, Z.rem_mod_nonneg by lia.
  assert (Hm := Z.mod_pos_bound n 128 ltac:(lia)).
  assert (Hd := Z.div_mod n 128 ltac:(lia)).
  rewrite u8_small by lia.
  destruct (Z.ltb_spec n 128).
  - rewrite Z.div_small, Z.mod_small by lia. done.
  - assert (0 < n / 128) by lia.
    destruct (Z.ltb_spec 0 (n / 128)), (Z.eqb_spec (n / 128) 0); try lia.
    change (Z.lor (n mod 128) 128) with (Z.lor (n mod 128) (Z.shiftl 1 7)).
    rewrite lor_shiftl_add by lia.
    destruct (encodeLength_loop fuel (n / 128)); cbn; do 2 f_equal; lia.
Qed.

Lemma encodeLength_loop_total fuel n :
  0 <= n < 128 ^ Z.of_nat fuel -> (0 < fuel)%nat ->
  is_Some (encodeLength_loop fuel n).
Proof.
  revert n. induction fuel as [|fuel IH]; intros n Hn Hf; [lia|].
  rewrite encodeLength_loop_step by lia. destruct (Z.ltb_spec n 128); [done|].
  rewrite Nat2Z.inj_succ, Z.pow_succ_r in Hn by lia.
  destruct fuel as [|fuel]; [cbn in Hn; lia|].
  apply fmap_is_Some, IH; [|lia]. split; [apply Z.div_pos; lia|].
  apply Z.div_lt_upper_bound; lia.
Qed.

(** The defining equation of [encodeLength] on lengths an [int] can hold. *)
Lemma encodeLength_eq n :
  0 <= n < 2 ^ 63 ->
  encodeLength n = if n <? 128 then [n] else 128 + n mod 128 :: encodeLength (n / 128).
Proof.
  intros Hn. unfold encodeLength at 1. rewrite encodeLength_loop_step by lia.
  destruct (Z.ltb_spec n 128); [done|].
  assert (0 <= n / 128 < 128 ^ 9).
  { split; [apply Z.div_pos; lia|]. apply Z.div_lt_upper_bound; lia. }
  destruct (encodeLength_loop_total 9 (n / 128)) as [l Hl]; [done|lia|].
  rewrite Hl. cbn [fmap option_fmap option_map].
  unfold encodeLength. by rewrite (encodeLength_loop_S _ _ _ Hl).
Qed.

(** Induction along the digits of a length. *)
Lemma length_digits_ind (P : Z -> Prop) :
  (forall n, 0 <= n < 128 -> P n) ->
  (forall n, 128 <= n -> P (n / 128) -> P n) ->
  forall n, 0 <= n -> P n.
Proof.
  intros H0 HS. apply Zlt_0_ind. intros n IH Hn.
  destruct (Z.lt_ge_cases n 128); [by apply H0|].
  apply HS; [done|]. apply IH. split; [apply Z.div_pos; lia|apply Z.div_lt; lia].
Qed.

(** A length below [128^k] takes at most [k] bytes. *)
Lemma encodeLength_length (k : nat) n :
  0 <= n < 2 ^ 63 -> n < 128 ^ Z.of_nat k -> (0 < k)%nat ->
  (length (encodeLength n) <= k)%nat.
Proof.
  revert n. induction k as [|k IH]; intros n Hn Hk H0; [lia|].
  rewrite encodeLength_eq by done. destruct (Z.ltb_spec n 128); cbn [length]; [lia|].
  rewrite Nat2Z.inj_succ, Z.pow_succ_r in Hk by lia.
  destruct k as [|k]; [cbn in Hk; lia|]. apply le_n_S, IH; [| |lia].
  - split; [apply Z.div_pos; lia|]. apply Z.div_lt_upper_bound; lia.
  - apply Z.div_lt_upper_bound; lia.
Qed.

Lemma encodeLength_bytes n : 0 <= n < 2 ^ 63 -> bytes_ok (encodeLength n).
Proof.
  intros [Hn Hlt]. revert n Hn Hlt.
  apply (length_digits_ind (fun n => n < 2 ^ 63 -> bytes_ok (encodeLength n)));
    intros n Hn; [|intros IH]; intros Hlt; rewrite encodeLength_eq by lia.
  - rewrite (proj2 (Z.ltb_lt _ _)) by lia. repeat constructor; lia.
  - rewrite (proj2 (Z.ltb_ge _ _)) by lia.
    assert (Hm := Z.mod_pos_bound n 128 ltac:(lia)).
    constructor; [unfold byte_ok; lia|]. apply IH.
    apply Z.div_lt_upper_bound; lia.
Qed.

(** ** Remaining length: decoder *)

Section length_decoder.
Context {R : Type} `{Stream R}.

Lemma reads_single {A} (k : list Z -> M R A) b bs a :
  reads (k [b]) bs a -> reads (mthen (ReadFull 1) k) (b :: bs) a.
Proof. intros Hk. apply (reads_then _ _ [b] bs [b]); auto with rmtt. Qed.

(** The payload bits and the continuation bit of a length digit. *)
Lemma digit_last n : 0 <= n < 128 -> Z.land n 127 = n /\ Z.land n 128 = 0.
Proof.
  intros. change 127 with (Z.ones 7). rewrite Z.land_ones, Z.mod_small by lia.
  split; [done|]. pose proof (Z.add_lor_land n (Z.shiftl 1 7)) as Ha.
  rewrite lor_shiftl_add in Ha by lia. change (Z.shiftl 1 7) with 128 in Ha. lia.
Qed.

Lemma digit_more d : 0 <= d < 128 -> Z.land (128 + d) 127 = d /\ Z.land (128 + d) 128 <> 0.
Proof.
  intros. replace (128 + d) with (Z.lor d (Z.shiftl 1 7))
    by (rewrite lor_shiftl_add; lia).
  destruct (digit_last d) as [Hl Hh]; [done|].
  rewrite !Z.land_lor_distr_l, Hl, Hh. change (Z.land (Z.shiftl 1 7) 127) with 0.
  change (Z.land (Z.shiftl 1 7) 128) with 128. rewrite Z.lor_0_r, Z.lor_0_l. lia.
Qed.

Lemma decodeLength_acc acc d mult :
  0 <= mult <= 21 -> 0 <= acc < 2 ^ mult -> 0 <= d < 128 ->
  u32 (Z.lor acc (u32 (Z.shiftl d mult))) = acc + d * 2 ^ mult /\
  acc + d * 2 ^ mult < 2 ^ (mult + 7).
Proof.
  intros Hm Ha Hd. assert (0 < 2 ^ mult) by lia.
  assert (2 ^ (mult + 7) <= 2 ^ 28) by (apply Z.pow_le_mono_r; lia).
  rewrite Z.pow_add_r in * by lia. change (2 ^ 7) with 128 in *.
  assert (d * 2 ^ mult <= 127 * 2 ^ mult) by nia.
  rewrite (u32_small (Z.shiftl _ _)) by (rewrite Z.shiftl_mul_pow2 by lia; lia).
  rewrite lor_shiftl_add by lia. rewrite u32_small by lia. lia.
Qed.

(** Round [4 - k] of the loop, with the low digits already accumulated. *)
Lemma decodeLength_loop_reads (k fuel : nat) acc n :
  (k <= 4)%nat -> (k <= fuel)%nat -> 0 <= acc < 2 ^ (28 - 7 * Z.of_nat k) ->
  0 <= n < 2 ^ 63 ->
  reads (R := R) (decodeLength_loop fuel acc (28 - 7 * Z.of_nat k))
    (take k (encodeLength n))
    (acc + (n mod 2 ^ (7 * Z.of_nat k)) * 2 ^ (28 - 7 * Z.of_nat k)).
Proof.
  revert fuel acc n. induction k as [|k IH]; intros fuel acc n Hk Hf Ha Hn.
  { rewrite Z.mod_1_r, Z.mul_0_l, Z.add_0_r. destruct fuel; apply reads_return. }
  destruct fuel as [|fuel]; [lia|]. cbn [decodeLength_loop].
  set (mult := 28 - 7 * Z.of_nat (S k)) in *.
  assert (Hmult : 28 - 7 * Z.of_nat k = mult + 7) by lia.
  rewrite (proj2 (Z.ltb_lt mult 27)) by lia.
  assert (Hpow : 2 ^ (7 * Z.of_nat (S k)) = 128 * 2 ^ (7 * Z.of_nat k)).
  { rewrite <- (Z.pow_add_r 2 7) by lia. f_equal. lia. }
  rewrite encodeLength_eq by done. destruct (Z.ltb_spec n 128); cbn [take].
  - rewrite take_nil. apply reads_single. cbn [nth].
    destruct (digit_last n) as [-> ->]; [lia|]. cbn [Z.eqb].
    destruct (decodeLength_acc acc n mult) as [-> _]; [lia..|].
    rewrite Z.mod_small by nia. apply reads_return.
  - apply reads_single. cbn [nth].
    assert (Hm := Z.mod_pos_bound n 128 ltac:(lia)).
    destruct (digit_more (n mod 128)) as [-> Hc]; [done|].
    rewrite (proj2 (Z.eqb_neq _ _) Hc).
    destruct (decodeLength_acc acc (n mod 128) mult) as [-> Hb]; [lia..|].
    rewrite (u32_small (mult + 7)) by lia. rewrite <- Hmult.
    rewrite Hpow, Z.rem_mul_r by lia.
    replace (acc + (n mod 128 + _) * _) with (acc + n mod 128 * 2 ^ mult
      + (n / 128) mod 2 ^ (7 * Z.of_nat k) * 2 ^ (28 - 7 * Z.of_nat k))
      by (rewrite Hmult, (Z.pow_add_r 2 mult 7) by lia; change (2 ^ 7) with 128; ring).
    apply IH; [lia|lia| |].
    + rewrite Hmult. split; [|done]. nia.
    + split; [apply Z.div_pos; lia|]. apply Z.div_lt_upper_bound; lia.
Qed.

(** What the decoder makes of an encoded length: the low 28 bits, after at
    most four bytes. *)
Lemma decodeLength_reads n :
  0 <= n < 2 ^ 63 ->
  reads (R := R) decodeLength (take 4 (encodeLength n)) (n mod 2 ^ 28).
Proof.
  intros Hn. pose proof (decodeLength_loop_reads 4 5 0 n) as Hr.
  cbn [Z.of_nat] in Hr. change (28 - 7 * 4) with 0 in Hr. change (7 * 4) with 28 in Hr.
  rewrite Z.pow_0_r, Z.mul_1_r, Z.add_0_l in Hr. apply Hr; lia.
Qed.

Lemma decodeLength_reads_small n :
  0 <= n < 2 ^ 28 -> reads (R := R) decodeLength (encodeLength n) n.
Proof.
  intros Hn. pose proof (decodeLength_reads n) as Hr.
  rewrite Z.mod_small, take_ge in Hr; [apply Hr; lia|apply encodeLength_length; lia|lia].
Qed.

End length_decoder.

(** ** Fixed-width fields *)

Lemma Uint16_encode n : 0 <= n < 65536 -> BigEndian_Uint16 (encodeUint16 n) = n.
Proof.
  intros Hn. unfold BigEndian_Uint16, encodeUint16.
  rewrite lor_shiftl_add by (pose proof (u8_ok n); unfold byte_ok in *; lia).
  rewrite Z.shiftr_div_pow2 by lia. wrap_lia.
Qed.

Lemma Uint32_encode n : 0 <= n < 2 ^ 32 -> BigEndian_Uint32 (encodeUint32 n) = n.
Proof.
  intros Hn. unfold BigEndian_Uint32, encodeUint32.
  pose proof (u8_ok n). pose proof (u8_ok (Z.shiftr n 8)).
  pose proof (u8_ok (Z.shiftr n 16)). unfold byte_ok in *.
  rewrite (lor_shiftl_add _ _ 8), (lor_shiftl_add _ _ 16), (lor_shiftl_add _ _ 24) by lia.
  rewrite !Z.shiftr_div_pow2 by lia. wrap_lia.
Qed.

Section fields.
Context {R : Type} `{Stream R}.

Lemma decodeByte_reads b : reads (R := R) decodeByte [b] b.
Proof. apply reads_single, reads_return. Qed.

Lemma decodeUint16_reads n :
  0 <= n < 65536 -> reads (R := R) decodeUint16 (encodeUint16 n) n.
Proof.
  intros Hn. rewrite <- (Uint16_encode n Hn) at 2.
  by apply (reads_map _ BigEndian_Uint16), reads_ReadFull.
Qed.

Lemma decodeUint32_reads n :
  0 <= n < 2 ^ 32 -> reads (R := R) decodeUint32 (encodeUint32 n) n.
Proof.
  intros Hn. rewrite <- (Uint32_encode n Hn) at 2.
  by apply (reads_map _ BigEndian_Uint32), reads_ReadFull.
Qed.

(** A string field decodes to the prefix its 16-bit length announces. *)
Lemma decodeString_reads s :
  let n := Z.to_nat (u16 (Z.of_nat (length s))) in
  reads (R := R) decodeString (encodeUint16 (u16 (Z.of_nat (length s))) ++ take n s)
    (take n s).
Proof.
  intros n. pose proof (u16_range (Z.of_nat (length s))) as Hr.
  eapply reads_then; [apply decodeUint16_reads; done|].
  apply reads_ReadFull. rewrite length_take. unfold n.
  apply Nat.min_l. wrap_lia.
Qed.

End fields.

(** ** Frames *)

(** The bytes a packet puts on the wire: header, then variable header and
    payload. *)
Definition frame (cp : ControlPacket) : list Z :=
  match cp with
  | PConnect p =>
      pack (set_length (connect_header p) (10 + Z.of_nat (length (Credential p)))) ++
      encodeUint32 (MagicNumber p) ++ [ProtocolVersion p; connect_Reserved p] ++
      encodeUint16 (Keepalive p) ++
      encodeUint16 (u16 (Z.of_nat (length (Credential p)))) ++ Credential p
  | PConnack p =>
      pack (set_length (connack_header p) 3) ++
      ReturnCode p :: encodeUint16 (ServerKeepalive p)
  | PDisconnect p => pack (set_length (disconnect_header p) 1) ++ [returnCode p]
  | PPush p =>
      pack (set_length (push_header p) (1 + Z.of_nat (length (Payload p)))) ++
      0 :: Payload p
  | PPingreq p => pack (pingreq_header p)
  | PPingresp p => pack (pingresp_header p)
  end.

(** Packets whose header type is that of their Go type and whose fields are in
    the range of their Go types; the two sizes are what the wire format can
    carry. *)
Definition packet_ok (cp : ControlPacket) : Prop :=
  match cp with
  | PConnect p => MessageType (connect_header p) = Connect /\
      0 <= MagicNumber p < 2 ^ 32 /\ byte_ok (ProtocolVersion p) /\
      byte_ok (connect_Reserved p) /\ 0 <= Keepalive p < 65536 /\
      Z.of_nat (length (Credential p)) < 65536
  | PConnack p => MessageType (connack_header p) = Connack /\
      byte_ok (ReturnCode p) /\ 0 <= ServerKeepalive p < 65536
  | PDisconnect p => MessageType (disconnect_header p) = Disconnect /\ byte_ok (returnCode p)
  | PPush p => MessageType (push_header p) = Push /\
      Z.of_nat (length (Payload p)) < 2 ^ 28 - 1
  | PPingreq p => MessageType (pingreq_header p) = Pingreq /\
      RemainingLength (pingreq_header p) = 0
  | PPingresp p => MessageType (pingresp_header p) = Pingresp /\
      RemainingLength (pingresp_header p) = 0
  end.

(** What the peer reconstructs: the header as received, and for PUSH the
    reserved byte that was actually sent. *)
Definition received (cp : ControlPacket) : ControlPacket :=
  match cp with
  | PConnect p => PConnect (mkConnect
      (mkHeader Connect 0 (10 + Z.of_nat (length (Credential p))))
      (MagicNumber p) (ProtocolVersion p) (connect_Reserved p) (Keepalive p) (Credential p))
  | PConnack p => PConnack (mkConnack (mkHeader Connack 0 3) (ReturnCode p) (ServerKeepalive p))
  | PDisconnect p => PDisconnect (mkDisconnect (mkHeader Disconnect 0 1) (returnCode p))
  | PPush p => PPush (mkPush
      (mkHeader Push 0 (1 + Z.of_nat (length (Payload p)))) 0 (Payload p))
  | PPingreq _ => PPingreq (mkPingreq (mkHeader Pingreq 0 0))
  | PPingresp _ => PPingresp (mkPingresp (mkHeader Pingresp 0 0))
  end.

(** Every Write method hands the whole frame to the writer in one call; PUSH
    reports the writer's error as it is, the others also report a short count. *)
Definition is_push (cp : ControlPacket) : bool :=
  match cp with PPush _ => true | _ => false end.

Definition write_result (cp : ControlPacket) (m : Z) (e : option error) : option error :=
  match e with
  | Some e => Some e
  | None => if is_push cp || (m =? Z.of_nat (length (frame cp))) then None
            else Some io_ErrShortWrite
  end.

Lemma WriteTo_frame {W} `{Writer W} b bs (w : W) :
  WriteTo (mkBuffer (b :: bs)) w =
    let '((m, e), w') := Write (b :: bs) w in
    (match e with
     | Some e => Some e
     | None => if m =? Z.of_nat (length (b :: bs)) then None else Some io_ErrShortWrite
     end, w').
Proof. unfold WriteTo. cbn [buf]. destruct (Write _ w) as [[m [e|]] w']; [done|]. by case_match. Qed.

Lemma Packet_Write_one {W} `{Writer W} cp (w : W) :
  exists cp', Packet_Write cp w =
    let '((m, e), w') := Write (frame cp) w in ((cp', write_result cp m e), w').
Proof.
  unfold write_result. destruct cp as [p|p|p|p|p|p]; cbn [Packet_Write frame is_push orb];
    unfold ConnectPacket_Write, ConnackPacket_Write, DisconnectPacket_Write,
      PushPacket_Write, PingreqPacket_Write, PingrespPacket_Write, encodeString, encodeBytes, pack.
  4: { eexists (PPush _). cbn [app]. destruct (Write _ w) as [[m [e|]] w']; done. }
  all: cbn [app]; rewrite WriteTo_frame.
  2-5: by eexists; destruct (Write _ w) as [[m e] w'].
  assert (Hlen : RemainingLength (set_length (connect_header p) (Z.of_nat (length
    (encodeUint32 (MagicNumber p) ++ ProtocolVersion p :: connect_Reserved p ::
     encodeUint16 (Keepalive p) ++ encodeUint16 (u16 (Z.of_nat (length (Credential p)))) ++
     Credential p)))) = 10 + Z.of_nat (length (Credential p))).
  { unfold encodeUint32, encodeUint16. cbn [app RemainingLength set_length length]. lia. }
  rewrite Hlen. eexists. by destruct (Write _ w) as [[m e] w'].
Qed.

(** On a writer that accepts everything the frame is appended, without error. *)
Lemma Packet_Write_frame {W} `{Reliable W} cp (w : W) :
  exists cp' w', Packet_Write cp w = ((cp', None), w') /\
    written w' = written w ++ frame cp.
Proof.
  destruct (Packet_Write_one cp w) as [cp' ->].
  destruct (Write_spec (frame cp) w) as (w' & -> & Hw). exists cp', w'.
  unfold write_result. rewrite Z.eqb_refl, orb_true_r. done.
Qed.

(** ** Decoding a frame *)

Section read_packet.
Context {R : Type} `{Stream R}.

Lemma type_byte t : 0 <= t < 16 ->
  Z.shiftr (Z.lor (u8 (Z.shiftl t 4)) 0) 4 = t /\
  Z.land (Z.lor (u8 (Z.shiftl t 4)) 0) 15 = 0.
Proof.
  intros Ht. rewrite Z.lor_0_r, Z.shiftl_mul_pow2 by lia. rewrite u8_small by lia.
  rewrite Z.shiftr_div_pow2 by lia. change 15 with (Z.ones 4).
  rewrite Z.land_ones by lia. split; Z.to_euclidean_division_equations; lia.
Qed.

(** The header of a frame whose length the decoder can represent. *)
Lemma unpack_reads t n : 0 <= t < 16 -> 0 <= n < 2 ^ 28 ->
  reads (R := R) (unpack (Z.lor (u8 (Z.shiftl t 4)) 0)) (encodeLength n) (mkHeader t 0 n).
Proof.
  intros Ht Hn. unfold unpack. destruct (type_byte t Ht) as [-> ->]. cbn [Z.eqb negb].
  apply (reads_map _ (mkHeader t 0)), decodeLength_reads_small, Hn.
Qed.

(** A frame is decoded by unpacking its body from a buffer of its own. *)
Lemma ReadPacket_reads fh (body : list Z) cp0 cp b :
  0 <= MessageType fh < 16 -> RemainingLength fh = Z.of_nat (length body) ->
  Z.of_nat (length body) < 2 ^ 28 ->
  NewControlPacketWithHeader (mkHeader (MessageType fh) 0 (RemainingLength fh)) = Ret cp0 ->
  Unpack cp0 (mkBuffer body) = (Ret cp, b) ->
  reads (R := R) ReadPacket (pack fh ++ body) cp.
Proof.
  intros Ht Hn Hb Hnew Hun. unfold ReadPacket, pack. cbn [app].
  apply reads_single. cbn [nth].
  eapply reads_then; [apply unpack_reads; [done|lia]|]. cbn [RemainingLength].
  unfold lift at 1. rewrite Hnew. rewrite <- (app_nil_r body).
  assert (Hl : forall bs (k : ControlPacket -> M R ControlPacket) a,
    reads (k cp0) bs a -> reads (mthen (fun r => (Ret cp0, r)) k) bs a) by (by intros).
  apply Hl. eapply reads_then; [apply reads_ReadFull; lia|].
  rewrite Hn, Z.eqb_refl, Hun. apply reads_return.
Qed.

(** Unpack may leave a rest of its buffer unread. *)
Lemma Unpack_buffer {A} (m : M Buffer A) bs rest a :
  reads m bs a -> exists b, m (mkBuffer (bs ++ rest)) = (Ret a, b).
Proof. intros Hm. destruct (Hm (mkBuffer (bs ++ rest)) rest) as (b & Hb & _); eauto. Qed.

Lemma ConnectPacket_Unpack_reads c m v r k s :
  0 <= m < 2 ^ 32 -> 0 <= k < 65536 ->
  let n := Z.to_nat (u16 (Z.of_nat (length s))) in
  reads (R := R) (ConnectPacket_Unpack c)
    (encodeUint32 m ++ [v] ++ [r] ++ encodeUint16 k ++
     encodeUint16 (u16 (Z.of_nat (length s))) ++ take n s)
    (mkConnect (connect_header c) m v r k (take n s)).
Proof.
  intros Hm Hk n. unfold ConnectPacket_Unpack.
  eapply reads_then; [by apply decodeUint32_reads|].
  eapply reads_then; [apply decodeByte_reads|].
  eapply reads_then; [apply decodeByte_reads|].
  eapply reads_then; [by apply decodeUint16_reads|].
  apply (reads_map _ (mkConnect _ _ _ _ _)), decodeString_reads.
Qed.

Lemma ConnackPacket_Unpack_reads c code kp :
  0 <= kp < 65536 ->
  reads (R := R) (ConnackPacket_Unpack c) (code :: encodeUint16 kp)
    (mkConnack (connack_header c) code kp).
Proof.
  intros Hk. change (code :: encodeUint16 kp) with ([code] ++ encodeUint16 kp).
  eapply reads_then; [apply decodeByte_reads|].
  by apply (reads_map _ (mkConnack _ _)), decodeUint16_reads.
Qed.

End read_packet.

(** A PUSH body: the reserved byte and a payload of the announced size. *)
Lemma PushPacket_Unpack_buffer fh r payload :
  RemainingLength fh = 1 + Z.of_nat (length payload) ->
  exists b, PushPacket_Unpack (mkPush fh 0 []) (mkBuffer (r :: payload)) =
    (Ret (mkPush fh r payload), b).
Proof.
  intros Hn. unfold PushPacket_Unpack, mthen.
  destruct (decodeByte_reads r (mkBuffer (r :: payload)) payload) as (b & -> & Hp & _);
    [done|].
  cbn [push_header]. rewrite Hn.
  rewrite (proj2 (Z.ltb_ge _ 0)) by lia.
  replace (Z.to_nat _) with (length payload) by lia.
  destruct b as [bs]; cbn in Hp; subst bs. unfold Read, Buffer_reader. cbn [buf].
  destruct payload as [|x xs]; [by eexists|].
  rewrite firstn_all, Nat.sub_diag. cbn [replicate]. rewrite app_nil_r. by eexists.
Qed.

(** CONNECT frames, whatever the credential's length: the peer sees as much of
    the credential as the 16-bit length field says. *)
Lemma Connect_frame_reads {R} `{Stream R} p :
  MessageType (connect_header p) = Connect ->
  0 <= MagicNumber p < 2 ^ 32 -> 0 <= Keepalive p < 65536 ->
  Z.of_nat (length (Credential p)) < 2 ^ 28 - 10 ->
  reads (R := R) ReadPacket (frame (PConnect p))
    (PConnect (mkConnect (mkHeader Connect 0 (10 + Z.of_nat (length (Credential p))))
      (MagicNumber p) (ProtocolVersion p) (connect_Reserved p) (Keepalive p)
      (take (Z.to_nat (u16 (Z.of_nat (length (Credential p))))) (Credential p)))).
Proof.
  intros Ht Hm Hk Hc. cbn [frame].
  set (fh := mkHeader Connect 0 (10 + Z.of_nat (length (Credential p)))).
  set (n := Z.to_nat (u16 (Z.of_nat (length (Credential p))))).
  destruct (Unpack_buffer _ _ (drop n (Credential p)) _
    (ConnectPacket_Unpack_reads (R := Buffer) (mkConnect fh 0 0 0 0 []) (MagicNumber p)
      (ProtocolVersion p) (connect_Reserved p) (Keepalive p) (Credential p) Hm Hk)) as [b Hb].
  fold n in Hb. rewrite <- !app_assoc, (take_drop n) in Hb.
  eapply ReadPacket_reads; cbn [set_length MessageType RemainingLength]; rewrite ?Ht.
  - done.
  - unfold encodeUint32, encodeUint16. cbn [length app]. lia.
  - unfold encodeUint32, encodeUint16. cbn [length app]. lia.
  - done.
  - cbn [Unpack]. unfold mthen. cbn [app] in Hb |- *. subst fh. by rewrite Hb.
Qed.

Lemma received_reads {R} `{Stream R} cp :
  packet_ok cp -> reads (R := R) ReadPacket (frame cp) (received cp).
Proof.
  destruct cp as [p|p|p|p|p|p]; cbn [packet_ok frame received].
  - intros (Ht & Hm & _ & _ & Hk & Hc).
    pose proof (Connect_frame_reads (R := R) p Ht Hm Hk ltac:(lia)) as Hr.
    by rewrite u16_small, Nat2Z.id, firstn_all in Hr by lia.
  - intros (Ht & _ & Hk).
    destruct (Unpack_buffer _ _ [] _ (ConnackPacket_Unpack_reads (R := Buffer)
      (mkConnack (mkHeader Connack 0 3) 0 0) (ReturnCode p) _ Hk)) as [b Hb].
    rewrite app_nil_r in Hb.
    eapply ReadPacket_reads; cbn [set_length MessageType RemainingLength]; rewrite ?Ht; try done.
    cbn [Unpack]. unfold mthen. by rewrite Hb.
  - intros (Ht & _).
    by eapply ReadPacket_reads; cbn [set_length MessageType RemainingLength]; rewrite ?Ht.
  - intros (Ht & Hl).
    destruct (PushPacket_Unpack_buffer (mkHeader Push 0 (1 + Z.of_nat (length (Payload p))))
      0 (Payload p)) as [b Hb]; [done|].
    eapply ReadPacket_reads; cbn [set_length MessageType RemainingLength length];
      rewrite ?Ht; [done|lia|lia|done|].
    cbn [Unpack]. unfold mthen. by rewrite Hb.
  - intros (Ht & Hl). rewrite <- (app_nil_r (pack _)).
    by eapply ReadPacket_reads; rewrite ?Ht, ?Hl.
  - intros (Ht & Hl). rewrite <- (app_nil_r (pack _)).
    by eapply ReadPacket_reads; rewrite ?Ht, ?Hl.
Qed.

(** ** Decoding arbitrary input *)

Lemma decodeByte_parser E : parser decodeByte (fun b c => c = [b]) E.
Proof.
  eapply parser_then; [apply parser_ReadFull|]. intros a c1 [-> Hl].
  apply parser_return. destruct c1 as [|x []]; by cbn in Hl.
Qed.

Lemma land_127_range d : 0 <= Z.land d 127 < 128.
Proof.
  change 127 with (Z.ones 7). rewrite Z.land_ones by lia.
  apply Z.mod_pos_bound. lia.
Qed.

(** From round [4 - k] on, the loop reads between one and [k] more bytes and
    stays below [2^28]. *)
Lemma decodeLength_loop_parser (k fuel : nat) acc E :
  (k <= 4)%nat -> (k <= fuel)%nat -> 0 <= acc < 2 ^ (28 - 7 * Z.of_nat k) ->
  parser (decodeLength_loop fuel acc (28 - 7 * Z.of_nat k))
    (fun n c => 0 <= n < 2 ^ 28 /\ (k `min` 1 <= length c <= k)%nat) E.
Proof.
  revert fuel acc. induction k as [|k IH]; intros fuel acc Hk Hf Ha.
  { destruct fuel; apply parser_return; cbn in *; lia. }
  destruct fuel as [|fuel]; [lia|]. cbn [decodeLength_loop].
  set (mult := 28 - 7 * Z.of_nat (S k)) in *.
  assert (Hmult : mult + 7 = 28 - 7 * Z.of_nat k) by lia.
  rewrite (proj2 (Z.ltb_lt mult 27)) by lia.
  eapply parser_then; [apply parser_ReadFull|]. intros b c1 [-> Hl].
  pose proof (land_127_range (nth 0 c1 0)) as Hd.
  destruct (decodeLength_acc acc (Z.land (nth 0 c1 0) 127) mult) as [-> Hb]; [lia..|].
  assert (2 ^ (mult + 7) <= 2 ^ 28) by (apply Z.pow_le_mono_r; lia).
  assert (0 <= Z.land (nth 0 c1 0) 127 * 2 ^ mult) by (apply Z.mul_nonneg_nonneg; lia).
  destruct (_ =? 0).
  - apply parser_return. rewrite app_nil_r, Hl. lia.
  - rewrite (u32_small (mult + 7)), Hmult by lia. rewrite Hmult in Hb.
    eapply parser_weaken; [apply IH; lia| |done].
    intros n c [? ?]. rewrite length_app, Hl. split; [done|lia].
Qed.

Lemma decodeLength_parser E :
  parser decodeLength (fun n c => 0 <= n < 2 ^ 28 /\ (1 <= length c <= 4)%nat) E.
Proof. apply (decodeLength_loop_parser 4 5 0); cbn; lia. Qed.

(** The header of a decoded packet. *)
Definition header (cp : ControlPacket) : FixedHeader :=
  match cp with
  | PConnect p => connect_header p
  | PConnack p => connack_header p
  | PDisconnect p => disconnect_header p
  | PPush p => push_header p
  | PPingreq p => pingreq_header p
  | PPingresp p => pingresp_header p
  end.

(** The packet types [NewControlPacketWithHeader] accepts. *)
Definition known_type (t : Z) : bool :=
  bool_decide (t ∈ [Connect; Connack; Disconnect; Push; Pingreq; Pingresp]).

Lemma New_cases fh :
  (known_type (MessageType fh) = true /\
     exists cp, NewControlPacketWithHeader fh = Ret cp /\ header cp = fh) \/
  (known_type (MessageType fh) = false /\
     NewControlPacketWithHeader fh = Throw (err_unsupported (MessageType fh))).
Proof.
  unfold NewControlPacketWithHeader, known_type. cbn zeta.
  repeat match goal with
  | |- context [?a =? ?b] => destruct (Z.eqb_spec a b) as [->|?]
  end; try (left; split; [done|by eexists]).
  right. split; [|done]. apply bool_decide_eq_false. set_solver.
Qed.

(** Errors that unpacking a complete body can report. *)
Definition unpack_error (x : error) : Prop :=
  x = io_EOF \/ x = io_ErrUnexpectedEOF \/
  x = Errorf "error unpacking, payload length < 0".

Lemma decodeUint16_parser E : parser decodeUint16 (fun _ _ => True) E.
Proof.
  eapply parser_then; [apply parser_ReadFull|]. intros a c1 _. by apply parser_return.
Qed.

Lemma decodeString_parser E : parser decodeString (fun _ _ => True) E.
Proof.
  eapply parser_then; [apply decodeUint16_parser|]. intros a c1 _.
  eapply parser_weaken; [apply parser_ReadFull|done..].
Qed.

(** A buffer is a stream ending in io.EOF, so a decoder run on it fails only
    the way the byte sequence makes it fail. *)
Lemma parser_on_buffer {A} (m : M Buffer A) (m' : M flat A) P bs :
  sim m m' -> parser m' P (fun _ => False) ->
  match fst (m (mkBuffer bs)) with
  | Ret a => exists c, P a c
  | Throw x => unpack_error x
  | Diverge => False
  end.
Proof.
  intros Hs Hp. specialize (Hs (mkBuffer bs)). cbn in Hs.
  destruct (Hp bs io_EOF) as (o & rest & Ho & Hc).
  change (flatten (mkBuffer bs)) with (Flat bs io_EOF) in Hs. rewrite Ho in Hs.
  destruct (m (mkBuffer bs)) as [o' b]. simplify_eq/=. unfold unpack_error.
  destruct o' as [a|x|]; [naive_solver| |done].
  destruct Hc as [[_ [->|[_ ->]]]|[[] _]]; auto.
Qed.

(** Decoders built from ReadFull do not see how the stream is fragmented. *)
Section decoder_sims.
Context {R : Type} `{Stream R}.

Lemma decodeByte_sim : sim (R := R) decodeByte decodeByte.
Proof. unfold decodeByte. auto with rmtt. Qed.

Lemma decodeUint16_sim : sim (R := R) decodeUint16 decodeUint16.
Proof. unfold decodeUint16. auto with rmtt. Qed.

Lemma decodeUint32_sim : sim (R := R) decodeUint32 decodeUint32.
Proof. unfold decodeUint32. auto with rmtt. Qed.

Lemma decodeString_sim : sim (R := R) decodeString decodeString.
Proof. unfold decodeString, decodeBytes. auto using decodeUint16_sim with rmtt. Qed.

Lemma decodeLength_loop_sim fuel acc mult :
  sim (R := R) (decodeLength_loop fuel acc mult) (decodeLength_loop fuel acc mult).
Proof.
  revert acc mult. induction fuel as [|fuel IH]; intros acc mult; cbn [decodeLength_loop].
  - by destruct (mult <? 27).
  - apply sim_if; auto with rmtt.
Qed.

Lemma unpack_sim b : sim (R := R) (unpack b) (unpack b).
Proof.
  unfold unpack, decodeLength. apply sim_if; auto using decodeLength_loop_sim with rmtt.
Qed.

Lemma lift_sim {A} (o : outcome A) : sim (R := R) (lift o) (lift o).
Proof. done. Qed.

Lemma ReadPacket_sim : sim (R := R) ReadPacket ReadPacket.
Proof.
  unfold ReadPacket.
  apply sim_then; [apply sim_ReadFull|intros b].
  apply sim_then; [apply unpack_sim|intros fh].
  apply sim_then; [apply lift_sim|intros cp].
  apply sim_then; [apply sim_ReadFull|intros bs].
  apply sim_if; [apply sim_throw|apply lift_sim].
Qed.

Lemma ConnectPacket_Unpack_sim c :
  sim (R := R) (ConnectPacket_Unpack c) (ConnectPacket_Unpack c).
Proof.
  unfold ConnectPacket_Unpack.
  repeat (apply sim_then; [|intros ?]); auto using decodeByte_sim, decodeUint16_sim,
    decodeUint32_sim, decodeString_sim with rmtt.
Qed.

Lemma ConnackPacket_Unpack_sim c :
  sim (R := R) (ConnackPacket_Unpack c) (ConnackPacket_Unpack c).
Proof.
  unfold ConnackPacket_Unpack. auto using decodeByte_sim, decodeUint16_sim with rmtt.
Qed.

Lemma DisconnectPacket_Unpack_sim d :
  sim (R := R) (DisconnectPacket_Unpack d) (DisconnectPacket_Unpack d).
Proof. unfold DisconnectPacket_Unpack. auto with rmtt. Qed.

End decoder_sims.

Lemma ConnectPacket_Unpack_parser c E :
  parser (ConnectPacket_Unpack c) (fun p _ => connect_header p = connect_header c) E.
Proof.
  unfold ConnectPacket_Unpack.
  eapply (parser_then _ _ (fun _ _ => True)).
  { eapply parser_then; [apply parser_ReadFull|]. intros a c1 _. by apply parser_return. }
  intros m c1 _. eapply parser_then; [apply decodeByte_parser|].
  intros v c2 _. eapply parser_then; [apply decodeByte_parser|].
  intros r c3 _. eapply parser_then; [apply decodeUint16_parser|].
  intros k c4 _. eapply parser_then; [apply decodeString_parser|].
  intros s c5 _. by apply parser_return.
Qed.

Lemma ConnackPacket_Unpack_parser ca E :
  parser (ConnackPacket_Unpack ca) (fun p _ => connack_header p = connack_header ca) E.
Proof.
  eapply parser_then; [apply decodeByte_parser|]. intros v c2 _.
  eapply parser_then; [apply decodeUint16_parser|]. intros k c4 _.
  by apply parser_return.
Qed.

Lemma DisconnectPacket_Unpack_parser d E :
  parser (DisconnectPacket_Unpack d) (fun p _ => disconnect_header p = disconnect_header d) E.
Proof.
  eapply parser_then; [apply parser_ReadFull|]. intros v c2 _. by apply parser_return.
Qed.

Lemma PushPacket_Unpack_result p bs :
  match fst (PushPacket_Unpack p (mkBuffer bs)) with
  | Ret p' => push_header p' = push_header p
  | Throw x => unpack_error x
  | Diverge => False
  end.
Proof.
  unfold PushPacket_Unpack. set (k := fun r => _).
  pose proof (parser_on_buffer decodeByte decodeByte _ bs decodeByte_sim
    (decodeByte_parser _)) as Hd.
  unfold mthen. destruct (decodeByte (mkBuffer bs)) as [[r|x|] [b]]; [|done..].
  unfold k. destruct (_ <? 0); [right; by right|].
  unfold Read, Buffer_reader. cbn [buf]. destruct b as [|y ys]; [|done].
  destruct (_ =? 0)%nat; [done|by left].
Qed.

(** Unpacking a body keeps the header, and terminates. *)
Lemma Unpack_result cp bs :
  match fst (Unpack cp (mkBuffer bs)) with
  | Ret cp' => header cp' = header cp
  | Throw x => unpack_error x
  | Diverge => False
  end.
Proof.
  destruct cp as [p|p|p|p|p|p]; cbn [Unpack]; unfold mthen; try done.
  - pose proof (parser_on_buffer _ _ _ bs (ConnectPacket_Unpack_sim p)
      (ConnectPacket_Unpack_parser p _)) as Hu.
    destruct (ConnectPacket_Unpack _ _) as [[]]; naive_solver.
  - pose proof (parser_on_buffer _ _ _ bs (ConnackPacket_Unpack_sim p)
      (ConnackPacket_Unpack_parser p _)) as Hu.
    destruct (ConnackPacket_Unpack _ _) as [[]]; naive_solver.
  - pose proof (parser_on_buffer _ _ _ bs (DisconnectPacket_Unpack_sim p)
      (DisconnectPacket_Unpack_parser p _)) as Hu.
    destruct (DisconnectPacket_Unpack _ _) as [[]]; naive_solver.
  - pose proof (PushPacket_Unpack_result p bs) as Hu.
    destruct (PushPacket_Unpack _ _) as [[]]; naive_solver.
Qed.

(** The errors ReadPacket reports on a frame that starts with byte [t], other
    than those of the stream. *)
Definition frame_error (t : Z) (x : error) : Prop :=
  (Z.land t 15 <> 0 /\ x = err_flags (Z.land t 15)) \/
  (Z.land t 15 = 0 /\ known_type (Z.shiftr t 4) = false /\
     x = err_unsupported (Z.shiftr t 4)) \/
  unpack_error x.

(** The part of ReadPacket after the first byte. *)
Definition read_after (t : Z) : M flat ControlPacket :=
  let! fh := unpack t in
  let! cp := lift (NewControlPacketWithHeader fh) in
  let! packetBytes := ReadFull (Z.to_nat (RemainingLength fh)) in
  if negb (Z.of_nat (length packetBytes) =? RemainingLength fh)
  then mthrow (Errorf "failed to read expected data") else
  lift (fst (Unpack cp (mkBuffer packetBytes))).

(** Decoded frames: length bytes and a body of the announced size. *)
Definition frame_shape (t : Z) (cp : ControlPacket) (c : list Z) : Prop :=
  exists lenbytes body, c = lenbytes ++ body /\ (1 <= length lenbytes <= 4)%nat /\
    header cp = mkHeader (Z.shiftr t 4) 0 (Z.of_nat (length body)) /\
    Z.of_nat (length body) < 2 ^ 28 /\ known_type (Z.shiftr t 4) = true.

Lemma parser_lift {A} (o : outcome A) (P : A -> list Z -> Prop) (E : error -> Prop) :
  match o with Ret a => P a [] | Throw x => E x | Diverge => False end ->
  parser (lift o) P E.
Proof.
  destruct o; [apply parser_return|apply parser_throw|done].
Qed.

Lemma read_after_parser t : parser (read_after t) (frame_shape t) (frame_error t).
Proof.
  unfold read_after, unpack.
  destruct (Z.eqb_spec (Z.land t 15) 0) as [Hf|Hf]; cbn [negb].
  2: { apply (parser_then _ _ (fun _ _ => False)); [|done].
       apply parser_throw. by left. }
  eapply (parser_then _ _ (fun fh c => exists n, fh = mkHeader (Z.shiftr t 4) 0 n /\
    0 <= n < 2 ^ 28 /\ (1 <= length c <= 4)%nat)).
  { eapply parser_then; [apply decodeLength_parser|]. intros n c [Hn Hc].
    apply parser_return. exists n. rewrite app_nil_r, Hf. done. }
  intros fh c1 (n & -> & Hn & Hc1). cbn [RemainingLength].
  eapply (parser_then _ _ (fun cp c => c = [] /\ known_type (Z.shiftr t 4) = true /\
    header cp = mkHeader (Z.shiftr t 4) 0 n)).
  { apply parser_lift. destruct (New_cases (mkHeader (Z.shiftr t 4) 0 n))
      as [(Hk & cp & -> & Hh)|[Hk ->]]; [done|right; by left]. }
  intros cp c2 (-> & Hk & Hh).
  eapply parser_then; [apply parser_ReadFull|]. intros a body [-> Hb].
  rewrite (proj2 (Z.eqb_eq _ _)) by lia. cbn [negb]. apply parser_lift.
  pose proof (Unpack_result cp body) as Hu.
  destruct (fst (Unpack cp (mkBuffer body))) as [cp'|x|]; [|right; by right|done].
  exists c1, body. rewrite app_nil_r. repeat split; [lia|lia| |lia|done].
  rewrite Hu, Hh. f_equal. lia.
Qed.

Lemma ReadPacket_nil e : ReadPacket (Flat [] e) = (Throw e, Flat [] e).
Proof. done. Qed.

Lemma ReadPacket_cons t bs e : ReadPacket (Flat (t :: bs) e) = read_after t (Flat bs e).
Proof.
  unfold ReadPacket. unfold mthen at 1. rewrite ReadFull_flat. unfold readfull_spec.
  cbn [fl_bytes fl_end length Nat.leb take drop]. by rewrite take_0, drop_0.
Qed.

(** ReadPacket on any lawful stream, from its byte sequence. *)
Lemma ReadPacket_flat {R} `{Stream R} (r : R) o rest :
  ReadPacket (Flat (pending r) (ending r)) = (o, Flat rest (ending r)) ->
  exists r', ReadPacket r = (o, r') /\ pending r' = rest /\ ending r' = ending r.
Proof.
  intros Hf. pose proof (ReadPacket_sim r) as Hs. unfold flatten in Hs.
  rewrite Hf in Hs. destruct (ReadPacket r) as [o' r']. exists r'. naive_solver.
Qed.

(** A strict prefix of something a parser consumes entirely is not enough for
    it: it can only run into the end of the input. *)
Lemma parser_strict_prefix {A} (m : M flat A) P E (pre suf : list Z) a e :
  parser m P E -> m (Flat (pre ++ suf) e) = (Ret a, Flat [] e) -> suf <> [] ->
  exists x, m (Flat pre e) = (Throw x, Flat [] e) /\ io_fail e x.
Proof.
  intros Hp Hfull Hsuf. destruct (Hp pre e) as (o & rest & Ho & Hc).
  destruct o as [b|x|]; [| |done].
  - destruct Hc as (c & _ & _ & Hext). rewrite Hext in Hfull.
    destruct rest; destruct suf; by simplify_eq/=.
  - destruct Hc as [[-> Hx]|[_ Hext]]; [by exists x|].
    by rewrite Hext in Hfull.
Qed.

(** Texts of decode errors. *)
Definition unsupported_text : string := "unsupported packet type".

Lemma unsupported_contains t :
  Contains (Error (err_unsupported t)) unsupported_text = true.
Proof. unfold err_unsupported, unsupported_text. generalize (fmt_x t). done. Qed.

Lemma Z16_cases (P : Z -> Prop) : Forall P (seqZ 0 16) -> forall z, 0 <= z < 16 -> P z.
Proof. rewrite Forall_seqZ. intros H z Hz. apply H. lia. Qed.

Lemma flags_not_contains t : Contains (Error (err_flags (Z.land t 15))) unsupported_text = false.
Proof.
  apply (Z16_cases (fun z => Contains (Error (err_flags z)) unsupported_text = false)).
  - by repeat constructor.
  - change 15 with (Z.ones 4). rewrite Z.land_ones by lia. apply Z.mod_pos_bound. lia.
Qed.

(** Concrete packets for the witnesses. *)
Definition sample_connect : ConnectPacket :=
  mkConnect (mkHeader Connect 0 0) 0x637a7175 1 0 60 (go_bytes "dev-001").

Definition sample_push : PushPacket := mkPush (mkHeader Push 0 0) 0 (go_bytes "hello").

(** ** Properties *)

(** C1: every packet a client or server can build is read back by the peer
    exactly as it was sent, from any transport, leaving the stream positioned
    right after the frame. *)
Theorem packet_roundtrip {R W : Type} `{Stream R} `{Reliable W} (cp : ControlPacket) (w : W) :
  packet_ok cp ->
  exists cp' w' bs,
    Packet_Write cp w = ((cp', None), w') /\ written w' = written w ++ bs /\
    forall (r : R) rest, pending r = bs ++ rest ->
      exists r', ReadPacket r = (Ret (received cp), r') /\
        pending r' = rest /\ ending r' = ending r.
Proof.
  intros Hok. destruct (Packet_Write_frame cp w) as (cp' & w' & Hw & Hws).
  exists cp', w', (frame cp). split; [done|]. split; [done|]. by apply received_reads.
Qed.

Lemma packet_roundtrip_witness :
  packet_ok (PConnect sample_connect) /\
  exists cp' w' bs,
    Packet_Write (PConnect sample_connect) (mkBuffer []) = ((cp', None), w') /\
    written w' = written (mkBuffer []) ++ bs /\
    forall (r : flat) rest, pending r = bs ++ rest ->
      exists r', ReadPacket r = (Ret (received (PConnect sample_connect)), r') /\
        pending r' = rest /\ ending r' = ending r.
Proof.
  assert (Hok : packet_ok (PConnect sample_connect)) by (vm_compute; intuition congruence).
  split; [exact Hok|]. exact (packet_roundtrip (PConnect sample_connect) (mkBuffer []) Hok).
Defined.

(** C23: what ReadPacket returns, and what it leaves in the stream, depends only
    on the bytes and the final error of the transport and not on how the
    transport fragments them into reads. *)
Theorem ReadPacket_fragmentation {R : Type} `{Stream R} (r : R) :
  ReadPacket (flatten r) = (fst (ReadPacket r), flatten (snd (ReadPacket r))).
Proof. pose proof (ReadPacket_sim r) as Hs. by destruct (ReadPacket r). Qed.

(** C39: ReadPacket terminates on every input.  When it returns a packet it has
    consumed the type byte, one to four length bytes and exactly as many body
    bytes as the header announces (fewer than 2^28); when it fails, either the
    stream ended inside the frame, or the frame itself is at fault: non-zero
    flags, an unknown type or a body too short for its fields. *)
Theorem ReadPacket_total {R : Type} `{Stream R} (r : R) :
  exists o r', ReadPacket r = (o, r') /\ ending r' = ending r /\
    match o with
    | Ret cp => exists t c, pending r = t :: c ++ pending r' /\ frame_shape t cp c
    | Throw x => (pending r' = [] /\ io_fail (ending r) x) \/
        (exists t rest, pending r = t :: rest /\ frame_error t x)
    | Diverge => False
    end.
Proof.
  destruct (pending r) as [|t bs] eqn:Hp.
  - destruct (ReadPacket_flat r (Throw (ending r)) []) as (r' & Hr & Hp' & He);
      [by rewrite Hp|]. exists (Throw (ending r)), r'. repeat split; [done..|].
    left. by split; [|left].
  - destruct (read_after_parser t bs (ending r)) as (o & rest & Ho & Hc).
    rewrite <- ReadPacket_cons, <- Hp in Ho.
    destruct (ReadPacket_flat r _ _ Ho) as (r' & Hr & Hp' & He).
    exists o, r'. rewrite Hp'. repeat split; [done..|].
    destruct o as [cp|x|]; [| |done].
    + destruct Hc as (c & -> & Hs & _). by exists t, c.
    + destruct Hc as [Hc|[Hx _]]; [by left|right]. by exists t, bs.
Qed.

(** Every strict prefix of a frame is the end of the stream. *)
Lemma frame_prefix_fails cp pre suf e :
  packet_ok cp -> pre ++ suf = frame cp -> suf <> [] ->
  exists x, ReadPacket (Flat pre e) = (Throw x, Flat [] e) /\ io_fail e x.
Proof.
  intros Hok Hpre Hsuf. destruct pre as [|t pre].
  - exists e. rewrite ReadPacket_nil. by split; [|left].
  - destruct (received_reads cp Hok (Flat (frame cp) e) []) as ([fr fe] & Hf & Hf1 & Hf2);
      [by rewrite app_nil_r|]. cbn in Hf1, Hf2. subst.
    rewrite <- Hpre in Hf. cbn [app] in Hf. rewrite ReadPacket_cons in Hf.
    destruct (parser_strict_prefix _ _ _ _ _ _ _ (read_after_parser t) Hf Hsuf)
      as (x & Hx & Hio).
    exists x. by rewrite ReadPacket_cons.
Qed.

(** C24: a frame cut short is never mistaken for a packet: on every strict prefix
    of a frame ReadPacket consumes what is there and reports the end of the
    stream. *)
Theorem truncated_frame_rejected {R : Type} `{Stream R} (cp : ControlPacket) (r : R) suf :
  packet_ok cp -> pending r ++ suf = frame cp -> suf <> [] ->
  exists x r', ReadPacket r = (Throw x, r') /\ pending r' = [] /\ io_fail (ending r) x.
Proof.
  intros Hok Hpre Hsuf.
  destruct (frame_prefix_fails cp (pending r) suf (ending r) Hok Hpre Hsuf) as (x & Hx & Hio).
  destruct (ReadPacket_flat r _ _ Hx) as (r' & Hr & Hp & _). by exists x, r'.
Qed.

Lemma truncated_frame_rejected_witness :
  exists x r', ReadPacket (Flat [0x30; 6; 0; 104; 101] io_EOF) = (Throw x, r') /\
    pending r' = [] /\ io_fail io_EOF x.
Proof.
  refine (truncated_frame_rejected (PPush sample_push)
    (Flat [0x30; 6; 0; 104; 101] io_EOF) [108; 108; 111] _ _ _).
  - vm_compute. intuition congruence.
  - reflexivity.
  - discriminate.
Defined.

(** The text test by which client and server recognise a protocol violation
    is exact: provided the transport's own errors do not use the phrase, a read
    error contains "unsupported packet type" if and only if the frame starts
    with a byte of zero flags and an unknown type whose length was readable. *)
Theorem unsupported_type_classification {R : Type} `{Stream R} (r : R) x r' :
  Contains (Error (ending r)) unsupported_text = false ->
  ReadPacket r = (Throw x, r') ->
  Contains (Error x) unsupported_text = true <->
  exists t rest, pending r = t :: rest /\ Z.land t 15 = 0 /\
    known_type (Z.shiftr t 4) = false /\ x = err_unsupported (Z.shiftr t 4).
Proof.
  intros He Hr. split.
  2: { intros (t & rest & _ & _ & _ & ->). apply unsupported_contains. }
  intros Hx. destruct (pending r) as [|t bs] eqn:Hp.
  - pose proof (ReadPacket_sim r) as Hs. unfold flatten in Hs.
    rewrite Hr, Hp, ReadPacket_nil in Hs. simplify_eq. congruence.
  - destruct (read_after_parser t bs (ending r)) as (o & rest & Ho & Hc).
    rewrite <- ReadPacket_cons, <- Hp in Ho.
    destruct (ReadPacket_flat r _ _ Ho) as (r'' & Hr' & _ & _).
    rewrite Hr in Hr'. simplify_eq.
    destruct Hc as [(_ & [-> | (_ & ->)]) | ([(_ & ->) | [(Hf & Hk & ->) | Hu]] & _)].
    + congruence.
    + done.
    + by rewrite flags_not_contains in Hx.
    + by exists t, bs.
    + by destruct Hu as [-> | [-> | ->]].
Qed.

Lemma unsupported_type_classification_witness :
  Contains (Error (err_unsupported 4)) unsupported_text = true <->
  exists t rest, [0x40; 0; 0x50] = t :: rest /\ Z.land t 15 = 0 /\
    known_type (Z.shiftr t 4) = false /\ err_unsupported 4 = err_unsupported (Z.shiftr t 4).
Proof.
  refine (unsupported_type_classification (Flat [0x40; 0; 0x50] io_EOF)
    (err_unsupported 4) (Flat [0x50] io_EOF) _ _); vm_compute; reflexivity.
Defined.

(** The remaining-length field: any length an int can hold is encoded in at
    most nine bytes; the decoder reads at most four of them and returns the low
    28 bits, so lengths below 2^28 survive and larger ones do not. *)
Theorem remaining_length_codec {R : Type} `{Stream R} (n : Z) (r : R) rest :
  0 <= n < 2 ^ 63 -> pending r = encodeLength n ++ rest ->
  (length (encodeLength n) <= 9)%nat /\ bytes_ok (encodeLength n) /\
  exists r', decodeLength r = (Ret (n mod 2 ^ 28), r') /\
    pending r' = drop 4 (encodeLength n) ++ rest /\
    (n < 2 ^ 28 -> decodeLength r = (Ret n, r') /\ pending r' = rest).
Proof.
  intros Hn Hp. split; [apply encodeLength_length; lia|].
  split; [by apply encodeLength_bytes|].
  destruct (decodeLength_reads n Hn r (drop 4 (encodeLength n) ++ rest)) as (r' & Hr & Hp' & _).
  { by rewrite app_assoc, take_drop. }
  exists r'. split; [done|]. split; [done|]. intros Hs.
  rewrite Z.mod_small in Hr by lia. split; [done|]. rewrite Hp', drop_ge; [done|].
  apply encodeLength_length; lia.
Qed.

Lemma remaining_length_codec_witness :
  (length (encodeLength (2 ^ 28 + 5)) <= 9)%nat /\ bytes_ok (encodeLength (2 ^ 28 + 5)) /\
  exists r' : flat,
    decodeLength (Flat (encodeLength (2 ^ 28 + 5) ++ [7]) io_EOF) = (Ret ((2 ^ 28 + 5) mod 2 ^ 28), r') /\
    pending r' = drop 4 (encodeLength (2 ^ 28 + 5)) ++ [7] /\
    (2 ^ 28 + 5 < 2 ^ 28 ->
       decodeLength (Flat (encodeLength (2 ^ 28 + 5) ++ [7]) io_EOF) = (Ret (2 ^ 28 + 5), r') /\
       pending r' = [7]).
Proof.
  refine (remaining_length_codec (2 ^ 28 + 5) (Flat (encodeLength (2 ^ 28 + 5) ++ [7]) io_EOF) [7] _ _).
  - lia.
  - reflexivity.
Defined.

(** CONNECT with a credential that does not fit the 16-bit length field is
    not rejected: the server decodes, without any error, the prefix of the
    credential whose length is the real length modulo 2^16. *)
Theorem oversized_credential_truncated {R : Type} `{Stream R} (p : ConnectPacket) (r : R) rest :
  packet_ok (PConnect (mkConnect (connect_header p) (MagicNumber p) (ProtocolVersion p)
    (connect_Reserved p) (Keepalive p) [])) ->
  65536 <= Z.of_nat (length (Credential p)) < 2 ^ 28 - 10 ->
  pending r = frame (PConnect p) ++ rest ->
  exists p' r', ReadPacket r = (Ret (PConnect p'), r') /\ pending r' = rest /\
    Credential p' = take (Z.to_nat (Z.of_nat (length (Credential p)) mod 65536)) (Credential p) /\
    Credential p' <> Credential p.
Proof.
  intros (Ht & Hm & _ & _ & Hk & _) Hl Hp. cbn in Ht, Hm, Hk.
  destruct (Connect_frame_reads p Ht Hm Hk ltac:(lia) r rest Hp) as (r' & Hr & Hp' & _).
  eexists _, r'. split; [done|]. split; [done|]. cbn [Credential]. split; [done|].
  intros Heq%(f_equal length). rewrite length_take in Heq.
  pose proof (u16_range (Z.of_nat (length (Credential p)))). lia.
Qed.

Lemma oversized_credential_truncated_witness :
  exists p' r',
    ReadPacket (Flat (frame (PConnect (mkConnect (mkHeader Connect 0 0) 0x637a7175 1 0 60
      (go_bytes "admin" ++ replicate 65536 0))) ++ []) io_EOF) = (Ret (PConnect p'), r') /\
    pending r' = [] /\
    Credential p' = take (Z.to_nat (Z.of_nat (length (go_bytes "admin" ++ replicate 65536 0)) mod 65536))
      (go_bytes "admin" ++ replicate 65536 0) /\
    Credential p' <> go_bytes "admin" ++ replicate 65536 0.
Proof.
  refine (oversized_credential_truncated (mkConnect (mkHeader Connect 0 0) 0x637a7175 1 0 60
    (go_bytes "admin" ++ replicate 65536 0)) (Flat _ io_EOF) [] _ _ _).
  - vm_compute. intuition congruence.
  - split; vm_compute; congruence.
  - reflexivity.
Defined.
