(* ===== verification/CodecTypes.v ===== *)
(** * The packet codec: decoded packets are well-typed

    A Rocq packet has integers where the Go struct has bytes, uint16 and uint32.
    Every packet ReadPacket returns has values in the ranges of those types,
    whatever bytes it was decoded from, so the model never holds a value the
    program could not. *)

From Stdlib Require Import ZArith Lia String.
From stdpp Require Import base list strings gmap numbers.
From S2P Require Import Prelude GoIO Codec CodecFacts.

Local Open Scope Z_scope.
Local Open Scope go_scope.

(** ** Readers of bytes *)

(** What a reader still holds; a Read takes it from the front. *)
Class Contents (R : Type) `{Reader R} : Type := {
  contents : R -> list Z;
  Read_contents : forall n r, let '((bs, _), r') := Read n r in
    contents r = bs ++ contents r' /\ (length bs <= n)%nat;
}.

#[global] Program Instance flat_contents : Contents flat := {| contents := fl_bytes |}.
Next Obligation.
  intros n [[|b bs] e]; cbn; [split; [done|lia]|].
  split; [by rewrite take_drop|]. rewrite length_take. lia.
Qed.

#[global] Program Instance Buffer_contents : Contents Buffer := {| contents := buf |}.
Next Obligation.
  intros n [[|b bs]]; cbn; [split; [done|lia]|].
  split; [by rewrite take_drop|]. rewrite length_take. lia.
Qed.

(** [m] returns values with [P], and leaves bytes, when it runs on bytes. *)
Definition yields {R A} `{Contents R} (m : M R A) (P : A -> Prop) : Prop :=
  forall r, bytes_ok (contents r) ->
    match m r with (Ret a, r') => P a /\ bytes_ok (contents r') | _ => True end.

Section yields.
Context {R : Type} `{Contents R}.

Lemma yields_return {A} (a : A) (P : A -> Prop) : P a -> yields (R := R) (mreturn a) P.
Proof. by intros Ha r Hr. Qed.

Lemma yields_throw {A} e (P : A -> Prop) : yields (R := R) (mthrow e) P.
Proof. by intros r Hr. Qed.

Lemma yields_then {A B} (m : M R A) (k : A -> M R B) P Q :
  yields m P -> (forall a, P a -> yields (k a) Q) -> yields (mthen m k) Q.
Proof.
  intros Hm Hk r Hr. specialize (Hm r Hr). unfold mthen. destruct (m r) as [[a|e|] r']; [|done..].
  destruct Hm as [Ha Hr']. exact (Hk a Ha r' Hr').
Qed.

Lemma yields_mono {A} (m : M R A) (P Q : A -> Prop) :
  yields m P -> (forall a, P a -> Q a) -> yields m Q.
Proof.
  intros Hm HPQ r Hr. specialize (Hm r Hr). destruct (m r) as [[a|e|] r']; [|done..]. naive_solver.
Qed.

Lemma yields_ReadFull_loop fuel n acc r :
  bytes_ok acc -> (length acc <= n)%nat -> bytes_ok (contents r) ->
  match ReadFull_loop fuel n acc r with
  | (Ret bs, r') => (bytes_ok bs /\ length bs = n) /\ bytes_ok (contents r')
  | _ => True
  end.
Proof.
  revert acc r. induction fuel as [|fuel IH]; intros acc r Hacc Hle Hr; cbn [ReadFull_loop];
    destruct (Nat.leb_spec n (length acc)); [split; [split; [done|lia]|done]|done
      |split; [split; [done|lia]|done]|].
  pose proof (Read_contents (n - length acc) r) as Hc.
  destruct (Read (n - length acc) r) as [[bs e] r']. destruct Hc as [Hc Hlen].
  rewrite Hc in Hr. apply Forall_app in Hr as [Hbs Hr'].
  assert (Hnew : bytes_ok (acc ++ bs)) by (by apply Forall_app).
  assert (Hlen' : (length (acc ++ bs) <= n)%nat) by (rewrite length_app; lia).
  destruct e as [e|]; [|by apply IH].
  destruct (Nat.leb_spec n (length (acc ++ bs))); [split; [split; [done|lia]|done]|].
  by destruct (_ && _).
Qed.

Lemma yields_ReadFull n : yields (R := R) (ReadFull n) (fun bs => bytes_ok bs /\ length bs = n).
Proof. intros r Hr. apply yields_ReadFull_loop; [constructor|cbn; lia|done]. Qed.

Lemma nth_byte bs k : bytes_ok bs -> byte_ok (nth k bs 0).
Proof.
  intros Hbs. destruct (nth_in_or_default k bs 0) as [Hin| ->]; [|by vm_compute].
  unfold bytes_ok in Hbs. rewrite List.Forall_forall in Hbs. by apply Hbs.
Qed.

Lemma yields_decodeByte : yields (R := R) decodeByte byte_ok.
Proof.
  eapply yields_then; [apply yields_ReadFull|]. intros bs [Hbs _]. by apply yields_return, nth_byte.
Qed.

Lemma yields_decodeUint16 : yields (R := R) decodeUint16 (fun n => 0 <= n < 65536).
Proof.
  eapply yields_then; [apply yields_ReadFull|]. intros bs [Hbs _]. apply yields_return.
  unfold BigEndian_Uint16. destruct bs as [|b0 [|b1 [|]]]; try lia.
  unfold bytes_ok in Hbs. decompose_Forall_hyps. unfold byte_ok in *.
  rewrite lor_shiftl_add; lia.
Qed.

Lemma yields_decodeUint32 : yields (R := R) decodeUint32 (fun n => 0 <= n < 2 ^ 32).
Proof.
  eapply yields_then; [apply yields_ReadFull|]. intros bs [Hbs _]. apply yields_return.
  unfold BigEndian_Uint32. destruct bs as [|b0 [|b1 [|b2 [|b3 [|]]]]]; try lia.
  unfold bytes_ok in Hbs. decompose_Forall_hyps. unfold byte_ok in *.
  rewrite (lor_shiftl_add b3 b2 8), (lor_shiftl_add _ b1 16), (lor_shiftl_add _ b0 24); lia.
Qed.

Lemma yields_decodeString :
  yields (R := R) decodeString (fun s => bytes_ok s /\ Z.of_nat (length s) < 65536).
Proof.
  eapply yields_then; [apply yields_decodeUint16|]. intros n Hn.
  eapply yields_mono; [apply yields_ReadFull|]. intros bs [Hbs Hl]. split; [done|].
  cbn beta in Hn. rewrite Hl. lia.
Qed.

Lemma yields_any {A} (m : M R A) : (forall r, bytes_ok (contents r) -> bytes_ok (contents (snd (m r)))) ->
  yields m (fun _ => True).
Proof. intros Hm r Hr. specialize (Hm r Hr). by destruct (m r) as [[| |] ?]. Qed.

Lemma yields_decodeLength_loop fuel acc mult :
  yields (R := R) (decodeLength_loop fuel acc mult) (fun _ => True).
Proof.
  revert acc mult. induction fuel as [|fuel IH]; intros acc mult; cbn [decodeLength_loop].
  - case_match; [by intros r|by apply yields_return].
  - case_match; [|by apply yields_return].
    eapply yields_then; [apply yields_ReadFull|]. intros b _. case_match; [by apply yields_return|apply IH].
Qed.

Lemma yields_unpack b : yields (R := R) (unpack b) (fun fh => MessageType fh = Z.shiftr b 4 /\ Flags fh = 0).
Proof.
  unfold unpack. destruct (Z.eqb_spec (Z.land b 0x0F) 0) as [Hf|]; [|apply yields_throw].
  eapply yields_then; [apply yields_decodeLength_loop|]. intros n _. by apply yields_return.
Qed.

End yields.

(** ** Typed packets *)

(** The fields of a packet are in the range of their Go types, its slices hold
    bytes, and its header is the one of its dynamic type. *)
Definition packet_typed (cp : ControlPacket) : Prop :=
  match cp with
  | PConnect p => MessageType (connect_header p) = Connect /\ 0 <= MagicNumber p < 2 ^ 32 /\
      byte_ok (ProtocolVersion p) /\ byte_ok (connect_Reserved p) /\ 0 <= Keepalive p < 65536 /\
      bytes_ok (Credential p) /\ Z.of_nat (length (Credential p)) < 65536
  | PConnack p => MessageType (connack_header p) = Connack /\ byte_ok (ReturnCode p) /\
      0 <= ServerKeepalive p < 65536
  | PDisconnect p => MessageType (disconnect_header p) = Disconnect /\ byte_ok (returnCode p)
  | PPush p => MessageType (push_header p) = Push /\ byte_ok (push_Reserved p) /\
      bytes_ok (Payload p) /\ Z.of_nat (length (Payload p)) = RemainingLength (push_header p) - 1
  | PPingreq p => MessageType (pingreq_header p) = Pingreq
  | PPingresp p => MessageType (pingresp_header p) = Pingresp
  end.

Definition empty_of (fh : FixedHeader) (cp : ControlPacket) : Prop :=
  header cp = fh /\ match cp with
                    | PConnect _ => MessageType fh = Connect
                    | PConnack _ => MessageType fh = Connack
                    | PDisconnect _ => MessageType fh = Disconnect
                    | PPush _ => MessageType fh = Push
                    | PPingreq _ => MessageType fh = Pingreq
                    | PPingresp _ => MessageType fh = Pingresp
                    end.

Lemma New_empty fh cp : NewControlPacketWithHeader fh = Ret cp -> empty_of fh cp.
Proof.
  unfold NewControlPacketWithHeader.
  repeat match goal with |- context [?a =? ?b] => destruct (Z.eqb_spec a b) end;
    intros ?; simplify_eq; by split.
Qed.

Lemma yields_PushPacket_Unpack p :
  yields (R := Buffer) (PushPacket_Unpack p) (fun p' => push_header p' = push_header p /\
    byte_ok (push_Reserved p') /\ bytes_ok (Payload p') /\
    Z.of_nat (length (Payload p')) = RemainingLength (push_header p) - 1).
Proof.
  eapply yields_then; [apply yields_decodeByte|]. intros res Hres.
  cbv zeta. destruct (Z.ltb_spec (RemainingLength (push_header p) - 1) 0); [apply yields_throw|].
  intros r Hr. pose proof (Read_contents (Z.to_nat (RemainingLength (push_header p) - 1)) r) as Hc.
  destruct (Read (Z.to_nat (RemainingLength (push_header p) - 1)) r) as [[bs [e|]] r']; [done|].
  destruct Hc as [Hc Hl].
  rewrite Hc in Hr. apply Forall_app in Hr as [Hbs Hr'].
  split; [|done]. cbn. split; [done|split; [done|split]].
  - apply Forall_app. split; [done|]. apply Forall_replicate. by vm_compute.
  - rewrite length_app, length_replicate. lia.
Qed.

Lemma yields_Unpack fh cp : empty_of fh cp ->
  yields (R := Buffer) (Unpack cp) (fun cp' => packet_typed cp' /\ header cp' = fh).
Proof.
  intros [Hh Ht]. destruct cp as [p|p|p|p|p|p]; cbn [Unpack header] in *; subst fh.
  - eapply (yields_then _ _ (fun p' => packet_typed (PConnect p') /\ connect_header p' = connect_header p));
      [|by intros p' Hp'; apply yields_return].
    eapply yields_then; [apply yields_decodeUint32|]. intros magic Hm.
    eapply yields_then; [apply yields_decodeByte|]. intros v Hv.
    eapply yields_then; [apply yields_decodeByte|]. intros res Hres.
    eapply yields_then; [apply yields_decodeUint16|]. intros k Hk.
    eapply yields_then; [apply yields_decodeString|]. intros s [Hs Hl].
    apply yields_return. split; [|done]. by cbn.
  - eapply (yields_then _ _ (fun p' => packet_typed (PConnack p') /\ connack_header p' = connack_header p));
      [|by intros p' Hp'; apply yields_return].
    eapply yields_then; [apply yields_decodeByte|]. intros code Hc.
    eapply yields_then; [apply yields_decodeUint16|]. intros k Hk.
    apply yields_return. split; [|done]. by cbn.
  - eapply (yields_then _ _ (fun p' => packet_typed (PDisconnect p') /\
      disconnect_header p' = disconnect_header p)); [|by intros p' Hp'; apply yields_return].
    eapply yields_then; [apply yields_ReadFull|]. intros bs [Hbs _].
    apply yields_return. split; [|done]. cbn. split; [done|by apply nth_byte].
  - eapply yields_then; [apply yields_PushPacket_Unpack|]. intros p' (Hp & Hres & Hb & Hl).
    apply yields_return. cbn. by rewrite Hp.
  - by apply (yields_then (mreturn p) _ (fun p' => p' = p)); [apply yields_return|intros ? ->; apply yields_return].
  - by apply (yields_then (mreturn p) _ (fun p' => p' = p)); [apply yields_return|intros ? ->; apply yields_return].
Qed.

Lemma yields_ReadPacket : yields (R := flat) ReadPacket packet_typed.
Proof.
  eapply yields_then; [apply yields_ReadFull|]. intros b [Hb _].
  eapply yields_then; [apply yields_unpack|]. intros fh _.
  eapply (yields_then _ _ (empty_of fh)).
  { intros r Hr. unfold lift. destruct (NewControlPacketWithHeader fh) eqn:Hn; [|done..].
    split; [by apply New_empty|done]. }
  intros cp Hcp. eapply yields_then; [apply yields_ReadFull|]. intros bs [Hbs _].
  destruct (negb _); [apply yields_throw|]. intros r Hr. unfold lift.
  pose proof (yields_Unpack fh cp Hcp (mkBuffer bs) Hbs) as Hu.
  destruct (Unpack cp (mkBuffer bs)) as [[cp'|e|] r']; cbn; [|done..]. split; [apply Hu|done].
Qed.

(** C22: decoding is well-typed: on every lawful transport of bytes, a packet that
    ReadPacket returns has every field in the range of its Go type, slices of
    bytes, flags zero, the header of its dynamic type and, for PUSH, a payload of
    exactly the announced length; and what is left unread are bytes again. *)
Theorem decoded_packet_typed {R : Type} `{Stream R} (r r' : R) (cp : ControlPacket) :
  bytes_ok (pending r) -> ReadPacket r = (Ret cp, r') ->
  packet_typed cp /\ Flags (header cp) = 0 /\ 0 <= RemainingLength (header cp) < 2 ^ 28 /\
  bytes_ok (pending r').
Proof.
  intros Hb Hr. pose proof (ReadPacket_sim r) as Hs. rewrite Hr in Hs.
  pose proof (yields_ReadPacket (flatten r) Hb) as Hy. rewrite Hs in Hy. destruct Hy as [Ht Hrest].
  split; [done|]. destruct (pending r) as [|t bs] eqn:Hp.
  { unfold flatten in Hs. rewrite Hp, ReadPacket_nil in Hs. done. }
  unfold flatten at 1 in Hs. rewrite Hp, ReadPacket_cons in Hs.
  destruct (read_after_parser t bs (ending r)) as (o & rest & Ho & Hc).
  rewrite Ho in Hs. destruct o as [cp'|x|]; [|done..]. simplify_eq.
  destruct Hc as (c & _ & (lb & body & _ & _ & Hh & Hlen & _) & _).
  rewrite Hh. cbn. repeat split; [lia|done|exact Hrest].
Qed.

Lemma decoded_packet_typed_witness :
  let r := Flat (frame (PPush sample_push) ++ [7]) io_EOF in
  packet_typed (received (PPush sample_push)) /\ Flags (header (received (PPush sample_push))) = 0 /\
  0 <= RemainingLength (header (received (PPush sample_push))) < 2 ^ 28 /\
  bytes_ok (pending (snd (ReadPacket r))).
Proof.
  refine (decoded_packet_typed (Flat (frame (PPush sample_push) ++ [7]) io_EOF)
    (snd (ReadPacket (Flat (frame (PPush sample_push) ++ [7]) io_EOF)))
    (received (PPush sample_push)) _ _).
  - repeat (apply Forall_cons_2; [vm_compute; intuition congruence|]). apply Forall_nil_2.
  - vm_compute. reflexivity.
Defined.
