(* ===== verification/Transport.v ===== *)
(** * Transports: WebSocket messages and QUIC streams as connections

    wsConn (server/wsconn.go; wsStreamConn of client/net.go is the same text)
    presents a message-based WebSocket connection as the byte stream the codec
    reads.  quicStreamConn (server/quicconn.go; quicConn of client/net.go, which
    only differs in Close) presents one stream of a QUIC session.
    The libraries are parameters: [MessageConn] and [QuicStream] hold their calls,
    [MessageSession] and [Stream] what is relied on of them. *)

From Stdlib Require Import ZArith Lia String.
From stdpp Require Import base list strings gmap numbers.
From S2P Require Import Prelude GoIO Codec CodecFacts.

Local Open Scope Z_scope.

(** [websocket.Message.Receive] and [websocket.Message.Send]; [backlog] bounds
    the number of messages the session still delivers. *)
Class MessageConn (WS : Type) : Type := {
  Receive : WS -> outcome (list Z) * WS;
  Send : list Z -> WS -> option error * WS;
  backlog : WS -> nat;
}.

(** A session delivers the peer's messages in order, each whole, and then
    fails with one error. *)
Class MessageSession (WS : Type) `{MessageConn WS} : Type := {
  messages : WS -> list (list Z);
  failure : WS -> error;
  backlog_spec : forall ws, (length (messages ws) <= backlog ws)%nat;
  Receive_spec : forall ws, exists ws', failure ws' = failure ws /\
    match messages ws with
    | [] => Receive ws = (Throw (failure ws), ws') /\ messages ws' = []
    | m :: ms => Receive ws = (Ret m, ws') /\ messages ws' = ms
    end;
}.

(** The other calls on a websocket.Conn; [A] is net.Addr and a deadline a time. *)
Class WebSocket (WS A : Type) : Type := {
  socket_Close : WS -> option error * WS;
  socket_LocalAddr : WS -> A;
  socket_RemoteAddr : WS -> A;
  socket_SetDeadline : Z -> WS -> option error * WS;
  socket_SetReadDeadline : Z -> WS -> option error * WS;
  socket_SetWriteDeadline : Z -> WS -> option error * WS;
}.

Module Ws.
Section ws.
Context {WS : Type} `{MessageConn WS}.

Record wsConn : Type := mkWsConn { ws : WS; ws_buf : list Z }.

(** [for len(c.buf) == 0 { Receive }]: empty messages are skipped; one unit of
    fuel per message of the session. *)
Fixpoint Read_loop (fuel : nat) (c : wsConn) : outcome unit * wsConn :=
  match ws_buf c with
  | _ :: _ => (Ret tt, c)
  | [] =>
      match fuel with
      | O => (Diverge, c)
      | S fuel =>
          match Receive (ws c) with
          | (Ret data, ws') => Read_loop fuel (mkWsConn ws' data)
          | (Throw e, ws') => (Throw e, mkWsConn ws' [])
          | (Diverge, ws') => (Diverge, mkWsConn ws' [])
          end
      end
  end.

(** [copy(p, c.buf)] hands out at most [len(p)] bytes and keeps the rest. *)
#[global] Instance wsConn_Read : Reader wsConn := fun n c =>
  match Read_loop (S (backlog (ws c))) c with
  | (Ret _, c') => ((take n (ws_buf c'), None), mkWsConn (ws c') (drop n (ws_buf c')))
  | (Throw e, c') => (([], Some e), c')
  | (Diverge, c') => (([], None), c')
  end.

#[global] Instance wsConn_Write : Writer wsConn := fun p c =>
  match Send p (ws c) with
  | (Some e, ws') => ((0, Some e), mkWsConn ws' (ws_buf c))
  | (None, ws') => ((Z.of_nat (length p), None), mkWsConn ws' (ws_buf c))
  end.

End ws.
Arguments wsConn : clear implicits.

(** The other calls go to the websocket connection. *)
Section socket.
Context {WS A : Type} `{WebSocket WS A}.

Definition wsConn_Close (c : wsConn WS) : option error * wsConn WS :=
  let '(err, w) := socket_Close (ws c) in (err, mkWsConn w (ws_buf c)).

Definition wsConn_LocalAddr (c : wsConn WS) : A := socket_LocalAddr (ws c).

Definition wsConn_RemoteAddr (c : wsConn WS) : A := socket_RemoteAddr (ws c).

Definition wsConn_SetDeadline (t : Z) (c : wsConn WS) : option error * wsConn WS :=
  let '(err, w) := socket_SetDeadline t (ws c) in (err, mkWsConn w (ws_buf c)).

Definition wsConn_SetReadDeadline (t : Z) (c : wsConn WS) : option error * wsConn WS :=
  let '(err, w) := socket_SetReadDeadline t (ws c) in (err, mkWsConn w (ws_buf c)).

Definition wsConn_SetWriteDeadline (t : Z) (c : wsConn WS) : option error * wsConn WS :=
  let '(err, w) := socket_SetWriteDeadline t (ws c) in (err, mkWsConn w (ws_buf c)).

End socket.

Section ws_stream.
Context {WS : Type} `{MessageSession WS}.

(** The bytes still to come: the rest of the current message, then the
    messages of the session. *)
Definition ws_pending (c : wsConn WS) : list Z := ws_buf c ++ concat (messages (ws c)).

Lemma Read_loop_spec fuel (c : wsConn WS) :
  (length (messages (ws c)) < fuel)%nat ->
  exists c', failure (ws c') = failure (ws c) /\
    ws_pending c' = ws_pending c /\
    ((Read_loop fuel c = (Ret tt, c') /\ ws_buf c' <> []) \/
     (Read_loop fuel c = (Throw (failure (ws c)), c') /\ ws_pending c = [])).
Proof.
  revert c. induction fuel as [|fuel IH]; intros c Hf; [lia|].
  cbn [Read_loop]. destruct (ws_buf c) as [|b bs] eqn:Hb.
  2: { exists c. repeat split; left. by rewrite Hb. }
  destruct (Receive_spec (ws c)) as (ws' & Hfail & Hm).
  destruct (messages (ws c)) as [|m ms] eqn:Hms; destruct Hm as [-> Hms'].
  - exists (mkWsConn ws' []). unfold ws_pending. cbn. rewrite Hb, Hms, Hms'.
    repeat split; [done|right; done].
  - destruct (IH (mkWsConn ws' m)) as (c' & Hf' & Hp & Hc).
    { cbn in *. rewrite Hms'. cbn in Hf. lia. }
    exists c'. cbn in Hf', Hc. rewrite Hf', Hp. unfold ws_pending. cbn.
    rewrite Hb, Hms, Hms'. cbn. repeat split; [done|].
    unfold ws_pending in Hc. cbn in Hc. rewrite Hms', Hfail in Hc. done.
Qed.

#[global] Program Instance wsConn_stream : Stream (wsConn WS) := {|
  pending := ws_pending; ending c := failure (ws c);
|}.
Next Obligation.
  intros n c Hn. unfold Read, wsConn_Read.
  destruct (Read_loop_spec (S (backlog (ws c))) c) as (c' & Hf & Hp & Hc).
  { pose proof (backlog_spec (ws c)). lia. }
  destruct Hc as [[-> Hb]|[-> Hnil]].
  - exists (n `min` length (ws_buf c'))%nat, None,
      (mkWsConn (ws c') (drop n (ws_buf c'))). rewrite <- Hp.
    assert (0 < length (ws_buf c'))%nat by (destruct (ws_buf c'); cbn; [done|lia]).
    unfold ws_pending. cbn [ws ws_buf].
    rewrite length_app, take_app_le, drop_app_le, take_min_length, drop_min_length by lia.
    repeat split; [lia|done|left; split; [done|lia]].
  - exists 0%nat, (Some (failure (ws c))), c'. rewrite Hp, Hnil. cbn.
    repeat split; [lia|done|right; done].
Qed.

End ws_stream.

End Ws.

(** ** QUIC *)

(** The calls on a quic.Stream other than Read and Write, and on the quic.Conn it
    belongs to ([session_Close] is CloseWithError without an error). *)
Class QuicStream (S Q A : Type) : Type := {
  session_LocalAddr : Q -> A;
  session_RemoteAddr : Q -> A;
  stream_SetDeadline : Z -> S -> option error * S;
  stream_SetReadDeadline : Z -> S -> option error * S;
  stream_SetWriteDeadline : Z -> S -> option error * S;
  stream_Close : S -> option error * S;
  session_Close : Q -> option error * Q;
}.

Module Quic.
Section quic.
Context {S Q A : Type} `{Reader S} `{Writer S} `{QuicStream S Q A}.

Record quicStreamConn : Type := mkQuicConn { stream : S; session : Q }.

Definition quicStreamConn_LocalAddr (qc : quicStreamConn) : A := session_LocalAddr (session qc).

Definition quicStreamConn_RemoteAddr (qc : quicStreamConn) : A := session_RemoteAddr (session qc).

(** A call on the stream, which leaves the session alone. *)
Definition on_stream {B} (r : B * S) (qc : quicStreamConn) : B * quicStreamConn :=
  (fst r, mkQuicConn (snd r) (session qc)).

Definition quicStreamConn_SetDeadline (t : Z) (qc : quicStreamConn) : option error * quicStreamConn :=
  on_stream (stream_SetDeadline t (stream qc)) qc.

Definition quicStreamConn_SetReadDeadline (t : Z) (qc : quicStreamConn) : option error * quicStreamConn :=
  on_stream (stream_SetReadDeadline t (stream qc)) qc.

Definition quicStreamConn_SetWriteDeadline (t : Z) (qc : quicStreamConn) : option error * quicStreamConn :=
  on_stream (stream_SetWriteDeadline t (stream qc)) qc.

#[global] Instance quicStreamConn_Read : Reader quicStreamConn := fun n qc =>
  on_stream (Read n (stream qc)) qc.

#[global] Instance quicStreamConn_Write : Writer quicStreamConn := fun bs qc =>
  on_stream (Write bs (stream qc)) qc.

(** Only this stream is closed; the session is owned by serveSession. *)
Definition quicStreamConn_Close (qc : quicStreamConn) : option error * quicStreamConn :=
  on_stream (stream_Close (stream qc)) qc.

(** The client's quicConn owns its session and closes it too, unless closing the
    stream fails. *)
Definition quicConn_Close (qc : quicStreamConn) : option error * quicStreamConn :=
  let '(err, st) := stream_Close (stream qc) in
  match err with
  | Some err => (Some err, mkQuicConn st (session qc))
  | None => let '(err, q) := session_Close (session qc) in (err, mkQuicConn st q)
  end.

End quic.
Arguments quicStreamConn : clear implicits.

(** A stream that is a lawful transport makes a lawful connection. *)
#[global] Program Instance quic_stream {S Q} `{Reader S} `{!Stream S} : Stream (quicStreamConn S Q) := {|
  pending qc := pending (stream qc); ending qc := ending (stream qc);
|}.
Next Obligation.
  intros S Q HR HS n [st q] Hn. destruct (Read_spec n st Hn) as (k & e & st' & Hr & Hk & Hp & He & Hc).
  exists k, e, (mkQuicConn st' q). unfold Read, quicStreamConn_Read, on_stream. cbn.
  by rewrite Hr.
Qed.

(** quic documents that closing a stream closes its sending direction only.  So
    the goroutine that reads a closed device connection is not unblocked by it: it
    goes on receiving what the peer sends. *)
Lemma close_keeps_reading {S Q A} `{Reader S} `{Writer S} `{!Stream S} `{!QuicStream S Q A}
    (qc : quicStreamConn S Q) :
  (forall s : S, flatten (snd (stream_Close (A := A) (Q := Q) s)) = flatten s) ->
  fst (ReadPacket (snd (quicStreamConn_Close (A := A) qc))) = fst (ReadPacket qc).
Proof.
  intros Hc. pose proof (ReadPacket_sim (snd (quicStreamConn_Close (A := A) qc))) as H1.
  pose proof (ReadPacket_sim qc) as H2.
  assert (Hf : flatten (snd (quicStreamConn_Close (A := A) qc)) = flatten qc).
  { unfold flatten, quicStreamConn_Close, on_stream. cbn. specialize (Hc (stream qc)). unfold flatten in Hc. exact Hc. }
  rewrite Hf in H1. destruct (ReadPacket (snd (quicStreamConn_Close qc))), (ReadPacket qc).
  cbn. rewrite H1 in H2. by simplify_eq.
Qed.

End Quic.

(** ** The client's adapters

    wsStreamConn and quicConn of client/net.go: the same code, but for the Close
    of quicConn above. *)

Module ClientStreams.
Section client_streams.
Context {WS S Q : Type} `{MessageConn WS} `{Reader S} `{Writer S}.

Definition wsStreamConn : Type := Ws.wsConn WS.
Definition wsStreamConn_Read : Reader wsStreamConn := Ws.wsConn_Read.
Definition wsStreamConn_Write : Writer wsStreamConn := Ws.wsConn_Write.

Definition quicConn : Type := Quic.quicStreamConn S Q.
Definition quicConn_Read : Reader quicConn := Quic.quicStreamConn_Read.
Definition quicConn_Write : Writer quicConn := Quic.quicStreamConn_Write.

End client_streams.

(** The calls that only pass on. *)
Section passed_on.
Context {WS S Q A : Type} `{WebSocket WS A} `{QuicStream S Q A}.

Definition wsStreamConn_Close (c : Ws.wsConn WS) : option error * Ws.wsConn WS := Ws.wsConn_Close c.

Definition wsStreamConn_LocalAddr (c : Ws.wsConn WS) : A := Ws.wsConn_LocalAddr c.

Definition wsStreamConn_RemoteAddr (c : Ws.wsConn WS) : A := Ws.wsConn_RemoteAddr c.

Definition wsStreamConn_SetDeadline (t : Z) (c : Ws.wsConn WS) : option error * Ws.wsConn WS :=
  Ws.wsConn_SetDeadline t c.

Definition wsStreamConn_SetReadDeadline (t : Z) (c : Ws.wsConn WS) : option error * Ws.wsConn WS :=
  Ws.wsConn_SetReadDeadline t c.

Definition wsStreamConn_SetWriteDeadline (t : Z) (c : Ws.wsConn WS) : option error * Ws.wsConn WS :=
  Ws.wsConn_SetWriteDeadline t c.

Definition quicConn_LocalAddr (qc : Quic.quicStreamConn S Q) : A := session_LocalAddr (Quic.session qc).

Definition quicConn_RemoteAddr (qc : Quic.quicStreamConn S Q) : A := session_RemoteAddr (Quic.session qc).

Definition quicConn_SetDeadline (t : Z) (qc : Quic.quicStreamConn S Q)
  : option error * Quic.quicStreamConn S Q :=
  Quic.on_stream (stream_SetDeadline t (Quic.stream qc)) qc.

Definition quicConn_SetReadDeadline (t : Z) (qc : Quic.quicStreamConn S Q)
  : option error * Quic.quicStreamConn S Q :=
  Quic.on_stream (stream_SetReadDeadline t (Quic.stream qc)) qc.

Definition quicConn_SetWriteDeadline (t : Z) (qc : Quic.quicStreamConn S Q)
  : option error * Quic.quicStreamConn S Q :=
  Quic.on_stream (stream_SetWriteDeadline t (Quic.stream qc)) qc.

End passed_on.
End ClientStreams.

(** The two fields of quic.Config the library looks at, and the address of a
    tls.Config. *)
Record QuicConfig : Type := mkQuic { MaxIdleTimeout : Z; KeepAlivePeriod : Z }.

Abbreviation TlsConfig := nat (only parsing).

(** ** An instance of the parameter: a recorded session *)

Record session : Type := mkSession { ses_msgs : list (list Z); ses_err : error; ses_sent : list (list Z) }.

#[global] Instance session_conn : MessageConn session := {|
  Receive s := match ses_msgs s with
    | [] => (Throw (ses_err s), s)
    | m :: ms => (Ret m, mkSession ms (ses_err s) (ses_sent s))
    end;
  Send m s := (None, mkSession (ses_msgs s) (ses_err s) (ses_sent s ++ [m]));
  backlog s := length (ses_msgs s);
|}.

#[global] Program Instance session_ok : MessageSession session := {|
  messages := ses_msgs; failure := ses_err;
|}.
Next Obligation. done. Qed.
Next Obligation.
  intros [[|m ms] e sent]; cbn; eexists; split; [|split| |split]; try done; done.
Qed.

(** ** Properties *)

(** Over WebSocket, packets need not respect message boundaries: however the
    peer's bytes are cut into messages (empty ones included), reading packets
    through the adapter gives what reading the concatenated bytes gives, one
    packet after another, and the adapter loses no byte. *)
Theorem ws_message_boundaries_invisible {WS : Type} `{MessageSession WS} (c : Ws.wsConn WS) :
  let '(o, c') := ReadPacket c in
  ReadPacket (Flat (Ws.ws_buf c ++ concat (messages (Ws.ws c))) (failure (Ws.ws c))) =
    (o, Flat (Ws.ws_buf c' ++ concat (messages (Ws.ws c'))) (failure (Ws.ws c'))).
Proof.
  pose proof (ReadPacket_sim c) as Hs. by destruct (ReadPacket c) as [o c'].
Qed.
