(* ===== verification/GoTime.v ===== *)
(** * time.Duration, time.Time and float64

    A Duration is an int64 number of nanoseconds, a Time is modelled as the
    nanosecond it stands for; [Sub] saturates as Go's does.  float64 is IEEE
    binary64 with round-to-nearest-even, from the Standard Library's SpecFloat. *)

From Stdlib Require Import ZArith Lia SpecFloat.
From stdpp Require Import base list numbers.
From S2P Require Import Prelude.

Local Open Scope Z_scope.

Definition Millisecond : Z := 1000000.

Definition Second : Z := 1000000000.

(** The zero [time.Time{}]: 1 January of year 1, relative to the Unix epoch. *)
Definition zero_time : Z := -62135596800 * Second.

Definition max_duration : Z := 2 ^ 63 - 1.

Definition min_duration : Z := - 2 ^ 63.

(** [t.Sub(u)] *)
Definition Sub (t u : Z) : Z := Z.max min_duration (Z.min max_duration (t - u)).

Lemma Sub_exact t u : 0 <= t - u < 2 ^ 63 -> Sub t u = t - u.
Proof. unfold Sub, min_duration, max_duration. lia. Qed.

Lemma Sub_ge t u d : d <= max_duration -> min_duration < d -> (d <= Sub t u <-> d <= t - u).
Proof. unfold Sub, min_duration, max_duration. lia. Qed.

(** ** float64 *)

Definition float64_of_int (z : Z) : spec_float := binary_normalize 53 1024 z 0 false.

Definition float64_mul (x y : spec_float) : spec_float := SFmul 53 1024 x y.

(** Conversion to an integer type truncates towards zero. *)
Definition int_of_float64 (x : spec_float) : Z :=
  match x with
  | S754_finite s m e =>
      let a := if 0 <=? e then Zpos m * 2 ^ e else Zpos m / 2 ^ (- e) in
      if s then - a else a
  | _ => 0
  end.

(** The constant 1.5 *)
Definition float64_1_5 : spec_float := binary_normalize 53 1024 3 (-1) false.

(** [time.Duration(float64(s) * float64(time.Second) * 1.5)] *)
Definition one_and_a_half (s : Z) : Z :=
  int_of_float64 (float64_mul (float64_mul (float64_of_int s) (float64_of_int Second)) float64_1_5).
