(* ===== verification/GoFloat.v ===== *)
(** * Rounding errors of float64

    What the operations of SpecFloat on positive binary64 numbers compute, up to
    the rounding: a product, a sum and a conversion from an integer are each within
    one part in 2^52 of the exact result; and when the exact result has at most 53
    digits, it is what they compute. *)

From Stdlib Require Import ZArith Lia SpecFloat.
From stdpp Require Import base numbers.
From S2P Require Import Prelude GoTime.

Local Open Scope Z_scope.

(** ** Mantissas *)

Lemma digits_log2 p : Zpos (digits2_pos p) = Z.log2 (Zpos p) + 1.
Proof.
  induction p as [p IH|p IH|]; [| |done]; cbn [digits2_pos]; rewrite Pos2Z.inj_succ, IH.
  - rewrite (Pos2Z.inj_xI p), Z.log2_succ_double by lia. lia.
  - rewrite (Pos2Z.inj_xO p), Z.log2_double by lia. lia.
Qed.

Lemma Zdigits_log2 m : 0 < m -> Zdigits2 m = Z.log2 m + 1.
Proof. destruct m; [lia| |lia]. intros _. apply digits_log2. Qed.

Lemma shr_1_div mrs : 0 <= shr_m mrs -> shr_m (shr_1 mrs) = shr_m mrs / 2.
Proof.
  destruct mrs as [m r s]. cbn [shr_m]. intros Hm.
  destruct m as [|[p|p|]|p]; try done; cbn [shr_1 shr_m].
  - rewrite (Pos2Z.inj_xI p). Z.to_euclidean_division_equations; lia.
  - rewrite (Pos2Z.inj_xO p). Z.to_euclidean_division_equations; lia.
Qed.

Lemma iter_shr_div n mrs :
  0 <= shr_m mrs -> shr_m (SpecFloat.iter_pos shr_1 n mrs) = shr_m mrs / 2 ^ Zpos n.
Proof.
  revert mrs. induction n as [n IH|n IH|]; intros mrs Hm; cbn [SpecFloat.iter_pos].
  - assert (H1 : 0 <= shr_m (shr_1 mrs)) by (rewrite shr_1_div by done; apply Z.div_pos; lia).
    assert (H2 : 0 <= shr_m (SpecFloat.iter_pos shr_1 n (shr_1 mrs))).
    { rewrite IH by done. apply Z.div_pos; [done|]. apply Z.pow_pos_nonneg; lia. }
    rewrite IH, IH, shr_1_div by done. rewrite !Z.div_div by (try apply Z.pow_pos_nonneg; lia).
    f_equal. rewrite (Pos2Z.inj_xI n), <- !Z.pow_add_r, <- (Z.pow_1_r 2) at 1 by lia.
    rewrite <- Z.pow_add_r by lia. f_equal. lia.
  - assert (H2 : 0 <= shr_m (SpecFloat.iter_pos shr_1 n mrs)).
    { rewrite IH by done. apply Z.div_pos; [done|]. apply Z.pow_pos_nonneg; lia. }
    rewrite IH, IH by done. rewrite Z.div_div by (try apply Z.pow_pos_nonneg; lia).
    f_equal. rewrite (Pos2Z.inj_xO n), <- Z.pow_add_r by lia. f_equal. lia.
  - by apply shr_1_div.
Qed.

Lemma round_cases m l : round_nearest_even m l = m \/ round_nearest_even m l = m + 1.
Proof. destruct l as [|[]]; cbn; try case_match; auto. Qed.

(** ** Exact scaled values *)

(** The value times 2^1100, an integer for every positive float64. *)
Definition scaled (x : spec_float) : Z :=
  match x with
  | S754_finite false m e => Zpos m * 2 ^ (e + 1100)
  | _ => 0
  end.

(** A positive number within binary64's range. *)
Definition positive_float (x : spec_float) : Prop :=
  match x with S754_finite false m e => (-1074 <= e <= 971) /\ Zpos m <= 2 ^ 53 | _ => False end.

(** [v] is [w] up to one part in 2^52. *)
Definition near (v w : Z) : Prop := (2 ^ 52 - 1) * w <= 2 ^ 52 * v <= (2 ^ 52 + 1) * w.

Lemma fexp_normal m e : 0 < m -> -1074 <= Z.log2 m - 52 + e ->
  fexp 53 1024 (Zdigits2 m + e) = Z.log2 m - 52 + e.
Proof. intros Hm He. unfold fexp, emin. rewrite Zdigits_log2 by done. lia. Qed.

Lemma shr_fexp_none m e : 0 < m -> -1074 <= Z.log2 m - 52 + e <= e ->
  shr_fexp 53 1024 m e loc_Exact = (Build_shr_record m false false, e).
Proof.
  intros Hm He. unfold shr_fexp. rewrite fexp_normal by lia. cbn [shr_record_of_loc].
  unfold shr. destruct (Z.log2 m - 52 + e - e) eqn:Hn; try done. lia.
Qed.

(** More than 53 digits are shifted out and rounded. *)
Lemma shr_fexp_some m e : 0 < m -> -1074 <= Z.log2 m - 52 + e -> 52 < Z.log2 m -> exists mrs,
  shr_fexp 53 1024 m e loc_Exact = (mrs, Z.log2 m - 52 + e) /\
  shr_m mrs = m / 2 ^ (Z.log2 m - 52).
Proof.
  intros Hm He Hn. unfold shr_fexp. rewrite fexp_normal by lia. cbn [shr_record_of_loc].
  replace (Z.log2 m - 52 + e - e) with (Z.log2 m - 52) by lia. unfold shr.
  destruct (Z.log2 m - 52) as [|n|n] eqn:Hl; [lia| |lia].
  eexists. split; [f_equal; lia|]. by rewrite iter_shr_div by (cbn; lia).
Qed.

(** Rounding a quotient up or down stays within one unit of its last place. *)
Lemma quotient_near m n r :
  0 < m -> 52 + n = Z.log2 m -> 0 < n -> r = m / 2 ^ n \/ r = m / 2 ^ n + 1 ->
  near (r * 2 ^ n) m.
Proof.
  intros Hm Hl Hn Hr. pose proof (Z.log2_spec m Hm) as [Hlo _]. rewrite <- Hl, Z.pow_add_r in Hlo by lia.
  assert (Hp : 0 < 2 ^ n) by (apply Z.pow_pos_nonneg; lia).
  pose proof (Z.div_mod m (2 ^ n) ltac:(lia)) as Hdm. pose proof (Z.mod_pos_bound m (2 ^ n) Hp).
  unfold near. set (p := 2 ^ n) in *. clearbody p. set (q := m / p) in *. clearbody q.
  destruct Hr as [-> | ->]; nia.
Qed.

Lemma quotient_log2 m n : 0 < m -> 0 <= n <= Z.log2 m -> Z.log2 (m / 2 ^ n) = Z.log2 m - n.
Proof.
  intros Hm Hn. rewrite <- Z.shiftr_div_pow2 by lia. rewrite Z.log2_shiftr by done. lia.
Qed.

Lemma near_scale v w p : 0 <= p -> near v w -> near (v * p) (w * p).
Proof. unfold near. nia. Qed.

Lemma near_refl w : 0 <= w -> near w w.
Proof. unfold near. lia. Qed.

(** What is left of the rounding after the first shift. *)
Lemma binary_round_rest r t :
  2 ^ 52 <= r <= 2 ^ 53 -> -1074 <= t <= 970 ->
  exists x, (let '(mrs, e) := shr_fexp 53 1024 r t loc_Exact in
             match shr_m mrs with
             | Z0 => S754_zero false
             | Zpos m => if Z.leb e (1024 - 53) then S754_finite false m e else S754_infinity false
             | _ => S754_nan
             end) = x /\ positive_float x /\ scaled x = r * 2 ^ (t + 1100).
Proof.
  intros Hr Ht. destruct (Z.eq_dec r (2 ^ 53)) as [->|Hne].
  - change (Z.log2 (2 ^ 53)) with 53. destruct (shr_fexp_some (2 ^ 53) t) as (mrs & -> & ->);
      [lia|change (Z.log2 (2 ^ 53)) with 53; lia|reflexivity|].
    change (Z.log2 (2 ^ 53)) with 53. change (2 ^ 53 / 2 ^ (53 - 52)) with (2 ^ 52).
    change (2 ^ 52) with 4503599627370496.
    destruct (Z.leb_spec (53 - 52 + t) (1024 - 53)); [|lia]. eexists. split; [reflexivity|].
    split; [cbn -[Z.pow]; lia|]. unfold scaled. replace (53 - 52 + t + 1100) with (1 + (t + 1100)) by lia.
    rewrite (Z.pow_add_r 2 1) by lia. lia.
  - assert (Hl : Z.log2 r = 52) by (apply Z.log2_unique; lia).
    rewrite shr_fexp_none by lia. cbn [shr_m]. destruct r as [|r|r]; try lia.
    destruct (Z.leb_spec t (1024 - 53)); [|lia]. eexists. split; [reflexivity|].
    split; [cbn -[Z.pow]; lia|done].
Qed.

Lemma binary_round_near m e :
  0 < m -> -1074 <= Z.log2 m - 52 + e <= 969 -> -1074 <= e <= 971 ->
  positive_float (binary_round_aux 53 1024 false m e loc_Exact) /\
  near (scaled (binary_round_aux 53 1024 false m e loc_Exact)) (m * 2 ^ (e + 1100)).
Proof.
  intros Hm Ht He. unfold binary_round_aux.
  destruct (Z.le_gt_cases (Z.log2 m) 52) as [Hl|Hl].
  - rewrite shr_fexp_none by lia. cbn [loc_of_shr_record shr_m round_nearest_even].
    rewrite shr_fexp_none by lia. cbn [shr_m]. destruct m as [|m|m]; try lia.
    destruct (Z.leb_spec e (1024 - 53)); [|lia].
    pose proof (Z.log2_spec (Zpos m) Hm) as [_ Hlt].
    assert (Zpos m < 2 ^ 53) by (eapply Z.lt_le_trans; [exact Hlt|apply Z.pow_le_mono_r; lia]).
    split; [cbn -[Z.pow]; lia|]. apply near_refl.
    assert (0 < 2 ^ (e + 1100)) by (apply Z.pow_pos_nonneg; lia). lia.
  - destruct (shr_fexp_some m e Hm ltac:(lia) Hl) as (mrs & -> & Hq).
    set (n := Z.log2 m - 52) in *.
    pose proof (round_cases (shr_m mrs) (loc_of_shr_record mrs)) as Hr.
    set (r := round_nearest_even _ _) in *. clearbody r. rewrite Hq in Hr.
    pose proof (quotient_near m n r Hm ltac:(lia) ltac:(lia) Hr) as Hnear.
    assert (Hq52 : Z.log2 (m / 2 ^ n) = 52) by (rewrite quotient_log2 by lia; lia).
    assert (Hqpos : 0 < m / 2 ^ n).
    { pose proof (Z.log2_nonpos (m / 2 ^ n)). lia. }
    pose proof (Z.log2_spec _ Hqpos) as Hb. rewrite Hq52 in Hb.
    destruct (binary_round_rest r (n + e)) as (x & -> & Hx & ->); [lia|lia|]. split; [done|].
    replace (n + e + 1100) with (n + (e + 1100)) by lia. rewrite Z.pow_add_r, Z.mul_assoc by lia.
    apply near_scale; [|done]. apply Z.pow_nonneg. lia.
Qed.

(** ** The operations *)

Lemma shl_align_shifted m e e' :
  e' <= e -> shl_align m e e' = (Z.to_pos (Zpos m * 2 ^ (e - e')), e').
Proof.
  intros He. unfold shl_align. destruct (e' - e) as [|n|n] eqn:Hn; [|lia|].
  - replace e' with e by lia. by rewrite Z.sub_diag, Z.mul_1_r.
  - replace (e - e') with (Zpos n) by lia. f_equal.
    assert (Hi : Zpos (Pos.iter xO m n) = Zpos m * 2 ^ Zpos n); [|by rewrite <- Hi].
    clear. induction n as [|n IH] using Pos.peano_ind; [cbn; lia|].
    rewrite Pos.iter_succ, Pos2Z.inj_succ, Z.pow_succ_r by lia. lia.
Qed.

Lemma shl_align_none m e e' : e <= e' -> shl_align m e e' = (m, e).
Proof. intros He. unfold shl_align. destruct (e' - e) as [|n|n] eqn:Hn; try done; lia. Qed.

Lemma positive_scaled x : positive_float x -> 0 < scaled x.
Proof.
  destruct x as [| | |[] m e]; try done. cbn -[Z.pow]. intros He.
  assert (0 < 2 ^ (e + 1100)) by (apply Z.pow_pos_nonneg; lia). lia.
Qed.

(** Conversion of an integer times a power of two. *)
Lemma normalize_near m e :
  0 < m -> -1074 <= Z.log2 m - 52 + e <= 969 -> -1000 <= e <= 900 ->
  positive_float (binary_normalize 53 1024 m e false) /\
  near (scaled (binary_normalize 53 1024 m e false)) (m * 2 ^ (e + 1100)).
Proof.
  intros Hm Ht He. destruct m as [|m|m]; try lia. cbn [binary_normalize]. unfold binary_round.
  change (Zpos (digits2_pos m)) with (Zdigits2 (Zpos m)). rewrite fexp_normal by lia.
  set (t := Z.log2 (Zpos m) - 52 + e) in *. destruct (Z.le_gt_cases t e) as [Hte|Hte].
  - rewrite shl_align_shifted by done.
    assert (Hp : 0 < 2 ^ (e - t)) by (apply Z.pow_pos_nonneg; lia).
    rewrite Z2Pos.id by lia.
    assert (Hl : Z.log2 (Zpos m * 2 ^ (e - t)) = 52) by (rewrite Z.log2_mul_pow2 by lia; lia).
    destruct (binary_round_near (Zpos m * 2 ^ (e - t)) t) as [Hf Hn]; [lia|lia|lia|].
    split; [done|]. replace (e + 1100) with ((e - t) + (t + 1100)) by lia.
    rewrite Z.pow_add_r, Z.mul_assoc by lia. done.
  - rewrite shl_align_none by lia. apply binary_round_near; lia.
Qed.

Lemma mul_near x y mx ex my ey :
  x = S754_finite false mx ex -> y = S754_finite false my ey ->
  -500 <= ex <= 400 -> -500 <= ey <= 400 -> Zpos mx < 2 ^ 60 -> Zpos my < 2 ^ 60 ->
  positive_float (float64_mul x y) /\
  near (scaled (float64_mul x y) * 2 ^ 1100) (scaled x * scaled y).
Proof.
  intros -> -> Hx Hy Hmx Hmy. cbn [float64_mul SFmul xorb]. unfold float64_mul. cbn [SFmul xorb].
  assert (Hl : 0 <= Z.log2 (Zpos (mx * my)) < 120).
  { split; [apply Z.log2_nonneg|]. apply Z.log2_lt_pow2; [lia|]. rewrite Pos2Z.inj_mul.
    change (2 ^ 120) with (2 ^ 60 * 2 ^ 60). nia. }
  destruct (binary_round_near (Zpos (mx * my)) (ex + ey)) as [Hf Hn]; [lia|lia|lia|].
  split; [done|]. cbn [scaled]. apply (near_scale _ _ (2 ^ 1100)) in Hn; [|by apply Z.pow_nonneg].
  replace (Zpos mx * 2 ^ (ex + 1100) * (Zpos my * 2 ^ (ey + 1100)))
    with (Zpos (mx * my) * 2 ^ (ex + ey + 1100) * 2 ^ 1100); [done|].
  rewrite Pos2Z.inj_mul, <- Z.mul_assoc, <- Z.pow_add_r by lia.
  replace (ex + ey + 1100 + 1100) with ((ex + 1100) + (ey + 1100)) by lia.
  rewrite (Z.pow_add_r 2 (ex + 1100)) by lia. lia.
Qed.

Definition float64_add (x y : spec_float) : spec_float := SFadd 53 1024 x y.
Definition float64_sub (x y : spec_float) : spec_float := SFsub 53 1024 x y.

Lemma add_near x y mx ex my ey :
  x = S754_finite false mx ex -> y = S754_finite false my ey ->
  -200 <= ex <= 200 -> -200 <= ey <= 200 -> Zpos mx < 2 ^ 60 -> Zpos my < 2 ^ 60 ->
  positive_float (float64_add x y) /\ near (scaled (float64_add x y)) (scaled x + scaled y).
Proof.
  intros -> -> Hx Hy Hmx Hmy. unfold float64_add. cbn [SFadd cond_Zopp].
  set (ez := Z.min ex ey). rewrite !shl_align_shifted by lia. cbn [fst].
  assert (Hpx : 0 < 2 ^ (ex - ez) <= 2 ^ 400).
  { split; [apply Z.pow_pos_nonneg; lia|apply Z.pow_le_mono_r; lia]. }
  assert (Hpy : 0 < 2 ^ (ey - ez) <= 2 ^ 400).
  { split; [apply Z.pow_pos_nonneg; lia|apply Z.pow_le_mono_r; lia]. }
  rewrite !Z2Pos.id by lia.
  set (m := Zpos mx * 2 ^ (ex - ez) + Zpos my * 2 ^ (ey - ez)).
  assert (Hl : 0 <= Z.log2 m < 461).
  { split; [apply Z.log2_nonneg|]. apply Z.log2_lt_pow2; [lia|]. unfold m.
    change (2 ^ 461) with (2 ^ 60 * 2 ^ 400 + 2 ^ 60 * 2 ^ 400). nia. }
  destruct (normalize_near m ez) as [Hf Hn]; [lia|lia|lia|]. split; [done|]. cbn [scaled].
  replace (Zpos mx * 2 ^ (ex + 1100) + Zpos my * 2 ^ (ey + 1100)) with (m * 2 ^ (ez + 1100)); [done|].
  unfold m. rewrite Z.mul_add_distr_r, <- !Z.mul_assoc, <- !Z.pow_add_r by lia. do 2 f_equal; f_equal; lia.
Qed.

(** Truncation to an integer. *)
Lemma int_of_float64_spec x :
  positive_float x -> int_of_float64 x * 2 ^ 1100 <= scaled x < (int_of_float64 x + 1) * 2 ^ 1100.
Proof.
  destruct x as [| | |[] m e]; try done. cbn [positive_float int_of_float64 scaled]. intros [[He1 He2] _].
  destruct (Z.leb_spec 0 e).
  - rewrite Z.pow_add_r by lia. assert (0 < 2 ^ 1100) by (by apply Z.pow_pos_nonneg). nia.
  - assert (Hp : 0 < 2 ^ (- e)) by (apply Z.pow_pos_nonneg; lia).
    assert (Hu : 2 ^ 1100 = 2 ^ (e + 1100) * 2 ^ (- e)) by (rewrite <- Z.pow_add_r by lia; f_equal; lia).
    rewrite Hu. assert (0 < 2 ^ (e + 1100)) by (apply Z.pow_pos_nonneg; lia).
    pose proof (Z.div_mod (Zpos m) (2 ^ (- e)) ltac:(lia)). pose proof (Z.mod_pos_bound (Zpos m) (2 ^ (- e)) Hp).
    nia.
Qed.

(** Mantissa and exponent of a number whose size is known. *)
Lemma float_shape x lo hi :
  positive_float x -> 0 <= lo -> 0 <= hi -> 2 ^ lo <= scaled x < 2 ^ hi ->
  exists m e, x = S754_finite false m e /\ Zpos m < 2 ^ 60 /\ lo - 1153 <= e < hi - 1100.
Proof.
  destruct x as [| | |[] m e]; try done. cbn [positive_float scaled]. intros [[He1 He2] Hm] Hlo Hhi Hs.
  assert (Hp : 0 < 2 ^ (e + 1100)) by (apply Z.pow_pos_nonneg; lia).
  exists m, e. split; [done|]. split; [lia|]. split.
  - assert (2 ^ lo <= 2 ^ (e + 1153)).
    { replace (e + 1153) with (53 + (e + 1100)) by lia. rewrite Z.pow_add_r by lia. nia. }
    apply Z.pow_le_mono_r_iff in H; lia.
  - assert (2 ^ (e + 1100) < 2 ^ hi) by nia. apply Z.pow_lt_mono_r_iff in H; lia.
Qed.

Lemma near_cancel v w p : 0 < p -> near (v * p) (w * p) -> near v w.
Proof. unfold near. intros Hp [H1 H2]. split; nia. Qed.

(** ** Exact results *)

(** [x] is the normalised representation of [n * 2^e]. *)
Definition exactly (x : spec_float) (n e : Z) : Prop :=
  0 < n < 2 ^ 53 /\
  x = S754_finite false (Z.to_pos (n * 2 ^ (52 - Z.log2 n))) (e - (52 - Z.log2 n)).

Lemma log2_53 n : 0 < n < 2 ^ 53 -> 0 <= Z.log2 n <= 52.
Proof. intros Hn. split; [apply Z.log2_nonneg|]. apply Z.lt_succ_r, Z.log2_lt_pow2; lia. Qed.

Lemma mantissa_log2 n : 0 < n < 2 ^ 53 ->
  0 < n * 2 ^ (52 - Z.log2 n) /\ Z.log2 (n * 2 ^ (52 - Z.log2 n)) = 52.
Proof.
  intros Hn. pose proof (log2_53 n Hn). assert (0 < 2 ^ (52 - Z.log2 n)) by (apply Z.pow_pos_nonneg; lia).
  split; [nia|]. rewrite Z.log2_mul_pow2; lia.
Qed.

(** Shifting zeros out loses nothing. *)
Lemma iter_shr_exact n q : 0 < q ->
  SpecFloat.iter_pos shr_1 n (Build_shr_record (q * 2 ^ Zpos n) false false) = Build_shr_record q false false.
Proof.
  assert (Hone : forall m, 0 < m -> shr_1 (Build_shr_record (m * 2) false false) = Build_shr_record m false false).
  { intros m Hm. destruct m as [|m|m]; try lia. by rewrite Z.mul_comm. }
  assert (Hp : forall k, 0 < 2 ^ Zpos k) by (intros; apply Z.pow_pos_nonneg; lia).
  revert q. induction n as [n IH|n IH|]; intros q Hq; cbn [SpecFloat.iter_pos].
  - replace (q * 2 ^ Zpos n~1) with (q * 2 ^ Zpos n * 2 ^ Zpos n * 2).
    + rewrite Hone by (specialize (Hp n); nia). rewrite IH by (specialize (Hp n); nia). by apply IH.
    + rewrite (Pos2Z.inj_xI n), Z.pow_add_r, <- (Z.add_diag (Zpos n)), Z.pow_add_r by lia. lia.
  - replace (q * 2 ^ Zpos n~0) with (q * 2 ^ Zpos n * 2 ^ Zpos n).
    + rewrite IH by (specialize (Hp n); nia). by apply IH.
    + rewrite (Pos2Z.inj_xO n), <- (Z.add_diag (Zpos n)), Z.pow_add_r by lia. lia.
  - by apply Hone.
Qed.

(** A mantissa of at least 53 digits that ends in zeros. *)
Lemma binary_round_exact q n e :
  0 < q -> Z.log2 q = 52 -> 0 <= n -> -1000 <= n + e <= 900 ->
  binary_round_aux 53 1024 false (q * 2 ^ n) e loc_Exact = S754_finite false (Z.to_pos q) (n + e).
Proof.
  intros Hq Hl Hn He. unfold binary_round_aux.
  assert (Hp : 0 < 2 ^ n) by (apply Z.pow_pos_nonneg; lia). assert (Hm : 0 < q * 2 ^ n) by nia.
  assert (Hlm : Z.log2 (q * 2 ^ n) = 52 + n) by (rewrite Z.log2_mul_pow2; lia).
  assert (Hshr : shr_fexp 53 1024 (q * 2 ^ n) e loc_Exact = (Build_shr_record q false false, n + e)).
  { unfold shr_fexp. rewrite fexp_normal by lia. rewrite Hlm. cbn [shr_record_of_loc].
    replace (52 + n - 52 + e - e) with n by lia. unfold shr. destruct n as [|n|n]; [|by rewrite iter_shr_exact, Z.add_comm|lia].
    by rewrite Z.mul_1_r. }
  rewrite Hshr. cbn [loc_of_shr_record shr_m round_nearest_even].
  rewrite shr_fexp_none by lia. cbn [shr_m]. destruct q as [|q|q]; try lia.
  destruct (Z.leb_spec (n + e) (1024 - 53)); [done|lia].
Qed.

Lemma of_int_exact n : 0 < n < 2 ^ 53 -> exactly (float64_of_int n) n 0.
Proof.
  intros Hn. split; [done|]. pose proof (log2_53 n Hn) as Hl. destruct (mantissa_log2 n Hn) as [Hm Hlm].
  unfold float64_of_int. destruct n as [|n|n]; try lia. cbn [binary_normalize]. unfold binary_round.
  change (Zpos (digits2_pos n)) with (Zdigits2 (Zpos n)). rewrite fexp_normal by lia.
  rewrite shl_align_shifted by lia.
  replace (0 - (Z.log2 (Zpos n) - 52 + 0)) with (52 - Z.log2 (Zpos n)) by lia.
  replace (Z.log2 (Zpos n) - 52 + 0) with (0 - (52 - Z.log2 (Zpos n))) by lia.
  rewrite Z2Pos.id by done. rewrite <- (Z.mul_1_r (Zpos n * 2 ^ _)) at 1. change 1 with (2 ^ 0) at 1.
  rewrite binary_round_exact by lia. f_equal; lia.
Qed.

Lemma mul_exact x y a b ex ey :
  exactly x a ex -> exactly y b ey -> Z.log2 a + Z.log2 b <= 51 ->
  -200 <= ex <= 200 -> -200 <= ey <= 200 -> exactly (float64_mul x y) (a * b) (ex + ey).
Proof.
  intros [Ha ->] [Hb ->] Hab Hex Hey. pose proof (log2_53 a Ha) as Hla. pose proof (log2_53 b Hb) as Hlb.
  pose proof (Z.log2_mul_above a b ltac:(lia) ltac:(lia)) as Hlo.
  pose proof (Z.log2_mul_below a b ltac:(lia) ltac:(lia)) as Hhi.
  assert (Hn : 0 < a * b < 2 ^ 53).
  { split; [nia|]. apply Z.log2_lt_cancel. change (Z.log2 (2 ^ 53)) with 53. lia. }
  split; [done|]. destruct (mantissa_log2 _ Hn) as [Hm Hlm].
  destruct (mantissa_log2 a Ha) as [Hma _], (mantissa_log2 b Hb) as [Hmb _].
  unfold float64_mul. cbn [SFmul xorb]. rewrite Pos2Z.inj_mul, !Z2Pos.id by done.
  set (i := 52 - Z.log2 a) in *. set (j := 52 - Z.log2 b) in *. set (k := 52 - Z.log2 (a * b)) in *.
  replace (a * 2 ^ i * (b * 2 ^ j)) with (a * b * 2 ^ k * 2 ^ (i + j - k)).
  2: { rewrite <- (Z.mul_assoc (a * b)), <- Z.pow_add_r by lia. replace (k + (i + j - k)) with (i + j) by lia.
       rewrite Z.pow_add_r by lia. lia. }
  rewrite binary_round_exact by lia. f_equal. lia.
Qed.

Lemma exactly_int x n : exactly x (2 * n) (-1) -> int_of_float64 x = n.
Proof.
  intros [Hn ->]. pose proof (log2_53 _ Hn) as Hl. destruct (mantissa_log2 _ Hn) as [Hm _].
  cbn [int_of_float64]. rewrite (proj2 (Z.leb_gt 0 _)) by lia. rewrite Z2Pos.id by done.
  set (i := 52 - Z.log2 (2 * n)) in *. replace (- (-1 - i)) with (1 + i) by lia.
  rewrite Z.pow_add_r by lia. replace (2 * n * 2 ^ i) with (n * (2 ^ 1 * 2 ^ i)) by lia.
  apply Z.div_mul. assert (0 < 2 ^ i) by (apply Z.pow_pos_nonneg; lia). lia.
Qed.

(** The timeout of one and a half periods is exact for every period that a CONNACK
    can carry. *)
Lemma one_and_a_half_exact s : 0 <= s < 65536 -> one_and_a_half s = 1500000000 * s.
Proof.
  intros Hs. destruct (Z.eq_dec s 0) as [->|Hne]; [reflexivity|].
  assert (Hl : Z.log2 s <= 15) by (apply Z.lt_succ_r, Z.log2_lt_pow2; lia).
  assert (Hlp : Z.log2 (s * Second) <= 45).
  { apply Z.lt_succ_r, Z.log2_lt_pow2; unfold Second; lia. }
  unfold one_and_a_half. apply exactly_int.
  replace (2 * (1500000000 * s)) with (s * Second * 3) by (unfold Second; lia).
  assert (H15 : exactly float64_1_5 3 (-1)) by (split; [lia|reflexivity]).
  assert (Hsec : exactly (float64_of_int Second) Second 0) by (apply of_int_exact; unfold Second; lia).
  assert (Hsx : exactly (float64_of_int s) s 0) by (apply of_int_exact; lia).
  assert (H1 : exactly (float64_mul (float64_of_int s) (float64_of_int Second)) (s * Second) 0).
  { apply (mul_exact _ _ s Second 0 0); [done|done| |lia|lia]. change (Z.log2 Second) with 29. lia. }
  apply (mul_exact _ _ (s * Second) 3 0 (-1)); [done|done| |lia|lia]. change (Z.log2 3) with 1. lia.
Qed.
