(* ===== verification/Store.v ===== *)
(** * Server: connection store and keepalive policy

    server/store.go and server/keepalive.go.  The store maps a device ID to the
    deviceConnection that currently speaks for it; connections are compared by
    identity, so the values are the identities [connid] of the network
    connections they were made from (one deviceConnection per connection). *)

From Stdlib Require Import ZArith Lia String.
From stdpp Require Import base list strings gmap numbers.
From S2P Require Import Prelude.

Local Open Scope Z_scope.

Abbreviation connid := nat (only parsing).

(** ** store.go: each operation runs under the store's lock *)

Definition NewConnectionStore : gmap gostring connid := ∅.

Definition Register (s : gmap gostring connid) (deviceID : gostring) (conn : connid)
  : option connid * gmap gostring connid :=
  let prev := s !! deviceID in
  (prev, <[deviceID := conn]> s).

Definition Get (s : gmap gostring connid) (deviceID : gostring) : option connid :=
  s !! deviceID.

Definition Remove (s : gmap gostring connid) (deviceID : gostring) (conn : connid)
  : bool * gmap gostring connid :=
  match s !! deviceID with
  | Some existing =>
      if decide (existing = conn) then (true, delete deviceID s) else (false, s)
  | None => (false, s)
  end.

(** Go iterates a map in no fixed order; the model lists the values in the
    order of the map's own enumeration. *)
Definition All (s : gmap gostring connid) : list connid := (map_to_list s).*2.

(** ** keepalive.go *)

Record KeepalivePolicy : Type := mkPolicy {
  MinSeconds : Z;
  MaxSeconds : Z;
  DefaultSeconds : Z;
  AllowDisable : bool;
}.

Definition DefaultKeepalivePolicy : KeepalivePolicy := mkPolicy 30 600 60 false.

Definition Decide (p : KeepalivePolicy) (clientKp : Z) : Z :=
  if clientKp <=? 0 then
    if AllowDisable p then 0 else DefaultSeconds p
  else if clientKp <? MinSeconds p then MinSeconds p
  else if MaxSeconds p <? clientKp then MaxSeconds p
  else clientKp.

(** ** Lemmas *)

Lemma lookup_Remove s d c d' :
  (Remove s d c).2 !! d' = if decide (d' = d /\ s !! d = Some c) then None else s !! d'.
Proof.
  unfold Remove. destruct (s !! d) as [c'|] eqn:Hd; cbn.
  - destruct (decide (c' = c)) as [->|Hne]; cbn.
    + destruct (decide (d' = d)) as [->|Hdd]; [by rewrite lookup_delete_eq, decide_True|].
      rewrite lookup_delete_ne, decide_False by naive_solver. done.
    + by rewrite decide_False by naive_solver.
  - by rewrite decide_False by naive_solver.
Qed.

Lemma elem_of_All s c : c ∈ All s <-> exists d, s !! d = Some c.
Proof.
  unfold All. rewrite list_elem_of_fmap. split.
  - intros ([d c'] & -> & Hin%elem_of_map_to_list). by exists d.
  - intros [d Hd]. exists (d, c). by rewrite elem_of_map_to_list.
Qed.

Lemma Decide_default_range kp : 30 <= Decide DefaultKeepalivePolicy kp <= 600.
Proof.
  unfold Decide. cbn.
  destruct (Z.leb_spec kp 0), (Z.ltb_spec kp 30), (Z.ltb_spec 600 kp); lia.
Qed.

(** ** Properties *)

(** The negotiated keepalive: with Min <= Default <= Max the decision is the
    value of the policy's range closest to a positive proposal; a non-positive
    proposal gives 0 exactly when disabling is allowed and the default
    otherwise; so unless it is 0 the result always lies within the range, and a
    proposal already in the range is kept. *)
Theorem keepalive_decision (p : KeepalivePolicy) (kp : Z) :
  0 < MinSeconds p -> MinSeconds p <= DefaultSeconds p <= MaxSeconds p ->
  (Decide p kp = 0 <-> kp <= 0 /\ AllowDisable p = true) /\
  (Decide p kp <> 0 -> MinSeconds p <= Decide p kp <= MaxSeconds p) /\
  (0 < kp -> forall v, MinSeconds p <= v <= MaxSeconds p ->
     Z.abs (Decide p kp - kp) <= Z.abs (v - kp)) /\
  (MinSeconds p <= kp <= MaxSeconds p -> Decide p kp = kp).
Proof.
  intros Hmin Hrange. unfold Decide.
  destruct (AllowDisable p), (Z.leb_spec kp 0), (Z.ltb_spec kp (MinSeconds p)),
    (Z.ltb_spec (MaxSeconds p) kp); repeat split; intros; try lia; naive_solver lia.
Qed.

Lemma keepalive_decision_witness :
  (Decide DefaultKeepalivePolicy 1000 = 0 <->
     1000 <= 0 /\ AllowDisable DefaultKeepalivePolicy = true) /\
  (Decide DefaultKeepalivePolicy 1000 <> 0 ->
     30 <= Decide DefaultKeepalivePolicy 1000 <= 600) /\
  (0 < 1000 -> forall v, 30 <= v <= 600 ->
     Z.abs (Decide DefaultKeepalivePolicy 1000 - 1000) <= Z.abs (v - 1000)) /\
  (30 <= 1000 <= 600 -> Decide DefaultKeepalivePolicy 1000 = 1000).
Proof. refine (keepalive_decision DefaultKeepalivePolicy 1000 _ _); cbn; lia. Defined.

(** The store as a session table.  Registering a device makes the new
    connection the one found for it and reports the one it replaces; removing
    is a no-op for every connection that is not the registered one, so a
    superseded connection that tears itself down later cannot evict its
    successor; other devices are never affected. *)
Theorem store_takeover (s : gmap gostring connid) (d : gostring) (c : connid) :
  let '(prev, s1) := Register s d c in
  prev = Get s d /\ Get s1 d = Some c /\
  (forall d', d' <> d -> Get s1 d' = Get s d') /\
  (forall old, old <> c -> Remove s1 d old = (false, s1)) /\
  (exists s2, Remove s1 d c = (true, s2) /\ Get s2 d = None /\
     forall d', d' <> d -> Get s2 d' = Get s d').
Proof.
  unfold Register, Get, Remove. cbn. rewrite lookup_insert_eq.
  repeat split.
  - intros d' Hd. by rewrite lookup_insert_ne.
  - intros old Hold. by rewrite decide_False.
  - rewrite decide_True by done. eexists. split; [done|].
    rewrite lookup_delete_eq. split; [done|]. intros d' Hd.
    by rewrite lookup_delete_ne, lookup_insert_ne.
Qed.
