(* ===== verification/Server.v ===== *)
(** * Server: device connections, handshake, packet loop and API calls

    server/conn.go and server/server.go as a transition system.  The state is
    what the goroutines share: the store, the set of tracked connections, the
    network connections, the deviceConnection objects and the log of callbacks
    and results.  A connection's own goroutine (handleConnection) is at one
    [phase]; every other goroutine (takeover, keepalive reaper, message handler,
    and the calls Push, Kick and Close) is a [task].  A phase or task is one
    atomic action: it ends where the code releases a lock, hands over to another
    goroutine or touches another shared object. *)

From Stdlib Require Import ZArith Lia String.
From stdpp Require Import base list strings gmap numbers.
From S2P Require Import Prelude GoIO Codec GoTime Store.

Local Open Scope Z_scope.

(** ** Network connections

    [nc_in] is what the peer still sends, then the error reading ends with;
    [nc_all] is what it sent in total since the connection was accepted.
    [nc_out] records, per Write call, the bytes the connection took.  A write
    fails on a closed connection, where nothing is taken, and whenever the
    network sets [nc_fault] to [Some (k, e)] (a deadline that passes, a reset, a
    concurrent Close): then the first [k] bytes are taken and the call returns
    [e].  [nc_torn] is whether that ever happened. *)
Record netconn : Type := mkNet {
  nc_all : flat;
  nc_in : flat;
  nc_out : list (list Z);
  nc_closed : bool;
  nc_fault : option (nat * error);
  nc_torn : bool;
}.

#[global] Instance netconn_reader : Reader netconn := fun n nc =>
  if nc_closed nc then (([], Some net_ErrClosed), nc)
  else let '(res, f) := Read n (nc_in nc) in
       (res, mkNet (nc_all nc) f (nc_out nc) false (nc_fault nc) (nc_torn nc)).

#[global] Instance netconn_writer : Writer netconn := fun bs nc =>
  if nc_closed nc then ((0, Some net_ErrClosed), nc)
  else match nc_fault nc with
       | Some (k, e) => ((Z.of_nat (length (take k bs)), Some e),
                  mkNet (nc_all nc) (nc_in nc) (nc_out nc ++ [take k bs]) false (Some (k, e)) true)
       | None => ((Z.of_nat (length bs), None),
                  mkNet (nc_all nc) (nc_in nc) (nc_out nc ++ [bs]) false None (nc_torn nc))
       end.

Definition net_close (nc : netconn) : netconn :=
  mkNet (nc_all nc) (nc_in nc) (nc_out nc) true (nc_fault nc) (nc_torn nc).

Definition set_fault (fault : option (nat * error)) (nc : netconn) : netconn :=
  mkNet (nc_all nc) (nc_in nc) (nc_out nc) (nc_closed nc) fault (nc_torn nc).

(** ** Shared state *)

Record deviceConnection : Type := mkDC { deviceID : gostring; active : bool }.

(** Callbacks of the application and results of the API calls, newest first. *)
Inductive event : Type :=
| OnConnectionEstablished (d : gostring)
| OnConnectionClosed (d : gostring) (reason : string)
| MessageHandler (d : gostring) (payload : list Z)
| PushResult (d : gostring) (err : option error)
| KickResult (d : gostring) (err : option error)
| CloseResult.

Record server : Type := mkServer {
  store : gmap gostring connid;
  conns : gset connid;
  nets : gmap connid netconn;
  dcs : gmap connid deviceConnection;
  events : list event;
}.

Record ServerOptions : Type := mkServerOptions {
  Authenticator : option (gostring -> gostring * bool);
  has_MessageHandler : bool;
  Policy : KeepalivePolicy;
}.

Definition set_net (c : connid) (nc : netconn) (s : server) : server :=
  mkServer (store s) (conns s) (<[c := nc]> (nets s)) (dcs s) (events s).

Definition set_dc (c : connid) (dc : deviceConnection) (s : server) : server :=
  mkServer (store s) (conns s) (nets s) (<[c := dc]> (dcs s)) (events s).

Definition set_store (st : gmap gostring connid) (s : server) : server :=
  mkServer st (conns s) (nets s) (dcs s) (events s).

Definition set_conns (cs : gset connid) (s : server) : server :=
  mkServer (store s) cs (nets s) (dcs s) (events s).

Definition log (e : event) (s : server) : server :=
  mkServer (store s) (conns s) (nets s) (dcs s) (e :: events s).

(** [cp.Write(conn)] *)
Definition write_packet (cp : ControlPacket) (c : connid) (s : server) : option error * server :=
  match nets s !! c with
  | Some nc => let '((_, e), nc') := Packet_Write cp nc in (e, set_net c nc' s)
  | None => (Some net_ErrClosed, s)
  end.

(** [conn.Close()] *)
Definition conn_Close (c : connid) (s : server) : server :=
  match nets s !! c with
  | Some nc => set_net c (net_close nc) s
  | None => s
  end.

(** ** conn.go *)

Definition newDeviceConnection (c : connid) (d : gostring) (s : server) : server :=
  set_dc c (mkDC d true) s.

Definition IsActive (c : connid) (s : server) : bool :=
  match dcs s !! c with
  | Some dc => active dc
  | None => false
  end.

Definition dc_Write (c : connid) (payload : list Z) (s : server) : option error * server :=
  if IsActive c s then write_packet (new_push payload) c s
  else (Some net_ErrClosed, s).

Definition SendDisconnect (c : connid) (reason : Z) (s : server) : server :=
  if IsActive c s then snd (write_packet (new_disconnect reason) c s) else s.

(** [active.CompareAndSwap(true, false)], then [conn.Close()]. *)
Definition dc_Close (c : connid) (s : server) : server :=
  match dcs s !! c with
  | Some dc => if active dc then conn_Close c (set_dc c (mkDC (deviceID dc) false) s) else s
  | None => s
  end.

(** ** server.go: the handshake *)

Definition magic : Z := 0x637a7175.

Inductive decision : Type :=
| HClose
| HReject (code : Z)
| HAccept (d : gostring) (serverKp : Z).

(** The checks between reading the first packet and answering it. *)
Definition hello_decision (o : ServerOptions) (first : outcome ControlPacket) : decision :=
  match first with
  | Ret (PConnect p) =>
      if negb (MagicNumber p =? magic) then HClose
      else if negb (ProtocolVersion p =? 1) then HReject ErrRefusedBadProtocolVersion
      else
        let auth := match Authenticator o with
                    | Some f => f (Credential p)
                    | None => (Credential p, true)
                    end in
        if negb (snd auth) then HReject ErrRefusedNotAuthorised
        else match fst auth with
             | [] => HReject ErrRefusedNotAuthorised
             | d => HAccept d (Decide (Policy o) (Keepalive p))
             end
  | _ => HClose
  end.

(** The keepalive timer of a connection: none when the server keepalive is 0,
    otherwise it fires after one and a half times that many seconds without a
    packet. *)
Definition keepaliveTimer (serverKp : Z) : option Z :=
  if 0 <? serverKp then Some (one_and_a_half serverKp) else None.

(** ** Goroutines *)

(** Where handleConnection of a connection stands. *)
Inductive phase : Type :=
| PStart
| PTrack
| PHello
| PReject (code : Z)
| PAccept (d : gostring) (serverKp : Z)
| PRegister (d : gostring) (serverKp : Z)
| PEstablish (serverKp : Z)
| PLoop (serverKp : Z)
| PTeardown
| PRemove
| PClosed
| PUntrack
| PDone.

(** Whether the goroutine counts in the server's WaitGroup. *)
Definition running (ph : phase) : bool :=
  match ph with PStart | PDone => false | _ => true end.

Inductive task : Type :=
| TTakeover (prev : connid)
| TTakeoverClose (prev : connid)
| TReap (c : connid)
| TReapClose (c : connid)
| TDeliver (d : gostring) (payload : list Z)
| TPush (d : gostring) (payload : list Z)
| TPushWrite (c : connid) (d : gostring) (payload : list Z)
| TKick (d : gostring) (reason : Z)
| TKickSend (c : connid) (d : gostring) (reason : Z)
| TKickClose (c : connid) (d : gostring) (reason : Z)
| TKickRemove (c : connid) (d : gostring) (reason : Z)
| TKickEvent (d : gostring) (reason : Z)
| TClose
| TShut (cs : list connid)
| TShutClose (c : connid) (cs : list connid)
| TShutConns
| TWait.

Definition not_connected (d : gostring) : error :=
  Errorf (String.append "device " (String.append (go_string d) " not connected")).

(** [fmt.Sprintf] with the verb [0x%02x] *)
Definition kick_text (reason : Z) : string :=
  String.append "kicked with reason 0x"
    (String.append (hex_digit (reason / 16)) (hex_digit (reason mod 16))).

Definition device_of (c : connid) (s : server) : gostring :=
  match dcs s !! c with
  | Some dc => deviceID dc
  | None => []
  end.

(** What the packet loop does with one ReadPacket result. *)
Definition loop_step (o : ServerOptions) (c : connid) (serverKp : Z)
    (read : outcome ControlPacket) (s : server) : server * phase * list task :=
  match read with
  | Throw err =>
      if Contains (Error err) "unsupported packet type"
      then (snd (write_packet (new_disconnect DiscProtocolViolation) c s), PTeardown, [])
      else (s, PTeardown, [])
  | Ret (PPush pkt) =>
      (s, PLoop serverKp,
       if has_MessageHandler o then [TDeliver (device_of c s) (Payload pkt)] else [])
  | Ret (PPingreq _) => (snd (write_packet new_pingresp c s), PLoop serverKp, [])
  | Ret (PDisconnect _) => (s, PTeardown, [])
  | Ret _ => (snd (write_packet (new_disconnect DiscProtocolViolation) c s), PTeardown, [])
  | Diverge => (s, PLoop serverKp, [])
  end.

(** One atomic action of the goroutine of connection [c]. *)
Definition exec_handler (o : ServerOptions) (c : connid) (ph : phase) (s : server)
  : server * phase * list task :=
  match ph with
  | PStart => (s, PTrack, [])
  | PTrack => (set_conns ({[c]} ∪ conns s) s, PHello, [])
  | PHello =>
      match nets s !! c with
      | None => (s, PUntrack, [])
      | Some nc =>
          let '(first, nc') := ReadPacket nc in
          let s := set_net c nc' s in
          match hello_decision o first with
          | HClose => (conn_Close c s, PUntrack, [])
          | HReject code => (s, PReject code, [])
          | HAccept d kp => (s, PAccept d kp, [])
          end
      end
  | PReject code =>
      let s := snd (write_packet (new_connack code 0) c s) in
      (conn_Close c s, PUntrack, [])
  | PAccept d kp =>
      match write_packet (new_connack Accepted (u16 kp)) c s with
      | (Some _, s) => (conn_Close c s, PUntrack, [])
      | (None, s) => (s, PRegister d kp, [])
      end
  | PRegister d kp =>
      let s := newDeviceConnection c d s in
      let '(prev, st) := Register (store s) d c in
      (set_store st s, PEstablish kp,
       match prev with Some p => [TTakeover p] | None => [] end)
  | PEstablish kp => (log (OnConnectionEstablished (device_of c s)) s, PLoop kp, [])
  | PLoop kp =>
      match nets s !! c with
      | None => (s, PTeardown, [])
      | Some nc =>
          let '(read, nc') := ReadPacket nc in
          loop_step o c kp read (set_net c nc' s)
      end
  | PTeardown => (dc_Close c s, PRemove, [])
  | PRemove => (set_store (snd (Remove (store s) (device_of c s) c)) s, PClosed, [])
  | PClosed => (log (OnConnectionClosed (device_of c s) "connection closed") s, PUntrack, [])
  | PUntrack => (set_conns (conns s ∖ {[c]}) s, PDone, [])
  | PDone => (s, PDone, [])
  end.

(** One atomic action of any other goroutine; [TWait] only moves when the
    WaitGroup's counter is zero, see [may_run]. *)
Definition exec_task (t : task) (s : server) : server * list task :=
  match t with
  | TTakeover prev => (SendDisconnect prev DiscSessionTakenOver s, [TTakeoverClose prev])
  | TTakeoverClose prev => (dc_Close prev s, [])
  | TReap c => (SendDisconnect c DiscKeepaliveTimeout s, [TReapClose c])
  | TReapClose c => (dc_Close c s, [])
  | TDeliver d payload => (log (MessageHandler d payload) s, [])
  | TPush d payload =>
      match Get (store s) d with
      | Some c => if IsActive c s then (s, [TPushWrite c d payload])
                  else (log (PushResult d (Some (not_connected d))) s, [])
      | None => (log (PushResult d (Some (not_connected d))) s, [])
      end
  | TPushWrite c d payload =>
      let '(e, s) := dc_Write c payload s in (log (PushResult d e) s, [])
  | TKick d reason =>
      match Get (store s) d with
      | Some c => if IsActive c s then (s, [TKickSend c d reason])
                  else (log (KickResult d (Some (not_connected d))) s, [])
      | None => (log (KickResult d (Some (not_connected d))) s, [])
      end
  | TKickSend c d reason => (SendDisconnect c reason s, [TKickClose c d reason])
  | TKickClose c d reason => (dc_Close c s, [TKickRemove c d reason])
  | TKickRemove c d reason => (set_store (snd (Remove (store s) d c)) s, [TKickEvent d reason])
  | TKickEvent d reason =>
      (log (KickResult d None) (log (OnConnectionClosed d (kick_text reason)) s), [])
  | TClose => (s, [TShut (All (store s))])
  | TShut [] => (s, [TShutConns])
  | TShut (c :: cs) => (SendDisconnect c DiscServerShutdown s, [TShutClose c cs])
  | TShutClose c cs => (dc_Close c s, [TShut cs])
  | TShutConns => (set_fold conn_Close s (conns s), [TWait])
  | TWait => (log CloseResult s, [])
  end.

(** ** The transition system *)

Record config : Type := mkConfig {
  srv : server;
  handlers : gmap connid phase;
  tasks : list task;
}.

Definition init : config := mkConfig (mkServer NewConnectionStore ∅ ∅ ∅ []) ∅ [].

(** [wg.Wait()] blocks while a connection's goroutine is running; every other
    action is always possible. *)
Definition may_run (h : gmap connid phase) (t : task) : Prop :=
  t = TWait -> map_Forall (fun _ ph => running ph = false) h.

(** A goroutine of the server moves. *)
Inductive run_step (o : ServerOptions) : config -> config -> Prop :=
| run_handler s h ts c ph s' ph' new :
    h !! c = Some ph -> ph <> PDone ->
    exec_handler o c ph s = (s', ph', new) ->
    run_step o (mkConfig s h ts) (mkConfig s' (<[c := ph']> h) (new ++ ts))
| run_task s h pre t post s' new :
    may_run h t -> exec_task t s = (s', new) ->
    run_step o (mkConfig s h (pre ++ t :: post)) (mkConfig s' h (pre ++ new ++ post)).

(** The environment moves: a listener accepts a connection on which the peer
    will send [f]; the application calls Push (with a payload a frame can
    carry), Kick or Close; a keepalive timer fires while the loop it guards
    runs; the network starts or stops failing writes. *)
Inductive env_step : config -> config -> Prop :=
| env_accept s h ts c f :
    nets s !! c = None ->
    env_step (mkConfig s h ts)
      (mkConfig (set_net c (mkNet f f [] false None false) s) (<[c := PStart]> h) ts)
| env_push s h ts d payload :
    Z.of_nat (length payload) < 2 ^ 28 - 1 ->
    env_step (mkConfig s h ts) (mkConfig s h (TPush d payload :: ts))
| env_kick s h ts d reason :
    byte_ok reason ->
    env_step (mkConfig s h ts) (mkConfig s h (TKick d reason :: ts))
| env_close s h ts : env_step (mkConfig s h ts) (mkConfig s h (TClose :: ts))
| env_timer s h ts c kp :
    h !! c = Some (PLoop kp) -> is_Some (keepaliveTimer kp) ->
    env_step (mkConfig s h ts) (mkConfig s h (TReap c :: ts))
| env_fault s h ts c nc e :
    nets s !! c = Some nc ->
    env_step (mkConfig s h ts)
      (mkConfig (set_net c (set_fault e nc) s) h ts).

Definition sys_step (o : ServerOptions) (x y : config) : Prop :=
  run_step o x y \/ env_step x y.

Definition reachable (o : ServerOptions) (x : config) : Prop := rtc (sys_step o) init x.
