(* ===== verification/CodecErrors.v ===== *)
(** * The tables of return codes

    codec/errors.go and the table of texts in codec/constants.go.  No code of the
    library reads them; they are there for its users. *)

From Stdlib Require Import ZArith Lia String.
From stdpp Require Import base list strings gmap numbers.
From S2P Require Import Prelude GoIO Codec Store Server.

Local Open Scope Z_scope.

Definition ErrorRefusedBadProtocolVersion : error :=
  Sentinel "codec.ErrorRefusedBadProtocolVersion" "unacceptable protocol version".
Definition ErrorRefusedServerUnavailable : error :=
  Sentinel "codec.ErrorRefusedServerUnavailable" "server Unavailable".
Definition ErrorRefusedNotAuthorised : error :=
  Sentinel "codec.ErrorRefusedNotAuthorised" "not Authorized".
Definition ErrorNetworkError : error := Sentinel "codec.ErrorNetworkError" "network Error".
Definition ErrorProtocolViolation : error :=
  Sentinel "codec.ErrorProtocolViolation" "protocol Violation".

(** The entries; a nil error is [None]. *)
Definition conn_errors : list (Z * option error) :=
  [(Accepted, None);
   (ErrRefusedBadProtocolVersion, Some ErrorRefusedBadProtocolVersion);
   (ErrRefusedServerUnavailable, Some ErrorRefusedServerUnavailable);
   (ErrRefusedNotAuthorised, Some ErrorRefusedNotAuthorised);
   (ErrNetworkError, Some ErrorNetworkError);
   (ErrProtocolViolation, Some ErrorProtocolViolation)].

Definition ConnErrors : gmap Z (option error) := list_to_map conn_errors.

Definition ConnackReturnCodes : gmap Z string := list_to_map
  [(0, "Connection Accepted"%string);
   (1, "Connection Refused: Bad Protocol Version"%string);
   (2, "Connection Refused: Server Unavailable"%string);
   (3, "Connection Refused: Not Authorised"%string);
   (254, "Connection Error"%string);
   (255, "Connection Refused: Protocol Violation"%string)].

(** Both tables list the same codes; exactly Accepted has the nil error; and
    different codes have different errors. *)
Theorem return_code_tables :
  dom ConnErrors = dom ConnackReturnCodes /\
  (forall code, ConnErrors !! code = Some None <-> code = Accepted) /\
  (forall c1 c2 e, ConnErrors !! c1 = Some e -> ConnErrors !! c2 = Some e -> c1 = c2).
Proof.
  assert (Hc : forall code e, ConnErrors !! code = Some e -> (code, e) ∈ conn_errors).
  { intros code e. apply elem_of_list_to_map_2. }
  split; [by vm_compute|]. split.
  - intros code. split; [|by intros ->]. intros H%Hc. unfold conn_errors in H. set_unfold. naive_solver.
  - intros c1 c2 e H1%Hc H2%Hc. unfold conn_errors in *. set_unfold. naive_solver.
Qed.

(** Every refusal of the server's handshake is in the tables, as an error. *)
Theorem refusals_listed (o : ServerOptions) (first : outcome ControlPacket) (code : Z) :
  hello_decision o first = HReject code ->
  exists e, ConnErrors !! code = Some (Some e) /\ is_Some (ConnackReturnCodes !! code).
Proof.
  destruct first as [[p| | | | |]| |]; try done. cbn.
  repeat case_match; intros [= <-]; eexists; (split; [reflexivity|by eexists]).
Qed.
