(* ===== verification/ServerFacts.v ===== *)
(** * The server's invariant and its consequences

    One invariant over all reachable configurations, proved by showing that
    every action either leaves a connection alone or [evolves] it (closes it,
    appends a complete frame, deactivates its deviceConnection), plus the
    handler's own phase change.  A measure shows that the server's goroutines
    always come to rest. *)

From Stdlib Require Import ZArith Lia String.
From stdpp Require Import base list strings gmap numbers.
From S2P Require Import Prelude GoIO Codec CodecFacts Store Server.

Local Open Scope Z_scope.

(** ** Network connections are lawful streams *)

#[global] Program Instance netconn_stream : Stream netconn := {|
  pending nc := if nc_closed nc then [] else fl_bytes (nc_in nc);
  ending nc := if nc_closed nc then net_ErrClosed else fl_end (nc_in nc);
|}.
Next Obligation.
  intros n [all inp out [] fault torn] Hn; unfold Read, netconn_reader; cbn [nc_closed nc_in].
  - exists 0%nat, (Some net_ErrClosed), (mkNet all inp out true fault torn). cbn.
    repeat split; [lia|right; done].
  - destruct (Read_spec n inp Hn) as (k & e & f & -> & Hk & Hp & He & Hc).
    exists k, e, (mkNet all f out false fault torn). done.
Qed.

(** Reading changes nothing but the input, and nothing at all once closed. *)
Definition same_conn (nc nc' : netconn) : Prop :=
  nc' = mkNet (nc_all nc) (nc_in nc') (nc_out nc) (nc_closed nc) (nc_fault nc) (nc_torn nc) /\
  (nc_closed nc = true -> nc' = nc).

#[global] Instance same_conn_preorder : PreOrder same_conn.
Proof.
  split.
  - intros []. by split.
  - intros x y z [Hxy Hc] [Hyz Hc']. split; [rewrite Hyz, Hxy; done|].
    intros Hx. specialize (Hc Hx). subst y. auto.
Qed.

Lemma ReadFull_loop_net fuel n acc nc :
  same_conn nc (snd (ReadFull_loop fuel n acc nc)).
Proof.
  revert acc nc. induction fuel as [|fuel IH]; intros acc nc; cbn [ReadFull_loop];
    destruct (n <=? length acc)%nat; try done.
  unfold Read, netconn_reader. destruct (nc_closed nc) eqn:Hcl; cbn [length].
  - destruct (_ <=? _)%nat; [done|]. by destruct (_ && _).
  - destruct (Read _ (nc_in nc)) as [[bs [e|]] f].
    + assert (same_conn nc (mkNet (nc_all nc) f (nc_out nc) false (nc_fault nc) (nc_torn nc)))
        by (split; cbn; congruence).
      destruct (_ <=? _)%nat; [done|]. by destruct (_ && _).
    + etransitivity; [|apply IH]. split; cbn; congruence.
Qed.

Definition keeps_net {A} (m : M netconn A) : Prop := forall nc, same_conn nc (snd (m nc)).

Lemma keeps_then {A B} (m : M netconn A) (k : A -> M netconn B) :
  keeps_net m -> (forall a, keeps_net (k a)) -> keeps_net (mthen m k).
Proof.
  intros Hm Hk nc. specialize (Hm nc). unfold mthen. destruct (m nc) as [[a|e|] nc']; [|done..].
  etransitivity; [exact Hm|apply Hk].
Qed.

Lemma keeps_lift {A} (o : outcome A) : keeps_net (lift o).
Proof. by intros nc. Qed.

Lemma keeps_decodeLength fuel acc mult : keeps_net (decodeLength_loop fuel acc mult).
Proof.
  revert acc mult. induction fuel as [|fuel IH]; intros acc mult; cbn [decodeLength_loop].
  - by case_match; intros nc.
  - case_match; [|by intros nc].
    apply keeps_then; [intros nc; apply ReadFull_loop_net|]. intros b.
    case_match; [by intros nc|apply IH].
Qed.

Lemma keeps_ReadPacket : keeps_net ReadPacket.
Proof.
  apply keeps_then; [intros nc; apply ReadFull_loop_net|intros b].
  apply keeps_then; [|intros fh].
  { unfold unpack. case_match; [by intros nc|].
    apply keeps_then; [apply keeps_decodeLength|by intros ? nc]. }
  apply keeps_then; [apply keeps_lift|intros cp].
  apply keeps_then; [intros nc; apply ReadFull_loop_net|intros bs].
  case_match; [by intros nc|apply keeps_lift].
Qed.

(** Reading a packet: closed connections fail, open ones read their input. *)
Lemma ReadPacket_net nc :
  ReadPacket nc =
    if nc_closed nc then (Throw net_ErrClosed, nc)
    else (fst (ReadPacket (nc_in nc)),
          mkNet (nc_all nc) (snd (ReadPacket (nc_in nc))) (nc_out nc) false (nc_fault nc) (nc_torn nc)).
Proof.
  pose proof (ReadPacket_sim nc) as Hs. destruct (keeps_ReadPacket nc) as [Hk Hc].
  destruct (ReadPacket nc) as [o nc']. cbn in Hk, Hc. unfold flatten in Hs. cbn in Hs.
  destruct (nc_closed nc) eqn:Hcl.
  - rewrite (Hc eq_refl) in *. rewrite Hcl, ReadPacket_nil in Hs. by simplify_eq.
  - assert (nc_closed nc' = false) as Hcl' by (by rewrite Hk). rewrite Hcl' in Hs.
    destruct (nc_in nc) as [bs e] eqn:Hin. cbn in Hs. rewrite Hs. cbn.
    rewrite Hk. by destruct (nc_in nc').
Qed.

(** The connection after a Write call that it took [bs] of. *)
Definition wrote (bs : list Z) (torn : bool) (nc : netconn) : netconn :=
  mkNet (nc_all nc) (nc_in nc) (nc_out nc ++ [bs]) false (nc_fault nc) torn.

(** Writing a packet: a whole frame, or an error and a prefix of the frame (on a
    closed connection, nothing at all). *)
Lemma Packet_Write_net cp nc :
  exists cp', Packet_Write cp nc =
    if nc_closed nc then ((cp', Some net_ErrClosed), nc)
    else match nc_fault nc with
         | Some (k, e) => ((cp', Some e), wrote (take k (frame cp)) true nc)
         | None => ((cp', None), wrote (frame cp) (nc_torn nc) nc)
         end.
Proof.
  destruct (Packet_Write_one cp nc) as [cp' ->]. exists cp'. unfold wrote.
  unfold Write, netconn_writer, write_result. destruct (nc_closed nc); [done|].
  destruct (nc_fault nc) as [[k e]|]; [done|]. by rewrite Z.eqb_refl, orb_true_r.
Qed.

(** ** The invariant *)

(** A complete frame of a well-formed packet. *)
Definition frame_ok (bs : list Z) : Prop := exists cp, packet_ok cp /\ bs = frame cp.

(** What one Write call can leave on the wire: a frame cut short anywhere. *)
Definition chunk_ok (bs : list Z) : Prop :=
  exists cp k, packet_ok cp /\ bs = take k (frame cp).

Lemma frame_chunk bs : frame_ok bs -> chunk_ok bs.
Proof. intros (cp & Hok & ->). exists cp, (length (frame cp)). by rewrite firstn_all. Qed.

(** The first thing sent is CONNACK. *)
Definition connack_first (code : Z) (nc : netconn) : Prop :=
  exists kp rest, 0 <= kp < 65536 /\ nc_out nc = frame (new_connack code kp) :: rest.

(** Without a failed write, whole frames only. *)
Definition out_ok (nc : netconn) : Prop :=
  Forall chunk_ok (nc_out nc) /\
  (nc_torn nc = false -> Forall frame_ok (nc_out nc)) /\
  (nc_out nc = [] \/ (exists code, connack_first code nc) \/
   (nc_torn nc = true /\ exists code kp k, nc_out nc = [take k (frame (new_connack code kp))])).

(** What the first packet of the peer's bytes [f] must be for the server to
    accept the peer as device [d]. *)
Definition authorised (o : ServerOptions) (f : flat) (d : gostring) : Prop :=
  exists p rest, ReadPacket f = (Ret (PConnect p), rest) /\
    MagicNumber p = magic /\ ProtocolVersion p = 1 /\ d <> [] /\
    match Authenticator o with
    | Some auth => auth (Credential p) = (d, true)
    | None => Credential p = d
    end.

Definition phase_inv (o : ServerOptions) (s : server) (c : connid) (nc : netconn) (ph : phase)
  : Prop :=
  match ph with
  | PStart | PTrack | PHello => dcs s !! c = None /\ nc_in nc = nc_all nc /\ nc_out nc = []
  | PReject code => dcs s !! c = None /\ nc_out nc = [] /\ byte_ok code /\ code <> Accepted
  | PAccept d kp => dcs s !! c = None /\ nc_out nc = [] /\ authorised o (nc_all nc) d
  | PRegister d kp =>
      dcs s !! c = None /\ connack_first Accepted nc /\ authorised o (nc_all nc) d
  | PEstablish _ | PTeardown => is_Some (dcs s !! c)
  | PLoop _ => exists x, dcs s !! c = Some x /\
      OnConnectionEstablished (deviceID x) ∈ events s
  | PRemove | PClosed => exists x, dcs s !! c = Some x /\ active x = false
  | PUntrack | PDone => nc_closed nc = true
  end.

(** Phases in which the connection may still be in the store. *)
Definition registered (ph : phase) : bool :=
  match ph with PEstablish _ | PLoop _ | PTeardown | PRemove => true | _ => false end.

Definition dc_inv (o : ServerOptions) (x : deviceConnection) (nc : netconn) : Prop :=
  (active x = false -> nc_closed nc = true) /\ connack_first Accepted nc /\
  authorised o (nc_all nc) (deviceID x).

Definition store_inv (s : server) (h : gmap connid phase) : Prop :=
  forall d c, store s !! d = Some c -> exists x ph,
    dcs s !! c = Some x /\ deviceID x = d /\ h !! c = Some ph /\ registered ph = true.

Definition conns_inv (s : server) (h : gmap connid phase) : Prop :=
  forall c, c ∈ conns s -> exists ph, h !! c = Some ph /\ running ph = true.

Definition known_conn (s : server) (c : connid) : Prop := is_Some (dcs s !! c).

Definition task_ok (s : server) (t : task) : Prop :=
  match t with
  | TTakeover c | TTakeoverClose c | TReap c | TReapClose c => known_conn s c
  | TDeliver d _ => OnConnectionEstablished d ∈ events s
  | TPush _ payload => Z.of_nat (length payload) < 2 ^ 28 - 1
  | TPushWrite c _ payload => known_conn s c /\ Z.of_nat (length payload) < 2 ^ 28 - 1
  | TKick _ r => byte_ok r
  | TKickSend c _ r | TKickClose c _ r | TKickRemove c _ r => known_conn s c /\ byte_ok r
  | TKickEvent _ _ | TClose | TShutConns | TWait => True
  | TShut cs => Forall (known_conn s) cs
  | TShutClose c cs => Forall (known_conn s) (c :: cs)
  end.

(** Application messages come after the device was announced. *)
Definition is_message (e : event) : bool :=
  match e with MessageHandler _ _ => true | _ => false end.

Definition events_ok (evs : list event) : Prop :=
  forall later d payload earlier, evs = later ++ MessageHandler d payload :: earlier ->
    OnConnectionEstablished d ∈ earlier.

Record inv (o : ServerOptions) (x : config) : Prop := mkInv {
  inv_dom : forall c, is_Some (handlers x !! c) <-> is_Some (nets (srv x) !! c);
  inv_phase : forall c ph nc, handlers x !! c = Some ph -> nets (srv x) !! c = Some nc ->
    phase_inv o (srv x) c nc ph;
  inv_dc : forall c dc, dcs (srv x) !! c = Some dc ->
    exists nc, nets (srv x) !! c = Some nc /\ dc_inv o dc nc;
  inv_out : forall c nc, nets (srv x) !! c = Some nc -> out_ok nc;
  inv_store : store_inv (srv x) (handlers x);
  inv_conns : conns_inv (srv x) (handlers x);
  inv_tasks : Forall (task_ok (srv x)) (tasks x);
  inv_events : events_ok (events (srv x));
}.

(** ** How actions change connections they do not own *)

Definition net_evolves (has_dc : bool) (nc nc' : netconn) : Prop :=
  nc_all nc' = nc_all nc /\ nc_in nc' = nc_in nc /\
  (nc_closed nc = true -> nc_closed nc' = true) /\
  (nc_torn nc = true -> nc_torn nc' = true) /\
  exists l, nc_out nc' = nc_out nc ++ l /\ Forall chunk_ok l /\
    (nc_torn nc' = false -> Forall frame_ok l) /\ (has_dc = false -> l = []).

Definition dc_evolves (x x' : deviceConnection) (nc' : netconn) : Prop :=
  deviceID x' = deviceID x /\ (active x = false -> active x' = false) /\
  (active x' = false -> active x = false \/ nc_closed nc' = true).

(** Connection [c] after an action of somebody else. *)
Definition conn_evolves (s s' : server) (c : connid) : Prop :=
  match nets s !! c, dcs s !! c with
  | Some nc, Some x => exists nc' x', nets s' !! c = Some nc' /\ dcs s' !! c = Some x' /\
      net_evolves true nc nc' /\ dc_evolves x x' nc'
  | Some nc, None => exists nc', nets s' !! c = Some nc' /\ dcs s' !! c = None /\
      net_evolves false nc nc'
  | None, x => nets s' !! c = None /\ (x = None -> dcs s' !! c = None)
  end.

Definition events_grow (s s' : server) : Prop :=
  exists l, events s' = l ++ events s /\ Forall (fun e => is_message e = false) l.

(** No write happened. *)
Lemma net_evolves_quiet b nc nc' :
  nc_all nc' = nc_all nc -> nc_in nc' = nc_in nc -> nc_out nc' = nc_out nc ->
  nc_torn nc' = nc_torn nc -> (nc_closed nc = true -> nc_closed nc' = true) ->
  net_evolves b nc nc'.
Proof.
  intros Ha Hi Ho Ht Hc. repeat split; auto; [by rewrite Ht|].
  exists []. rewrite Ho, app_nil_r. by repeat constructor.
Qed.

Lemma net_evolves_refl b nc : net_evolves b nc nc.
Proof. by apply net_evolves_quiet. Qed.

Lemma net_evolves_close b nc : net_evolves b nc (net_close nc).
Proof. by apply net_evolves_quiet. Qed.

(** One Write call. *)
Lemma net_evolves_wrote nc bs torn :
  nc_closed nc = false -> chunk_ok bs -> (torn = false -> frame_ok bs) ->
  (nc_torn nc = true -> torn = true) -> net_evolves true nc (wrote bs torn nc).
Proof.
  intros Hc Hb Hf Ht. repeat split; cbn; auto; [congruence|].
  exists [bs]. repeat split; [by repeat constructor| |done].
  intros Hn. repeat constructor. auto.
Qed.

Lemma dc_evolves_refl x nc : dc_evolves x x nc.
Proof. repeat split; auto. Qed.

Lemma conn_evolves_same s s' c :
  nets s' !! c = nets s !! c -> dcs s' !! c = dcs s !! c -> conn_evolves s s' c.
Proof.
  intros Hn Hd. unfold conn_evolves. rewrite Hn, Hd.
  destruct (nets s !! c) as [nc|], (dcs s !! c) as [x|]; [exists nc, x|exists nc|done|done];
    auto using net_evolves_refl, dc_evolves_refl.
Qed.

(** An action on the network connection of [c] only. *)
Lemma set_net_evolves s c nc nc' c' :
  nets s !! c = Some nc ->
  net_evolves (bool_decide (is_Some (dcs s !! c))) nc nc' ->
  conn_evolves s (set_net c nc' s) c'.
Proof.
  intros Hnc He. destruct (decide (c' = c)) as [->|Hne].
  2: { apply conn_evolves_same; [cbn; by rewrite lookup_insert_ne|done]. }
  unfold conn_evolves. rewrite Hnc. cbn. rewrite lookup_insert_eq.
  destruct (dcs s !! c) as [x|]; [exists nc', x|exists nc'];
    auto using dc_evolves_refl.
Qed.

Lemma write_packet_evolves cp c s c' :
  packet_ok cp -> is_Some (dcs s !! c) -> conn_evolves s (snd (write_packet cp c s)) c'.
Proof.
  intros Hok Hx. unfold write_packet.
  destruct (nets s !! c) as [nc|] eqn:Hnc; [|by apply conn_evolves_same].
  destruct (Packet_Write_net cp nc) as [cp' ->].
  destruct (nc_closed nc) eqn:Hc; [|destruct (nc_fault nc) as [[k e]|]]; cbn.
  { by eapply set_net_evolves; [|apply net_evolves_refl]. }
  all: eapply set_net_evolves; [done|]; rewrite bool_decide_true by done;
    apply net_evolves_wrote; try done.
  - by exists cp, k.
  - apply frame_chunk. by exists cp.
  - by exists cp.
Qed.

Lemma SendDisconnect_evolves c r s c' :
  byte_ok r -> conn_evolves s (SendDisconnect c r s) c'.
Proof.
  intros Hr. unfold SendDisconnect, IsActive.
  destruct (dcs s !! c) as [x|] eqn:Hx; [|by apply conn_evolves_same].
  destruct (active x); [|by apply conn_evolves_same].
  apply write_packet_evolves; [by split|by rewrite Hx].
Qed.

Lemma dc_Write_evolves c payload s c' :
  Z.of_nat (length payload) < 2 ^ 28 - 1 -> conn_evolves s (snd (dc_Write c payload s)) c'.
Proof.
  intros Hr. unfold dc_Write, IsActive.
  destruct (dcs s !! c) as [x|] eqn:Hx; [|by apply conn_evolves_same].
  destruct (active x); [|by apply conn_evolves_same].
  apply write_packet_evolves; [by split|by rewrite Hx].
Qed.

Lemma conn_Close_evolves c s c' : conn_evolves s (conn_Close c s) c'.
Proof.
  unfold conn_Close. destruct (nets s !! c) as [nc|] eqn:Hnc; [|by apply conn_evolves_same].
  eapply set_net_evolves; [done|apply net_evolves_close].
Qed.

Lemma dc_Close_evolves c s c' : conn_evolves s (dc_Close c s) c'.
Proof.
  unfold dc_Close. destruct (dcs s !! c) as [x|] eqn:Hx; [|by apply conn_evolves_same].
  destruct (active x) eqn:Ha; [|by apply conn_evolves_same].
  unfold conn_Close. cbn.
  destruct (decide (c' = c)) as [->|Hne].
  2: { destruct (nets s !! c); apply conn_evolves_same; cbn; by rewrite ?lookup_insert_ne. }
  unfold conn_evolves. rewrite Hx. destruct (nets s !! c) as [nc|] eqn:Hnc; cbn; [|done].
  exists (net_close nc), (mkDC (deviceID x) false). rewrite !lookup_insert_eq.
  split; [done|]. split; [done|]. split; [apply net_evolves_close|]. repeat split; auto.
Qed.

(** Evolution composes, so closing every tracked connection is one too. *)
Lemma net_evolves_trans b nc1 nc2 nc3 :
  net_evolves b nc1 nc2 -> net_evolves b nc2 nc3 -> net_evolves b nc1 nc3.
Proof.
  intros (A1 & I1 & C1 & T1 & l1 & O1 & F1 & W1 & N1) (A2 & I2 & C2 & T2 & l2 & O2 & F2 & W2 & N2).
  repeat split; [congruence|congruence|auto|auto|]. exists (l1 ++ l2).
  rewrite O2, O1, app_assoc. repeat split; [by apply Forall_app| |].
  - intros Ht. apply Forall_app. split; [|auto]. apply W1.
    destruct (nc_torn nc2); [|done]. by rewrite T2 in Ht.
  - intros Hb. by rewrite N1, N2.
Qed.

Lemma conn_evolves_trans s1 s2 s3 c :
  conn_evolves s1 s2 c -> conn_evolves s2 s3 c -> conn_evolves s1 s3 c.
Proof.
  unfold conn_evolves. destruct (nets s1 !! c) as [nc1|], (dcs s1 !! c) as [x1|].
  - intros (nc2 & x2 & -> & -> & N1 & D1) (nc3 & x3 & -> & -> & N2 & D2).
    exists nc3, x3. repeat split; [by eapply net_evolves_trans..| | |]; destruct D1 as (? & ? & D1), D2 as (? & ? & D2).
    + congruence.
    + auto.
    + intros [Hx|Hx]%D2; [|auto]. apply D1 in Hx as [|]; [auto|right].
      by apply (proj1 (proj2 (proj2 N2))).
  - intros (nc2 & -> & -> & N1) (nc3 & -> & -> & N2). exists nc3.
    repeat split; by eapply net_evolves_trans.
  - intros [-> _] H2. destruct (dcs s2 !! c); naive_solver.
  - intros [-> ->] H2; [|done]. naive_solver.
Qed.

Lemma close_all_evolves (cs : gset connid) s c : conn_evolves s (set_fold conn_Close s cs) c.
Proof.
  apply (set_fold_ind_L (fun s' _ => conn_evolves s s' c)).
  - by apply conn_evolves_same.
  - intros x X s' _ IH. eapply conn_evolves_trans; [exact IH|apply conn_Close_evolves].
Qed.

(** ** Preservation *)

Lemma connack_first_evolves b code nc nc' :
  net_evolves b nc nc' -> connack_first code nc -> connack_first code nc'.
Proof.
  intros (_ & _ & _ & _ & l & Ho & _) (kp & rest & Hk & Hf).
  exists kp, (rest ++ l). by rewrite Ho, Hf.
Qed.

Lemma out_ok_evolves b nc nc' : (b = false \/ exists code, connack_first code nc) ->
  net_evolves b nc nc' -> out_ok nc -> out_ok nc'.
Proof.
  intros Hb He (Hf & Hw & Hc). destruct (He) as (_ & _ & _ & Ht & l & Ho & Hl & Hlw & Hn).
  unfold out_ok. rewrite Ho. split; [by apply Forall_app|]. split.
  - intros Hnt. apply Forall_app. split; [|auto]. apply Hw.
    destruct (nc_torn nc); [|done]. by rewrite Ht in Hnt.
  - destruct Hb as [Hb|[code Hb]]; [|right; left; exists code; by eapply connack_first_evolves].
    specialize (Hn Hb). subst l. rewrite app_nil_r.
    destruct Hc as [Hc|[(code & Hc)|(Hc & H')]]; [by left| |].
    + right. left. exists code. by eapply connack_first_evolves.
    + right. right. split; [auto|done].
Qed.

Lemma phase_inv_evolves o s s' c nc nc' ph :
  nets s !! c = Some nc -> nets s' !! c = Some nc' ->
  conn_evolves s s' c -> (forall e, e ∈ events s -> e ∈ events s') ->
  phase_inv o s c nc ph -> phase_inv o s' c nc' ph.
Proof.
  intros Hnc Hnc' He Hev. unfold conn_evolves in He. rewrite Hnc in He.
  assert (Hpre : dcs s !! c = None -> dcs s' !! c = None /\ nc_in nc' = nc_in nc /\
    nc_all nc' = nc_all nc /\ nc_out nc' = nc_out nc).
  { intros Hd. rewrite Hd in He. destruct He as (nc2 & Hnc2 & Hd2 & A & I & C & _ & l & O & _ & _ & N).
    rewrite Hnc' in Hnc2. simplify_eq. rewrite O, N, app_nil_r by done. done. }
  assert (Hpost : forall x, dcs s !! c = Some x -> exists x', dcs s' !! c = Some x' /\
    deviceID x' = deviceID x /\ (active x = false -> active x' = false)).
  { intros x Hx. rewrite Hx in He. destruct He as (nc2 & x2 & _ & Hx2 & _ & D & A & _).
    by exists x2. }
  assert (Hcl : nc_closed nc = true -> nc_closed nc' = true).
  { destruct (dcs s !! c); [destruct He as (nc2 & x2 & Hnc2 & _ & (_ & _ & C & _) & _)|
      destruct He as (nc2 & Hnc2 & _ & (_ & _ & C & _))]; rewrite Hnc' in Hnc2; by simplify_eq. }
  destruct ph; cbn; try (intros (Hd & Hrest); destruct (Hpre Hd) as (-> & HI & HA & HO);
    try unfold connack_first in *; rewrite ?HI, ?HA, ?HO; done).
  - intros [x Hx]. destruct (Hpost x Hx) as (x' & -> & _). done.
  - intros (x & Hx & Hin). destruct (Hpost x Hx) as (x' & -> & Hid & _).
    exists x'. rewrite Hid. auto.
  - intros [x Hx]. destruct (Hpost x Hx) as (x' & -> & _). done.
  - intros (x & Hx & Ha). destruct (Hpost x Hx) as (x' & -> & _ & Ha'). eauto.
  - intros (x & Hx & Ha). destruct (Hpost x Hx) as (x' & -> & _ & Ha'). eauto.
  - auto.
  - auto.
Qed.

Lemma dc_inv_evolves o x x' nc nc' :
  net_evolves true nc nc' -> dc_evolves x x' nc' -> dc_inv o x nc -> dc_inv o x' nc'.
Proof.
  intros He (Hid & _ & Ha) (Hc & Hf & Hau). repeat split.
  - intros [Hx|Hx]%Ha; [|done]. by apply (proj1 (proj2 (proj2 He))), Hc.
  - by eapply connack_first_evolves.
  - by rewrite Hid, (proj1 He).
Qed.

(** A device connection keeps its device and stays inactive once it is. *)
Definition dc_kept (x x' : deviceConnection) : Prop :=
  deviceID x' = deviceID x /\ (active x = false -> active x' = false).

Lemma dc_kept_refl x : dc_kept x x.
Proof. done. Qed.

#[export] Hint Resolve dc_kept_refl : rmtt core.

Definition ids_kept (s s' : server) : Prop := forall c x, dcs s !! c = Some x ->
  exists x', dcs s' !! c = Some x' /\ dc_kept x x'.

Lemma task_ok_mono s s' t :
  ids_kept s s' -> (forall e, e ∈ events s -> e ∈ events s') -> task_ok s t -> task_ok s' t.
Proof.
  intros Hids Hev.
  assert (Hk : forall c, known_conn s c -> known_conn s' c).
  { intros c [x Hx]. destruct (Hids c x Hx) as (x' & Hx' & _). by exists x'. }
  destruct t; cbn; intuition auto; eapply Forall_mono; eauto.
Qed.

Lemma events_grow_in s s' : events_grow s s' -> forall e, e ∈ events s -> e ∈ events s'.
Proof. intros (l & -> & _) e He. apply elem_of_app. by right. Qed.

Lemma events_grow_ok s s' : events_grow s s' -> events_ok (events s) -> events_ok (events s').
Proof.
  intros (l & -> & Hl) Hok later d p earlier Heq.
  destruct (app_eq_inv _ _ _ _ Heq) as [(k & -> & Hk)|(k & -> & Hk)].
  - destruct k as [|e k]; cbn in Hk; [by apply (Hok [] d p earlier)|].
    simplify_eq. apply Forall_app in Hl as [_ Hl]. by inversion_clear Hl.
  - by apply (Hok k d p earlier).
Qed.

(** The part of the invariant that concerns one connection. *)
Definition own_inv (o : ServerOptions) (s : server) (c : connid) (ph : phase) : Prop :=
  exists nc, nets s !! c = Some nc /\ phase_inv o s c nc ph /\ out_ok nc /\
    forall x, dcs s !! c = Some x -> dc_inv o x nc.

Lemma conn_evolves_net s s' c :
  conn_evolves s s' c -> is_Some (nets s' !! c) <-> is_Some (nets s !! c).
Proof.
  unfold conn_evolves. destruct (nets s !! c) as [nc|], (dcs s !! c) as [x|].
  - intros (nc' & x' & -> & _). done.
  - intros (nc' & -> & _). done.
  - by intros [-> _].
  - by intros [-> _].
Qed.

Lemma conn_evolves_no_dc s s' c :
  conn_evolves s s' c -> dcs s !! c = None -> dcs s' !! c = None.
Proof.
  unfold conn_evolves. intros He Hd. rewrite Hd in He.
  destruct (nets s !! c) as [nc|]; [by destruct He as (nc' & _ & ? & _)|by apply He].
Qed.

Lemma inv_preserve (own : option connid) o s h ts s' h' ts' :
  inv o (mkConfig s h ts) -> events_grow s s' ->
  (forall c, own <> Some c -> conn_evolves s s' c /\ h' !! c = h !! c) ->
  (forall c, own = Some c -> exists ph, h' !! c = Some ph /\ own_inv o s' c ph) ->
  store_inv s' h' -> conns_inv s' h' -> Forall (task_ok s') ts' ->
  inv o (mkConfig s' h' ts').
Proof.
  intros [Hdom Hph Hdc Hout _ _ _ Hev] Hgrow Hoth Hown Hst Hcs Hts. cbn in *.
  assert (Hin := events_grow_in _ _ Hgrow).
  assert (Hnet : forall c, own <> Some c -> is_Some (nets s' !! c) <-> is_Some (nets s !! c)).
  { intros c Hc. destruct (Hoth c Hc) as [He _]. by apply conn_evolves_net. }
  split; cbn; [| | | |done|done|done|by eapply events_grow_ok].
  - intros c. destruct (decide (own = Some c)) as [Ho|Ho].
    + destruct (Hown c Ho) as (ph & -> & nc & -> & _). done.
    + rewrite Hnet by done. destruct (Hoth c Ho) as [_ ->]. apply Hdom.
  - intros c ph nc Hhc Hnc. destruct (decide (own = Some c)) as [Ho|Ho].
    + destruct (Hown c Ho) as (ph' & Hh' & nc' & Hn' & ? & _). by simplify_eq.
    + destruct (Hoth c Ho) as [He Hh]. rewrite Hh in Hhc.
      assert (is_Some (nets s !! c)) as [nc0 Hnc0] by (apply Hnet; eauto).
      by eapply phase_inv_evolves; eauto.
  - intros c x Hx. destruct (decide (own = Some c)) as [Ho|Ho].
    + destruct (Hown c Ho) as (ph' & Hh' & nc' & Hn' & _ & _ & Hd). eauto.
    + destruct (Hoth c Ho) as [He _]. unfold conn_evolves in He.
      destruct (dcs s !! c) as [x0|] eqn:Hx0.
      * destruct (Hdc c x0 Hx0) as (nc0 & Hnc0 & Hd0). rewrite Hnc0 in He.
        destruct He as (nc' & x' & Hn' & Hx' & Hne & Hde). simplify_eq.
        exists nc'. split; [done|]. by eapply dc_inv_evolves.
      * by rewrite (conn_evolves_no_dc s s' c) in Hx by (unfold conn_evolves; by rewrite ?Hx0).
  - intros c nc Hnc. destruct (decide (own = Some c)) as [Ho|Ho].
    + destruct (Hown c Ho) as (ph' & Hh' & nc' & Hn' & _ & ? & _). by simplify_eq.
    + destruct (Hoth c Ho) as [He _]. unfold conn_evolves in He.
      assert (is_Some (nets s !! c)) as [nc0 Hnc0] by (apply Hnet; eauto). rewrite Hnc0 in He.
      destruct (dcs s !! c) as [x0|] eqn:Hx0.
      * destruct (Hdc c x0 Hx0) as (nc1 & Hnc1 & _ & Ho1 & _).
        destruct He as (nc' & x' & Hn' & _ & Hne & _). simplify_eq.
        eapply (out_ok_evolves true); [right|exact Hne|by apply (Hout c)]. eauto.
      * destruct He as (nc' & Hn' & _ & Hne). simplify_eq.
        eapply (out_ok_evolves false); [by left|exact Hne|by apply (Hout c)].
Qed.

(** Operations on connections leave the tables and the log alone. *)
Definition same_tables (s s' : server) : Prop :=
  store s' = store s /\ conns s' = conns s /\ events s' = events s.

#[global] Instance same_tables_preorder : PreOrder same_tables.
Proof. split; [done|]. intros x y z (?&?&?) (?&?&?). repeat split; congruence. Qed.

Lemma write_packet_tables cp c s : same_tables s (snd (write_packet cp c s)).
Proof. unfold write_packet. destruct (nets s !! c); [|done]. by destruct (Packet_Write _ _) as [[]]. Qed.

Lemma conn_Close_tables c s : same_tables s (conn_Close c s).
Proof. unfold conn_Close. by destruct (nets s !! c). Qed.

Lemma dc_Close_tables c s : same_tables s (dc_Close c s).
Proof.
  unfold dc_Close. destruct (dcs s !! c) as [x|]; [|done]. destruct (active x); [|done].
  by etransitivity; [|apply conn_Close_tables].
Qed.

Lemma SendDisconnect_tables c r s : same_tables s (SendDisconnect c r s).
Proof. unfold SendDisconnect. destruct (IsActive c s); [apply write_packet_tables|done]. Qed.

Lemma dc_Write_tables c p s : same_tables s (snd (dc_Write c p s)).
Proof. unfold dc_Write. destruct (IsActive c s); [apply write_packet_tables|done]. Qed.

Lemma close_all_tables (cs : gset connid) s : same_tables s (set_fold conn_Close s cs).
Proof.
  apply (set_fold_ind_L (fun s' _ => same_tables s s')); [done|].
  intros x X s' _ IH. etransitivity; [exact IH|apply conn_Close_tables].
Qed.

#[export] Hint Resolve write_packet_tables conn_Close_tables dc_Close_tables
  SendDisconnect_tables dc_Write_tables close_all_tables
  write_packet_evolves SendDisconnect_evolves dc_Write_evolves conn_Close_evolves
  dc_Close_evolves close_all_evolves : rmtt.

Lemma same_tables_grow s s' : same_tables s s' -> events_grow s s'.
Proof. intros (_ & _ & He). exists []. by rewrite He. Qed.

Lemma log_grow e s s' : same_tables s s' -> is_message e = false -> events_grow s (log e s').
Proof. intros (_ & _ & He) Hm. exists [e]. cbn. rewrite He. by repeat constructor. Qed.

Lemma ids_kept_evolves o x s' :
  inv o x -> (forall c, conn_evolves (srv x) s' c) -> ids_kept (srv x) s'.
Proof.
  intros Hinv He c dc Hdc. destruct (inv_dc o x Hinv c dc Hdc) as (nc & Hnc & _).
  specialize (He c). unfold conn_evolves in He. rewrite Hnc, Hdc in He.
  destruct He as (_ & x' & _ & Hx' & _ & Hid & Ha & _). exists x'. by repeat split.
Qed.

(** A task whose action only evolves connections. *)
Lemma inv_aux o s h pre t post s' new :
  inv o (mkConfig s h (pre ++ t :: post)) ->
  (forall c, conn_evolves s s' c) ->
  (forall d c, store s' !! d = Some c -> store s !! d = Some c) ->
  conns s' = conns s -> events_grow s s' ->
  (task_ok s t -> Forall (task_ok s') new) ->
  inv o (mkConfig s' h (pre ++ new ++ post)).
Proof.
  intros Hinv He Hst Hcs Hev Hnew. pose proof (ids_kept_evolves _ _ _ Hinv He) as Hids.
  pose proof (events_grow_in _ _ Hev) as Hin. cbn in Hids.
  apply (inv_preserve None _ _ _ _ _ _ _ Hinv); [done|auto|done| | |].
  - intros d c Hd. destruct (inv_store _ _ Hinv d c (Hst d c Hd)) as (x & ph & Hx & <- & Hh & Hr).
    destruct (Hids c x Hx) as (x' & Hx' & Hid & _). by exists x', ph.
  - intros c. cbn. rewrite Hcs. apply (inv_conns _ _ Hinv).
  - pose proof (inv_tasks _ _ Hinv) as Ht. cbn in Ht.
    apply Forall_app in Ht as [Hpre [Ht Hpost]%Forall_cons_1].
    assert (Hm : forall l, Forall (task_ok s) l -> Forall (task_ok s') l)
      by (intros l Hl; eapply Forall_mono; [exact Hl|]; intros t'; by apply task_ok_mono).
    apply Forall_app; split; [by apply Hm|]. apply Forall_app. auto.
Qed.

Lemma known_log s s' c e : known_conn s c -> ids_kept s s' -> known_conn (log e s') c.
Proof. intros [x Hx] Hids. destruct (Hids c x Hx) as (x' & Hx' & _). by exists x'. Qed.

Lemma Get_known o x d c : inv o x -> Get (store (srv x)) d = Some c -> known_conn (srv x) c.
Proof.
  intros Hinv Hg. destruct (inv_store _ _ Hinv d c Hg) as (dc & _ & Hdc & _). by exists dc.
Qed.

Lemma store_keep s s' : same_tables s s' ->
  forall d c, store s' !! d = Some c -> store s !! d = Some c.
Proof. intros (-> & _). done. Qed.

Lemma conns_keep s s' : same_tables s s' -> conns s' = conns s.
Proof. by intros (_ & -> & _). Qed.

Lemma known_mono o s h ts s' (l : list connid) :
  inv o (mkConfig s h ts) -> (forall c, conn_evolves s s' c) ->
  Forall (known_conn s) l -> Forall (known_conn s') l.
Proof.
  intros Hinv He Hl. pose proof (ids_kept_evolves _ _ _ Hinv He) as Hids. cbn in Hids.
  eapply Forall_mono; [exact Hl|]. intros c [x Hx].
  destruct (Hids c x Hx) as (x' & Hx' & _). by exists x'.
Qed.

(** Tasks that act on a connection and continue with [new]. *)
Lemma inv_aux_op o s h pre t post s' new :
  inv o (mkConfig s h (pre ++ t :: post)) ->
  (forall c, conn_evolves s s' c) -> same_tables s s' ->
  (task_ok s t -> Forall (task_ok s') new) ->
  inv o (mkConfig s' h (pre ++ new ++ post)).
Proof.
  intros Hinv He Ht Hnew. eapply inv_aux; eauto using store_keep, conns_keep, same_tables_grow.
Qed.

Lemma log_evolves s s' e c : conn_evolves s s' c -> conn_evolves s (log e s') c.
Proof. done. Qed.

Lemma inv_aux_log o s h pre t post s' e :
  inv o (mkConfig s h (pre ++ t :: post)) ->
  (forall c, conn_evolves s s' c) -> same_tables s s' -> is_message e = false ->
  inv o (mkConfig (log e s') h (pre ++ [] ++ post)).
Proof.
  intros Hinv He Ht Hm. eapply inv_aux; eauto using log_evolves, log_grow.
  - apply (store_keep _ _ Ht).
  - apply (conns_keep _ _ Ht).
Qed.

Lemma task_at o s h pre t post : inv o (mkConfig s h (pre ++ t :: post)) -> task_ok s t.
Proof.
  intros Hinv. pose proof (inv_tasks _ _ Hinv) as Ht. cbn in Ht.
  by apply Forall_app in Ht as [_ [Ht _]%Forall_cons_1].
Qed.

Lemma inv_deliver o s h pre d payload post :
  inv o (mkConfig s h (pre ++ TDeliver d payload :: post)) ->
  inv o (mkConfig (log (MessageHandler d payload) s) h (pre ++ [] ++ post)).
Proof.
  intros Hinv. pose proof Hinv as [Hdom Hph Hdc Hout Hst Hcs Hts Hev]. cbn in *.
  pose proof (task_at _ _ _ _ _ _ Hinv) as Hd. cbn in Hd.
  split; cbn; [exact Hdom| |exact Hdc|exact Hout|exact Hst|exact Hcs| |].
  - intros c ph nc Hh Hn. eapply phase_inv_evolves; [exact Hn|exact Hn| | |by apply Hph].
    + by apply conn_evolves_same.
    + intros e He. by right.
  - apply Forall_app in Hts as [Hpre [_ Hpost]%Forall_cons_1]. apply Forall_app.
    split; eapply Forall_mono; eauto; intros t; apply task_ok_mono;
      try (intros c x Hx; eauto); intros e He; by right.
  - intros later d' p' earlier Heq. destruct later as [|e later]; cbn in Heq; simplify_eq; [done|].
    by apply (Hev later d' p').
Qed.

Lemma known_op o s h ts s' c :
  inv o (mkConfig s h ts) -> (forall c, conn_evolves s s' c) ->
  known_conn s c -> known_conn s' c.
Proof.
  intros Hinv He Hc. assert (Forall (known_conn s') [c]) as Hf by (eapply known_mono; eauto).
  by inversion Hf.
Qed.

Lemma byte_small z : 0 <= z < 256 -> byte_ok z.
Proof. done. Qed.

#[local] Hint Extern 1 (byte_ok _) => (apply byte_small; done) : rmtt.
#[local] Hint Resolve known_op conn_evolves_same : rmtt.

(** The task's follow-up refers to connections the task already knew. *)
Local Ltac follow_up Hinv :=
  eapply inv_aux_op; [exact Hinv|auto with rmtt|auto with rmtt|];
  cbn; intros Ht; repeat apply Forall_cons; try apply Forall_nil; cbn;
  try apply Forall_cons_1 in Ht as [? ?]; intuition eauto 6 using known_mono with rmtt.

Lemma inv_task o s h pre t post s' new :
  inv o (mkConfig s h (pre ++ t :: post)) -> exec_task t s = (s', new) ->
  inv o (mkConfig s' h (pre ++ new ++ post)).
Proof.
  intros Hinv Hex. destruct t as [p|p|c|c|d payload|d payload|c d payload|d reason|c d reason|
    c d reason|c d reason|d reason| |cs|c cs| |]; cbn in Hex.
  - simplify_eq. follow_up Hinv.
  - simplify_eq. follow_up Hinv.
  - simplify_eq. follow_up Hinv.
  - simplify_eq. follow_up Hinv.
  - simplify_eq. by apply inv_deliver.
  - (* Push: look the device up *)
    destruct (Get (store s) d) as [c|] eqn:Hg; [destruct (IsActive c s)|]; simplify_eq;
      [|eapply inv_aux_log; [exact Hinv|auto with rmtt|done|done]..].
    eapply inv_aux_op; [exact Hinv|auto with rmtt|done|]. intros Ht.
    apply Forall_cons; [split; [by eapply (Get_known _ _ d c Hinv)|exact Ht]|apply Forall_nil].
  - destruct (dc_Write c payload s) as [e s1] eqn:Hw. simplify_eq.
    destruct (task_at _ _ _ _ _ _ Hinv) as [_ Hok].
    eapply inv_aux_log; [exact Hinv| | |done].
    + intros c'. pose proof (dc_Write_evolves c payload s c' Hok) as He. by rewrite Hw in He.
    + pose proof (dc_Write_tables c payload s) as He. by rewrite Hw in He.
  - (* Kick: look the device up *)
    destruct (Get (store s) d) as [c|] eqn:Hg; [destruct (IsActive c s)|]; simplify_eq;
      [|eapply inv_aux_log; [exact Hinv|auto with rmtt|done|done]..].
    eapply inv_aux_op; [exact Hinv|auto with rmtt|done|]. intros Ht.
    apply Forall_cons; [split; [by eapply (Get_known _ _ d c Hinv)|exact Ht]|apply Forall_nil].
  - simplify_eq. destruct (task_at _ _ _ _ _ _ Hinv) as [_ Hr]. follow_up Hinv.
  - simplify_eq. follow_up Hinv.
  - simplify_eq. eapply inv_aux; [exact Hinv|by intros; apply conn_evolves_same| |done| |].
    + cbn. intros d' c' Hd. rewrite lookup_Remove in Hd. by destruct (decide _).
    + by exists [].
    + by repeat constructor.
  - simplify_eq. eapply inv_aux; [exact Hinv|by intros; apply conn_evolves_same|done|done| |done].
    eexists [_; _]. by repeat constructor.
  - simplify_eq. eapply inv_aux_op; [exact Hinv|auto with rmtt|done|]. intros _.
    repeat constructor. apply Forall_forall. intros c [d Hd]%list_elem_of_In%elem_of_All.
    by eapply (Get_known _ _ d c Hinv).
  - destruct cs as [|c cs]; simplify_eq.
    { eapply inv_aux_op; [exact Hinv|auto with rmtt|done|by repeat constructor]. }
    eapply inv_aux_op; [exact Hinv|auto with rmtt..|]. cbn. intros Ht.
    apply Forall_cons; [|apply Forall_nil]. eapply known_mono; eauto with rmtt.
  - simplify_eq. eapply inv_aux_op; [exact Hinv|auto with rmtt..|]. cbn. intros Ht.
    apply Forall_cons; [|apply Forall_nil]. apply Forall_cons_1 in Ht as [_ Ht].
    eapply known_mono; eauto with rmtt.
  - simplify_eq. eapply inv_aux_op; [exact Hinv|auto with rmtt..|by repeat constructor].
  - simplify_eq. eapply inv_aux_log; [exact Hinv|by intros; apply conn_evolves_same|done|done].
Qed.

(** ** The connection's own goroutine *)

Lemma write_own cp c nc s :
  nets s !! c = Some nc ->
  exists e nc', write_packet cp c s = (e, set_net c nc' s) /\
    nc_all nc' = nc_all nc /\ nc_closed nc' = nc_closed nc /\
    ((e = None /\ nc_out nc' = nc_out nc ++ [frame cp] /\ nc_torn nc' = nc_torn nc) \/
     (e <> None /\ nc_out nc' = nc_out nc /\ nc_torn nc' = nc_torn nc) \/
     (e <> None /\ exists k, nc_out nc' = nc_out nc ++ [take k (frame cp)] /\ nc_torn nc' = true)).
Proof.
  intros Hnc. unfold write_packet. rewrite Hnc.
  destruct (Packet_Write_net cp nc) as [cp' ->].
  destruct (nc_closed nc) eqn:Hc; [|destruct (nc_fault nc) as [[k e]|]]; eexists _, _;
    (split; [done|]); repeat split; eauto 10.
Qed.

Lemma close_own c nc s :
  nets s !! c = Some nc -> conn_Close c s = set_net c (net_close nc) s.
Proof. intros Hnc. unfold conn_Close. by rewrite Hnc. Qed.

Lemma hello_accept o f d kp :
  hello_decision o (fst (ReadPacket f)) = HAccept d kp -> authorised o f d.
Proof.
  destruct (ReadPacket f) as [[[p| | | | |]| |] rest] eqn:Hr; cbn; try done.
  destruct (Z.eqb_spec (MagicNumber p) magic); cbn; [|done].
  destruct (Z.eqb_spec (ProtocolVersion p) 1); cbn; [|done].
  destruct (snd _) eqn:Hs; cbn; [|done]. destruct (fst _) as [|b d'] eqn:Hf; [done|].
  intros [= <- _]. exists p, rest. repeat split; [done..|].
  destruct (Authenticator o) as [auth|]; [|done].
  destruct (auth (Credential p)). by simplify_eq/=.
Qed.

Lemma hello_reject o first code :
  hello_decision o first = HReject code -> byte_ok code /\ code <> Accepted.
Proof.
  destruct first as [[p| | | | |]| |]; cbn; try done.
  destruct (negb (_ =? magic)); [done|]. destruct (negb (_ =? 1)); [by intros [= <-]|].
  destruct (negb _); [by intros [= <-]|]. destruct (fst _); [by intros [= <-]|done].
Qed.

(** Output that extends well-formed output by one more chunk, or not at all. *)
Lemma out_ok_app nc nc' l :
  out_ok nc -> (exists code, connack_first code nc) -> nc_out nc' = nc_out nc ++ l ->
  Forall chunk_ok l -> (nc_torn nc' = false -> nc_torn nc = false /\ Forall frame_ok l) ->
  out_ok nc'.
Proof.
  intros (Hf & Hw & _) (code & kp & rest & Hk & Hc) Ho Hl Ht. unfold out_ok, connack_first.
  rewrite Ho. split; [by apply Forall_app|]. split.
  - intros Hn. destruct (Ht Hn). apply Forall_app. auto.
  - right. left. exists code, kp, (rest ++ l). by rewrite Hc.
Qed.

Lemma connack_ok code kp : byte_ok code -> 0 <= kp < 65536 -> packet_ok (new_connack code kp).
Proof. by split. Qed.

Lemma out_ok_connack nc code kp :
  byte_ok code -> 0 <= kp < 65536 ->
  nc_out nc = [frame (new_connack code kp)] -> out_ok nc.
Proof.
  intros Hc Hk Ho. assert (Hfr : frame_ok (frame (new_connack code kp))).
  { exists (new_connack code kp). split; [by apply connack_ok|done]. }
  unfold out_ok. rewrite Ho. split; [|split].
  - repeat constructor. by apply frame_chunk.
  - by repeat constructor.
  - right. left. by exists code, kp, [].
Qed.

(** The CONNACK could not be written completely. *)
Lemma out_ok_torn_connack nc code kp k :
  byte_ok code -> 0 <= kp < 65536 -> nc_torn nc = true ->
  nc_out nc = [take k (frame (new_connack code kp))] -> out_ok nc.
Proof.
  intros Hc Hk Ht Ho. unfold out_ok. rewrite Ho, Ht. split; [|split; [done|]].
  - repeat constructor. exists (new_connack code kp), k. split; [by apply connack_ok|done].
  - right. right. split; [done|]. by exists code, kp, k.
Qed.

(** The first write on a connection, whatever becomes of it. *)
Lemma out_ok_first nc nc' code kp (e : option error) :
  byte_ok code -> 0 <= kp < 65536 -> nc_out nc = [] ->
  ((e = None /\ nc_out nc' = nc_out nc ++ [frame (new_connack code kp)] /\
      nc_torn nc' = nc_torn nc) \/
   (e <> None /\ nc_out nc' = nc_out nc /\ nc_torn nc' = nc_torn nc) \/
   (e <> None /\ exists k, nc_out nc' = nc_out nc ++ [take k (frame (new_connack code kp))] /\
      nc_torn nc' = true)) -> out_ok nc'.
Proof.
  intros Hc Hk Ho. rewrite Ho. intros [(_ & Hw & _)|[(_ & Hw & _)|(_ & k & Hw & Ht)]].
  - by apply (out_ok_connack _ code kp).
  - unfold out_ok. rewrite Hw. auto.
  - by apply (out_ok_torn_connack _ code kp k).
Qed.

Lemma inv_own o s h ts c s' ph' new :
  inv o (mkConfig s h ts) ->
  (forall c', c' <> c -> nets s' !! c' = nets s !! c' /\ dcs s' !! c' = dcs s !! c') ->
  (forall x, dcs s !! c = Some x -> exists x', dcs s' !! c = Some x' /\ dc_kept x x') ->
  events_grow s s' -> own_inv o s' c ph' ->
  store_inv s' (<[c := ph']> h) -> conns_inv s' (<[c := ph']> h) ->
  Forall (task_ok s') new ->
  inv o (mkConfig s' (<[c := ph']> h) (new ++ ts)).
Proof.
  intros Hinv Hoth Hid Hev Hown Hst Hcs Hnew.
  apply (inv_preserve (Some c) _ _ _ _ _ _ _ Hinv); [done| | |done|done|].
  - intros c' Hc'. assert (c' <> c) as Hne by congruence.
    destruct (Hoth c' Hne). rewrite lookup_insert_ne by done.
    split; [by apply conn_evolves_same|done].
  - intros c' [= <-]. exists ph'. by rewrite lookup_insert_eq.
  - apply Forall_app. split; [done|].
    eapply Forall_mono; [apply (inv_tasks _ _ Hinv)|]. intros t. cbn.
    apply task_ok_mono; [|by apply events_grow_in].
    intros c' x Hx. destruct (decide (c' = c)) as [->|Hne]; [by apply Hid|].
    destruct (Hoth c' Hne) as [_ ->]. eauto.
Qed.

(** Most phases leave the store and the set of tracked connections alone. *)
Lemma inv_own_keep o s h ts c ph s' ph' new :
  inv o (mkConfig s h ts) -> h !! c = Some ph ->
  store s' = store s -> conns s' = conns s ->
  (registered ph = true -> registered ph' = true) -> running ph' = true ->
  (forall c', c' <> c -> nets s' !! c' = nets s !! c' /\ dcs s' !! c' = dcs s !! c') ->
  (forall x, dcs s !! c = Some x -> exists x', dcs s' !! c = Some x' /\ dc_kept x x') ->
  events_grow s s' -> own_inv o s' c ph' -> Forall (task_ok s') new ->
  inv o (mkConfig s' (<[c := ph']> h) (new ++ ts)).
Proof.
  intros Hinv Hh Hs Hc Hreg Hrun Hoth Hid Hev Hown Hnew. eapply inv_own; eauto.
  - intros d c'. rewrite Hs. intros Hd.
    destruct (inv_store _ _ Hinv d c' Hd) as (x & ph0 & Hx & <- & Hh0 & Hr). cbn in *.
    destruct (decide (c' = c)) as [->|Hne].
    + simplify_eq. destruct (Hid x Hx) as (x' & Hx' & Hi & _). exists x', ph'.
      rewrite lookup_insert_eq. auto.
    + exists x, ph0. rewrite lookup_insert_ne by done.
      destruct (Hoth c' Hne) as [_ ->]. auto.
  - intros c'. rewrite Hc. intros Hin. destruct (decide (c' = c)) as [->|Hne].
    + exists ph'. by rewrite lookup_insert_eq.
    + rewrite lookup_insert_ne by done. apply (inv_conns _ _ Hinv c' Hin).
Qed.

(** The same when only the connection's own network connection changed. *)
Lemma inv_own_net o s h ts c ph nc' ph' new :
  inv o (mkConfig s h ts) -> h !! c = Some ph ->
  (registered ph = true -> registered ph' = true) -> running ph' = true ->
  phase_inv o (set_net c nc' s) c nc' ph' -> out_ok nc' ->
  (forall x, dcs s !! c = Some x -> dc_inv o x nc') ->
  Forall (task_ok s) new ->
  inv o (mkConfig (set_net c nc' s) (<[c := ph']> h) (new ++ ts)).
Proof.
  intros Hinv Hh Hreg Hrun Hph Hout Hdc Hnew.
  apply (inv_own_keep _ _ _ _ _ _ _ _ _ Hinv Hh); [done|done|done|done| |by eauto| | |].
  - intros c' Hne. cbn. by rewrite lookup_insert_ne.
  - by exists [].
  - exists nc'. cbn. rewrite lookup_insert_eq. auto.
  - eapply Forall_mono; [exact Hnew|]. intros t. apply task_ok_mono; [|done].
    intros c' x Hx. eauto.
Qed.

Lemma own_inv_intro o s c ph nc :
  nets s !! c = Some nc -> phase_inv o s c nc ph -> out_ok nc ->
  (forall x, dcs s !! c = Some x -> dc_inv o x nc) -> own_inv o s c ph.
Proof. intros. by exists nc. Qed.

(** The facts about its own connection a phase can rely on. *)
Lemma inv_at o s h ts c ph :
  inv o (mkConfig s h ts) -> h !! c = Some ph -> own_inv o s c ph.
Proof.
  intros Hinv Hh. assert (is_Some (nets s !! c)) as [nc Hnc]
    by (apply (inv_dom _ _ Hinv); eauto).
  apply (own_inv_intro _ _ _ _ nc); [done|by apply (inv_phase _ _ Hinv)|by apply (inv_out _ _ Hinv c)|].
  intros x Hx. destruct (inv_dc _ _ Hinv c x Hx) as (nc2 & Hnc2 & Hd). cbn in *. by simplify_eq.
Qed.

Lemma set_net_twice c nc1 nc2 s : set_net c nc2 (set_net c nc1 s) = set_net c nc2 s.
Proof. unfold set_net. cbn. by rewrite insert_insert_eq. Qed.

Lemma lookup_set_net c nc s : nets (set_net c nc s) !! c = Some nc.
Proof. cbn. by rewrite lookup_insert_eq. Qed.

Section phases.
Context (o : ServerOptions) (s : server) (h : gmap connid phase) (ts : list task) (c : connid).
Context (Hinv : inv o (mkConfig s h ts)).

Lemma inv_PStart : h !! c = Some PStart -> inv o (mkConfig s (<[c := PTrack]> h) ts).
Proof.
  intros Hh. destruct (inv_at _ _ _ _ _ _ Hinv Hh) as (nc & Hnc & Hph & Hout & Hdc).
  apply (inv_own_keep o s h ts c PStart _ _ []); try done; [eauto|by exists []|by exists nc].
Qed.

Lemma inv_PTrack :
  h !! c = Some PTrack ->
  inv o (mkConfig (set_conns ({[c]} ∪ conns s) s) (<[c := PHello]> h) ts).
Proof.
  intros Hh. destruct (inv_at _ _ _ _ _ _ Hinv Hh) as (nc & Hnc & Hph & Hout & Hdc).
  apply (inv_own o s h ts c _ PHello []); [done|done|eauto|by exists []| | | |done].
  - by exists nc.
  - intros d c' Hd. destruct (inv_store _ _ Hinv d c' Hd) as (x & ph & Hx & Hd' & Hh' & Hr).
    exists x, ph. cbn in *. rewrite lookup_insert_ne; [done|]. intros ->. by simplify_eq.
  - intros c' Hc'. cbn in Hc'. destruct (decide (c' = c)) as [->|Hne].
    + exists PHello. by rewrite lookup_insert_eq.
    + rewrite lookup_insert_ne by done. apply (inv_conns _ _ Hinv). cbn. set_solver.
Qed.

Lemma inv_PHello nc :
  h !! c = Some PHello -> nets s !! c = Some nc ->
  forall s' ph' new, exec_handler o c PHello s = (s', ph', new) ->
  inv o (mkConfig s' (<[c := ph']> h) (new ++ ts)).
Proof.
  intros Hh Hnc s' ph' new Hex. cbn in Hex. rewrite Hnc in Hex.
  destruct (inv_at _ _ _ _ _ _ Hinv Hh) as (nc0 & Hnc0 & (Hd & Hin & Hout) & _).
  simplify_eq. rewrite ReadPacket_net in Hex.
  assert (Hnil : forall nc', nc_out nc' = [] -> out_ok nc')
    by (intros nc' Ho; unfold out_ok; rewrite Ho; auto).
  set (nc1 := if nc_closed nc then nc else mkNet (nc_all nc) (snd (ReadPacket (nc_in nc)))
    (nc_out nc) false (nc_fault nc) (nc_torn nc)).
  assert (Hex' : match hello_decision o (if nc_closed nc then Throw net_ErrClosed
      else fst (ReadPacket (nc_in nc))) with
    | HClose => (conn_Close c (set_net c nc1 s), PUntrack, [])
    | HReject code => (set_net c nc1 s, PReject code, [])
    | HAccept d kp => (set_net c nc1 s, PAccept d kp, [])
    end = (s', ph', new)) by (subst nc1; by destruct (nc_closed nc)).
  clear Hex.
  assert (nc_out nc1 = [] /\ nc_all nc1 = nc_all nc) as [Ho1 Ha1]
    by (subst nc1; by destruct (nc_closed nc)).
  destruct (hello_decision _ _) as [|code|d kp] eqn:Hdec; simplify_eq/=.
  - rewrite (close_own _ nc1) by apply lookup_set_net. rewrite set_net_twice.
    apply (inv_own_net _ _ _ _ _ _ _ _ [] Hinv Hh); try done; [by apply Hnil|].
    intros x Hx. congruence.
  - apply (inv_own_net _ _ _ _ _ _ _ _ [] Hinv Hh); try done; [|by apply Hnil|congruence].
    apply hello_reject in Hdec as []. repeat split; auto; apply H.
  - apply (inv_own_net _ _ _ _ _ _ _ _ [] Hinv Hh); try done; [|by apply Hnil|congruence].
    repeat split; [done|done|]. rewrite Ha1, <- Hin. destruct (nc_closed nc); [done|].
    by eapply hello_accept.
Qed.

Lemma inv_PReject code :
  h !! c = Some (PReject code) ->
  inv o (mkConfig (conn_Close c (snd (write_packet (new_connack code 0) c s)))
    (<[c := PUntrack]> h) ts).
Proof.
  intros Hh. destruct (inv_at _ _ _ _ _ _ Hinv Hh) as (nc & Hnc & (Hd & Ho & Hb & _) & Hout & _).
  destruct (write_own (new_connack code 0) c nc s Hnc) as (e & nc' & -> & _ & _ & Hw).
  cbn [snd]. rewrite (close_own _ nc') by apply lookup_set_net. rewrite set_net_twice.
  apply (inv_own_net _ _ _ _ _ _ _ _ [] Hinv Hh); try done; [|congruence].
  by apply (out_ok_first nc nc' code 0 e).
Qed.

Lemma inv_PAccept d kp s' ph' new :
  h !! c = Some (PAccept d kp) -> exec_handler o c (PAccept d kp) s = (s', ph', new) ->
  inv o (mkConfig s' (<[c := ph']> h) (new ++ ts)).
Proof.
  intros Hh Hex. destruct (inv_at _ _ _ _ _ _ Hinv Hh) as (nc & Hnc & (Hd & Ho & Hau) & Hout & _).
  cbn in Hex. destruct (write_own (new_connack Accepted (u16 kp)) c nc s Hnc)
    as (e & nc' & Hw & Hall & _ & Hc). rewrite Hw in Hex.
  assert (Hok : out_ok nc') by (eapply (out_ok_first nc nc'); [| |done|exact Hc]; auto with rmtt).
  destruct e as [e|]; simplify_eq.
  - rewrite (close_own _ nc') by apply lookup_set_net. rewrite set_net_twice.
    by apply (inv_own_net _ _ _ _ _ _ _ _ [] Hinv Hh); try done; congruence.
  - destruct Hc as [(_ & Hc & _)|[[? _]|[? _]]]; [|done..]. rewrite Ho in Hc. apply (inv_own_net _ _ _ _ _ _ _ _ [] Hinv Hh); try done; [|congruence].
    repeat split; [done| |by rewrite Hall]. exists (u16 kp), []. split; [apply u16_range|done].
Qed.

Lemma inv_PRegister d kp s' ph' new :
  h !! c = Some (PRegister d kp) -> exec_handler o c (PRegister d kp) s = (s', ph', new) ->
  inv o (mkConfig s' (<[c := ph']> h) (new ++ ts)).
Proof.
  intros Hh Hex. destruct (inv_at _ _ _ _ _ _ Hinv Hh) as (nc & Hnc & (Hd & Hc & Hau) & Hout & _).
  cbn in Hex. simplify_eq.
  assert (Hne : forall d' c', store s !! d' = Some c' -> c' <> c).
  { intros d' c' Hd' ->. destruct (inv_store _ _ Hinv d' c Hd') as (x & _ & Hx & _).
    cbn in Hx. congruence. }
  eapply inv_own; [done| | |by exists []| | | |].
  - intros c' Hc'. cbn. by rewrite lookup_insert_ne.
  - intros x Hx. congruence.
  - apply (own_inv_intro _ _ _ _ nc); [done|cbn; by rewrite lookup_insert_eq|done|].
    intros x. cbn. rewrite lookup_insert_eq. intros [= <-]. by split.
  - intros d' c'. cbn. destruct (decide (d' = d)) as [->|Hdd].
    + rewrite lookup_insert_eq. intros [= <-]. exists (mkDC d true), (PEstablish kp).
      by rewrite !lookup_insert_eq.
    + rewrite lookup_insert_ne by done. intros Hd'. pose proof (Hne d' c' Hd').
      destruct (inv_store _ _ Hinv d' c' Hd') as (x & ph & Hx & Hid & Hh' & Hr).
      exists x, ph. cbn in *. by rewrite !lookup_insert_ne.
  - intros c' Hc'. destruct (decide (c' = c)) as [->|Hcc].
    + exists (PEstablish kp). by rewrite lookup_insert_eq.
    + rewrite lookup_insert_ne by done. by apply (inv_conns _ _ Hinv).
  - destruct (store s !! d) as [p|] eqn:Hp; [|done]. repeat constructor. cbn.
    destruct (inv_store _ _ Hinv d p Hp) as (x & _ & Hx & _). cbn in Hx. exists x. cbn.
    rewrite lookup_insert_ne by (intros ->; by eapply Hne). done.
Qed.

Lemma inv_PEstablish kp :
  h !! c = Some (PEstablish kp) ->
  inv o (mkConfig (log (OnConnectionEstablished (device_of c s)) s) (<[c := PLoop kp]> h) ts).
Proof.
  intros Hh. destruct (inv_at _ _ _ _ _ _ Hinv Hh) as (nc & Hnc & [x Hx] & Hout & Hdc).
  apply (inv_own_keep _ _ _ _ _ _ _ _ [] Hinv Hh); try done; [eauto| |].
  - apply log_grow; done.
  - apply (own_inv_intro _ _ _ _ nc); [done| |done|done].
    exists x. split; [done|]. unfold device_of. rewrite Hx. cbn. by left.
Qed.

Lemma inv_PTeardown :
  h !! c = Some PTeardown ->
  inv o (mkConfig (dc_Close c s) (<[c := PRemove]> h) ts).
Proof.
  intros Hh. destruct (inv_at _ _ _ _ _ _ Hinv Hh) as (nc & Hnc & [x Hx] & Hout & Hdc).
  unfold dc_Close. rewrite Hx. specialize (Hdc x Hx). destruct (active x) eqn:Ha.
  - rewrite (close_own _ nc) by done.
    apply (inv_own_keep _ _ _ _ _ _ _ _ [] Hinv Hh); try done.
    + intros c' Hne. cbn. by rewrite !lookup_insert_ne.
    + intros x0 Hx0. cbn. rewrite lookup_insert_eq. simplify_eq. by eexists.
    + by exists [].
    + apply (own_inv_intro _ _ _ _ (net_close nc)); cbn; rewrite ?lookup_insert_eq;
        [done|eauto|exact Hout|]. intros x' [= <-]. destruct Hdc as (_ & Hf & Hau). by split.
  - apply (inv_own_keep _ _ _ _ _ _ _ _ [] Hinv Hh); try done; [eauto|by exists []|].
    apply (own_inv_intro _ _ _ _ nc); [done|cbn; eauto|done|]. intros x' Hx'. by simplify_eq.
Qed.

Lemma inv_PRemove :
  h !! c = Some PRemove ->
  inv o (mkConfig (set_store (snd (Remove (store s) (device_of c s) c)) s)
    (<[c := PClosed]> h) ts).
Proof.
  intros Hh. destruct (inv_at _ _ _ _ _ _ Hinv Hh) as (nc & Hnc & (x & Hx & Ha) & Hout & Hdc).
  apply (inv_own _ _ _ _ _ _ _ [] Hinv); [done|eauto|by exists []| | | |done].
  - apply (own_inv_intro _ _ _ _ nc); [done|cbn; eauto|done|done].
  - intros d c'. cbn. rewrite lookup_Remove. destruct (decide _) as [|Hn]; [done|]. intros Hd.
    destruct (inv_store _ _ Hinv d c' Hd) as (x' & ph & Hx' & <- & Hh' & Hr). cbn in *.
    exists x', ph. rewrite lookup_insert_ne; [done|]. intros <-. apply Hn.
    unfold device_of. rewrite Hx. by simplify_eq.
  - intros c' Hc'. destruct (decide (c' = c)) as [->|Hne].
    + exists PClosed. by rewrite lookup_insert_eq.
    + rewrite lookup_insert_ne by done. by apply (inv_conns _ _ Hinv).
Qed.

Lemma inv_PClosed :
  h !! c = Some PClosed ->
  inv o (mkConfig (log (OnConnectionClosed (device_of c s) "connection closed") s)
    (<[c := PUntrack]> h) ts).
Proof.
  intros Hh. destruct (inv_at _ _ _ _ _ _ Hinv Hh) as (nc & Hnc & (x & Hx & Ha) & Hout & Hdc).
  apply (inv_own_keep _ _ _ _ _ _ _ _ [] Hinv Hh); try done; [eauto|by apply log_grow|].
  apply (own_inv_intro _ _ _ _ nc); [done|by apply (Hdc x Hx)|done|done].
Qed.

Lemma inv_PUntrack :
  h !! c = Some PUntrack ->
  inv o (mkConfig (set_conns (conns s ∖ {[c]}) s) (<[c := PDone]> h) ts).
Proof.
  intros Hh. destruct (inv_at _ _ _ _ _ _ Hinv Hh) as (nc & Hnc & Hcl & Hout & Hdc).
  apply (inv_own _ _ _ _ _ _ _ [] Hinv); [done|eauto|by exists []| | | |done].
  - by exists nc.
  - intros d c' Hd. destruct (inv_store _ _ Hinv d c' Hd) as (x' & ph & Hx' & Hd' & Hh' & Hr).
    cbn in *. exists x', ph. rewrite lookup_insert_ne; [done|]. intros <-. by simplify_eq.
  - intros c' Hc'. cbn in Hc'. rewrite lookup_insert_ne by set_solver.
    apply (inv_conns _ _ Hinv). cbn. set_solver.
Qed.

End phases.

(** The packet loop: reading, then at most one write of its own. *)
Lemma inv_PLoop_write o s h ts c kp nc1 cp ph' :
  inv o (mkConfig s h ts) -> h !! c = Some (PLoop kp) ->
  (exists nc, nets s !! c = Some nc /\ nc_all nc1 = nc_all nc /\ nc_out nc1 = nc_out nc /\
     nc_closed nc1 = nc_closed nc /\ nc_torn nc1 = nc_torn nc) ->
  packet_ok cp -> ph' = PLoop kp \/ ph' = PTeardown ->
  inv o (mkConfig (snd (write_packet cp c (set_net c nc1 s))) (<[c := ph']> h) ts).
Proof.
  intros Hinv Hh (nc & Hnc & Ha & Ho & Hc & Ht) Hok Hph.
  destruct (inv_at _ _ _ _ _ _ Hinv Hh) as (nc0 & Hnc0 & (x & Hx & Hev) & Hout & Hdc).
  simplify_eq.
  destruct (write_own cp c nc1 (set_net c nc1 s)) as (e & nc2 & -> & Ha2 & Hc2 & Hw);
    [apply lookup_set_net|].
  cbn [snd]. rewrite set_net_twice. specialize (Hdc x Hx) as (Hcl & Hf & Hau).
  assert (Hf' := Hf). destruct Hf' as (kp' & rest & Hkp & Hfo).
  apply (inv_own_net _ _ _ _ _ _ _ _ [] Hinv Hh).
  - by destruct Hph as [-> | ->].
  - by destruct Hph as [-> | ->].
  - destruct Hph as [-> | ->]; cbn; eauto.
  - destruct Hw as [(_ & Hw & Hwt)|[(_ & Hw & Hwt)|(_ & k & Hw & Hwt)]]; rewrite Ho in Hw.
    + apply (out_ok_app nc nc2 [frame cp]); [done|by exists Accepted|done| |].
      * repeat constructor. apply frame_chunk. by exists cp.
      * rewrite Hwt, Ht. split; [done|]. repeat constructor. by exists cp.
    + apply (out_ok_app nc nc2 []); [done|by exists Accepted|by rewrite app_nil_r|done|].
      rewrite Hwt, Ht. auto.
    + apply (out_ok_app nc nc2 [take k (frame cp)]); [done|by exists Accepted|done| |].
      * repeat constructor. by exists cp, k.
      * by rewrite Hwt.
  - intros x' Hx'. simplify_eq. repeat split.
    + intros Hx0. rewrite Hc2, Hc. auto.
    + destruct Hw as [(_ & Hw & _)|[(_ & Hw & _)|(_ & k & Hw & _)]]; rewrite Ho, Hfo in Hw;
        eexists _, _; eauto.
    + by rewrite Ha2, Ha.
  - done.
Qed.

Lemma inv_PLoop_read o s h ts c kp nc1 ph' new :
  inv o (mkConfig s h ts) -> h !! c = Some (PLoop kp) ->
  (exists nc, nets s !! c = Some nc /\ nc_all nc1 = nc_all nc /\ nc_out nc1 = nc_out nc /\
     nc_closed nc1 = nc_closed nc /\ nc_torn nc1 = nc_torn nc) ->
  ph' = PLoop kp \/ ph' = PTeardown -> Forall (task_ok s) new ->
  inv o (mkConfig (set_net c nc1 s) (<[c := ph']> h) (new ++ ts)).
Proof.
  intros Hinv Hh (nc & Hnc & Ha & Ho & Hc & Ht) Hph Hnew.
  destruct (inv_at _ _ _ _ _ _ Hinv Hh) as (nc0 & Hnc0 & (x & Hx & Hev) & Hout & Hdc).
  simplify_eq. apply (inv_own_net _ _ _ _ _ _ _ _ _ Hinv Hh).
  - by destruct Hph as [-> | ->].
  - by destruct Hph as [-> | ->].
  - destruct Hph as [-> | ->]; cbn; eauto.
  - unfold out_ok, connack_first. by rewrite Ho, Ht.
  - intros x' Hx'. specialize (Hdc x' Hx'). unfold dc_inv, connack_first in *.
    by rewrite Hc, Ho, Ha.
  - done.
Qed.

Lemma inv_PLoop o s h ts c kp s' ph' new :
  inv o (mkConfig s h ts) -> h !! c = Some (PLoop kp) ->
  exec_handler o c (PLoop kp) s = (s', ph', new) ->
  inv o (mkConfig s' (<[c := ph']> h) (new ++ ts)).
Proof.
  intros Hinv Hh Hex. destruct (inv_at _ _ _ _ _ _ Hinv Hh) as (nc & Hnc & (x & Hx & Hev) & _).
  cbn in Hex. rewrite Hnc in Hex.
  destruct (ReadPacket nc) as [read nc1] eqn:Hread.
  assert (Hsame : exists nc, nets s !! c = Some nc /\ nc_all nc1 = nc_all nc /\
    nc_out nc1 = nc_out nc /\ nc_closed nc1 = nc_closed nc /\ nc_torn nc1 = nc_torn nc).
  { exists nc. pose proof (keeps_ReadPacket nc) as [Hk _]. rewrite Hread in Hk. cbn in Hk.
    rewrite Hk. done. }
  assert (Hdisc : packet_ok (new_disconnect DiscProtocolViolation)) by done.
  destruct read as [cp|e|]; cbn in Hex.
  - destruct cp as [p|p|p|p|p|p]; simplify_eq.
    1,2,6: by eapply inv_PLoop_write; eauto.
    + eapply inv_PLoop_read; eauto.
    + eapply inv_PLoop_read; eauto. destruct (has_MessageHandler o); [|done].
      repeat constructor. cbn. unfold device_of. cbn. by rewrite Hx.
    + eapply inv_PLoop_write; eauto. done.
  - destruct (Contains _ _); simplify_eq; [by eapply inv_PLoop_write; eauto|].
    eapply inv_PLoop_read; eauto.
  - simplify_eq. eapply inv_PLoop_read; eauto.
Qed.

Lemma inv_handler o s h ts c ph s' ph' new :
  inv o (mkConfig s h ts) -> h !! c = Some ph -> ph <> PDone ->
  exec_handler o c ph s = (s', ph', new) ->
  inv o (mkConfig s' (<[c := ph']> h) (new ++ ts)).
Proof.
  intros Hinv Hh Hne Hex.
  destruct (inv_at _ _ _ _ _ _ Hinv Hh) as (nc & Hnc & _).
  destruct ph; [cbn in Hex; simplify_eq; by apply inv_PStart|cbn in Hex; simplify_eq; by apply inv_PTrack|by eapply inv_PHello; eauto| | | | | | | | | |done].
  - cbn in Hex. simplify_eq. by apply inv_PReject.
  - by eapply inv_PAccept.
  - by eapply inv_PRegister.
  - cbn in Hex. simplify_eq. by apply inv_PEstablish.
  - by eapply inv_PLoop.
  - cbn in Hex. simplify_eq. by apply inv_PTeardown.
  - cbn in Hex. simplify_eq. by apply inv_PRemove.
  - cbn in Hex. simplify_eq. by apply inv_PClosed.
  - cbn in Hex. simplify_eq. by apply inv_PUntrack.
Qed.

(** Environment moves. *)
Lemma inv_spawn o s h ts t :
  inv o (mkConfig s h ts) -> task_ok s t -> inv o (mkConfig s h (t :: ts)).
Proof. intros [] Ht. split; cbn in *; try done. by constructor. Qed.

Lemma inv_env o x y : inv o x -> env_step x y -> inv o y.
Proof.
  intros Hinv He. destruct He as [s h ts c f Hn|s h ts d p Hp|s h ts d r Hr|s h ts|
    s h ts c kp Hh Hkp|s h ts c nc e Hn].
  - assert (Hd : dcs s !! c = None).
    { destruct (dcs s !! c) as [x|] eqn:Hx; [|done].
      destruct (inv_dc _ _ Hinv c x Hx) as (nc & Hnc & _). cbn in Hnc. congruence. }
    assert (Hh : h !! c = None).
    { apply eq_None_not_Some. intros Hs%(inv_dom _ _ Hinv). cbn in Hs. rewrite Hn in Hs.
      by destruct Hs. }
    apply (inv_own _ _ _ _ _ _ _ [] Hinv); [|congruence|by exists []| | | |done].
    + intros c' Hne. cbn. by rewrite lookup_insert_ne.
    + eexists. cbn. rewrite lookup_insert_eq. repeat split; auto; congruence.
    + intros d c' Hd'. destruct (inv_store _ _ Hinv d c' Hd') as (x & ph & Hx & Hid & Hh' & Hr).
      cbn in *. exists x, ph. rewrite lookup_insert_ne by congruence. auto.
    + intros c' Hc'. destruct (inv_conns _ _ Hinv c' Hc') as (ph & Hh' & Hr). cbn in *.
      exists ph. rewrite lookup_insert_ne by congruence. auto.
  - by apply inv_spawn.
  - by apply inv_spawn.
  - by apply inv_spawn.
  - destruct (inv_at _ _ _ _ _ _ Hinv Hh) as (nc & Hnc & (x & Hx & _) & _).
    apply inv_spawn; [done|by exists x].
  - apply (inv_preserve None _ _ _ _ _ _ _ Hinv); [by exists []| |done| | |].
    + intros c' _. split; [|done]. eapply set_net_evolves; [done|].
      by apply net_evolves_quiet.
    + apply (inv_store _ _ Hinv).
    + apply (inv_conns _ _ Hinv).
    + eapply Forall_mono; [apply (inv_tasks _ _ Hinv)|]. intros t. cbn.
      apply task_ok_mono; [|done]. intros c' x Hx. eauto.
Qed.

Lemma inv_init o : inv o init.
Proof.
  split; cbn.
  - intros c. by rewrite !lookup_empty.
  - intros c ph nc. by rewrite lookup_empty.
  - intros c x. by rewrite lookup_empty.
  - intros c nc. by rewrite lookup_empty.
  - intros d c. cbn. by rewrite lookup_empty.
  - intros c Hc. by apply elem_of_empty in Hc.
  - done.
  - intros [] ???; by intros.
Qed.

Lemma inv_reachable o x : reachable o x -> inv o x.
Proof.
  unfold reachable. intros Hr. assert (Hi := inv_init o).
  induction Hr as [|x y z [Hs|Hs] _ IH]; [done| |].
  - apply IH. destruct Hs as [s h ts c ph s' ph' new Hh Hne Hex|s h pre t post s' new _ Hex].
    + by eapply inv_handler.
    + by eapply inv_task.
  - apply IH. by eapply inv_env.
Qed.
