(* ===== verification/ServerDrain.v ===== *)
(** * The server comes to rest

    A measure on configurations that every action of a server goroutine
    decreases; what is left when no goroutine can move. *)

From Stdlib Require Import ZArith Lia String Wf_nat Inverse_Image.
From stdpp Require Import base list strings gmap numbers relations.
From S2P Require Import Prelude GoIO Codec CodecFacts Store Server ServerFacts.

Local Open Scope nat_scope.

(** ** The measure *)

(** Bytes the peer of [c] has sent that were not read yet. *)
Definition unread (s : server) (c : connid) : nat :=
  match nets s !! c with
  | Some nc => length (fl_bytes (nc_in nc))
  | None => 0
  end.

Definition phase_weight (ph : phase) (u : nat) : nat :=
  match ph with
  | PStart => 13 + 2 * u
  | PTrack => 12 + 2 * u
  | PHello => 11 + 2 * u
  | PReject _ => 2
  | PAccept _ _ => 10 + 2 * u
  | PRegister _ _ => 9 + 2 * u
  | PEstablish _ => 6 + 2 * u
  | PLoop _ => 5 + 2 * u
  | PTeardown => 4
  | PRemove => 3
  | PClosed => 2
  | PUntrack => 1
  | PDone => 0
  end.

Definition handler_weight (s : server) (c : connid) (ph : phase) : nat :=
  phase_weight ph (unread s c).

(** [n] is the number of connections, which bounds the size of the store. *)
Definition task_weight (n : nat) (t : task) : nat :=
  match t with
  | TTakeover _ | TReap _ | TPush _ _ | TKickRemove _ _ _ | TShutConns => 2
  | TTakeoverClose _ | TReapClose _ | TDeliver _ _ | TPushWrite _ _ _
  | TKickEvent _ _ | TWait => 1
  | TKick _ _ => 5
  | TKickSend _ _ _ => 4
  | TKickClose _ _ _ => 3
  | TClose => 2 * n + 4
  | TShut cs => 2 * length cs + 3
  | TShutClose _ cs => 2 * length cs + 4
  end.

Definition tasks_weight (n : nat) (ts : list task) : nat := sum_list (task_weight n <$> ts).

Definition measure (x : config) : nat :=
  map_sum (handler_weight (srv x)) (handlers x) + tasks_weight (size (nets (srv x))) (tasks x).

(** ** Reading makes progress *)

Lemma ReadPacket_progress f cp f' :
  ReadPacket f = (Ret cp, f') -> length (fl_bytes f') < length (fl_bytes f).
Proof.
  destruct f as [[|t bs] e]; [by rewrite ReadPacket_nil|]. rewrite ReadPacket_cons.
  destruct (read_after_parser t bs e) as (o & rest & -> & Hc). intros ?. simplify_eq.
  destruct Hc as (c & -> & _). cbn. rewrite length_app. lia.
Qed.

(** ** What an action leaves alone *)

(** Same connections, and nothing read from any but those in [own]. *)
Definition quiet (own : connid -> Prop) (s s' : server) : Prop :=
  forall c, (is_Some (nets s' !! c) <-> is_Some (nets s !! c)) /\
    (own c \/ unread s' c = unread s c).

Lemma quiet_trans own s1 s2 s3 : quiet own s1 s2 -> quiet own s2 s3 -> quiet own s1 s3.
Proof.
  intros H1 H2 c. destruct (H1 c) as [D1 [?|U1]], (H2 c) as [D2 [?|U2]];
    (split; [by rewrite D2|auto]). right. congruence.
Qed.

Lemma quiet_nets own s s' : nets s' = nets s -> quiet own s s'.
Proof. intros Hn c. unfold unread. rewrite Hn. auto. Qed.

Lemma quiet_evolves own s s' : (forall c, conn_evolves s s' c) -> quiet own s s'.
Proof.
  intros He c. specialize (He c). split; [by apply conn_evolves_net|right]. revert He.
  unfold conn_evolves, unread. destruct (nets s !! c) as [nc|] eqn:?, (dcs s !! c).
  - intros (nc' & x' & -> & _ & (_ & -> & _) & _). done.
  - intros (nc' & -> & _ & (_ & -> & _)). done.
  - by intros [-> _].
  - by intros [-> _].
Qed.

Lemma quiet_set_net c nc nc' s : nets s !! c = Some nc -> quiet (eq c) s (set_net c nc' s).
Proof.
  intros Hc c'. unfold unread. cbn. destruct (decide (c' = c)) as [->|Hne].
  - rewrite lookup_insert_eq, Hc. split; [by split; eauto|by left].
  - rewrite lookup_insert_ne by congruence. auto.
Qed.

Lemma write_packet_quiet own cp c s : quiet own s (snd (write_packet cp c s)).
Proof.
  intros c'. unfold write_packet. destruct (nets s !! c) as [nc|] eqn:Hc; [|by auto].
  destruct (Packet_Write_net cp nc) as [cp' ->].
  enough (forall nc', nc_in nc' = nc_in nc ->
    (is_Some (nets (set_net c nc' s) !! c') <-> is_Some (nets s !! c')) /\
    unread (set_net c nc' s) c' = unread s c') as Hn.
  { destruct (nc_closed nc); [|destruct (nc_fault nc) as [[k e]|]]; cbn [snd];
      (edestruct Hn; [|eauto]); done. }
  intros nc' Hin. unfold unread. cbn. destruct (decide (c' = c)) as [->|Hne].
  - by rewrite lookup_insert_eq, Hc, Hin.
  - by rewrite lookup_insert_ne by congruence.
Qed.

Lemma conn_Close_quiet own c s : quiet own s (conn_Close c s).
Proof. apply quiet_evolves. auto with rmtt. Qed.

Lemma dc_Close_quiet own c s : quiet own s (dc_Close c s).
Proof. apply quiet_evolves. auto with rmtt. Qed.

#[export] Hint Resolve quiet_nets write_packet_quiet conn_Close_quiet dc_Close_quiet : rmtt.

Lemma SendDisconnect_quiet own c r s : quiet own s (SendDisconnect c r s).
Proof. unfold SendDisconnect. case_match; auto with rmtt. Qed.

Lemma dc_Write_quiet own c p s : quiet own s (snd (dc_Write c p s)).
Proof. unfold dc_Write. case_match; auto with rmtt. Qed.

Lemma close_all_quiet own (cs : gset connid) s : quiet own s (set_fold conn_Close s cs).
Proof. apply quiet_evolves. auto with rmtt. Qed.

#[export] Hint Resolve SendDisconnect_quiet dc_Write_quiet close_all_quiet : rmtt.

Lemma exec_task_quiet t s s' new : exec_task t s = (s', new) -> quiet (fun _ => False) s s'.
Proof.
  intros Hex. destruct t as [| | | | |d payload|c d payload|d reason| | | | | |[]| | |]; cbn in Hex;
    try (simplify_eq; by auto with rmtt).
  - destruct (Get _ _) as [c|]; [destruct (IsActive c s)|]; simplify_eq; auto with rmtt.
  - pose proof (dc_Write_quiet (fun _ => False) c payload s) as Hq.
    destruct (dc_Write _ _ _). simplify_eq. exact Hq.
  - destruct (Get _ _) as [c|]; [destruct (IsActive c s)|]; simplify_eq; auto with rmtt.
Qed.

Lemma loop_step_quiet o c kp read s :
  quiet (fun _ => False) s (loop_step o c kp read s).1.1.
Proof.
  destruct read as [[]|err|]; cbn; try case_match; cbn; auto with rmtt.
Qed.

Lemma quiet_weaken (own own' : connid -> Prop) s s' :
  (forall c, own c -> own' c) -> quiet own s s' -> quiet own' s s'.
Proof. intros Ho Hq c. destruct (Hq c) as [? [?|?]]; auto. Qed.

Lemma exec_handler_quiet o c ph s s' ph' new :
  exec_handler o c ph s = (s', ph', new) -> quiet (eq c) s s'.
Proof.
  intros Hex. destruct ph as [| | |code|d kp|d kp|kp|kp| | | | |]; cbn in Hex;
    try (simplify_eq; by auto with rmtt).
  - destruct (nets s !! c) as [nc|] eqn:Hc; [|simplify_eq; auto with rmtt].
    destruct (ReadPacket nc) as [first nc'].
    assert (Hq := quiet_set_net c nc nc' s Hc).
    destruct (hello_decision o first); simplify_eq; [|done..].
    eapply quiet_trans; [exact Hq|auto with rmtt].
  - simplify_eq. eapply quiet_trans; [apply write_packet_quiet|auto with rmtt].
  - pose proof (write_packet_quiet (eq c) (new_connack Accepted (u16 kp)) c s) as Hq.
    destruct (write_packet _ _ _) as [[e|] s1]; simplify_eq; [|done].
    eapply quiet_trans; [exact Hq|auto with rmtt].
  - destruct (nets s !! c) as [nc|] eqn:Hc; [|simplify_eq; auto with rmtt].
    destruct (ReadPacket nc) as [read nc'].
    eapply quiet_trans; [exact (quiet_set_net c nc nc' s Hc)|].
    pose proof (loop_step_quiet o c kp read (set_net c nc' s)) as Hq. rewrite Hex in Hq.
    eapply quiet_weaken; [|exact Hq]. done.
Qed.

Lemma quiet_size own s s' : quiet own s s' -> size (nets s') = size (nets s).
Proof.
  intros Hq. rewrite <- !size_dom. f_equal. apply set_eq. intros c.
  rewrite !elem_of_dom. apply Hq.
Qed.

Lemma quiet_others h own s s' c :
  (forall c', own c' -> c = c') -> quiet own s s' ->
  map_sum (handler_weight s') (delete c h) = map_sum (handler_weight s) (delete c h).
Proof.
  intros Ho Hq. apply Nat.le_antisymm; apply map_sum_le; intros k ph [Hne _]%lookup_delete_Some;
    unfold handler_weight; destruct (Hq k) as [_ [?%Ho | ->]]; done.
Qed.

(** ** Every action decreases the measure *)

Lemma tasks_weight_app n ts1 ts2 :
  tasks_weight n (ts1 ++ ts2) = tasks_weight n ts1 + tasks_weight n ts2.
Proof.
  unfold tasks_weight. induction ts1 as [|t ts1 IH]; cbn in *; [done|]. rewrite IH. lia.
Qed.

Lemma store_size o x : inv o x -> length (All (store (srv x))) <= size (nets (srv x)).
Proof.
  intros Hinv. rewrite <- size_dom.
  rewrite <- (size_list_to_set (C := gset connid) (All (store (srv x)))).
  - apply subseteq_size. intros c [d Hd]%elem_of_list_to_set%elem_of_All. apply elem_of_dom.
    destruct (inv_store _ _ Hinv d c Hd) as (y & ph & _ & _ & Hh & _).
    apply (inv_dom _ _ Hinv). eauto.
  - unfold All. apply NoDup_fmap_2_strong; [|apply NoDup_map_to_list].
    intros [d c] [d' c'] Hd%elem_of_map_to_list Hd'%elem_of_map_to_list ?. cbn in *. subst c'.
    destruct (inv_store _ _ Hinv d c Hd) as (y & ph & Hy & <- & _).
    destruct (inv_store _ _ Hinv d' c Hd') as (y' & ph' & Hy' & <- & _). congruence.
Qed.

Lemma exec_task_weight n t s s' new :
  length (All (store s)) <= n -> exec_task t s = (s', new) ->
  tasks_weight n new < task_weight n t.
Proof.
  intros Hn Hex. unfold tasks_weight.
  destruct t as [| | | | |d payload|c d payload|d reason| | | | | |[]| | |]; cbn in Hex;
    try (simplify_eq; cbn; lia).
  - destruct (Get _ _) as [c|]; [destruct (IsActive c s)|]; simplify_eq; cbn; lia.
  - destruct (dc_Write _ _ _). simplify_eq. cbn. lia.
  - destruct (Get _ _) as [c|]; [destruct (IsActive c s)|]; simplify_eq; cbn; lia.
Qed.

Lemma unread_set_net c nc s : unread (set_net c nc s) c = length (fl_bytes (nc_in nc)).
Proof. unfold unread. cbn. by rewrite lookup_insert_eq. Qed.

Lemma ReadPacket_unread nc cp nc' :
  ReadPacket nc = (Ret cp, nc') -> length (fl_bytes (nc_in nc')) < length (fl_bytes (nc_in nc)).
Proof.
  rewrite ReadPacket_net. destruct (nc_closed nc); [done|].
  destruct (ReadPacket (nc_in nc)) as [o f] eqn:Hr. intros ?. simplify_eq/=.
  by eapply ReadPacket_progress.
Qed.

Lemma quiet_unread s s' c : quiet (fun _ => False) s s' -> unread s' c = unread s c.
Proof. intros Hq. by destruct (Hq c) as [_ [[]|]]. Qed.

Lemma loop_step_weight n o c kp read s s' ph' new u :
  (forall cp, read = Ret cp -> unread s c < u) -> read <> Diverge ->
  loop_step o c kp read s = (s', ph', new) ->
  tasks_weight n new + handler_weight s' c ph' < 5 + 2 * u.
Proof.
  intros Hu Hd Hex. pose proof (loop_step_quiet o c kp read s) as Hq. rewrite Hex in Hq.
  apply (quiet_unread _ _ c) in Hq. cbn in Hq. unfold handler_weight, tasks_weight. rewrite Hq.
  destruct read as [cp|err|]; [|cbn in Hex; case_match; simplify_eq; cbn; lia|done].
  specialize (Hu cp eq_refl).
  destruct cp; cbn in Hex; try (simplify_eq; cbn; lia).
  case_match; simplify_eq; cbn; lia.
Qed.

Lemma ReadPacket_net_total nc : fst (ReadPacket nc) <> Diverge.
Proof.
  rewrite ReadPacket_net. destruct (nc_closed nc); [done|]. cbn.
  destruct (nc_in nc) as [[|t bs] e]; [by rewrite ReadPacket_nil|]. rewrite ReadPacket_cons.
  destruct (read_after_parser t bs e) as (o & rest & -> & Hc). by destruct o.
Qed.

Local Ltac weigh :=
  unfold handler_weight, tasks_weight, unread in *;
  cbn -[Nat.mul Nat.add lookup insert] in *; lia.

Lemma exec_handler_weight n o c ph s s' ph' new :
  ph <> PDone -> exec_handler o c ph s = (s', ph', new) ->
  tasks_weight n new + handler_weight s' c ph' < handler_weight s c ph.
Proof.
  intros Hne Hex.
  destruct ph as [| | |code|d kp|d kp|kp|kp| | | | |]; cbn in Hex;
    try (simplify_eq; weigh).
  - destruct (nets s !! c) as [nc|] eqn:Hc; [|simplify_eq; weigh].
    destruct (ReadPacket nc) as [first nc'] eqn:Hr.
    assert (Hu : forall cp, first = Ret cp -> unread (set_net c nc' s) c < unread s c).
    { intros cp ->. rewrite unread_set_net. unfold unread. rewrite Hc.
      by eapply ReadPacket_unread. }
    destruct (hello_decision o first) eqn:Hh; simplify_eq; try weigh.
    destruct first as [cp| |]; [|done..]. specialize (Hu cp eq_refl). weigh.
  - pose proof (write_packet_quiet (fun _ => False) (new_connack Accepted (u16 kp)) c s) as Hq.
    destruct (write_packet _ _ _) as [[e|] s1]; simplify_eq; [weigh|].
    apply (quiet_unread _ _ c) in Hq. cbn in Hq. weigh.
  - destruct (store s !! d); simplify_eq; weigh.
  - destruct (nets s !! c) as [nc|] eqn:Hc; [|simplify_eq; weigh].
    pose proof (ReadPacket_net_total nc) as Hd.
    destruct (ReadPacket nc) as [read nc'] eqn:Hr.
    eapply loop_step_weight; [|exact Hd|exact Hex].
    intros cp Hcp. cbn in Hcp. subst read. rewrite unread_set_net. unfold unread. rewrite Hc. by eapply ReadPacket_unread.
Qed.

Lemma run_step_measure o x y : inv o x -> run_step o x y -> measure y < measure x.
Proof.
  intros Hinv Hs. revert Hinv.
  destruct Hs as [s h ts c ph s' ph' new Hh Hne Hex|s h pre t post s' new _ Hex]; intros Hinv; unfold measure; cbn [srv handlers tasks].
  - pose proof (exec_handler_quiet _ _ _ _ _ _ _ Hex) as Hq.
    rewrite (quiet_size _ _ _ Hq), tasks_weight_app, map_sum_update.
    rewrite (map_sum_lookup _ h c ph Hh), (quiet_others h (eq c) s s' c) by auto.
    pose proof (exec_handler_weight (size (nets s)) _ _ _ _ _ _ _ Hne Hex). lia.
  - pose proof (exec_task_quiet _ _ _ _ Hex) as Hq.
    pose proof (exec_task_weight (size (nets s)) _ _ _ _ (store_size _ _ Hinv) Hex).
    rewrite (quiet_size _ _ _ Hq), !tasks_weight_app.
    change (tasks_weight (size (nets s)) (t :: post))
      with (task_weight (size (nets s)) t + tasks_weight (size (nets s)) post).
    enough (map_sum (handler_weight s') h <= map_sum (handler_weight s) h) by lia.
    apply map_sum_le. intros k ph _. unfold handler_weight. by rewrite (quiet_unread _ _ k Hq).
Qed.

Lemma run_steps_inv o x y : inv o x -> rtc (run_step o) x y -> inv o y.
Proof.
  intros Hi Hr. induction Hr as [|x y z Hs _ IH]; [done|]. apply IH.
  destruct Hs; [by eapply inv_handler|by eapply inv_task].
Qed.

Lemma run_nsteps_measure o n x y :
  inv o x -> nsteps (run_step o) n x y -> n + measure y <= measure x.
Proof.
  intros Hi Hn. revert Hi. induction Hn as [x|n x y z Hs _ IH]; intros Hi; [lia|].
  pose proof (run_step_measure _ _ _ Hi Hs).
  specialize (IH (run_steps_inv _ _ _ Hi (rtc_once _ _ Hs))). lia.
Qed.

#[global] Instance PDone_dec (ph : phase) : Decision (ph = PDone).
Proof. destruct ph; (by left) || by right. Defined.

(** A configuration in which no goroutine can move. *)
Definition at_rest (o : ServerOptions) (x : config) : Prop := forall y, ~ run_step o x y.

Lemma at_rest_handlers o x c ph : at_rest o x -> handlers x !! c = Some ph -> ph = PDone.
Proof.
  destruct x as [s h ts]. cbn. intros Hrest Hh.
  destruct (decide (ph = PDone)) as [|Hne]; [done|].
  destruct (exec_handler o c ph s) as [[s' ph'] new] eqn:Hex.
  destruct (Hrest _ (run_handler o s h ts c ph s' ph' new Hh Hne Hex)).
Qed.

(** Once every connection's goroutine is done, so is the wait of Close. *)
Lemma at_rest_tasks o x : at_rest o x -> tasks x = [].
Proof.
  intros Hrest. pose proof (fun c ph => at_rest_handlers o x c ph Hrest) as Hdone.
  destruct x as [s h [|t ts]]; [done|]. cbn in Hdone.
  destruct (exec_task t s) as [s' new] eqn:Hex.
  assert (Hmay : may_run h t) by (intros _ c ph Hh; by rewrite (Hdone c ph Hh)).
  destruct (Hrest _ (run_task o s h [] t ts s' new Hmay Hex)).
Qed.

Lemma drain_bound o x n y : inv o x -> nsteps (run_step o) n x y -> n <= measure x.
Proof. intros Hi Hn. pose proof (run_nsteps_measure _ _ _ _ Hi Hn). lia. Qed.

Lemma at_rest_empty o x : inv o x -> at_rest o x ->
  store (srv x) = ∅ /\ conns (srv x) = ∅ /\
  (forall c nc, nets (srv x) !! c = Some nc -> nc_closed nc = true).
Proof.
  intros Hi Hrest. repeat split.
  - apply map_empty. intros d. apply eq_None_not_Some. intros [c Hc].
    destruct (inv_store _ _ Hi d c Hc) as (y & ph & _ & _ & Hh & Hr).
    by rewrite (at_rest_handlers _ _ _ _ Hrest Hh) in Hr.
  - apply set_eq. intros c. split; [|set_solver]. intros Hc.
    destruct (inv_conns _ _ Hi c Hc) as (ph & Hh & Hr).
    by rewrite (at_rest_handlers _ _ _ _ Hrest Hh) in Hr.
  - intros c nc Hc. destruct (proj2 (inv_dom _ _ Hi c)) as [ph Hph]; [eauto|].
    pose proof (inv_phase _ _ Hi c ph nc Hph Hc) as Hp.
    by rewrite (at_rest_handlers _ _ _ _ Hrest Hph) in Hp.
Qed.

(** Either some goroutine can move or the configuration is at rest. *)
Lemma moves_or_rests o x : (exists y, run_step o x y) \/ at_rest o x.
Proof.
  destruct x as [s h ts].
  destruct (map_Forall_dec (fun _ ph => ph = PDone) h) as [Hall|Hno].
  - destruct ts as [|t ts].
    + right. intros y Hs. inversion Hs as [? ? ? c ph s' ph' new Hh Hne Hex|? ? pre t post];
        simplify_eq; [by apply Hne, (Hall c ph)|by destruct pre].
    + left. destruct (exec_task t s) as [s' new] eqn:Hex.
      eexists. apply (run_task o s h [] t ts s' new); [|done].
      intros _ c ph Hh. by rewrite (Hall c ph Hh).
  - left. apply map_not_Forall in Hno as (c & ph & Hh & Hne); [|apply _].
    destruct (exec_handler o c ph s) as [[s' ph'] new] eqn:Hex.
    eexists. by apply (run_handler o s h ts c ph s' ph' new).
Qed.

Lemma drain_exists o x : inv o x -> exists y, rtc (run_step o) x y /\ at_rest o y.
Proof.
  induction x as [x IH] using (well_founded_induction (wf_inverse_image _ _ _ measure lt_wf)).
  intros Hi. destruct (moves_or_rests o x) as [[y Hs]|Hr]; [|by exists x].
  destruct (IH y) as (z & Hz & Hrest).
  - by eapply run_step_measure.
  - eapply run_steps_inv; [exact Hi|by apply rtc_once].
  - exists z. split; [by eapply rtc_l|done].
Qed.
