(* ===== verification/ServerProps.v ===== *)
(** * The guarantees of the server

    The theorems about server/server.go and server/conn.go, over every
    interleaving of the goroutines and every behaviour of peers, application
    and network. *)

From Stdlib Require Import ZArith Lia String.
From stdpp Require Import base list strings gmap numbers relations.
From S2P Require Import Prelude GoIO Codec CodecFacts Store Server ServerFacts ServerDrain.

Local Open Scope Z_scope.

(** ** Counting callbacks *)

(** How many callbacks of one kind a device got. *)
Definition count (p : event -> bool) (evs : list event) : nat := length (List.filter p evs).

Definition is_established (d : gostring) (e : event) : bool :=
  match e with OnConnectionEstablished d' => bool_decide (d' = d) | _ => false end.

(** Reported closed by its own handler, in the teardown. *)
Definition is_closed (d : gostring) (e : event) : bool :=
  match e with
  | OnConnectionClosed d' reason =>
      bool_decide (d' = d) && (reason =? "connection closed")%string
  | _ => false
  end.

(** Reported closed, whatever the reason: by a handler or by Kick. *)
Definition is_reported (d : gostring) (e : event) : bool :=
  match e with OnConnectionClosed d' _ => bool_decide (d' = d) | _ => false end.

(** A call of Kick that found the device and returned nil. *)
Definition is_kicked (d : gostring) (e : event) : bool :=
  match e with KickResult d' None => bool_decide (d' = d) | _ => false end.

(** Announced to the application and not yet reported closed. *)
Definition announced (ph : phase) : bool :=
  match ph with PLoop _ | PTeardown | PRemove | PClosed => true | _ => false end.

Definition open_conns (s : server) (h : gmap connid phase) (d : gostring) : nat :=
  map_sum (fun c ph => if announced ph && bool_decide (device_of c s = d) then 1 else 0)%nat h.

Definition balanced (x : config) : Prop := forall d,
  count (is_established d) (events (srv x)) =
    (count (is_closed d) (events (srv x)) + open_conns (srv x) (handlers x) d)%nat.

(** Every report is that of a handler or belongs to one Kick that succeeded. *)
Definition reports_counted (evs : list event) : Prop := forall d,
  count (is_reported d) evs = (count (is_closed d) evs + count (is_kicked d) evs)%nat.

(** ** Device IDs are fixed when a connection is registered *)

Lemma device_of_kept s s' c : ids_kept s s' -> is_Some (dcs s !! c) -> device_of c s' = device_of c s.
Proof.
  intros Hk [x Hx]. destruct (Hk c x Hx) as (x' & Hx' & Hid & _). unfold device_of.
  by rewrite Hx, Hx'.
Qed.

Lemma ids_kept_dcs s s' : dcs s' = dcs s -> ids_kept s s'.
Proof. intros Hd c x Hx. exists x. by rewrite Hd. Qed.

Lemma ids_kept_trans s1 s2 s3 : ids_kept s1 s2 -> ids_kept s2 s3 -> ids_kept s1 s3.
Proof.
  intros H1 H2 c x Hx. destruct (H1 c x Hx) as (y & Hy & Hid & Ha).
  destruct (H2 c y Hy) as (z & Hz & Hid' & Ha'). exists z. repeat split; [done|congruence|auto].
Qed.

Lemma write_packet_dcs cp c s : dcs (snd (write_packet cp c s)) = dcs s.
Proof.
  unfold write_packet. destruct (nets s !! c) as [nc|]; [|done].
  by destruct (Packet_Write cp nc) as [[? ?] ?].
Qed.

Lemma conn_Close_dcs c s : dcs (conn_Close c s) = dcs s.
Proof. unfold conn_Close. by destruct (nets s !! c). Qed.

Lemma SendDisconnect_dcs c r s : dcs (SendDisconnect c r s) = dcs s.
Proof. unfold SendDisconnect. case_match; [apply write_packet_dcs|done]. Qed.

Lemma dc_Write_dcs c p s : dcs (snd (dc_Write c p s)) = dcs s.
Proof. unfold dc_Write. case_match; [apply write_packet_dcs|done]. Qed.

Lemma close_all_dcs (cs : gset connid) s : dcs (set_fold conn_Close s cs) = dcs s.
Proof.
  apply (set_fold_ind_L (fun s' _ => dcs s' = dcs s)); [done|].
  intros c X s' _ IH. by rewrite conn_Close_dcs.
Qed.

Lemma dc_Close_kept c s : ids_kept s (dc_Close c s).
Proof.
  unfold dc_Close. destruct (dcs s !! c) as [x|] eqn:Hc; [|by apply ids_kept_dcs].
  destruct (active x); [|by apply ids_kept_dcs]. intros c' x' Hx'.
  rewrite conn_Close_dcs. cbn. destruct (decide (c' = c)) as [->|Hne].
  - rewrite lookup_insert_eq. simplify_eq. by eexists.
  - rewrite lookup_insert_ne by congruence. eauto.
Qed.

#[local] Hint Resolve ids_kept_dcs write_packet_dcs conn_Close_dcs SendDisconnect_dcs dc_Write_dcs
  close_all_dcs dc_Close_kept : rmtt.

Lemma exec_task_kept t s s' new : exec_task t s = (s', new) -> ids_kept s s'.
Proof.
  intros Hex. destruct t as [| | | | |d payload|c d payload|d reason| | | | | |[]| | |]; cbn in Hex;
    try (simplify_eq; by auto with rmtt).
  - destruct (Get _ _) as [c|]; [destruct (IsActive c s)|]; simplify_eq; auto with rmtt.
  - pose proof (dc_Write_dcs c payload s) as Hd.
    destruct (dc_Write _ _ _). simplify_eq. by apply ids_kept_dcs.
  - destruct (Get _ _) as [c|]; [destruct (IsActive c s)|]; simplify_eq; auto with rmtt.
Qed.

Lemma loop_step_dcs o c kp read s : dcs (loop_step o c kp read s).1.1 = dcs s.
Proof. destruct read as [[]|err|]; cbn; try case_match; cbn; auto with rmtt. Qed.

Lemma exec_handler_kept o c ph s s' ph' new :
  (forall d kp, ph = PRegister d kp -> dcs s !! c = None) ->
  exec_handler o c ph s = (s', ph', new) -> ids_kept s s'.
Proof.
  intros Hnew Hex. destruct ph as [| | |code|d kp|d kp|kp|kp| | | | |]; cbn in Hex;
    try (simplify_eq; by auto with rmtt).
  - destruct (nets s !! c) as [nc|]; [|simplify_eq; auto with rmtt].
    destruct (ReadPacket nc) as [first nc'].
    destruct (hello_decision o first); simplify_eq; apply ids_kept_dcs;
      by rewrite ?conn_Close_dcs.
  - simplify_eq. apply ids_kept_dcs. by rewrite conn_Close_dcs, write_packet_dcs.
  - pose proof (write_packet_dcs (new_connack Accepted (u16 kp)) c s) as Hd.
    destruct (write_packet _ _ _) as [[e|] s1]; simplify_eq; apply ids_kept_dcs;
      by rewrite ?conn_Close_dcs.
  - specialize (Hnew d kp eq_refl). simplify_eq. intros c' x Hx. exists x. cbn.
    rewrite lookup_insert_ne by congruence. done.
  - destruct (nets s !! c) as [nc|]; [|simplify_eq; auto with rmtt].
    destruct (ReadPacket nc) as [read nc'].
    pose proof (loop_step_dcs o c kp read (set_net c nc' s)) as Hd. rewrite Hex in Hd.
    by apply ids_kept_dcs.
Qed.

(** ** Lifecycle callbacks *)

(** Events that do not count as lifecycle callbacks of a connection. *)
Definition neutral (e : event) : Prop :=
  match e with
  | OnConnectionEstablished _ => False
  | OnConnectionClosed _ reason => reason <> "connection closed"%string
  | _ => True
  end.

Definition neutral_growth (s s' : server) : Prop :=
  exists l, events s' = l ++ events s /\ Forall neutral l.

Lemma neutral_same s s' : events s' = events s -> neutral_growth s s'.
Proof. intros He. by exists []. Qed.

Lemma neutral_tables s s' : same_tables s s' -> neutral_growth s s'.
Proof. intros (_ & _ & He). by apply neutral_same. Qed.

Lemma neutral_log e s s' : neutral e -> neutral_growth s s' -> neutral_growth s (log e s').
Proof.
  intros He (l & Hl & Hf). exists (e :: l). cbn. rewrite Hl. split; [done|]. by constructor.
Qed.

#[local] Hint Resolve neutral_same neutral_tables neutral_log : rmtt.
#[local] Hint Extern 1 (neutral _) => done : rmtt.

Lemma exec_task_neutral t s s' new : exec_task t s = (s', new) -> neutral_growth s s'.
Proof.
  intros Hex. destruct t as [| | | | |d payload|c d payload|d reason| | | | | |[]| | |]; cbn in Hex;
    try (simplify_eq; by auto with rmtt).
  - destruct (Get _ _) as [c|]; [destruct (IsActive c s)|]; simplify_eq; auto with rmtt.
  - pose proof (dc_Write_tables c payload s) as Ht.
    destruct (dc_Write _ _ _). simplify_eq. auto with rmtt.
  - destruct (Get _ _) as [c|]; [destruct (IsActive c s)|]; simplify_eq; auto with rmtt.
Qed.

Lemma loop_step_events o c kp read s : events (loop_step o c kp read s).1.1 = events s.
Proof.
  pose proof (fun cp => proj2 (proj2 (write_packet_tables cp c s))) as Hw.
  destruct read as [[]|err|]; cbn; try case_match; cbn; auto.
Qed.

Lemma exec_handler_events o c ph s s' ph' new :
  exec_handler o c ph s = (s', ph', new) ->
  events s' = match ph with
              | PEstablish _ => OnConnectionEstablished (device_of c s) :: events s
              | PClosed => OnConnectionClosed (device_of c s) "connection closed" :: events s
              | _ => events s
              end.
Proof.
  intros Hex. destruct ph as [| | |code|d kp|d kp|kp|kp| | | | |]; cbn in Hex;
    try (simplify_eq; done).
  - destruct (nets s !! c) as [nc|]; [|by simplify_eq].
    destruct (ReadPacket nc) as [first nc'].
    destruct (hello_decision o first); simplify_eq; try done.
    apply (conn_Close_tables c (set_net c nc' s)).
  - simplify_eq. etransitivity; [apply conn_Close_tables|apply write_packet_tables].
  - pose proof (write_packet_tables (new_connack Accepted (u16 kp)) c s) as (_ & _ & He).
    destruct (write_packet _ _ _) as [[e|] s1]; simplify_eq; [|done].
    etransitivity; [apply conn_Close_tables|done].
  - destruct (nets s !! c) as [nc|]; [|by simplify_eq].
    destruct (ReadPacket nc) as [read nc'].
    pose proof (loop_step_events o c kp read (set_net c nc' s)) as Hd. by rewrite Hex in Hd.
  - simplify_eq. apply dc_Close_tables.
Qed.

Lemma exec_handler_announced o c ph s s' ph' new :
  exec_handler o c ph s = (s', ph', new) ->
  announced ph' = match ph with
                  | PEstablish _ => true
                  | PClosed => false
                  | _ => announced ph
                  end.
Proof.
  intros Hex. destruct ph as [| | |code|d kp|d kp|kp|kp| | | | |]; cbn in Hex;
    try (simplify_eq; done).
  - destruct (nets s !! c) as [nc|]; [|by simplify_eq].
    destruct (ReadPacket nc) as [first nc'].
    by destruct (hello_decision o first); simplify_eq.
  - by destruct (write_packet _ _ _) as [[e|] s1]; simplify_eq.
  - destruct (nets s !! c) as [nc|]; [|by simplify_eq].
    destruct (ReadPacket nc) as [[cp|err|] nc']; cbn in Hex; [|case_match; by simplify_eq|by simplify_eq].
    destruct cp; cbn in Hex; by simplify_eq.
Qed.

Lemma count_neutral d l evs : Forall neutral l ->
  count (is_established d) (l ++ evs) = count (is_established d) evs /\
  count (is_closed d) (l ++ evs) = count (is_closed d) evs.
Proof.
  unfold count. induction 1 as [|e l He _ [IH1 IH2]]; [done|].
  destruct e as [|d' r| | | |]; cbn in *; try done.
  destruct (String.eqb_spec r "connection closed"); [done|]. by rewrite andb_false_r.
Qed.

Lemma announced_dc o x c ph :
  inv o x -> handlers x !! c = Some ph -> announced ph = true -> is_Some (dcs (srv x) !! c).
Proof.
  intros Hi Hh Ha. destruct (proj1 (inv_dom _ _ Hi c)) as [nc Hnc]; [eauto|].
  pose proof (inv_phase _ _ Hi c ph nc Hh Hnc) as Hp. destruct ph; try done; cbn in Hp.
  - destruct Hp as (x' & Hx & _). eauto.
  - destruct Hp as (x' & Hx & _). eauto.
  - destruct Hp as (x' & Hx & _). eauto.
Qed.

Lemma open_conns_kept o s h ts s' d (c : option connid) :
  inv o (mkConfig s h ts) -> ids_kept s s' ->
  let h' := match c with Some c => delete c h | None => h end in
  open_conns s' h' d = open_conns s h' d.
Proof.
  intros Hi Hk h'. apply map_sum_ext. intros k ph Hh.
  assert (h !! k = Some ph) as Hh'.
  { subst h'. destruct c; [|done]. by apply lookup_delete_Some in Hh as [_ ?]. }
  destruct (announced ph) eqn:Ha; [|done].
  rewrite (device_of_kept s s'); [done|done|].
  by apply (announced_dc _ _ k ph Hi).
Qed.

(** A phase change that is not a lifecycle callback. *)
Lemma open_conns_update o s h ts s' c ph ph' d :
  inv o (mkConfig s h ts) -> ids_kept s s' -> h !! c = Some ph ->
  (open_conns s' (<[c := ph']> h) d +
     (if announced ph && bool_decide (device_of c s = d) then 1 else 0) =
   open_conns s h d + (if announced ph' && bool_decide (device_of c s' = d) then 1 else 0))%nat.
Proof.
  intros Hi Hk Hh. pose proof (open_conns_kept _ _ _ _ _ d (Some c) Hi Hk) as Ho. cbn in Ho.
  unfold open_conns in *. rewrite map_sum_update, (map_sum_lookup _ h c ph Hh), Ho. lia.
Qed.

Lemma balanced_task o s h pre t post s' new :
  inv o (mkConfig s h (pre ++ t :: post)) -> balanced (mkConfig s h (pre ++ t :: post)) ->
  exec_task t s = (s', new) -> balanced (mkConfig s' h (pre ++ new ++ post)).
Proof.
  intros Hi Hb Hex d. specialize (Hb d). cbn in *.
  destruct (exec_task_neutral _ _ _ _ Hex) as (l & -> & Hl).
  destruct (count_neutral d l (events s) Hl) as [-> ->].
  by rewrite (open_conns_kept _ _ _ _ _ d None Hi (exec_task_kept _ _ _ _ Hex)).
Qed.

Lemma device_of_handler o s h ts c ph s' ph' new :
  inv o (mkConfig s h ts) -> h !! c = Some ph -> ids_kept s s' ->
  exec_handler o c ph s = (s', ph', new) -> announced ph' = true ->
  device_of c s' = device_of c s.
Proof.
  intros Hi Hh Hk Hex Ha. apply device_of_kept; [done|].
  rewrite (exec_handler_announced _ _ _ _ _ _ _ Hex) in Ha.
  destruct (inv_at _ _ _ _ _ _ Hi Hh) as (nc & Hnc & Hp & _).
  destruct ph; try done; cbn in Hp; try (destruct Hp as (x' & Hx & _); eauto); done.
Qed.

Lemma balanced_handler o s h ts c ph s' ph' new :
  inv o (mkConfig s h ts) -> balanced (mkConfig s h ts) ->
  h !! c = Some ph -> ph <> PDone -> exec_handler o c ph s = (s', ph', new) ->
  balanced (mkConfig s' (<[c := ph']> h) (new ++ ts)).
Proof.
  intros Hi Hb Hh Hne Hex d. specialize (Hb d). cbn in *.
  assert (Hk : ids_kept s s').
  { eapply exec_handler_kept; [|exact Hex]. intros d' kp ->.
    by destruct (inv_at _ _ _ _ _ _ Hi Hh) as (nc & _ & (? & _) & _). }
  pose proof (open_conns_update _ _ _ _ _ c ph ph' d Hi Hk Hh) as Ho.
  pose proof (device_of_handler _ _ _ _ _ _ _ _ _ Hi Hh Hk Hex) as Hd.
  rewrite (exec_handler_events _ _ _ _ _ _ _ Hex).
  rewrite (exec_handler_announced _ _ _ _ _ _ _ Hex) in Ho, Hd. unfold count in *.
  destruct ph; cbn in *; try rewrite (Hd eq_refl) in Ho; try lia;
    destruct (bool_decide _); cbn in *; lia.
Qed.

Lemma balanced_env o x y : inv o x -> balanced x -> env_step x y -> balanced y.
Proof.
  intros Hi Hb He d. specialize (Hb d).
  destruct He as [s h ts c f Hn|s h ts|s h ts|s h ts|s h ts|s h ts c nc e Hn]; cbn in *; try done.
  etransitivity; [exact Hb|]. f_equal. unfold open_conns. rewrite map_sum_insert; [done|].
  apply eq_None_not_Some. intros Hs%(inv_dom _ _ Hi). cbn in Hs. rewrite Hn in Hs. by destruct Hs.
Qed.

Lemma balanced_reachable o x : reachable o x -> balanced x.
Proof.
  intros Hr. enough (inv o x /\ balanced x) by tauto. revert Hr. unfold reachable.
  apply (rtc_ind_r (fun y => inv o y /\ balanced y)).
  - split; [apply inv_init|]. intros d. done.
  - intros y z Hr Hs [Hi Hb]. assert (Hiz : inv o z).
    { apply inv_reachable. by eapply rtc_r. }
    split; [done|]. destruct Hs as [Hs|Hs]; [|exact (balanced_env o y z Hi Hb Hs)]. clear Hr Hiz.
    revert Hi Hb. destruct Hs; intros Hi Hb; [eapply balanced_handler|eapply balanced_task]; eauto.
Qed.

(** ** Reports of a closed connection *)

Lemma reports_log e evs :
  match e with OnConnectionClosed _ _ | KickResult _ None => False | _ => True end ->
  reports_counted evs -> reports_counted (e :: evs).
Proof. intros He Hr d. specialize (Hr d). by destruct e as [| | | |? []|]. Qed.

Lemma reports_handler d evs :
  reports_counted evs -> reports_counted (OnConnectionClosed d "connection closed" :: evs).
Proof.
  intros Hr d'. specialize (Hr d'). unfold count in *. cbn.
  destruct (bool_decide (d = d')); cbn; lia.
Qed.

(** Kick's own callback comes with its return. *)
Lemma reports_kick d reason evs :
  reports_counted evs -> reports_counted (KickResult d None :: OnConnectionClosed d (kick_text reason) :: evs).
Proof.
  intros Hr d'. specialize (Hr d').
  assert (Hk : (kick_text reason =? "connection closed")%string = false) by reflexivity.
  unfold count in *. cbn [List.filter is_reported is_closed is_kicked]. rewrite Hk, andb_false_r.
  destruct (bool_decide (d = d')); cbn; lia.
Qed.

Lemma reports_task t s s' new :
  exec_task t s = (s', new) -> reports_counted (events s) -> reports_counted (events s').
Proof.
  intros Hex Hr.
  assert (Hw : forall s1, same_tables s s1 -> reports_counted (events s1)) by by intros s1 (_ & _ & ->).
  destruct t as [| | | | |d payload|c d payload|d reason| | | | | |[]| | |]; cbn in Hex;
    try (simplify_eq; first [apply Hw; by auto with rmtt|by apply reports_kick|by apply reports_log|done]).
  - destruct (Get _ _) as [c|]; [destruct (IsActive c s)|]; simplify_eq; [done|by apply reports_log..].
  - pose proof (dc_Write_tables c payload s) as Ht.
    destruct (dc_Write _ _ _). simplify_eq. apply reports_log; [done|by apply Hw].
  - destruct (Get _ _) as [c|]; [destruct (IsActive c s)|]; simplify_eq; [done|by apply reports_log..].
Qed.

Lemma reports_reachable o x : reachable o x -> reports_counted (events (srv x)).
Proof.
  unfold reachable. apply (rtc_ind_r (fun y => reports_counted (events (srv y)))); [done|].
  intros y z _ [Hs|Hs] Hr; [|by destruct Hs].
  destruct Hs as [s h ts c ph s' ph' new _ _ Hex|s h pre t post s' new _ Hex]; cbn in *;
    [|by eapply reports_task].
  rewrite (exec_handler_events _ _ _ _ _ _ _ Hex).
  destruct ph; by first [apply reports_handler|exact Hr].
Qed.

(** ** Executable schedules

    A schedule names which goroutine or which part of the environment moves
    next; running it gives a reachable configuration. *)

Inductive action : Type :=
| Accept (c : connid) (f : flat)
| CallPush (d : gostring) (payload : list Z)
| CallKick (d : gostring) (reason : Z)
| CallClose
| Timer (c : connid)
| Fault (c : connid) (e : option (nat * error))
| Handler (c : connid)
| Task (i : nat).

#[global] Instance may_run_dec h t : Decision (may_run h t).
Proof.
  destruct t; try (left; intros ?; discriminate).
  destruct (decide (map_Forall (fun _ ph => running ph = false) h)) as [Hm|Hm].
  - left. by intros _.
  - right. intros Hr. by apply Hm, Hr.
Defined.

Definition act (o : ServerOptions) (a : action) (x : config) : option config :=
  let '(mkConfig s h ts) := x in
  match a with
  | Accept c f =>
      match nets s !! c with
      | None => Some (mkConfig (set_net c (mkNet f f [] false None false) s) (<[c := PStart]> h) ts)
      | Some _ => None
      end
  | CallPush d payload =>
      if Z.of_nat (length payload) <? 2 ^ 28 - 1
      then Some (mkConfig s h (TPush d payload :: ts)) else None
  | CallKick d reason =>
      if (0 <=? reason) && (reason <? 256)
      then Some (mkConfig s h (TKick d reason :: ts)) else None
  | CallClose => Some (mkConfig s h (TClose :: ts))
  | Timer c =>
      match h !! c with
      | Some (PLoop kp) =>
          match keepaliveTimer kp with
          | Some _ => Some (mkConfig s h (TReap c :: ts))
          | None => None
          end
      | _ => None
      end
  | Fault c e =>
      match nets s !! c with
      | Some nc => Some (mkConfig (set_net c (set_fault e nc) s) h ts)
      | None => None
      end
  | Handler c =>
      match h !! c with
      | Some ph =>
          if decide (ph = PDone) then None
          else let '(s', ph', new) := exec_handler o c ph s in
               Some (mkConfig s' (<[c := ph']> h) (new ++ ts))
      | None => None
      end
  | Task i =>
      match ts !! i with
      | Some t =>
          if decide (may_run h t) then
            let '(s', new) := exec_task t s in
            Some (mkConfig s' h (take i ts ++ new ++ drop (S i) ts))
          else None
      | None => None
      end
  end.

Fixpoint schedule (o : ServerOptions) (acts : list action) (x : config) : option config :=
  match acts with
  | [] => Some x
  | a :: acts => match act o a x with Some y => schedule o acts y | None => None end
  end.

(** Goroutines run; everything else is the environment. *)
Lemma act_kind o a x y :
  act o a x = Some y ->
  match a with Handler _ | Task _ => run_step o x y | _ => env_step x y end.
Proof.
  destruct x as [s h ts], a as [c f|d p|d r| |c|c e|c|i]; cbn; intros Hy.
  - destruct (nets s !! c) eqn:Hn; simplify_eq. by constructor.
  - destruct (Z.ltb_spec (Z.of_nat (length p)) (2 ^ 28 - 1)); simplify_eq. by constructor.
  - destruct (Z.leb_spec 0 r), (Z.ltb_spec r 256); simplify_eq/=.
    constructor. by apply byte_small.
  - simplify_eq. by constructor.
  - destruct (h !! c) as [[]|] eqn:Hh; simplify_eq.
    destruct (keepaliveTimer serverKp) eqn:Hk; simplify_eq. eapply env_timer; eauto.
  - destruct (nets s !! c) eqn:Hn; simplify_eq. by constructor.
  - destruct (h !! c) as [ph|] eqn:Hh; [|done]. destruct (decide (ph = PDone)); [done|].
    destruct (exec_handler o c ph s) as [[s' ph'] new] eqn:Hex. simplify_eq. by eapply run_handler.
  - destruct (ts !! i) as [t|] eqn:Ht; [|done]. destruct (decide (may_run h t)); [|done].
    destruct (exec_task t s) as [s' new] eqn:Hex. simplify_eq.
    rewrite <- (take_drop_middle ts i t Ht) at 1. by apply run_task.
Qed.

Lemma act_step o a x y : act o a x = Some y -> sys_step o x y.
Proof. intros Ha%act_kind. unfold sys_step. destruct a; auto. Qed.

Lemma schedule_reachable o acts x y :
  reachable o x -> schedule o acts x = Some y -> reachable o y.
Proof.
  revert x. induction acts as [|a acts IH]; cbn; intros x Hr Hy; [by simplify_eq|].
  destruct (act o a x) as [z|] eqn:Ha; [|done].
  apply (IH z); [|done]. eapply rtc_r; [exact Hr|by eapply act_step].
Qed.

(** ** Theorems *)

(** C5: the server always comes to rest.  From any reachable state the server's
    goroutines can take only boundedly many steps before the environment moves
    again (reading strictly shortens a connection's unread input, every other
    phase and task is finite), so they do reach a state in which none can move;
    and in every such state all calls have returned, the store and the set of
    tracked connections are empty and every socket is closed: no goroutine,
    entry or socket leaks. *)
Theorem server_drains (o : ServerOptions) (x : config) :
  reachable o x ->
  (forall n y, nsteps (run_step o) n x y -> (n <= measure x)%nat) /\
  (exists y, rtc (run_step o) x y /\ at_rest o y) /\
  (forall y, rtc (run_step o) x y -> at_rest o y ->
     tasks y = [] /\ store (srv y) = ∅ /\ conns (srv y) = ∅ /\
     forall c nc, nets (srv y) !! c = Some nc -> nc_closed nc = true).
Proof.
  intros Hi%inv_reachable. split; [|split].
  - intros n y. by apply drain_bound.
  - by apply drain_exists.
  - intros y Hy Hrest. pose proof (run_steps_inv _ _ _ Hi Hy) as Hiy.
    split; [by eapply at_rest_tasks|]. by eapply at_rest_empty.
Qed.

(** C7: the connection store never holds a stale entry: at every moment, the
    connection stored for a device was authenticated as that device, its
    handler has registered it and has not yet torn it down, and no connection
    is stored under two device IDs. *)
Theorem store_never_stale (o : ServerOptions) (x : config) (d : gostring) (c : connid) :
  reachable o x -> store (srv x) !! d = Some c ->
  (exists nc ph, nets (srv x) !! c = Some nc /\ authorised o (nc_all nc) d /\
     handlers x !! c = Some ph /\ registered ph = true) /\
  (forall d', store (srv x) !! d' = Some c -> d' = d).
Proof.
  intros Hi%inv_reachable Hd. destruct (inv_store _ _ Hi d c Hd) as (y & ph & Hy & <- & Hh & Hr).
  split.
  - destruct (inv_dc _ _ Hi c y Hy) as (nc & Hnc & _ & _ & Ha). by exists nc, ph.
  - intros d' Hd'. destruct (inv_store _ _ Hi d' c Hd') as (y' & ph' & Hy' & <- & _). congruence.
Qed.

(** C10: authentication is never bypassed and inactive connections are closed: a
    device connection exists only for a network connection whose peer's first
    packet was a CONNECT with the right magic number and version and a
    credential the authenticator accepted as exactly that non-empty device ID;
    the peer was sent CONNACK(Accepted) before anything else; and a connection
    marked inactive has its socket closed. *)
Theorem device_connections_authenticated (o : ServerOptions) (x : config) (c : connid)
    (dc : deviceConnection) :
  reachable o x -> dcs (srv x) !! c = Some dc ->
  exists nc, nets (srv x) !! c = Some nc /\ authorised o (nc_all nc) (deviceID dc) /\
    connack_first Accepted nc /\ (active dc = false -> nc_closed nc = true).
Proof.
  intros Hi%inv_reachable Hd. destruct (inv_dc _ _ Hi c dc Hd) as (nc & Hnc & Hc & Hf & Ha).
  by exists nc.
Qed.

(** C18: whatever the interleaving of handler, takeover, reaper, Push, Kick and
    Close, senders never mix their frames: every Write call on a connection carries
    bytes of one well-formed packet only, a prefix of its frame; on a connection on which no Write has failed
    ([nc_torn] is false) each one carries the complete frame; and the first one is a
    CONNACK, complete, or cut short by a Write that failed, and then nothing follows it. *)
Theorem outbound_framing (o : ServerOptions) (x : config) (c : connid) (nc : netconn) :
  reachable o x -> nets (srv x) !! c = Some nc ->
  Forall (fun bs => exists cp k, packet_ok cp /\ bs = take k (frame cp)) (nc_out nc) /\
  (nc_torn nc = false -> exists cps, Forall packet_ok cps /\ nc_out nc = frame <$> cps) /\
  (nc_out nc = [] \/
   (exists code kp rest, 0 <= kp < 65536 /\ nc_out nc = frame (new_connack code kp) :: rest) \/
   (nc_torn nc = true /\ exists code kp k, nc_out nc = [take k (frame (new_connack code kp))])).
Proof.
  intros Hi%inv_reachable Hc. destruct (inv_out _ _ Hi c nc Hc) as (Hf & Hw & Hfirst).
  split; [done|]. split; [|done]. intros Ht. specialize (Hw Ht). clear Hf Hfirst Ht.
  induction Hw as [|bs l (cp & Hok & ->) _ (cps & Hcps & ->)]; [by exists []|].
  exists (cp :: cps). split; [by constructor|done].
Qed.

(** C17: the application sees a device's lifecycle in order and in pairs: no
    message of a device is handed over before its OnConnectionEstablished, and
    at every moment each announced connection was either reported closed by its
    own handler (reason "connection closed") exactly once or is still open, so that at
    rest the two callbacks match one to one for every device.  Kick makes an
    OnConnectionClosed of its own, with its own reason, besides that of the handler: at
    every moment the calls of OnConnectionClosed for a device, whatever their reason,
    are those of the handlers and one for each Kick that returned nil, so that at rest
    a device is reported closed as often as it was established and once more for each
    such Kick. *)
Theorem lifecycle_callbacks (o : ServerOptions) (x : config) :
  reachable o x ->
  (forall later d payload earlier,
    events (srv x) = later ++ MessageHandler d payload :: earlier ->
    OnConnectionEstablished d ∈ earlier) /\
  (forall d, count (is_established d) (events (srv x)) =
     (count (is_closed d) (events (srv x)) + open_conns (srv x) (handlers x) d)%nat) /\
  (forall d, count (is_reported d) (events (srv x)) =
     (count (is_closed d) (events (srv x)) + count (is_kicked d) (events (srv x)))%nat) /\
  (at_rest o x -> forall d,
    count (is_established d) (events (srv x)) = count (is_closed d) (events (srv x)) /\
    count (is_reported d) (events (srv x)) =
      (count (is_established d) (events (srv x)) + count (is_kicked d) (events (srv x)))%nat).
Proof.
  intros Hr. pose proof (inv_reachable _ _ Hr) as Hi. pose proof (balanced_reachable _ _ Hr) as Hb.
  pose proof (reports_reachable _ _ Hr) as Hk. split; [|split; [|split]].
  - exact (inv_events _ _ Hi).
  - exact Hb.
  - exact Hk.
  - intros Hrest d. rewrite (Hk d), (Hb d).
    assert (open_conns (srv x) (handlers x) d = 0%nat) as ->; [|lia].
    apply map_sum_zero. intros c ph Hh. by rewrite (at_rest_handlers _ _ _ _ Hrest Hh).
Qed.

(** ** One connection on the wire *)

(** A connection nobody closed and whose network works. *)
Definition healthy (nc : netconn) : Prop := nc_closed nc = false /\ nc_fault nc = None.

Lemma write_healthy cp c nc s :
  nets s !! c = Some nc -> healthy nc ->
  write_packet cp c s =
    (None, set_net c (wrote (frame cp) (nc_torn nc) nc) s).
Proof.
  intros Hnc [Hc Hf]. unfold write_packet. rewrite Hnc.
  destruct (Packet_Write_net cp nc) as [cp' ->]. by rewrite Hc, Hf.
Qed.

Lemma read_healthy nc cp rest :
  packet_ok cp -> nc_closed nc = false -> fl_bytes (nc_in nc) = frame cp ++ rest ->
  ReadPacket nc = (Ret (received cp),
    mkNet (nc_all nc) (Flat rest (fl_end (nc_in nc))) (nc_out nc) false (nc_fault nc) (nc_torn nc)).
Proof.
  intros Hok Hc Hin. rewrite ReadPacket_net, Hc.
  pose proof (received_reads (R := flat) cp Hok) as Hrd.
  destruct (Hrd (nc_in nc) rest Hin) as ([bs e] & -> & Hb & He).
  cbn in *. by subst.
Qed.

(** Who the peer is, according to the configured authenticator. *)
Definition identity (o : ServerOptions) (p : ConnectPacket) : gostring * bool :=
  match Authenticator o with
  | Some f => f (Credential p)
  | None => (Credential p, true)
  end.

(** C31: the handshake, from the peer's bytes to the server's answer: on a
    connection whose peer sends a CONNECT frame, a wrong magic number closes
    without a reply; a wrong version, a refused credential or an empty device
    ID sends exactly one CONNACK with the matching code and keepalive 0, and
    closes; otherwise exactly one CONNACK(Accepted) with the keepalive the
    policy decides is sent, the socket stays open, positioned right after the
    CONNECT frame, and the handler goes on to register the device. *)
Theorem handshake_reply (o : ServerOptions) (s : server) (c : connid) (p : ConnectPacket)
    (rest : list Z) (e : error) :
  packet_ok (PConnect p) ->
  nets s !! c = Some (mkNet (Flat (frame (PConnect p) ++ rest) e)
    (Flat (frame (PConnect p) ++ rest) e) [] false None false) ->
  let '(s1, ph1, _) := exec_handler o c PHello s in
  let '(s2, ph2, _) := exec_handler o c ph1 s1 in
  exists nc, nets s2 !! c = Some nc /\
    let refused code :=
      nc_out nc = [frame (new_connack code 0)] /\ nc_closed nc = true /\ ph2 = PUntrack in
    if MagicNumber p =? magic then
      if ProtocolVersion p =? 1 then
        match identity o p with
        | (d, true) =>
            if decide (d = []) then refused ErrRefusedNotAuthorised
            else let kp := Decide (Policy o) (Keepalive p) in
                 nc_out nc = [frame (new_connack Accepted (u16 kp))] /\
                 nc_closed nc = false /\ nc_in nc = Flat rest e /\ ph2 = PRegister d kp
        | (_, false) => refused ErrRefusedNotAuthorised
        end
      else refused ErrRefusedBadProtocolVersion
    else nc_out nc = [] /\ nc_closed nc = true /\ ph1 = PUntrack.
Proof.
  intros Hok Hnc. cbn [exec_handler]. rewrite Hnc.
  rewrite (read_healthy _ (PConnect p) rest) by done. cbn [nc_all nc_in nc_out nc_fault nc_torn fl_end].
  set (nc1 := mkNet _ _ [] false None false).
  assert (Hreject : forall code, let '(s2, ph2, _) := exec_handler o c (PReject code) (set_net c nc1 s) in
    exists nc, nets s2 !! c = Some nc /\ nc_out nc = [frame (new_connack code 0)] /\
      nc_closed nc = true /\ ph2 = PUntrack).
  { intros code. cbn [exec_handler].
    rewrite (write_healthy _ c nc1) by (done || apply lookup_set_net). cbn [snd].
    erewrite close_own by apply lookup_set_net. eexists. split; [apply lookup_set_net|done]. }
  cbn [received hello_decision MagicNumber ProtocolVersion Keepalive Credential].
  destruct (MagicNumber p =? magic); cbn [negb].
  2: { erewrite close_own by apply lookup_set_net. cbn [exec_handler].
       eexists. split; [apply lookup_set_net|done]. }
  destruct (ProtocolVersion p =? 1); cbn [negb].
  2: { specialize (Hreject ErrRefusedBadProtocolVersion).
       destruct (exec_handler _ _ _ _) as [[s2 ph2] ?]. exact Hreject. }
  specialize (Hreject ErrRefusedNotAuthorised). fold (identity o p).
  destruct (identity o p) as [d [|]]; cbn [fst snd negb].
  2: { destruct (exec_handler _ _ _ _) as [[s2 ph2] ?]. exact Hreject. }
  destruct d as [|b d].
  { destruct (exec_handler _ _ _ _) as [[s2 ph2] ?]. exact Hreject. }
  cbn [exec_handler].
  rewrite (write_healthy _ c nc1) by (done || apply lookup_set_net).
  eexists. split; [apply lookup_set_net|done].
Qed.

(** The packet loop answers each packet of an established connection as the
    protocol demands: PUSH hands exactly its payload to the message handler and
    writes nothing, PINGREQ is answered by exactly one PINGRESP, DISCONNECT
    ends the loop silently, and a packet only a server may send (or a second
    CONNECT) is answered by DISCONNECT(protocol violation) and ends the loop.
    In every case exactly the packet's frame is consumed. *)
Theorem packet_loop (o : ServerOptions) (s : server) (c : connid) (kp : Z) (nc : netconn)
    (cp : ControlPacket) (rest : list Z) :
  packet_ok cp -> nets s !! c = Some nc -> healthy nc ->
  fl_bytes (nc_in nc) = frame cp ++ rest ->
  let sent := match cp with
              | PPush _ | PDisconnect _ => []
              | PPingreq _ => [frame new_pingresp]
              | _ => [frame (new_disconnect DiscProtocolViolation)]
              end in
  let nc' := mkNet (nc_all nc) (Flat rest (fl_end (nc_in nc))) (nc_out nc ++ sent) false None (nc_torn nc) in
  exec_handler o c (PLoop kp) s =
    (set_net c nc' s,
     match cp with PPush _ | PPingreq _ => PLoop kp | _ => PTeardown end,
     match cp with
     | PPush p => if has_MessageHandler o then [TDeliver (device_of c s) (Payload p)] else []
     | _ => []
     end).
Proof.
  intros Hok Hnc [Hc Hf] Hin. cbn [exec_handler]. rewrite Hnc.
  rewrite (read_healthy nc cp rest Hok Hc Hin), Hf.
  set (nc1 := mkNet _ _ _ false None _).
  assert (Hw : forall pkt, snd (write_packet pkt c (set_net c nc1 s)) =
    set_net c (mkNet (nc_all nc1) (nc_in nc1) (nc_out nc1 ++ [frame pkt]) false None (nc_torn nc)) s).
  { intros pkt. rewrite (write_healthy _ c nc1) by (done || apply lookup_set_net).
    cbn [snd]. by rewrite set_net_twice. }
  destruct cp; cbn [received loop_step]; rewrite ?Hw, ?app_nil_r; done.
Qed.

(** Push tells the truth: with the connection found in the store, the call
    returns nil only when one complete PUSH frame with the payload was handed to
    the connection's socket; when it returns an error, at most a prefix of that
    frame was (nothing, and net.ErrClosed, when the connection was torn down in
    between); on a working connection it returns nil; and in no case does it
    touch another connection, the store or the set of tracked connections. *)
Theorem push_outcome (s : server) (c : connid) (d : gostring) (payload : list Z)
    (nc : netconn) (x : deviceConnection) :
  nets s !! c = Some nc -> dcs s !! c = Some x ->
  exists e nc',
    exec_task (TPushWrite c d payload) s =
      (mkServer (store s) (conns s) (<[c := nc']> (nets s)) (dcs s) (PushResult d e :: events s), []) /\
    (e = None -> nc' = wrote (frame (new_push payload)) (nc_torn nc) nc) /\
    (e <> None -> nc' = nc \/ exists k, nc' = wrote (take k (frame (new_push payload))) true nc) /\
    (active x = false -> e = Some net_ErrClosed /\ nc' = nc) /\
    (active x = true -> healthy nc -> e = None).
Proof.
  intros Hnc Hx. cbn [exec_task]. unfold dc_Write, IsActive, write_packet. rewrite Hx, Hnc.
  destruct (active x) eqn:Ha.
  - destruct (Packet_Write_net (new_push payload) nc) as [cp' ->]. unfold healthy.
    destruct (nc_closed nc) eqn:Hcl; [|destruct (nc_fault nc) as [[k e]|] eqn:Hfl];
      eexists _, _; (split; [reflexivity|]); repeat split; try done; naive_solver.
  - exists (Some net_ErrClosed), nc. rewrite (insert_id _ _ _ Hnc).
    split; [by destruct s|].
    repeat split; try done; by left.
Qed.

Lemma takeover_old s c d nc :
  dcs s !! c = Some (mkDC d true) -> nets s !! c = Some nc -> healthy nc ->
  let s' := set_net c (mkNet (nc_all nc) (nc_in nc)
    (nc_out nc ++ [frame (new_disconnect DiscSessionTakenOver)]) true None (nc_torn nc))
    (set_dc c (mkDC d false) s) in
  dc_Close c (SendDisconnect c DiscSessionTakenOver s) = s'.
Proof.
  intros Hx Hnc Hh. unfold SendDisconnect, IsActive. rewrite Hx. cbn [active].
  rewrite (write_healthy _ c nc s Hnc Hh). cbn [snd]. unfold dc_Close. cbn [dcs set_net].
  rewrite Hx. cbn [active deviceID].
  erewrite close_own by (cbn; apply lookup_insert_eq).
  unfold set_net, set_dc, net_close. cbn. by rewrite insert_insert_eq, (proj2 Hh).
Qed.

Lemma dc_Close_inactive s c x : dcs s !! c = Some x -> active x = false -> dc_Close c s = s.
Proof. intros Hx Ha. unfold dc_Close. by rewrite Hx, Ha. Qed.

(** C30: a session takeover replaces the old connection and cannot lose the new
    one: registering connection [c2] for a device that is connected on [c1]
    makes [c2] the stored connection and spawns the teardown of [c1], which
    sends DISCONNECT(session taken over) on [c1] and closes it; when the
    handler of [c1] then tears down and removes itself, the store still maps
    the device to [c2], which is active. *)
Theorem session_takeover (o : ServerOptions) (s : server) (c1 c2 : connid) (d : gostring)
    (kp : Z) (nc : netconn) :
  c1 <> c2 -> store s !! d = Some c1 -> dcs s !! c1 = Some (mkDC d true) ->
  nets s !! c1 = Some nc -> healthy nc ->
  let '(s1, ph, spawned) := exec_handler o c2 (PRegister d kp) s in
  ph = PEstablish kp /\ spawned = [TTakeover c1] /\ store s1 !! d = Some c2 /\
  let '(s2, more) := exec_task (TTakeover c1) s1 in
  more = [TTakeoverClose c1] /\
  let '(s3, _) := exec_task (TTakeoverClose c1) s2 in
  let '(s4, _, _) := exec_handler o c1 PTeardown s3 in
  let '(s5, _, _) := exec_handler o c1 PRemove s4 in
  store s5 !! d = Some c2 /\ IsActive c2 s5 = true /\ IsActive c1 s5 = false /\
  nets s5 = <[c1 := mkNet (nc_all nc) (nc_in nc)
    (nc_out nc ++ [frame (new_disconnect DiscSessionTakenOver)]) true None (nc_torn nc)]> (nets s).
Proof.
  intros Hne Hst Hx Hnc Hh. cbn [exec_handler Register fst snd].
  cbn [newDeviceConnection set_dc store]. rewrite Hst. cbn [set_store store].
  rewrite lookup_insert_eq. split; [done|]. split; [done|]. split; [done|].
  set (s1 := set_store _ _).
  assert (Hx1 : dcs s1 !! c1 = Some (mkDC d true)) by (cbn; by rewrite lookup_insert_ne).
  assert (Hx2 : dcs s1 !! c2 = Some (mkDC d true)) by (cbn; by rewrite lookup_insert_eq).
  assert (Hs1 : store s1 !! d = Some c2) by (cbn; by rewrite lookup_insert_eq).
  assert (Hn1 : nets s1 = nets s) by done. clearbody s1. rewrite <- Hn1 in Hnc |- *.
  pose proof (takeover_old s1 c1 d nc Hx1 Hnc Hh) as He. cbn zeta in He.
  cbn [exec_task]. split; [done|]. rewrite He. cbn [exec_handler].
  rewrite (dc_Close_inactive _ c1 (mkDC d false)) by (cbn; by rewrite ?lookup_insert_eq).
  unfold device_of, IsActive. cbn [dcs set_store store nets set_net set_dc].
  rewrite lookup_insert_eq. cbn [deviceID active].
  rewrite lookup_Remove, decide_False by (rewrite Hs1; naive_solver).
  rewrite lookup_insert_ne, Hx2 by done. done.
Qed.

(** ** A concrete run

    Device dev-001 connects, pushes a message, then connects again from a second
    connection while the first is still open. *)

Definition demo_options : ServerOptions := mkServerOptions None true DefaultKeepalivePolicy.

Definition demo_input : flat :=
  Flat (frame (PConnect sample_connect) ++ frame (PPush sample_push)) io_EOF.

Definition demo_schedule : list action :=
  [Accept 0 demo_input; Handler 0; Handler 0; Handler 0; Handler 0; Handler 0; Handler 0; Handler 0; Task 0;
   Accept 1 demo_input; Handler 1; Handler 1; Handler 1; Handler 1; Handler 1; Task 0].

Definition demo : config :=
  match schedule demo_options demo_schedule init with Some x => x | None => init end.

Lemma demo_reachable : reachable demo_options demo.
Proof.
  apply (schedule_reachable _ demo_schedule init); [apply rtc_refl|]. vm_compute. reflexivity.
Qed.

Lemma server_drains_witness :
  (forall n y, nsteps (run_step demo_options) n demo y -> (n <= measure demo)%nat) /\
  (exists y, rtc (run_step demo_options) demo y /\ at_rest demo_options y) /\
  (forall y, rtc (run_step demo_options) demo y -> at_rest demo_options y ->
     tasks y = [] /\ store (srv y) = ∅ /\ conns (srv y) = ∅ /\
     forall c nc, nets (srv y) !! c = Some nc -> nc_closed nc = true).
Proof. exact (server_drains demo_options demo demo_reachable). Defined.

Lemma store_never_stale_witness :
  store (srv demo) !! go_bytes "dev-001" = Some 1%nat /\
  (exists nc ph, nets (srv demo) !! 1%nat = Some nc /\
     authorised demo_options (nc_all nc) (go_bytes "dev-001") /\
     handlers demo !! 1%nat = Some ph /\ registered ph = true) /\
  (forall d', store (srv demo) !! d' = Some 1%nat -> d' = go_bytes "dev-001").
Proof.
  assert (Hd : store (srv demo) !! go_bytes "dev-001" = Some 1%nat) by (vm_compute; reflexivity).
  split; [exact Hd|]. exact (store_never_stale demo_options demo _ _ demo_reachable Hd).
Defined.

Lemma device_connections_authenticated_witness :
  exists nc, nets (srv demo) !! 0%nat = Some nc /\
    authorised demo_options (nc_all nc) (go_bytes "dev-001") /\
    connack_first Accepted nc /\ (true = false -> nc_closed nc = true).
Proof.
  refine (device_connections_authenticated demo_options demo 0%nat (mkDC (go_bytes "dev-001") true)
    demo_reachable _).
  vm_compute. reflexivity.
Defined.

Definition demo_net : netconn :=
  match nets (srv demo) !! 0%nat with
  | Some nc => nc
  | None => mkNet demo_input demo_input [] false None false
  end.

Lemma outbound_framing_witness :
  Forall (fun bs => exists cp k, packet_ok cp /\ bs = take k (frame cp)) (nc_out demo_net) /\
  (nc_torn demo_net = false ->
     exists cps, Forall packet_ok cps /\ nc_out demo_net = frame <$> cps) /\
  (nc_out demo_net = [] \/
   (exists code kp rest,
      0 <= kp < 65536 /\ nc_out demo_net = frame (new_connack code kp) :: rest) \/
   (nc_torn demo_net = true /\
      exists code kp k, nc_out demo_net = [take k (frame (new_connack code kp))])).
Proof.
  refine (outbound_framing demo_options demo 0%nat demo_net demo_reachable _).
  vm_compute. reflexivity.
Defined.

(** A device that connects, pushes a message and is kicked, until nothing is left to do. *)
Definition kick_schedule : list action :=
  [Accept 0 demo_input; Handler 0; Handler 0; Handler 0; Handler 0; Handler 0; Handler 0; Handler 0; Task 0;
   CallKick (go_bytes "dev-001") 4; Task 0; Task 0; Task 0; Task 0; Task 0] ++ repeat (Handler 0) 5.

Definition kicked : config :=
  match schedule demo_options kick_schedule init with Some x => x | None => init end.

Lemma kicked_reachable : reachable demo_options kicked.
Proof.
  apply (schedule_reachable _ kick_schedule init); [apply rtc_refl|]. vm_compute. reflexivity.
Qed.

(** Established once, reported closed twice. *)
Lemma lifecycle_callbacks_witness :
  let d := go_bytes "dev-001" in
  count (is_established d) (events (srv kicked)) = 1%nat /\
  count (is_reported d) (events (srv kicked)) = 2%nat /\
  count (is_kicked d) (events (srv kicked)) = 1%nat /\
  count (is_established d) (events (srv demo)) =
    (count (is_closed d) (events (srv demo)) + open_conns (srv demo) (handlers demo) d)%nat /\
  count (is_reported d) (events (srv kicked)) =
    (count (is_closed d) (events (srv kicked)) + count (is_kicked d) (events (srv kicked)))%nat.
Proof.
  split; [vm_compute; reflexivity|]. split; [vm_compute; reflexivity|]. split; [vm_compute; reflexivity|]. split.
  - exact (proj1 (proj2 (lifecycle_callbacks demo_options demo demo_reachable)) _).
  - exact (proj1 (proj2 (proj2 (lifecycle_callbacks demo_options kicked kicked_reachable))) _).
Defined.

(** The state in which the first connection has just been tracked. *)
Definition hello_state : server :=
  mkServer ∅ {[0%nat]} {[0%nat := mkNet demo_input demo_input [] false None false]} ∅ [].

Lemma handshake_reply_witness :
  let '(s1, ph1, _) := exec_handler demo_options 0 PHello hello_state in
  let '(s2, ph2, _) := exec_handler demo_options 0 ph1 s1 in
  exists nc, nets s2 !! 0%nat = Some nc /\
    nc_out nc = [frame (new_connack Accepted 60)] /\ nc_closed nc = false /\
    nc_in nc = Flat (frame (PPush sample_push)) io_EOF /\ ph2 = PRegister (go_bytes "dev-001") 60.
Proof.
  refine (handshake_reply demo_options hello_state 0 sample_connect
    (frame (PPush sample_push)) io_EOF _ _).
  - vm_compute. intuition congruence.
  - vm_compute. reflexivity.
Defined.

(** A connection in its packet loop. *)
Definition loop_state (nc : netconn) : server :=
  mkServer {[go_bytes "dev-001" := 0%nat]} {[0%nat]} {[0%nat := nc]}
    {[0%nat := mkDC (go_bytes "dev-001") true]} [].

Definition ping_net : netconn :=
  mkNet demo_input (Flat (frame new_pingreq) io_EOF) [] false None false.

Lemma packet_loop_witness :
  exec_handler demo_options 0 (PLoop 60) (loop_state ping_net) =
    (set_net 0 (mkNet demo_input (Flat [] io_EOF) ([] ++ [frame new_pingresp]) false None false)
       (loop_state ping_net), PLoop 60, []).
Proof.
  refine (packet_loop demo_options (loop_state ping_net) 0 60 ping_net new_pingreq [] _ _ _ _).
  - vm_compute. intuition congruence.
  - vm_compute. reflexivity.
  - split; reflexivity.
  - reflexivity.
Defined.

Lemma push_outcome_witness : exists e nc',
  exec_task (TPushWrite 0 (go_bytes "dev-001") [1; 2]) (loop_state ping_net) =
    (mkServer (store (loop_state ping_net)) (conns (loop_state ping_net))
       (<[0%nat := nc']> (nets (loop_state ping_net))) (dcs (loop_state ping_net))
       (PushResult (go_bytes "dev-001") e :: []), []) /\
  (e = None -> nc' = wrote (frame (new_push [1; 2])) false ping_net) /\
  (e <> None -> nc' = ping_net \/
     exists k, nc' = wrote (take k (frame (new_push [1; 2]))) true ping_net) /\
  (true = false -> e = Some net_ErrClosed /\ nc' = ping_net) /\
  (true = true -> healthy ping_net -> e = None).
Proof.
  refine (push_outcome (loop_state ping_net) 0 (go_bytes "dev-001") [1; 2] ping_net
    (mkDC (go_bytes "dev-001") true) _ _); vm_compute; reflexivity.
Defined.

Lemma session_takeover_witness :
  let '(s1, ph, spawned) := exec_handler demo_options 1 (PRegister (go_bytes "dev-001") 60)
                              (loop_state ping_net) in
  ph = PEstablish 60 /\ spawned = [TTakeover 0] /\ store s1 !! go_bytes "dev-001" = Some 1%nat /\
  let '(s2, more) := exec_task (TTakeover 0) s1 in
  more = [TTakeoverClose 0] /\
  let '(s3, _) := exec_task (TTakeoverClose 0) s2 in
  let '(s4, _, _) := exec_handler demo_options 0 PTeardown s3 in
  let '(s5, _, _) := exec_handler demo_options 0 PRemove s4 in
  store s5 !! go_bytes "dev-001" = Some 1%nat /\ IsActive 1 s5 = true /\ IsActive 0 s5 = false /\
  nets s5 = <[0%nat := mkNet (nc_all ping_net) (nc_in ping_net)
    (nc_out ping_net ++ [frame (new_disconnect DiscSessionTakenOver)]) true None false]>
    (nets (loop_state ping_net)).
Proof.
  refine (session_takeover demo_options (loop_state ping_net) 0 1 (go_bytes "dev-001") 60 ping_net
    _ _ _ _ _).
  - discriminate.
  - vm_compute. reflexivity.
  - vm_compute. reflexivity.
  - vm_compute. reflexivity.
  - split; reflexivity.
Defined.
