(* ===== verification/ServerRaces.v ===== *)
(** * What the server does not guarantee

    Two behaviours of server/conn.go and server/server.go that an application
    has to know about: a write that is cut short by its deadline leaves the
    connection in use, so that the peer loses the frame boundaries; and Close
    can miss a connection that was accepted just before it. *)

From Stdlib Require Import ZArith Lia String.
From stdpp Require Import base list strings gmap numbers relations.
From S2P Require Import Prelude GoIO Codec CodecFacts Store Server ServerFacts ServerDrain.
From S2P Require Import ServerProps.

Local Open Scope Z_scope.

(** ** A write cut short *)

(** The bytes of a PUSH frame before the payload. *)
Definition push_prefix (n : nat) : list Z :=
  pack (set_length (new_packet Push) (1 + Z.of_nat n)) ++ [0].

Lemma frame_push p : frame (new_push p) = push_prefix (length p) ++ p.
Proof. unfold push_prefix. by rewrite <- app_assoc. Qed.

(** What a peer reads as the payload when the frame of [p] was cut after [k]
    bytes and the bytes [next] follow. *)
Definition mixed_payload (p : list Z) (k : nat) (next : list Z) : list Z :=
  take (length p) (take (k - length (push_prefix (length p))) p ++ next).

Lemma mixed_payload_length p k next :
  (length p <= length (take (k - length (push_prefix (length p))) p ++ next))%nat ->
  length (mixed_payload p k next) = length p.
Proof. intros Hl. unfold mixed_payload. rewrite length_take. lia. Qed.

(** A cut frame and what follows it start with the frame of the mixed payload. *)
Lemma cut_frame p k next :
  (length (push_prefix (length p)) <= k)%nat ->
  (length p <= length (take (k - length (push_prefix (length p))) p ++ next))%nat ->
  exists rest, take k (frame (new_push p)) ++ next =
    frame (new_push (mixed_payload p k next)) ++ rest.
Proof.
  intros Hk Hl. exists (drop (length p) (take (k - length (push_prefix (length p))) p ++ next)).
  rewrite !frame_push, mixed_payload_length by done. unfold mixed_payload.
  rewrite take_app_ge, <- !app_assoc by done. by rewrite take_drop.
Qed.

Lemma dc_Write_faulty s c d k e nc payload :
  nets s !! c = Some nc -> dcs s !! c = Some (mkDC d true) ->
  nc_closed nc = false -> nc_fault nc = Some (k, e) ->
  dc_Write c payload s =
    (Some e, set_net c (wrote (take k (frame (new_push payload))) true nc) s).
Proof.
  intros Hnc Hx Hc Hf. unfold dc_Write, IsActive, write_packet. rewrite Hx, Hnc. cbn [active].
  destruct (Packet_Write_net (new_push payload) nc) as [cp' ->]. by rewrite Hc, Hf.
Qed.

Lemma dc_Write_healthy s c d nc payload :
  nets s !! c = Some nc -> dcs s !! c = Some (mkDC d true) -> healthy nc ->
  dc_Write c payload s = (None, set_net c (wrote (frame (new_push payload)) (nc_torn nc) nc) s).
Proof.
  intros Hnc Hx Hh. unfold dc_Write, IsActive. rewrite Hx. cbn [active]. by apply write_healthy.
Qed.

(** The state after a Push whose write was cut short, and, once the network
    works again, a second Push that succeeds. *)
Definition two_pushes (c : connid) (d : gostring) (p1 p2 : list Z) (s : server) : server :=
  let '(s1, _) := exec_task (TPushWrite c d p1) s in
  let s1 := match nets s1 !! c with
            | Some nc => set_net c (set_fault None nc) s1
            | None => s1
            end in
  fst (exec_task (TPushWrite c d p2) s1).

(** A write that is cut short desynchronises the connection and nothing
    stops it: when the network takes only the first [k] bytes of a PUSH frame
    (the five-second write deadline passes) Push returns the error, but the
    connection stays active and stored, so the next Push writes its frame right
    behind the fragment and returns nil; the peer then reads a PUSH whose
    payload mixes the two, which nobody sent, while the second message is lost. *)
Theorem torn_write_desynchronises (s : server) (c : connid) (d : gostring) (p1 p2 : list Z)
    (k : nat) (e : error) (nc : netconn) :
  nets s !! c = Some nc -> dcs s !! c = Some (mkDC d true) ->
  nc_closed nc = false -> nc_fault nc = Some (k, e) ->
  Z.of_nat (length p1) < 2 ^ 28 - 1 ->
  (length (push_prefix (length p1)) <= k)%nat ->
  (length (frame (new_push p1)) <= k + length (frame (new_push p2)))%nat ->
  let s2 := two_pushes c d p1 p2 s in
  events s2 = PushResult d None :: PushResult d (Some e) :: events s /\
  store s2 = store s /\ IsActive c s2 = true /\
  exists nc2, nets s2 !! c = Some nc2 /\
    nc_out nc2 = nc_out nc ++ [take k (frame (new_push p1)); frame (new_push p2)] /\
    forall later err, exists rest,
      ReadPacket (Flat (take k (frame (new_push p1)) ++ frame (new_push p2) ++ later) err) =
        (Ret (received (new_push (mixed_payload p1 k (frame (new_push p2) ++ later)))), rest).
Proof.
  intros Hnc Hx Hc Hf Hl Hk Hlen. cbn zeta. unfold two_pushes. cbn [exec_task].
  rewrite (dc_Write_faulty s c d k e nc) by done.
  cbn [nets log set_net]. rewrite lookup_insert_eq.
  rewrite (dc_Write_healthy _ c d (set_fault None (wrote (take k (frame (new_push p1))) true nc)))
    by (cbn; rewrite ?lookup_insert_eq; done).
  cbn [fst log set_net events store nets]. split; [done|]. split; [done|].
  split; [unfold IsActive; cbn; by rewrite Hx|].
  eexists. split; [by rewrite lookup_insert_eq|]. split; [cbn; by rewrite <- app_assoc|].
  intros later err.
  assert (Hfit : (length p1 <= length (take (k - length (push_prefix (length p1))) p1 ++
      frame (new_push p2) ++ later))%nat).
  { rewrite !length_app, length_take. rewrite (frame_push p1), length_app in Hlen. lia. }
  destruct (cut_frame p1 k (frame (new_push p2) ++ later) Hk Hfit) as [rest ->].
  set (q := mixed_payload _ _ _). assert (Hq : packet_ok (new_push q)).
  { split; [done|]. cbn. subst q. by rewrite mixed_payload_length by done. }
  pose proof (received_reads (R := flat) (new_push q) Hq) as Hrd.
  destruct (Hrd (Flat (frame (new_push q) ++ rest) err) rest) as (r' & Hr & _); [done|].
  by exists r'.
Qed.

(** ** A connection accepted just before Close *)

Definition late_input : flat := Flat (frame (PConnect sample_connect)) io_EOF.

(** The listener has accepted, the handler's goroutine has not started yet, and
    the application calls Close. *)
Definition late_accept : config :=
  match schedule demo_options [Accept 0 late_input; CallClose] init with Some x => x | None => init end.

(** Close goes through first: take all devices, close all tracked sockets, wait.
    Then the handler starts. *)
Definition close_then_handler : list action :=
  [Task 0; Task 0; Task 0; Task 0;
   Handler 0; Handler 0; Handler 0; Handler 0; Handler 0; Handler 0].

Definition late_session : config :=
  match schedule demo_options close_then_handler late_accept with Some x => x | None => init end.

(** Moves of the server's own goroutines. *)
Definition own_action (a : action) : bool :=
  match a with Handler _ | Task _ => true | _ => false end.

Lemma act_run o a x y : own_action a = true -> act o a x = Some y -> run_step o x y.
Proof.
  destruct x as [s h ts], a as [c f|d p|d r| |c|c e|c|i]; try done; intros _; cbn; intros Hy.
  - destruct (h !! c) as [ph|] eqn:Hh; [|done]. destruct (decide (ph = PDone)); [done|].
    destruct (exec_handler o c ph s) as [[s' ph'] new] eqn:Hex. simplify_eq. by eapply run_handler.
  - destruct (ts !! i) as [t|] eqn:Ht; [|done]. destruct (decide (may_run h t)); [|done].
    destruct (exec_task t s) as [s' new] eqn:Hex. simplify_eq.
    rewrite <- (take_drop_middle ts i t Ht) at 1. by apply run_task.
Qed.

Lemma schedule_runs o acts x y :
  forallb own_action acts = true -> schedule o acts x = Some y -> rtc (run_step o) x y.
Proof.
  revert x. induction acts as [|a acts IH]; cbn; intros x Ho Hy; [simplify_eq; apply rtc_refl|].
  apply andb_prop in Ho as [Ha Ho]. destruct (act o a x) as [z|] eqn:Hz; [|done].
  eapply rtc_l; [by eapply act_run|by apply IH].
Qed.

(** Close can return with a device still connected: when a connection was
    accepted before Close but its goroutine starts only after Close has swept
    the store and the tracked sockets, the WaitGroup is still zero, so Close
    returns, and the goroutine then authenticates the device, announces it and
    serves it on an open socket; nothing checks that the server was closed.
    From the moment Close is called only the server itself moves here. *)
Theorem close_misses_late_connection :
  reachable demo_options late_accept /\ tasks late_accept = [TClose] /\
  rtc (run_step demo_options) late_accept late_session /\
  events (srv late_session) = [OnConnectionEstablished (go_bytes "dev-001"); CloseResult] /\
  tasks late_session = [] /\ handlers late_session !! 0%nat = Some (PLoop 60) /\
  IsActive 0 (srv late_session) = true /\
  nc_closed <$> nets (srv late_session) !! 0%nat = Some false.
Proof.
  split; [|split; [|split]].
  - apply (schedule_reachable _ [Accept 0 late_input; CallClose] init); [apply rtc_refl|].
    vm_compute. reflexivity.
  - vm_compute. reflexivity.
  - apply (schedule_runs _ close_then_handler); vm_compute; reflexivity.
  - vm_compute. repeat split.
Qed.

(** ** Witnesses *)

(** A connection whose next write is cut after six bytes. *)
Definition slow_net : netconn :=
  mkNet demo_input (Flat [] io_EOF) [] false (Some (6%nat, Errorf "i/o timeout")) false.

Lemma torn_write_desynchronises_witness :
  let p1 := go_bytes "unlock" in
  let p2 := go_bytes "status" in
  let s2 := two_pushes 0 (go_bytes "dev-001") p1 p2 (loop_state slow_net) in
  events s2 = [PushResult (go_bytes "dev-001") None;
               PushResult (go_bytes "dev-001") (Some (Errorf "i/o timeout"))] /\
  store s2 = store (loop_state slow_net) /\ IsActive 0 s2 = true /\
  exists nc2, nets s2 !! 0%nat = Some nc2 /\
    nc_out nc2 = [] ++ [take 6 (frame (new_push p1)); frame (new_push p2)] /\
    forall later err, exists rest,
      ReadPacket (Flat (take 6 (frame (new_push p1)) ++ frame (new_push p2) ++ later) err) =
        (Ret (received (new_push (mixed_payload p1 6 (frame (new_push p2) ++ later)))), rest).
Proof.
  refine (torn_write_desynchronises (loop_state slow_net) 0 (go_bytes "dev-001")
    (go_bytes "unlock") (go_bytes "status") 6 (Errorf "i/o timeout") slow_net _ _ _ _ _ _ _).
  - vm_compute. reflexivity.
  - vm_compute. reflexivity.
  - reflexivity.
  - reflexivity.
  - vm_compute. reflexivity.
  - vm_compute. lia.
  - vm_compute. lia.
Defined.
