(* ===== verification/ServerSpec.v ===== *)
(** * The server refines a packet-level specification

    The specification of server/server.go and server/conn.go for somebody who
    uses the library: sessions that exchange whole packets, a directory of the
    devices, and the callbacks and results the application sees.  It knows no
    bytes, frames, phases, goroutines or sockets.  [ServerRefine] shows that the
    transition system of [Server] refines it.  The end of the file derives what
    it guarantees about messages. *)

From Stdlib Require Import ZArith Lia String.
From stdpp Require Import base list strings gmap numbers relations.
From S2P Require Import Prelude GoIO Codec CodecFacts Store Server ServerFacts ServerDrain.
From S2P Require Import ServerProps.

Local Open Scope Z_scope.

(** ** The specification *)

(** A session between its registration and its OnConnectionClosed: registered,
    announced to the application, or over but not yet reported. *)
Inductive stage : Type := Joined | Announced | Left.

#[global] Instance stage_eq_dec : EqDecision stage.
Proof. solve_decision. Defined.

(** [s_up] is whether packets can still be sent; [s_inbox] what the device has
    sent and was not handled yet; [s_outbox] what it was sent. *)
Record session : Type := mkSession {
  s_device : gostring;
  s_stage : stage;
  s_up : bool;
  s_inbox : list ControlPacket;
  s_outbox : list ControlPacket;
}.

(** [peers] remembers every session that ever joined: its device and all the
    packets it will ever have sent, the CONNECT included. *)
Record spec : Type := mkSpec {
  directory : gmap gostring connid;
  sessions : gmap connid session;
  peers : gmap connid (gostring * list ControlPacket);
  mailbox : list (gostring * list Z);
}.

Definition spec_init : spec := mkSpec ∅ ∅ ∅ [].

Definition set_session (c : connid) (s : session) (a : spec) : spec :=
  mkSpec (directory a) (<[c := s]> (sessions a)) (peers a) (mailbox a).

Definition sends (l : list ControlPacket) (s : session) : session :=
  mkSession (s_device s) (s_stage s) (s_up s) (s_inbox s) (s_outbox s ++ l).

Definition takes (st : stage) (inbox : list ControlPacket) (s : session) : session :=
  mkSession (s_device s) st (s_up s) inbox (s_outbox s).

Definition goes_down (s : session) : session :=
  mkSession (s_device s) (s_stage s) false (s_inbox s) (s_outbox s).

(** Whom the server admits, as which device, and with which keepalive. *)
Definition admits (o : ServerOptions) (p : ConnectPacket) (d : gostring) (kp : Z) : Prop :=
  MagicNumber p = magic /\ ProtocolVersion p = 1 /\ identity o p = (d, true) /\ d <> [] /\
  kp = Decide (Policy o) (Keepalive p).

(** At most one packet, and none when the session is down. *)
Definition may_send (s : session) (cp : ControlPacket) (l : list ControlPacket) : Prop :=
  l = [] \/ (l = [received cp] /\ s_up s = true).

(** When a session's packet loop ends: nothing to read any more, cut off, or a
    packet that is neither a PUSH nor a PINGREQ. *)
Definition may_leave (s : session) : Prop :=
  s_up s = false \/
  match s_inbox s with
  | [] => True
  | PPush _ :: _ | PPingreq _ :: _ => False
  | _ => True
  end.

(** One step and the callbacks and results it shows, oldest first. *)
Inductive spec_step (o : ServerOptions) : spec -> list event -> spec -> Prop :=
| sp_join a c p d kp inbox up :
    peers a !! c = None -> sessions a !! c = None -> admits o p d kp ->
    spec_step o a []
      (mkSpec (<[d := c]> (directory a))
         (<[c := mkSession d Joined up inbox [received (new_connack Accepted (u16 kp))]]> (sessions a))
         (<[c := (d, PConnect p :: inbox)]> (peers a)) (mailbox a))
| sp_announce a c s :
    sessions a !! c = Some s -> s_stage s = Joined ->
    spec_step o a [OnConnectionEstablished (s_device s)]
      (set_session c (takes Announced (s_inbox s) s) a)
| sp_message a c s m rest :
    sessions a !! c = Some s -> s_stage s = Announced -> s_inbox s = PPush m :: rest ->
    spec_step o a []
      (mkSpec (directory a) (<[c := takes Announced rest s]> (sessions a)) (peers a)
         ((if has_MessageHandler o then [(s_device s, Payload m)] else []) ++ mailbox a))
| sp_deliver a d payload box :
    mailbox a ≡ₚ (d, payload) :: box ->
    spec_step o a [MessageHandler d payload]
      (mkSpec (directory a) (sessions a) (peers a) box)
| sp_ping a c s q rest l :
    sessions a !! c = Some s -> s_stage s = Announced -> s_inbox s = PPingreq q :: rest ->
    may_send s new_pingresp l ->
    spec_step o a [] (set_session c (sends l (takes Announced rest s)) a)
| sp_notify a c s reason l :
    sessions a !! c = Some s -> may_send s (new_disconnect reason) l ->
    spec_step o a [] (set_session c (sends l s) a)
| sp_close a c s :
    sessions a !! c = Some s -> spec_step o a [] (set_session c (goes_down s) a)
| sp_leave a c s l :
    sessions a !! c = Some s -> s_stage s = Announced -> may_leave s ->
    may_send s (new_disconnect DiscProtocolViolation) l ->
    spec_step o a [] (set_session c (sends l (takes Left [] s)) a)
| sp_unregister a d c :
    (forall s, sessions a !! c = Some s -> s_up s = false) ->
    spec_step o a []
      (mkSpec (snd (Remove (directory a) d c)) (sessions a) (peers a) (mailbox a))
| sp_closed a c s :
    sessions a !! c = Some s -> s_stage s = Left -> s_up s = false ->
    (forall d, directory a !! d <> Some c) ->
    spec_step o a [OnConnectionClosed (s_device s) "connection closed"]
      (mkSpec (directory a) (delete c (sessions a)) (peers a) (mailbox a))
| sp_push a c s payload :
    sessions a !! c = Some s -> s_up s = true ->
    spec_step o a [PushResult (s_device s) None]
      (set_session c (sends [received (new_push payload)] s) a)
| sp_push_cut a c s payload e :
    sessions a !! c = Some s -> s_up s = true ->
    spec_step o a [PushResult (s_device s) (Some e)]
      (set_session c (sends [received (new_push payload)] s) a)
| sp_push_fail a d e : spec_step o a [PushResult d (Some e)] a
| sp_kick a d reason :
    spec_step o a [OnConnectionClosed d (kick_text reason); KickResult d None] a
| sp_kick_fail a d e : spec_step o a [KickResult d (Some e)] a
| sp_shutdown a : sessions a = ∅ -> spec_step o a [CloseResult] a.

(** A run and everything the application saw, oldest first. *)
Inductive spec_run (o : ServerOptions) : spec -> list event -> spec -> Prop :=
| run_nil a : spec_run o a [] a
| run_snoc a b c seen new :
    spec_run o a seen b -> spec_step o b new c -> spec_run o a (seen ++ new) c.

Lemma spec_run_app o a b c l1 l2 :
  spec_run o a l1 b -> spec_run o b l2 c -> spec_run o a (l1 ++ l2) c.
Proof.
  intros H1 H2. induction H2 as [b|b d e seen new _ IH Hs]; [by rewrite app_nil_r|].
  rewrite app_assoc. eapply run_snoc; [by apply IH|done].
Qed.

Lemma spec_run_one o a l b : spec_step o a l b -> spec_run o a l b.
Proof. intros Hs. change l with ([] ++ l). eapply run_snoc; [apply run_nil|done]. Qed.

(** ** Packets in a byte sequence *)

Fixpoint packets_loop (fuel : nat) (f : flat) : list ControlPacket :=
  match fuel with
  | O => []
  | S fuel =>
      match ReadPacket f with
      | (Ret cp, f') => cp :: packets_loop fuel f'
      | _ => []
      end
  end.

(** Everything a reader of [f] gets before the first error. *)
Definition packets (f : flat) : list ControlPacket := packets_loop (length (fl_bytes f)) f.

Lemma packets_loop_fuel n m f :
  (length (fl_bytes f) <= n)%nat -> (length (fl_bytes f) <= m)%nat ->
  packets_loop n f = packets_loop m f.
Proof.
  revert m f. induction n as [|n IH]; intros [|m] f Hn Hm; cbn; [done| | |].
  1,2: destruct f as [[|t bs] e]; [by rewrite ReadPacket_nil|cbn in *; lia].
  destruct (ReadPacket f) as [[cp|e|] f'] eqn:Hr; [|done..].
  pose proof (ReadPacket_progress _ _ _ Hr). f_equal. apply IH; lia.
Qed.

Lemma packets_read f cp f' : ReadPacket f = (Ret cp, f') -> packets f = cp :: packets f'.
Proof.
  intros Hr. pose proof (ReadPacket_progress _ _ _ Hr) as Hl. unfold packets.
  destruct (length (fl_bytes f)) as [|n] eqn:Hn; [lia|]. cbn. rewrite Hr. f_equal.
  apply packets_loop_fuel; lia.
Qed.

Lemma packets_end f : (forall cp, fst (ReadPacket f) <> Ret cp) -> packets f = [].
Proof.
  intros Hr. unfold packets. destruct (length (fl_bytes f)) as [|n]; [done|]. cbn.
  destruct (ReadPacket f) as [[cp|e|] f']; [by destruct (Hr cp)|done..].
Qed.

(** The packet a Write call carried, if all of it was taken. *)
Definition sent_packets (bs : list Z) : list ControlPacket := packets (Flat bs io_EOF).

Lemma sent_frame cp : packet_ok cp -> sent_packets (frame cp) = [received cp].
Proof.
  intros Hok. pose proof (received_reads (R := flat) cp Hok) as Hrd.
  destruct (Hrd (Flat (frame cp) io_EOF) []) as ([bs e] & Hr & Hp & _); [cbn; by rewrite app_nil_r|].
  cbn in Hp. subst bs. unfold sent_packets. rewrite (packets_read _ _ _ Hr). done.
Qed.

Lemma sent_cut cp k :
  packet_ok cp -> sent_packets (take k (frame cp)) = [] \/
    sent_packets (take k (frame cp)) = [received cp].
Proof.
  intros Hok. destruct (decide (drop k (frame cp) = [])) as [Hd|Hd].
  - right. assert (Ht : take k (frame cp) = frame cp).
    { rewrite <- (take_drop k (frame cp)) at 2. by rewrite Hd, app_nil_r. }
    rewrite Ht. by apply sent_frame.
  - left. destruct (frame_prefix_fails cp (take k (frame cp)) _ io_EOF Hok (take_drop k _) Hd)
      as (x & Hx & _). apply packets_end. by rewrite Hx.
Qed.

(** Everything the peer was sent completely. *)
Definition outbox (nc : netconn) : list ControlPacket := concat (sent_packets <$> nc_out nc).

Lemma outbox_app nc nc' l :
  nc_out nc' = nc_out nc ++ l -> outbox nc' = outbox nc ++ concat (sent_packets <$> l).
Proof. intros Ho. unfold outbox. by rewrite Ho, fmap_app, concat_app. Qed.

(** ** What the specification gives the application: messages *)

Definition is_push_of (payload : list Z) (cp : ControlPacket) : bool :=
  match cp with PPush m => bool_decide (Payload m = payload) | _ => false end.

Definition pushes (payload : list Z) (l : list ControlPacket) : nat :=
  length (List.filter (is_push_of payload) l).

Definition is_delivery (d : gostring) (payload : list Z) (e : event) : bool :=
  match e with MessageHandler d' p => bool_decide (d' = d /\ p = payload) | _ => false end.

Section messages.
Context (d : gostring) (payload : list Z).

Definition in_mailbox (box : list (gostring * list Z)) : nat :=
  length (List.filter (fun m => bool_decide (m.1 = d /\ m.2 = payload)) box).

Definition of_device (d' : gostring) (n : nat) : nat := if decide (d' = d) then n else 0.

Definition in_sessions (m : gmap connid session) : nat :=
  map_sum (fun _ s => of_device (s_device s) (pushes payload (s_inbox s))) m.

Definition from_peers (m : gmap connid (gostring * list ControlPacket)) : nat :=
  map_sum (fun _ p => of_device p.1 (pushes payload p.2)) m.

#[local] Arguments in_mailbox : simpl never.
#[local] Arguments in_sessions : simpl never.
#[local] Arguments from_peers : simpl never.
#[local] Arguments pushes : simpl never.

(** Every message delivered, waiting or unread was sent by a peer. *)
Definition accounted (seen : list event) (a : spec) : Prop :=
  (count (is_delivery d payload) seen + in_mailbox (mailbox a) + in_sessions (sessions a) <=
    from_peers (peers a))%nat.

Lemma in_sessions_update m c s s' :
  m !! c = Some s -> s_device s' = s_device s ->
  (pushes payload (s_inbox s') <= pushes payload (s_inbox s))%nat ->
  (in_sessions (<[c := s']> m) + of_device (s_device s)
     (pushes payload (s_inbox s) - pushes payload (s_inbox s')) <= in_sessions m)%nat.
Proof.
  intros Hc Hd Hle. unfold in_sessions. rewrite map_sum_update, (map_sum_lookup _ m c s Hc), Hd.
  unfold of_device. destruct (decide _); lia.
Qed.

Lemma pushes_cons m rest :
  pushes payload (PPush m :: rest) =
    ((if decide (Payload m = payload) then 1 else 0) + pushes payload rest)%nat.
Proof. unfold pushes. cbn. rewrite bool_decide_decide. by destruct (decide _). Qed.

Lemma in_mailbox_cons d' p box :
  in_mailbox ((d', p) :: box) =
    (of_device d' (if decide (p = payload) then 1 else 0) + in_mailbox box)%nat.
Proof.
  unfold in_mailbox, of_device. cbn. rewrite bool_decide_decide.
  destruct (decide (_ /\ _)), (decide (d' = d)), (decide (p = payload)); naive_solver.
Qed.

Lemma in_mailbox_perm box box' : box ≡ₚ box' -> in_mailbox box = in_mailbox box'.
Proof. intros Hp. unfold in_mailbox. induction Hp; cbn; repeat case_bool_decide; cbn; lia. Qed.

Lemma count_app p (l1 l2 : list event) : count p (l1 ++ l2) = (count p l1 + count p l2)%nat.
Proof. unfold count. by rewrite List.filter_app, length_app. Qed.

Lemma count_reverse p (l : list event) : count p (reverse l) = count p l.
Proof.
  induction l as [|e l IH]; [done|]. rewrite reverse_cons, count_app, IH.
  change (e :: l) with ([e] ++ l). rewrite count_app. lia.
Qed.

(** Steps that leave the peers and the mailbox alone and show no delivery. *)
Lemma accounted_session seen new a c s s' :
  accounted seen a -> count (is_delivery d payload) new = 0%nat ->
  sessions a !! c = Some s -> s_device s' = s_device s ->
  (pushes payload (s_inbox s') <= pushes payload (s_inbox s))%nat ->
  accounted (seen ++ new) (set_session c s' a).
Proof.
  unfold accounted. intros Ha Hn Hc Hd Hle. rewrite count_app, Hn. cbn.
  pose proof (in_sessions_update _ _ _ _ Hc Hd Hle). lia.
Qed.

Lemma accounted_step o seen a new b :
  accounted seen a -> spec_step o a new b -> accounted (seen ++ new) b.
Proof.
  intros Ha Hs.
  destruct Hs as [a c p d' kp inbox up Hp Hs _|a c s Hc _|a c s m rest Hc _ Hi|a d' p box Hb|
    a c s q rest l Hc _ Hi _|a c s r l Hc _|a c s Hc|a c s l Hc _ _ _|a d' c _|a c s Hc _ _ _|
    a c s p Hc _|a c s p e Hc _|a d' e|a d' r|a d' e|a _];
    try (eapply accounted_session; [exact Ha|done|exact Hc|done|by cbn; rewrite ?Hi]; done);
    unfold accounted in *; rewrite count_app; cbn; try lia.
  - (* join *) unfold in_sessions, from_peers in *. rewrite !map_sum_insert by done. cbn.
    change (pushes payload (PConnect p :: inbox)) with (pushes payload inbox). lia.
  - (* message *)
    pose proof (in_sessions_update _ _ _ (takes Announced rest s) Hc eq_refl) as Hu.
    cbn in Hu. rewrite Hi, pushes_cons in Hu. specialize (Hu ltac:(lia)).
    destruct (has_MessageHandler o); cbn; [rewrite in_mailbox_cons|lia].
    unfold of_device in *. destruct (decide (s_device s = d)); lia.
  - (* deliver *) rewrite (in_mailbox_perm _ _ Hb), in_mailbox_cons in Ha. unfold count, of_device in *.
    cbn. rewrite bool_decide_decide.
    destruct (decide (_ /\ _)), (decide (d' = d)), (decide (p = payload)); cbn; try lia; naive_solver.
  - (* leave *)
    pose proof (in_sessions_update _ _ _ (sends l (takes Left [] s)) Hc eq_refl) as Hu.
    cbn in Hu. specialize (Hu ltac:(unfold pushes; cbn; lia)). lia.
  - (* closed *) pose proof (map_sum_delete
      (fun _ s => of_device (s_device s) (pushes payload (s_inbox s))) (sessions a) c).
    unfold in_sessions in *. lia.
Qed.

Lemma accounted_run o seen a : spec_run o spec_init seen a -> accounted seen a.
Proof.
  intros Hr. remember spec_init as i eqn:Hi. induction Hr as [a|a b c seen new _ IH Hs]; subst.
  { unfold accounted, in_sessions, from_peers, map_sum. cbn. by rewrite !map_fold_empty. }
  eapply accounted_step; [by apply IH|exact Hs].
Qed.

End messages.
