(* ===== verification/ServerRefine.v ===== *)
(** * The refinement of the server to its specification

    The simulation between the transition system of [Server] and the
    specification of [ServerSpec]: the relation [related], what it needs besides
    the invariant ([ext]), one explanation per action, and the refinement
    theorem with what it transfers to the application. *)

From Stdlib Require Import ZArith Lia String.
From stdpp Require Import base list strings gmap numbers relations.
From S2P Require Import Prelude GoIO Codec CodecFacts Store Server ServerFacts ServerDrain.
From S2P Require Import ServerProps ServerSpec.

Local Open Scope Z_scope.

(** ** What else holds of every reachable state *)

(** Between the CONNECT and the registration: what was read and answered. *)
Definition greeted (o : ServerOptions) (nc : netconn) (d : gostring) (kp : Z) : Prop :=
  exists p, ReadPacket (nc_all nc) = (Ret (PConnect p), nc_in nc) /\ admits o p d kp.

Definition phase_ext (o : ServerOptions) (nc : netconn) (ph : phase) : Prop :=
  match ph with
  | PAccept d kp => greeted o nc d kp
  | PRegister d kp => greeted o nc d kp /\ nc_out nc = [frame (new_connack Accepted (u16 kp))]
  | _ => True
  end.

Definition task_ext (s : server) (t : task) : Prop :=
  match t with
  | TPushWrite c d _ => exists x, dcs s !! c = Some x /\ deviceID x = d
  | TKickRemove c _ _ => exists x, dcs s !! c = Some x /\ active x = false
  | _ => True
  end.

Record ext (o : ServerOptions) (x : config) : Prop := mkExt {
  ext_phase : forall c ph nc, handlers x !! c = Some ph -> nets (srv x) !! c = Some nc ->
    phase_ext o nc ph;
  ext_tasks : Forall (task_ext (srv x)) (tasks x);
}.

(** A connection that is not registered yet keeps what it read and wrote. *)
Lemma phase_ext_evolves o s s' c nc nc' ph :
  nets s !! c = Some nc -> nets s' !! c = Some nc' -> conn_evolves s s' c ->
  phase_inv o s c nc ph -> phase_ext o nc ph -> phase_ext o nc' ph.
Proof.
  intros Hnc Hnc' He Hph Hx. unfold conn_evolves in He. rewrite Hnc in He.
  destruct ph; cbn in *; try done.
  1,2: destruct Hph as (Hd & _); rewrite Hd in He;
    destruct He as (nc2 & Hnc2 & _ & A & I & _ & _ & l & O & _ & _ & N);
    rewrite Hnc' in Hnc2; injection Hnc2 as <-; specialize (N eq_refl); subst l;
    rewrite app_nil_r in O; unfold greeted in *; by rewrite ?A, ?I, ?O.
Qed.

Lemma task_ext_mono s s' t : ids_kept s s' -> task_ext s t -> task_ext s' t.
Proof.
  intros Hk. destruct t; cbn; try done; intros (x & Hx & Hp);
    destruct (Hk _ x Hx) as (x' & Hx' & Hid & Ha); exists x'; naive_solver.
Qed.

Lemma tasks_ext_mono s s' ts :
  ids_kept s s' -> Forall (task_ext s) ts -> Forall (task_ext s') ts.
Proof. intros Hk Ht. eapply Forall_mono; [exact Ht|]. intros t. by apply task_ext_mono. Qed.

(** ** Each action touches one connection, or evolves them *)

Lemma exec_task_evolves t s s' new c :
  task_ok s t -> exec_task t s = (s', new) -> conn_evolves s s' c.
Proof.
  intros Hok Hex.
  destruct t as [p|p|p|p|d pl|d pl|p d pl|d r|p d r|p d r|p d r|d r| |[|p ps]|p ps| |]; cbn in Hex, Hok;
    try (simplify_eq; first [by apply conn_evolves_same|by apply dc_Close_evolves|
      by apply close_all_evolves|by apply SendDisconnect_evolves|
      apply SendDisconnect_evolves, Hok]).
  - destruct (Get _ _) as [p|]; [destruct (IsActive p s)|]; simplify_eq; by apply conn_evolves_same.
  - pose proof (dc_Write_evolves p pl s c (proj2 Hok)) as He.
    destruct (dc_Write p pl s). simplify_eq. by apply log_evolves.
  - destruct (Get _ _) as [p|]; [destruct (IsActive p s)|]; simplify_eq; by apply conn_evolves_same.
Qed.

Lemma write_packet_others cp c s c' :
  c' <> c -> nets (snd (write_packet cp c s)) !! c' = nets s !! c'.
Proof.
  intros Hne. unfold write_packet. destruct (nets s !! c) as [nc|]; [|done].
  destruct (Packet_Write cp nc) as [[? ?] ?]. cbn. by rewrite lookup_insert_ne.
Qed.

Lemma conn_Close_others c s c' : c' <> c -> nets (conn_Close c s) !! c' = nets s !! c'.
Proof.
  intros Hne. unfold conn_Close. destruct (nets s !! c); [|done]. cbn. by rewrite lookup_insert_ne.
Qed.

Lemma dc_Close_others c s c' :
  c' <> c -> nets (dc_Close c s) !! c' = nets s !! c' /\ dcs (dc_Close c s) !! c' = dcs s !! c'.
Proof.
  intros Hne. unfold dc_Close. destruct (dcs s !! c) as [x|]; [|done].
  destruct (active x); [|done]. rewrite conn_Close_others, conn_Close_dcs by done. cbn.
  by rewrite lookup_insert_ne.
Qed.

Lemma exec_handler_others o c ph s s' ph' new c' :
  exec_handler o c ph s = (s', ph', new) -> c' <> c ->
  nets s' !! c' = nets s !! c' /\ dcs s' !! c' = dcs s !! c'.
Proof.
  intros Hex Hne.
  assert (Hset : forall nc, nets (set_net c nc s) !! c' = nets s !! c')
    by (intros nc; cbn; by rewrite lookup_insert_ne).
  destruct ph as [| | |code|d kp|d kp|kp|kp| | | | |]; cbn in Hex; try (simplify_eq; done).
  - destruct (nets s !! c) as [nc|]; [|by simplify_eq].
    destruct (ReadPacket nc) as [first nc']. specialize (Hset nc').
    destruct (hello_decision o first); simplify_eq; try done.
    by rewrite conn_Close_others, conn_Close_dcs by done.
  - simplify_eq.
    by rewrite conn_Close_others, conn_Close_dcs, write_packet_others, write_packet_dcs by done.
  - pose proof (write_packet_others (new_connack Accepted (u16 kp)) c s c' Hne) as Hn.
    pose proof (write_packet_dcs (new_connack Accepted (u16 kp)) c s) as Hd.
    destruct (write_packet _ _ _) as [[e|] s1]; simplify_eq; cbn in *;
      rewrite ?conn_Close_others, ?conn_Close_dcs by done; by rewrite Hn, Hd.
  - simplify_eq. cbn. by rewrite lookup_insert_ne.
  - destruct (nets s !! c) as [nc|]; [|by simplify_eq].
    destruct (ReadPacket nc) as [read nc']. specialize (Hset nc'). rewrite <- Hset.
    destruct read as [[]|err|]; cbn in Hex; try case_match; simplify_eq;
      rewrite ?write_packet_others, ?write_packet_dcs by done; done.
  - simplify_eq. by apply dc_Close_others.
Qed.

(** ** [ext] is an invariant *)

Lemma hello_admits o p d kp :
  hello_decision o (Ret (PConnect p)) = HAccept d kp -> admits o p d kp.
Proof.
  cbn. destruct (Z.eqb_spec (MagicNumber p) magic); cbn; [|done].
  destruct (Z.eqb_spec (ProtocolVersion p) 1); cbn; [|done].
  fold (identity o p). destruct (identity o p) as [d' [|]] eqn:Hid; cbn; [|done].
  destruct d' as [|b d']; [done|]. intros [= <- <-]. by repeat split.
Qed.

Lemma hello_is_connect o first d kp :
  hello_decision o first = HAccept d kp -> exists p, first = Ret (PConnect p).
Proof. destruct first as [[p| | | | |]| |]; try done. by exists p. Qed.

(** What the connection's own action makes of it. *)
Lemma phase_ext_own o s h ts c ph s' ph' new nc' :
  inv o (mkConfig s h ts) -> ext o (mkConfig s h ts) -> h !! c = Some ph ->
  exec_handler o c ph s = (s', ph', new) -> nets s' !! c = Some nc' -> phase_ext o nc' ph'.
Proof.
  intros Hi Hx Hh Hex Hnc'. destruct (inv_at _ _ _ _ _ _ Hi Hh) as (nc & Hnc & Hph & _).
  pose proof (ext_phase _ _ Hx c ph nc Hh Hnc) as Hpe. cbn in Hex, Hpe.
  destruct ph as [| | |code|d kp|d kp|kp|kp| | | | |]; cbn in Hex; try (simplify_eq; done).
  - rewrite Hnc in Hex. destruct Hph as (_ & Hin & _). rewrite ReadPacket_net in Hex.
    destruct (nc_closed nc); [cbn in Hex; by simplify_eq|].
    destruct (ReadPacket (nc_in nc)) as [first rest] eqn:Hr. cbn in Hex.
    destruct (hello_decision o first) as [|code|d kp] eqn:Hd; simplify_eq; [done|done|].
    cbn in Hnc'. rewrite lookup_insert_eq in Hnc'. simplify_eq.
    destruct (hello_is_connect _ _ _ _ Hd) as [p ->]. exists p. cbn. rewrite <- Hin.
    split; [done|by apply hello_admits].
  - destruct Hph as (_ & Ho & _). cbn in Hpe.
    destruct (Packet_Write_net (new_connack Accepted (u16 kp)) nc) as [cp' Hw].
    unfold write_packet in Hex. rewrite Hnc, Hw in Hex.
    destruct (nc_closed nc); [by simplify_eq|].
    destruct (nc_fault nc) as [[k e]|]; simplify_eq; [done|].
    cbn in Hnc'. rewrite lookup_insert_eq in Hnc'. simplify_eq. split; [done|].
    cbn. by rewrite Ho.
  - rewrite Hnc in Hex. destruct (ReadPacket nc) as [read nc1].
    destruct read as [[]|err|]; cbn in Hex; try case_match; by simplify_eq.
Qed.

Lemma tasks_ext_handler o s h ts c ph s' ph' new :
  inv o (mkConfig s h ts) -> h !! c = Some ph ->
  exec_handler o c ph s = (s', ph', new) -> ids_kept s s' /\ Forall (task_ext s') new.
Proof.
  intros Hi Hh Hex. destruct (inv_at _ _ _ _ _ _ Hi Hh) as (nc & Hnc & Hph & _). split.
  - eapply exec_handler_kept; [|exact Hex]. intros d kp ->. apply Hph.
  - destruct ph as [| | |code|d kp|d kp|kp|kp| | | | |]; cbn in Hex; try (simplify_eq; by constructor).
    + rewrite Hnc in Hex. destruct (ReadPacket nc) as [first nc'].
      destruct (hello_decision o first); simplify_eq; by constructor.
    + by destruct (write_packet _ _ _) as [[e|] s1]; simplify_eq; constructor.
    + destruct (store s !! d); simplify_eq; by repeat constructor.
    + rewrite Hnc in Hex. destruct (ReadPacket nc) as [read nc'].
      destruct read as [[]|err|]; cbn in Hex; try case_match; simplify_eq; by repeat constructor.
Qed.

Lemma tasks_ext_task o s h pre t post s' new :
  inv o (mkConfig s h (pre ++ t :: post)) -> task_ext s t ->
  exec_task t s = (s', new) -> ids_kept s s' -> Forall (task_ext s') new.
Proof.
  intros Hi Ht Hex Hk.
  destruct t as [p|p|p|p|d pl|d pl|p d pl|d r|p d r|p d r|p d r|d r| |[|p ps]|p ps| |]; cbn in Hex;
    try (simplify_eq; by repeat constructor).
  - destruct (Get (store s) d) as [p|] eqn:Hg; [destruct (IsActive p s)|]; simplify_eq;
      [|by repeat constructor..]. constructor; [|by constructor].
    destruct (inv_store _ _ Hi d p Hg) as (x & ph & Hx & Hid & _). by exists x.
  - destruct (dc_Write p pl s). simplify_eq. by constructor.
  - destruct (Get (store s) d) as [p|] eqn:Hg; [destruct (IsActive p s)|]; simplify_eq;
      by repeat constructor.
  - simplify_eq. constructor; [|by constructor]. cbn.
    destruct (task_at _ _ _ _ _ _ Hi) as [[x Hx] _]. unfold dc_Close. rewrite Hx.
    destruct (active x) eqn:Ha; [|by exists x].
    exists (mkDC (deviceID x) false). rewrite conn_Close_dcs. cbn. by rewrite lookup_insert_eq.
Qed.

Lemma ext_handler o s h ts c ph s' ph' new :
  inv o (mkConfig s h ts) -> ext o (mkConfig s h ts) -> h !! c = Some ph ->
  exec_handler o c ph s = (s', ph', new) -> ext o (mkConfig s' (<[c := ph']> h) (new ++ ts)).
Proof.
  intros Hi Hx Hh Hex. destruct (tasks_ext_handler _ _ _ _ _ _ _ _ _ Hi Hh Hex) as [Hk Hnew].
  split; cbn.
  - intros c' ph2 nc' Hh' Hnc'. destruct (decide (c' = c)) as [->|Hne].
    + rewrite lookup_insert_eq in Hh'. simplify_eq. by eapply phase_ext_own.
    + rewrite lookup_insert_ne in Hh' by done.
      destruct (exec_handler_others _ _ _ _ _ _ _ c' Hex Hne) as [Hn _]. rewrite Hn in Hnc'.
      by apply (ext_phase _ _ Hx c').
  - apply Forall_app. split; [done|]. eapply tasks_ext_mono; [done|apply (ext_tasks _ _ Hx)].
Qed.

Lemma ext_task o s h pre t post s' new :
  inv o (mkConfig s h (pre ++ t :: post)) -> ext o (mkConfig s h (pre ++ t :: post)) ->
  exec_task t s = (s', new) -> ext o (mkConfig s' h (pre ++ new ++ post)).
Proof.
  intros Hi Hx Hex. pose proof (task_at _ _ _ _ _ _ Hi) as Hok.
  pose proof (ids_kept_evolves _ _ s' Hi (fun c => exec_task_evolves t s s' new c Hok Hex)) as Hk.
  cbn in Hk. pose proof (ext_tasks _ _ Hx) as Ht. cbn in Ht.
  apply Forall_app in Ht as [Hpre [Ht Hpost]%Forall_cons_1]. split; cbn.
  - intros c ph nc' Hh Hnc'. destruct (inv_at _ _ _ _ _ _ Hi Hh) as (nc & Hnc & Hph & _).
    eapply (phase_ext_evolves o s s' c nc nc'); [done|done| |done|by apply (ext_phase _ _ Hx c)].
    by eapply exec_task_evolves.
  - apply Forall_app. split; [by eapply tasks_ext_mono|]. apply Forall_app.
    split; [by eapply tasks_ext_task|by eapply tasks_ext_mono].
Qed.

Lemma ext_env o x y : inv o x -> ext o x -> env_step x y -> ext o y.
Proof.
  intros Hi [Hp Ht] He. revert Hi Hp Ht.
  destruct He as [s h ts c f Hn|s h ts d p _|s h ts d r _|s h ts|s h ts c kp _ _|s h ts c nc e Hn];
    intros Hi Hp Ht; cbn in *; split; cbn; try done; try by constructor.
  - intros c' ph nc' Hh Hnc'. destruct (decide (c' = c)) as [->|Hne].
    + rewrite lookup_insert_eq in Hh. by simplify_eq.
    + rewrite lookup_insert_ne in Hh by done. rewrite lookup_insert_ne in Hnc' by done. eauto.
  - intros c' ph nc' Hh Hnc'. destruct (decide (c' = c)) as [->|Hne].
    + rewrite lookup_insert_eq in Hnc'. injection Hnc' as <-. exact (Hp c ph nc Hh Hn).
    + rewrite lookup_insert_ne in Hnc' by done. eauto.
Qed.

Lemma ext_init o : ext o init.
Proof. split; [intros c ph nc; cbn; by rewrite lookup_empty|done]. Qed.

(** ** The simulation relation *)

Definition stage_of (ph : phase) : option stage :=
  match ph with
  | PEstablish _ => Some Joined
  | PLoop _ => Some Announced
  | PTeardown | PRemove | PClosed => Some Left
  | _ => None
  end.

(** A connection seen as a session of device [d]. *)
Definition view (d : gostring) (nc : netconn) (st : stage) : session :=
  mkSession d st (negb (nc_closed nc))
    (if decide (st = Left) then [] else packets (nc_in nc)) (outbox nc).

Definition abs_session (s : server) (h : gmap connid phase) (c : connid) : option session :=
  match deviceID <$> dcs s !! c, nets s !! c, h !! c ≫= stage_of with
  | Some d, Some nc, Some st => Some (view d nc st)
  | _, _, _ => None
  end.

Definition abs_peer (s : server) (c : connid) : option (gostring * list ControlPacket) :=
  match deviceID <$> dcs s !! c, nets s !! c with
  | Some d, Some nc => Some (d, packets (nc_all nc))
  | _, _ => None
  end.

Definition waiting (ts : list task) : list (gostring * list Z) :=
  omap (fun t => match t with TDeliver d p => Some (d, p) | _ => None end) ts.

#[local] Arguments waiting : simpl never.

Record related (x : config) (a : spec) : Prop := mkRelated {
  rel_directory : directory a = store (srv x);
  rel_sessions : forall c, sessions a !! c = abs_session (srv x) (handlers x) c;
  rel_peers : forall c, peers a !! c = abs_peer (srv x) c;
  rel_mailbox : mailbox a ≡ₚ waiting (tasks x);
}.

Lemma related_same x y a :
  related x a -> store (srv y) = store (srv x) ->
  (forall c, abs_session (srv y) (handlers y) c = abs_session (srv x) (handlers x) c) ->
  (forall c, abs_peer (srv y) c = abs_peer (srv x) c) ->
  waiting (tasks y) ≡ₚ waiting (tasks x) -> related y a.
Proof.
  intros [] Hs Hses Hp Hm. split; [congruence|..].
  - intros c. by rewrite Hses.
  - intros c. by rewrite Hp.
  - by rewrite Hm.
Qed.

(** One session replaced. *)
Lemma related_session x y c ses a :
  related x a -> store (srv y) = store (srv x) ->
  abs_session (srv y) (handlers y) c = Some ses ->
  (forall c', c' <> c -> abs_session (srv y) (handlers y) c' = abs_session (srv x) (handlers x) c') ->
  (forall c', abs_peer (srv y) c' = abs_peer (srv x) c') ->
  waiting (tasks y) ≡ₚ waiting (tasks x) -> related y (set_session c ses a).
Proof.
  intros [] Hs Hses Hoth Hp Hm. split; cbn; [congruence|..].
  - intros c'. destruct (decide (c' = c)) as [->|Hne].
    + by rewrite lookup_insert_eq, Hses.
    + by rewrite lookup_insert_ne, Hoth by done.
  - intros c'. by rewrite Hp.
  - by rewrite Hm.
Qed.

Lemma abs_session_view s h c nc ses :
  nets s !! c = Some nc -> abs_session s h c = Some ses ->
  ses = view (s_device ses) nc (s_stage ses).
Proof.
  intros Hnc. unfold abs_session. rewrite Hnc. destruct (deviceID <$> dcs s !! c); [|done].
  destruct (h !! c ≫= stage_of); [|done]. by intros [= <-].
Qed.

(** An action on the network connection of [c] only. *)
Section set_net.
Context (c : connid) (nc nc' : netconn) (s : server) (h : gmap connid phase).
Context (Hnc : nets s !! c = Some nc) (Hall : nc_all nc' = nc_all nc).

Lemma abs_session_others c' : c' <> c -> abs_session (set_net c nc' s) h c' = abs_session s h c'.
Proof. intros Hne. unfold abs_session. cbn. by rewrite lookup_insert_ne. Qed.

Lemma abs_peer_set_net c' : abs_peer (set_net c nc' s) c' = abs_peer s c'.
Proof.
  unfold abs_peer. cbn. destruct (decide (c' = c)) as [->|Hne].
  - by rewrite lookup_insert_eq, Hnc, Hall.
  - by rewrite lookup_insert_ne.
Qed.

Lemma abs_session_own :
  abs_session (set_net c nc' s) h c =
    match abs_session s h c with
    | Some ses => Some (view (s_device ses) nc' (s_stage ses))
    | None => None
    end.
Proof.
  unfold abs_session. cbn. rewrite lookup_insert_eq, Hnc.
  destruct (deviceID <$> dcs s !! c); [|done]. by destruct (h !! c ≫= stage_of).
Qed.

End set_net.

(** ** Changes of the state without a callback or result *)

(** [s] becomes [s'] by silent steps of the specification. *)
Definition silently (o : ServerOptions) (h : gmap connid phase) (s s' : server) : Prop :=
  forall ts a, related (mkConfig s h ts) a ->
    exists a', spec_run o a [] a' /\ related (mkConfig s' h ts) a'.

Lemma silently_refl o h s : silently o h s s.
Proof. intros ts a Hr. exists a. split; [apply run_nil|done]. Qed.

Lemma silently_trans o h s1 s2 s3 : silently o h s1 s2 -> silently o h s2 s3 -> silently o h s1 s3.
Proof.
  intros H1 H2 ts a Ha. destruct (H1 ts a Ha) as (b & Hb & Hrb).
  destruct (H2 ts b Hrb) as (c & Hc & Hrc). exists c. split; [|done].
  exact (spec_run_app _ _ _ _ _ _ Hb Hc).
Qed.

(** The fields of [server] the relation does not look at. *)
Lemma silently_same o h s s' :
  store s' = store s -> nets s' = nets s ->
  (forall c, deviceID <$> dcs s' !! c = deviceID <$> dcs s !! c) -> silently o h s s'.
Proof.
  intros Hs Hn Hd ts a Ha. exists a. split; [apply run_nil|].
  eapply related_same; [exact Ha|done| | |done]; intros c; cbn;
    unfold abs_session, abs_peer; by rewrite Hn, Hd.
Qed.

Lemma silently_conn_Close o h c s : silently o h s (conn_Close c s).
Proof.
  unfold conn_Close. destruct (nets s !! c) as [nc|] eqn:Hnc; [|apply silently_refl].
  intros ts a Ha. pose proof (abs_session_own c nc (net_close nc) s h Hnc) as Hown.
  destruct (abs_session s h c) as [ses|] eqn:Hses.
  - exists (set_session c (goes_down ses) a). split.
    + apply spec_run_one, sp_close. by rewrite (rel_sessions _ _ Ha).
    + eapply related_session; [exact Ha|done| | |by intros; eapply abs_peer_set_net|done].
      * cbn. rewrite Hown. by rewrite (abs_session_view _ _ _ _ _ Hnc Hses).
      * intros c' Hne. by apply abs_session_others.
  - exists a. split; [apply run_nil|].
    eapply related_same; [exact Ha|done| |by intros; eapply abs_peer_set_net|done].
    intros c'. cbn. destruct (decide (c' = c)) as [->|Hne]; [by rewrite Hown, Hses|].
    by apply abs_session_others.
Qed.

Lemma silently_close_all o h (cs : gset connid) s : silently o h s (set_fold conn_Close s cs).
Proof.
  apply (set_fold_ind_L (fun s' _ => silently o h s s')); [apply silently_refl|].
  intros c X s' _ IH. eapply silently_trans; [exact IH|apply silently_conn_Close].
Qed.

Lemma silently_dc_Close o h c s : silently o h s (dc_Close c s).
Proof.
  unfold dc_Close. destruct (dcs s !! c) as [x|] eqn:Hx; [|apply silently_refl].
  destruct (active x); [|apply silently_refl].
  eapply silently_trans; [|apply silently_conn_Close].
  apply silently_same; [done|done|]. intros c'. cbn.
  destruct (decide (c' = c)) as [->|Hne]; [by rewrite lookup_insert_eq, Hx|by rewrite lookup_insert_ne].
Qed.

(** ** Writing a packet *)

(** What a write does to the connection, in packets. *)
Lemma write_packet_sends cp c s nc :
  packet_ok cp -> nets s !! c = Some nc ->
  exists e nc' l, write_packet cp c s = (e, set_net c nc' s) /\
    nc_all nc' = nc_all nc /\ nc_in nc' = nc_in nc /\ nc_closed nc' = nc_closed nc /\
    outbox nc' = outbox nc ++ l /\
    (l = [] \/ (l = [received cp] /\ nc_closed nc = false)) /\
    (e = None -> l = [received cp] /\ nc_closed nc = false).
Proof.
  intros Hok Hnc. unfold write_packet. rewrite Hnc.
  destruct (Packet_Write_net cp nc) as [cp' ->].
  assert (Hout : forall bs torn, outbox (wrote bs torn nc) = outbox nc ++ sent_packets bs).
  { intros bs torn. rewrite (outbox_app nc _ [bs]) by done. cbn. by rewrite app_nil_r. }
  destruct (nc_closed nc) eqn:Hc; [|destruct (nc_fault nc) as [[k e]|]].
  - exists (Some net_ErrClosed), nc, []. rewrite app_nil_r. repeat split; auto; done.
  - exists (Some e), (wrote (take k (frame cp)) true nc), (sent_packets (take k (frame cp))).
    repeat split; auto; try done. destruct (sent_cut cp k Hok) as [-> | ->]; auto.
  - exists None, (wrote (frame cp) (nc_torn nc) nc), [received cp].
    rewrite Hout, sent_frame by done. repeat split; auto.
Qed.

Lemma view_sends d nc nc' st l :
  nc_in nc' = nc_in nc -> nc_closed nc' = nc_closed nc -> outbox nc' = outbox nc ++ l ->
  view d nc' st = sends l (view d nc st).
Proof. intros Hi Hc Ho. unfold view, sends. cbn. by rewrite Hi, Hc, Ho. Qed.

(** A write that the specification explains by [step]. *)
Lemma related_write c nc nc' l s h ts ts' a :
  related (mkConfig s h ts) a -> nets s !! c = Some nc ->
  nc_all nc' = nc_all nc -> nc_in nc' = nc_in nc -> nc_closed nc' = nc_closed nc ->
  outbox nc' = outbox nc ++ l -> waiting ts' ≡ₚ waiting ts ->
  match abs_session s h c with
  | Some ses => related (mkConfig (set_net c nc' s) h ts') (set_session c (sends l ses) a)
  | None => related (mkConfig (set_net c nc' s) h ts') a
  end.
Proof.
  intros Ha Hnc Hall Hin Hcl Hout Hw. pose proof (abs_session_own c nc nc' s h Hnc) as Hown.
  destruct (abs_session s h c) as [ses|] eqn:Hses.
  - eapply related_session; [exact Ha|done| | |by intros; eapply abs_peer_set_net|done].
    + cbn. rewrite Hown. f_equal. rewrite (view_sends _ nc nc' _ l) by done.
      by rewrite <- (abs_session_view _ _ _ _ _ Hnc Hses).
    + intros c' Hne. by apply abs_session_others.
  - eapply related_same; [exact Ha|done| |by intros; eapply abs_peer_set_net|done].
    intros c'. cbn. destruct (decide (c' = c)) as [->|Hne]; [by rewrite Hown, Hses|].
    by apply abs_session_others.
Qed.

Lemma view_up s h c nc ses :
  nets s !! c = Some nc -> abs_session s h c = Some ses -> s_up ses = negb (nc_closed nc).
Proof. intros Hnc Hses. by rewrite (abs_session_view _ _ _ _ _ Hnc Hses). Qed.

Lemma silently_SendDisconnect o h c r s : byte_ok r -> silently o h s (SendDisconnect c r s).
Proof.
  intros Hr. unfold SendDisconnect. destruct (IsActive c s); [|apply silently_refl].
  destruct (nets s !! c) as [nc|] eqn:Hnc;
    [|unfold write_packet; rewrite Hnc; apply silently_refl].
  destruct (write_packet_sends (new_disconnect r) c s nc) as
    (e & nc' & l & -> & Hall & Hin & Hcl & Hout & Hl & _); [done|done|]. cbn [snd].
  intros ts a Ha. pose proof (related_write c nc nc' l s h ts ts a Ha Hnc Hall Hin Hcl Hout) as Hrel.
  specialize (Hrel (reflexivity _)). destruct (abs_session s h c) as [ses|] eqn:Hses.
  - exists (set_session c (sends l ses) a). split; [|done]. apply spec_run_one, (sp_notify _ _ _ _ r).
    + by rewrite (rel_sessions _ _ Ha).
    + destruct Hl as [->|[-> Hc]]; [by left|right]. split; [done|].
      by rewrite (view_up _ _ _ _ _ Hnc Hses), Hc.
  - exists a. split; [apply run_nil|done].
Qed.

(** ** Every action is explained by the specification *)

Definition explained (o : ServerOptions) (x y : config) : Prop :=
  forall a, related x a -> exists a' seen, spec_run o a seen a' /\ related y a' /\
    events (srv y) = reverse seen ++ events (srv x).

Lemma waiting_app ts1 ts2 : waiting (ts1 ++ ts2) = waiting ts1 ++ waiting ts2.
Proof. apply omap_app. Qed.

Lemma waiting_swap pre t new post :
  waiting [t] = waiting new -> waiting (pre ++ new ++ post) ≡ₚ waiting (pre ++ t :: post).
Proof.
  intros Hw. change (t :: post) with ([t] ++ post). by rewrite !waiting_app, Hw.
Qed.

(** Only the goroutine's bookkeeping and the log change. *)
Lemma explained_log o h s s' s0 ts ts' seen :
  silently o h s s0 -> events s0 = events s ->
  (forall b, related (mkConfig s0 h ts) b -> exists b', spec_step o b seen b' /\
     related (mkConfig s' h ts') b') ->
  events s' = reverse seen ++ events s -> explained o (mkConfig s h ts) (mkConfig s' h ts').
Proof.
  intros Hq He0 Hs He a Ha. destruct (Hq ts a Ha) as (b & Hb & Hrb).
  destruct (Hs b Hrb) as (b' & Hb' & Hrb'). exists b', seen. split; [|done].
  change seen with ([] ++ seen). by eapply run_snoc.
Qed.

Lemma explained_silent o h s s' ts ts' :
  silently o h s s' -> events s' = events s -> waiting ts' ≡ₚ waiting ts ->
  explained o (mkConfig s h ts) (mkConfig s' h ts').
Proof.
  intros Hq He Hw a Ha. destruct (Hq ts a Ha) as (b & Hb & Hrb). exists b, []. split; [done|].
  split; [|done]. by eapply related_same.
Qed.

Lemma related_log e s h ts ts' a :
  related (mkConfig s h ts) a -> waiting ts' ≡ₚ waiting ts -> related (mkConfig (log e s) h ts') a.
Proof. intros Ha Hw. by eapply related_same. Qed.

(** A step that changes nothing but adds one entry to the log. *)
Lemma explained_event o h s ts ts' e :
  (forall a, related (mkConfig s h ts) a -> spec_step o a [e] a) -> waiting ts' ≡ₚ waiting ts ->
  explained o (mkConfig s h ts) (mkConfig (log e s) h ts').
Proof.
  intros Hs Hw. eapply (explained_log _ _ _ _ s _ _ [e]); [apply silently_refl|done| |done].
  intros b Hb. exists b. split; [by apply Hs|by eapply related_log].
Qed.

(** An open connection with a device is a session. *)
Lemma open_session o s h ts c x nc :
  inv o (mkConfig s h ts) -> dcs s !! c = Some x -> nets s !! c = Some nc ->
  nc_closed nc = false ->
  exists ses, abs_session s h c = Some ses /\ s_device ses = deviceID x /\ s_up ses = true.
Proof.
  intros Hi Hx Hnc Hcl. destruct (proj2 (inv_dom _ _ Hi c)) as [ph Hph]; [by exists nc|].
  pose proof (inv_phase _ _ Hi c ph nc Hph Hnc) as Hp. cbn in *.
  unfold abs_session. rewrite Hx, Hnc, Hph. cbn.
  destruct ph; cbn in *; try (destruct Hp as [Hp _]; congruence); try congruence;
    (eexists; split; [done|]; cbn; by rewrite Hcl).
Qed.

Section tasks.
Context (o : ServerOptions) (s : server) (h : gmap connid phase) (pre post : list task).

Lemma explained_push c d payload s' new :
  let ts := pre ++ TPushWrite c d payload :: post in
  inv o (mkConfig s h ts) -> ext o (mkConfig s h ts) ->
  exec_task (TPushWrite c d payload) s = (s', new) ->
  explained o (mkConfig s h ts) (mkConfig s' h (pre ++ new ++ post)).
Proof.
  intros ts Hi Hx Hex. cbn in Hex.
  assert (Hfail : forall e, explained o (mkConfig s h ts)
    (mkConfig (log (PushResult d (Some e)) s) h (pre ++ [] ++ post))).
  { intros e. apply explained_event; [intros a _; apply sp_push_fail|by apply waiting_swap]. }
  destruct (task_at _ _ _ _ _ _ Hi) as [[x Hdc] Hlen].
  assert (Hd : deviceID x = d).
  { pose proof (ext_tasks _ _ Hx) as Ht. cbn in Ht.
    apply Forall_app in Ht as [_ [(x' & Hx' & Hd) _]%Forall_cons_1]. by simplify_eq. }
  unfold dc_Write, IsActive in Hex. rewrite Hdc in Hex.
  destruct (active x) eqn:Ha; [|by simplify_eq].
  destruct (inv_dc _ _ Hi c x Hdc) as (nc & Hnc & _). cbn in Hnc.
  destruct (write_packet_sends (new_push payload) c s nc) as
    (e & nc' & l & Hw & Hall & Hin & Hcl & Hout & Hl & He); [by split|done|].
  rewrite Hw in Hex. simplify_eq. intros a Hra.
  pose proof (related_write c nc nc' l s h ts (pre ++ [] ++ post) a Hra Hnc Hall Hin Hcl Hout
    ltac:(by apply waiting_swap)) as Hrel.
  destruct Hl as [->|[-> Hopen]].
  - destruct e as [e|]; [|by destruct (He eq_refl)].
    exists a, [PushResult (deviceID x) (Some e)].
    split; [apply spec_run_one, sp_push_fail|]. split; [|done].
    destruct (abs_session s h c) as [ses|] eqn:Hses; [|by eapply related_log].
    eapply related_log; [|done]. pose proof (rel_sessions _ _ Hra c) as Hlk. cbn in Hlk.
    rewrite Hses in Hlk. replace a with (set_session c (sends [] ses) a); [done|].
    unfold set_session, sends. rewrite app_nil_r. destruct ses, a. cbn in *. f_equal.
    by apply insert_id.
  - destruct (open_session _ _ _ _ c x nc Hi Hdc Hnc Hopen) as (ses & Hses & Hid & Hup).
    rewrite Hses in Hrel.
    exists (set_session c (sends [received (new_push payload)] ses) a), [PushResult (deviceID x) e].
    split; [|split; [by eapply related_log|done]]. apply spec_run_one. rewrite <- Hid.
    assert (Hlk : sessions a !! c = Some ses) by (by rewrite (rel_sessions _ _ Hra)).
    destruct e as [e|]; [by apply sp_push_cut|by apply sp_push].
Qed.

Lemma explained_remove c d reason s' new :
  let ts := pre ++ TKickRemove c d reason :: post in
  inv o (mkConfig s h ts) -> ext o (mkConfig s h ts) ->
  exec_task (TKickRemove c d reason) s = (s', new) ->
  explained o (mkConfig s h ts) (mkConfig s' h (pre ++ new ++ post)).
Proof.
  intros ts Hi Hx [= <- <-] a Ha.
  assert (Hdown : forall ses, sessions a !! c = Some ses -> s_up ses = false).
  { intros ses. rewrite (rel_sessions _ _ Ha). cbn. intros Hses.
    pose proof (ext_tasks _ _ Hx) as Ht. cbn in Ht.
    apply Forall_app in Ht as [_ [(x & Hdc & Hact) _]%Forall_cons_1].
    destruct (inv_dc _ _ Hi c x Hdc) as (nc & Hnc & Hcl & _). cbn in Hnc.
    by rewrite (view_up _ _ _ _ _ Hnc Hses), (Hcl Hact). }
  eexists _, []. split; [apply spec_run_one, (sp_unregister _ _ d c Hdown)|]. split; [|done].
  destruct Ha. split; cbn in *; [by f_equal; f_equal|done|done|].
  etransitivity; [eassumption|symmetry; by apply (waiting_swap _ _ [TKickEvent d reason])].
Qed.

Lemma explained_deliver d payload :
  let ts := pre ++ TDeliver d payload :: post in
  explained o (mkConfig s h ts) (mkConfig (log (MessageHandler d payload) s) h (pre ++ [] ++ post)).
Proof.
  intros ts a Ha. exists (mkSpec (directory a) (sessions a) (peers a) (waiting (pre ++ post))),
    [MessageHandler d payload].
  split.
  - apply spec_run_one, sp_deliver. rewrite (rel_mailbox _ _ Ha). cbn. subst ts.
    rewrite !waiting_app. change (waiting (TDeliver d payload :: post)) with
      ((d, payload) :: waiting post). by rewrite <- Permutation_middle.
  - split; [|done]. destruct Ha. by split.
Qed.

Lemma explained_wait :
  let ts := pre ++ TWait :: post in
  may_run h TWait ->
  explained o (mkConfig s h ts) (mkConfig (log CloseResult s) h (pre ++ [] ++ post)).
Proof.
  intros ts Hm. apply explained_event; [|by apply waiting_swap].
  intros a Ha. apply sp_shutdown, map_empty. intros c. rewrite (rel_sessions _ _ Ha). cbn.
  unfold abs_session. destruct (deviceID <$> dcs s !! c); [|done]. destruct (nets s !! c); [|done].
  destruct (h !! c) as [ph|] eqn:Hh; [|done]. pose proof (Hm eq_refl c ph Hh). by destruct ph.
Qed.

End tasks.

Local Ltac silent lem1 lem2 :=
  simplify_eq; apply explained_silent; [lem1|lem2|by apply waiting_swap].

Lemma explained_task o s h pre t post s' new :
  inv o (mkConfig s h (pre ++ t :: post)) -> ext o (mkConfig s h (pre ++ t :: post)) ->
  may_run h t -> exec_task t s = (s', new) ->
  explained o (mkConfig s h (pre ++ t :: post)) (mkConfig s' h (pre ++ new ++ post)).
Proof.
  intros Hi Hx Hm Hex. pose proof (task_at _ _ _ _ _ _ Hi) as Hok.
  destruct t as [p|p|p|p|d pl|d pl|p d pl|d r|p d r|p d r|p d r|d r| |[|p ps]|p ps| |];
    try (by eapply explained_push); try (by eapply explained_remove); cbn in Hex, Hok.
  - silent ltac:(by apply silently_SendDisconnect) ltac:(apply SendDisconnect_tables).
  - silent ltac:(apply silently_dc_Close) ltac:(apply dc_Close_tables).
  - silent ltac:(by apply silently_SendDisconnect) ltac:(apply SendDisconnect_tables).
  - silent ltac:(apply silently_dc_Close) ltac:(apply dc_Close_tables).
  - simplify_eq. apply explained_deliver.
  - destruct (Get _ _) as [p|]; [destruct (IsActive p s)|].
    + silent ltac:(apply silently_refl) ltac:(done).
    + simplify_eq. apply explained_event; [intros; apply sp_push_fail|by apply waiting_swap].
    + simplify_eq. apply explained_event; [intros; apply sp_push_fail|by apply waiting_swap].
  - destruct (Get _ _) as [p|]; [destruct (IsActive p s)|].
    + silent ltac:(apply silently_refl) ltac:(done).
    + simplify_eq. apply explained_event; [intros; apply sp_kick_fail|by apply waiting_swap].
    + simplify_eq. apply explained_event; [intros; apply sp_kick_fail|by apply waiting_swap].
  - silent ltac:(apply silently_SendDisconnect, Hok) ltac:(apply SendDisconnect_tables).
  - silent ltac:(apply silently_dc_Close) ltac:(apply dc_Close_tables).
  - simplify_eq. eapply (explained_log _ _ _ _ s _ _ [_; _]);
      [apply silently_refl|done| |done].
    intros b Hb. exists b. split; [apply sp_kick|]. eapply related_log; [|done].
    eapply related_log; [exact Hb|by apply waiting_swap].
  - silent ltac:(apply silently_refl) ltac:(done).
  - silent ltac:(apply silently_refl) ltac:(done).
  - silent ltac:(by apply silently_SendDisconnect) ltac:(apply SendDisconnect_tables).
  - silent ltac:(apply silently_dc_Close) ltac:(apply dc_Close_tables).
  - silent ltac:(apply silently_close_all) ltac:(apply close_all_tables).
  - simplify_eq. by apply explained_wait.
Qed.

(** ** The connection's own goroutine *)

Section handler.
Context (o : ServerOptions) (s : server) (h : gmap connid phase) (ts : list task) (c : connid).

Lemma abs_session_phase c' ph' s' :
  c' <> c -> dcs s' !! c' = dcs s !! c' -> nets s' !! c' = nets s !! c' ->
  abs_session s' (<[c := ph']> h) c' = abs_session s h c'.
Proof. intros Hne Hd Hn. unfold abs_session. by rewrite Hd, Hn, lookup_insert_ne. Qed.

(** A phase without a session, before and after. *)
Lemma explained_outside s' ph' new :
  dcs s !! c = None -> store s' = store s -> events s' = events s -> dcs s' = dcs s ->
  (forall c', c' <> c -> nets s' !! c' = nets s !! c') -> waiting new = [] ->
  explained o (mkConfig s h ts) (mkConfig s' (<[c := ph']> h) (new ++ ts)).
Proof.
  intros Hx Hs He Hd Hn Hw a Ha. exists a, []. split; [apply run_nil|]. split; [|done].
  eapply related_same; [exact Ha|done| | |cbn; by rewrite waiting_app, Hw].
  - intros c'. cbn. destruct (decide (c' = c)) as [->|Hne].
    + unfold abs_session. by rewrite Hd, Hx.
    + apply abs_session_phase; [done|by rewrite Hd|by apply Hn].
  - intros c'. cbn. unfold abs_peer. rewrite Hd. destruct (decide (c' = c)) as [->|Hne].
    + by rewrite Hx.
    + by rewrite Hn.
Qed.

(** A phase change that does not change the stage. *)
Lemma related_phase ph ph' a :
  related (mkConfig s h ts) a -> h !! c = Some ph -> stage_of ph' = stage_of ph ->
  related (mkConfig s (<[c := ph']> h) ts) a.
Proof.
  intros Ha Hh Hst. eapply related_same; [exact Ha|done| |done|done]. intros c'. cbn.
  unfold abs_session. destruct (decide (c' = c)) as [->|Hne].
  - rewrite lookup_insert_eq, Hh. cbn. by rewrite Hst.
  - by rewrite lookup_insert_ne.
Qed.

Context (x : deviceConnection) (nc : netconn).
Context (Hx : dcs s !! c = Some x) (Hnc : nets s !! c = Some nc).

Lemma session_at ph st a :
  related (mkConfig s h ts) a -> h !! c = Some ph -> stage_of ph = Some st ->
  sessions a !! c = Some (view (deviceID x) nc st).
Proof.
  intros Ha Hh Hst. rewrite (rel_sessions _ _ Ha). cbn. unfold abs_session.
  rewrite Hx, Hnc, Hh. cbn. by rewrite Hst.
Qed.

(** The session after an action of its own goroutine. *)
Lemma related_own nc' ph' st ts' a :
  related (mkConfig s h ts) a -> nc_all nc' = nc_all nc -> stage_of ph' = Some st ->
  waiting ts' ≡ₚ waiting ts ->
  related (mkConfig (set_net c nc' s) (<[c := ph']> h) ts') (set_session c (view (deviceID x) nc' st) a).
Proof.
  intros Ha Hall Hst Hw.
  eapply related_session; [exact Ha|done| | |by intros; eapply abs_peer_set_net|done].
  - cbn. unfold abs_session. cbn. rewrite !lookup_insert_eq, Hx. cbn. by rewrite Hst.
  - intros c' Hne. apply abs_session_phase; [done|done|]. cbn. by rewrite lookup_insert_ne.
Qed.

Lemma explained_establish kp s' ph' new :
  h !! c = Some (PEstablish kp) -> exec_handler o c (PEstablish kp) s = (s', ph', new) ->
  explained o (mkConfig s h ts) (mkConfig s' (<[c := ph']> h) (new ++ ts)).
Proof.
  intros Hh [= <- <- <-] a Ha. unfold device_of. rewrite Hx.
  pose proof (session_at _ _ a Ha Hh eq_refl) as Hses.
  eexists _, [_]. split; [apply spec_run_one; by eapply sp_announce|]. split; [|done].
  pose proof (related_own nc (PLoop kp) Announced ts a Ha eq_refl eq_refl (reflexivity _)) as Hr.
  eapply related_log; [|done]. eapply related_same; [exact Hr| | | |done]; try done; cbn;
    intros c'; unfold abs_session, abs_peer; cbn; by rewrite (insert_id _ _ _ Hnc).
Qed.

Lemma explained_teardown s' ph' new :
  h !! c = Some PTeardown -> exec_handler o c PTeardown s = (s', ph', new) ->
  explained o (mkConfig s h ts) (mkConfig s' (<[c := ph']> h) (new ++ ts)).
Proof.
  intros Hh [= <- <- <-] a Ha. destruct (silently_dc_Close o h c s ts a Ha) as (b & Hb & Hrb).
  exists b, []. split; [done|]. split; [|apply dc_Close_tables].
  cbn. eapply related_same; [exact Hrb|done| |done|done]. intros c'. cbn.
  unfold abs_session. destruct (decide (c' = c)) as [->|Hne].
  - by rewrite lookup_insert_eq, Hh.
  - by rewrite lookup_insert_ne.
Qed.

Lemma explained_removal s' ph' new :
  h !! c = Some PRemove -> nc_closed nc = true -> exec_handler o c PRemove s = (s', ph', new) ->
  explained o (mkConfig s h ts) (mkConfig s' (<[c := ph']> h) (new ++ ts)).
Proof.
  intros Hh Hcl [= <- <- <-] a Ha. pose proof (session_at _ _ a Ha Hh eq_refl) as Hses.
  pose proof (related_phase PRemove PClosed a Ha Hh eq_refl) as Hr.
  eexists _, []. split.
  - apply spec_run_one, (sp_unregister _ _ (device_of c s) c). intros ses Hs. simplify_eq.
    cbn. by rewrite Hcl.
  - split; [|done]. destruct Hr. split; cbn in *; [by f_equal; f_equal|done..].
Qed.

Lemma explained_closed s' ph' new :
  h !! c = Some PClosed -> nc_closed nc = true ->
  (forall d, store s !! d <> Some c) -> exec_handler o c PClosed s = (s', ph', new) ->
  explained o (mkConfig s h ts) (mkConfig s' (<[c := ph']> h) (new ++ ts)).
Proof.
  intros Hh Hcl Hst [= <- <- <-] a Ha. pose proof (session_at _ _ a Ha Hh eq_refl) as Hses.
  eexists _, [_]. split; [apply spec_run_one; eapply sp_closed; [exact Hses|done|cbn; by rewrite Hcl|]|].
  - intros d. rewrite (rel_directory _ _ Ha). apply Hst.
  - split; [|unfold device_of; by rewrite Hx]. destruct Ha as [Hd Hs Hp Hm].
    split; cbn in *; [done| |done|done]. intros c'.
    unfold abs_session in *. cbn. destruct (decide (c' = c)) as [->|Hne].
    + rewrite lookup_delete_eq, Hx, Hnc, lookup_insert_eq. done.
    + rewrite lookup_delete_ne, lookup_insert_ne by done. apply Hs.
Qed.

End handler.

Lemma explained_register o s h ts c d kp s' ph' new :
  inv o (mkConfig s h ts) -> ext o (mkConfig s h ts) -> h !! c = Some (PRegister d kp) ->
  exec_handler o c (PRegister d kp) s = (s', ph', new) ->
  explained o (mkConfig s h ts) (mkConfig s' (<[c := ph']> h) (new ++ ts)).
Proof.
  intros Hi Hext Hh Hex a Ha. destruct (inv_at _ _ _ _ _ _ Hi Hh) as (nc & Hnc & (Hd & _) & _).
  destruct (ext_phase _ _ Hext c _ nc Hh Hnc) as ((p & Hr & Hadm) & Ho). cbn in Hex. simplify_eq.
  assert (Hout : outbox nc = [received (new_connack Accepted (u16 kp))]).
  { unfold outbox. rewrite Ho. cbn [fmap list_fmap concat].
    rewrite sent_frame, app_nil_r; [done|]. apply connack_ok; [done|apply u16_range]. }
  assert (Hw : waiting (match store s !! d with Some p => [TTakeover p] | None => [] end) = [])
    by (by destruct (store s !! d)).
  pose proof (rel_sessions _ _ Ha c) as Hs. pose proof (rel_peers _ _ Ha c) as Hp.
  unfold abs_session, abs_peer in Hs, Hp. cbn in Hs, Hp. rewrite Hd in Hs, Hp.
  eexists _, []. split.
  - apply spec_run_one, (sp_join _ a c p d kp (packets (nc_in nc)) (negb (nc_closed nc))); done.
  - split; [|done]. destruct Ha as [Hdir Hses Hpeer Hm]. split; cbn in *.
    + by rewrite Hdir.
    + intros c'. unfold abs_session in *. cbn. destruct (decide (c' = c)) as [->|Hne].
      * rewrite !lookup_insert_eq, Hnc. cbn. unfold view. by rewrite Hout.
      * rewrite !lookup_insert_ne by done. apply Hses.
    + intros c'. unfold abs_peer in *. cbn. destruct (decide (c' = c)) as [->|Hne].
      * rewrite !lookup_insert_eq, Hnc. cbn. by rewrite (packets_read _ _ _ Hr).
      * rewrite !lookup_insert_ne by done. apply Hpeer.
    + by rewrite waiting_app, Hw.
Qed.

(** ** The packet loop *)

Section loop.
Context (o : ServerOptions) (s : server) (h : gmap connid phase) (ts : list task) (c : connid).
Context (kp : Z) (x : deviceConnection) (nc : netconn).
Context (Hx : dcs s !! c = Some x) (Hnc : nets s !! c = Some nc) (Hh : h !! c = Some (PLoop kp)).

(** Reading ended or was cut off: the loop ends, after at most one DISCONNECT. *)
Lemma explained_leave nc1 (write : bool) :
  nc_all nc1 = nc_all nc -> nc_out nc1 = nc_out nc -> nc_closed nc1 = nc_closed nc ->
  may_leave (view (deviceID x) nc Announced) ->
  let s1 := set_net c nc1 s in
  let s2 := if write then snd (write_packet (new_disconnect DiscProtocolViolation) c s1) else s1 in
  explained o (mkConfig s h ts) (mkConfig s2 (<[c := PTeardown]> h) ts).
Proof.
  intros Hall Hout Hcl Hleave s1 s2 a Ha.
  pose proof (session_at s h ts c x nc Hx Hnc _ _ a Ha Hh eq_refl) as Hses.
  assert (Hob : outbox nc1 = outbox nc) by (unfold outbox; by rewrite Hout).
  assert (exists nc2 l, s2 = set_net c nc2 s /\ nc_all nc2 = nc_all nc /\
    nc_closed nc2 = nc_closed nc /\ outbox nc2 = outbox nc ++ l /\
    (l = [] \/ (l = [received (new_disconnect DiscProtocolViolation)] /\ nc_closed nc = false)))
    as (nc2 & l & Hs2 & Hall2 & Hcl2 & Hob2 & Hl).
  { subst s2 s1. destruct write.
    - destruct (write_packet_sends (new_disconnect DiscProtocolViolation) c (set_net c nc1 s) nc1)
        as (e & nc2 & l & -> & Hall2 & _ & Hcl2 & Hob2 & Hl & _); [done|apply lookup_set_net|].
      exists nc2, l. cbn [snd]. rewrite set_net_twice, <- Hcl, <- Hob, <- Hall. done.
    - exists nc1, []. rewrite app_nil_r. auto 10. }
  clearbody s2. subst s2. eexists _, []. split.
  - apply spec_run_one. eapply (sp_leave _ _ _ _ l); [exact Hses|done|done|].
    destruct Hl as [->|[-> Hc]]; [by left|right]. cbn. by rewrite Hc.
  - split; [|done]. replace (sends l _) with (view (deviceID x) nc2 Left).
    + by eapply related_own.
    + unfold sends, takes, view. cbn. by rewrite Hcl2, Hob2.
Qed.

Lemma explained_loop s' ph' new :
  exec_handler o c (PLoop kp) s = (s', ph', new) ->
  explained o (mkConfig s h ts) (mkConfig s' (<[c := ph']> h) (new ++ ts)).
Proof.
  intros Hex. cbn in Hex. rewrite Hnc in Hex. pose proof (ReadPacket_net_total nc) as Htot.
  pose proof (ReadPacket_net nc) as Hnet.
  destruct (nc_closed nc) eqn:Hcl.
  { rewrite Hnet in Hex. cbn in Hex. simplify_eq.
    apply (explained_leave nc false); try done. left. cbn. by rewrite Hcl. }
  destruct (ReadPacket nc) as [read nc1]. injection Hnet as -> Hnc1. cbn in Htot.
  assert (nc_all nc1 = nc_all nc /\ nc_out nc1 = nc_out nc /\ nc_closed nc1 = nc_closed nc)
    as (Hall & Hout & Hcl1) by (by rewrite Hnc1, Hcl).
  assert (Hin : nc_in nc1 = snd (ReadPacket (nc_in nc))) by (by rewrite Hnc1). clear Hnc1.
  destruct (ReadPacket (nc_in nc)) as [read rest] eqn:Hr. cbn in *. subst rest.
  assert (Hob : outbox nc1 = outbox nc) by (unfold outbox; by rewrite Hout).
  destruct read as [cp|err|]; [| |done].
  2: { assert (Hend : may_leave (view (deviceID x) nc Announced)).
       { right. cbn. by rewrite (packets_end (nc_in nc)) by (by rewrite Hr). }
       cbn in Hex. case_match; simplify_eq;
         [by apply (explained_leave nc1 true)|by apply (explained_leave nc1 false)]. }
  pose proof (packets_read _ _ _ Hr) as Hp.
  assert (Hgo : forall cp', cp = cp' -> match cp' with PPush _ | PPingreq _ => False | _ => True end ->
    may_leave (view (deviceID x) nc Announced)).
  { intros cp' -> Hk. right. cbn. rewrite Hp. by destruct cp'. }
  destruct cp as [q|q|q|q|q|q]; cbn in Hex; simplify_eq.
  - apply (explained_leave nc1 true); auto. by eapply Hgo.
  - apply (explained_leave nc1 true); auto. by eapply Hgo.
  - apply (explained_leave nc1 false); auto. by eapply Hgo.
  - (* PUSH *) intros a Ha.
    pose proof (session_at s h ts c x nc Hx Hnc _ _ a Ha Hh eq_refl) as Hses.
    eexists _, []. split; [apply spec_run_one; eapply sp_message; [exact Hses|done|cbn; exact Hp]|].
    split; [|done]. pose proof (related_own s h ts c x nc Hx Hnc nc1 (PLoop kp) Announced ts a Ha Hall
      eq_refl (reflexivity _)) as [Hdir Hs Hpeer Hm].
    split; cbn [directory sessions peers mailbox srv handlers tasks] in *; [done| |done|].
    + intros c'. rewrite <- Hs. cbn. do 2 f_equal. unfold takes, view. cbn. by rewrite Hcl1, Hob.
    + rewrite waiting_app. cbn in Hm. rewrite Hm. unfold device_of. cbn. rewrite Hx.
      by destruct (has_MessageHandler o).
  - (* PINGREQ *) intros a Ha.
    pose proof (session_at s h ts c x nc Hx Hnc _ _ a Ha Hh eq_refl) as Hses.
    destruct (write_packet_sends new_pingresp c (set_net c nc1 s) nc1)
      as (e & nc2 & l & -> & Hall2 & Hin2 & Hcl2 & Hob2 & Hl & _); [done|apply lookup_set_net|].
    cbn [snd]. rewrite set_net_twice. eexists _, []. split.
    + apply spec_run_one. eapply (sp_ping _ _ _ _ _ _ l); [exact Hses|done|cbn; exact Hp|].
      destruct Hl as [->|[-> Hc]]; [by left|right]. cbn. by rewrite <- Hcl1, Hc.
    + split; [|done]. replace (sends l _) with (view (deviceID x) nc2 Announced).
      * eapply related_own; try done. by rewrite Hall2.
      * unfold sends, takes, view. cbn. by rewrite Hcl2, Hcl1, Hin2, Hob2, Hob.
  - apply (explained_leave nc1 true); auto. by eapply Hgo.
Qed.

End loop.

(** ** The refinement *)

Lemma before_registration o c ph s s' ph' new :
  match ph with PStart | PTrack | PHello | PReject _ | PAccept _ _ => True | _ => False end ->
  exec_handler o c ph s = (s', ph', new) ->
  store s' = store s /\ events s' = events s /\ dcs s' = dcs s /\ waiting new = [].
Proof.
  intros Hph Hex. pose proof (exec_handler_events _ _ _ _ _ _ _ Hex) as He.
  destruct ph; try done; cbn in Hex.
  - by simplify_eq.
  - by simplify_eq.
  - destruct (nets s !! c) as [nc|]; [|by simplify_eq]. destruct (ReadPacket nc) as [first nc'].
    destruct (hello_decision o first); simplify_eq; try done.
    repeat split; [apply (conn_Close_tables c (set_net c nc' s))|done|by rewrite conn_Close_dcs].
  - simplify_eq. repeat split; [|done|by rewrite conn_Close_dcs, write_packet_dcs].
    etransitivity; [apply conn_Close_tables|apply write_packet_tables].
  - pose proof (write_packet_tables (new_connack Accepted (u16 serverKp)) c s) as (Hs & _).
    pose proof (write_packet_dcs (new_connack Accepted (u16 serverKp)) c s) as Hd.
    destruct (write_packet _ _ _) as [[e|] s1]; simplify_eq; [|by repeat split].
    repeat split; [|done|by rewrite conn_Close_dcs].
    etransitivity; [apply conn_Close_tables|done].
Qed.

Lemma explained_handler o s h ts c ph s' ph' new :
  inv o (mkConfig s h ts) -> ext o (mkConfig s h ts) -> h !! c = Some ph -> ph <> PDone ->
  exec_handler o c ph s = (s', ph', new) ->
  explained o (mkConfig s h ts) (mkConfig s' (<[c := ph']> h) (new ++ ts)).
Proof.
  intros Hi Hext Hh Hne Hex. destruct (inv_at _ _ _ _ _ _ Hi Hh) as (nc & Hnc & Hph & _ & Hdc).
  assert (Hout : dcs s !! c = None -> match ph with
    PStart | PTrack | PHello | PReject _ | PAccept _ _ => True | _ => False end ->
    explained o (mkConfig s h ts) (mkConfig s' (<[c := ph']> h) (new ++ ts))).
  { intros Hd Hp. destruct (before_registration _ _ _ _ _ _ _ Hp Hex) as (Hs & He & Hds & Hw).
    apply explained_outside; try done. intros c' Hc'. by eapply exec_handler_others. }
  destruct ph as [| | |code|d kp|d kp|kp|kp| | | | |]; try (by apply Hout; [apply Hph|]).
  - by eapply explained_register.
  - destruct Hph as [x Hx]. by eapply explained_establish.
  - destruct Hph as (x & Hx & _). by eapply explained_loop.
  - by eapply explained_teardown.
  - destruct Hph as (x & Hx & Ha). eapply explained_removal; eauto. by apply (Hdc x Hx).
  - destruct Hph as (x & Hx & Ha). eapply explained_closed; eauto; [by apply (Hdc x Hx)|].
    intros d Hd. destruct (inv_store _ _ Hi d c Hd) as (y & ph & _ & _ & Hh' & Hr). cbn in *.
    by simplify_eq.
  - cbn in Hex. simplify_eq. intros a Ha. exists a, []. split; [apply run_nil|]. split; [|done].
    pose proof (related_phase s h ts c PUntrack PDone a Ha Hh eq_refl) as Hr.
    by eapply related_same.
  - done.
Qed.

Lemma explained_env o x y : inv o x -> env_step x y -> explained o x y.
Proof.
  intros Hi He. revert Hi.
  destruct He as [s h ts c f Hn|s h ts d p _|s h ts d r _|s h ts|s h ts c kp _ _|s h ts c nc e Hn];
    intros Hi a Ha; exists a, []; (split; [apply run_nil|]); (split; [|done]).
  2-5: by eapply related_same.
  - assert (Hd : dcs s !! c = None).
    { apply eq_None_not_Some. intros [x Hx]. destruct (inv_dc _ _ Hi c x Hx) as (nc & Hnc & _).
      cbn in Hnc. congruence. }
    eapply related_same; [exact Ha|done| | |done]; intros c'; cbn;
      unfold abs_session, abs_peer; cbn; (destruct (decide (c' = c)) as [->|Hne];
        [by rewrite Hd|by rewrite !lookup_insert_ne by done]).
  - eapply related_same; [exact Ha|done| | |done]; intros c'; cbn;
      unfold abs_session, abs_peer; cbn; (destruct (decide (c' = c)) as [->|Hne];
        [by rewrite lookup_insert_eq, Hn|by rewrite !lookup_insert_ne by done]).
Qed.

Lemma explained_step o x y :
  inv o x -> ext o x -> sys_step o x y -> explained o x y /\ ext o y.
Proof.
  intros Hi Hx [Hs|Hs]; [|split; [by apply explained_env|by eapply ext_env]].
  revert Hi Hx. destruct Hs as [s h ts c ph s' ph' new Hh Hne Hex|s h pre t post s' new Hm Hex];
    intros Hi Hx.
  - split; [by eapply explained_handler|by eapply ext_handler].
  - split; [by eapply explained_task|by eapply ext_task].
Qed.

Lemma related_init : related init spec_init.
Proof.
  split; cbn; [done| | |done]; intros c; unfold abs_session, abs_peer; cbn; by rewrite !lookup_empty.
Qed.

Lemma refines_ext o x : reachable o x -> ext o x /\
  exists a, spec_run o spec_init (reverse (events (srv x))) a /\ related x a.
Proof.
  unfold reachable. revert x.
  apply (rtc_ind_r (fun y => ext o y /\ exists a,
    spec_run o spec_init (reverse (events (srv y))) a /\ related y a)).
  - split; [apply ext_init|]. exists spec_init. split; [apply run_nil|apply related_init].
  - intros y z Hr Hs [Hx (a & Ha & Hra)].
    destruct (explained_step o y z (inv_reachable _ _ Hr) Hx Hs) as [He Hz]. split; [done|].
    destruct (He a Hra) as (b & seen & Hb & Hrb & ->). exists b. split; [|done].
    rewrite reverse_app, reverse_involutive. by eapply spec_run_app.
Qed.

Lemma ext_reachable o x : reachable o x -> ext o x.
Proof. by intros [Hx _]%refines_ext. Qed.

Lemma refines o x : reachable o x ->
  exists a, spec_run o spec_init (reverse (events (srv x))) a /\ related x a.
Proof. by intros [_ Hr]%refines_ext. Qed.

(** C2: the server refines the packet-level specification, step by step: whatever the
    interleaving and the network, every single action of the server, its peers, the
    application or the network, from any state that a run reaches and from any
    specification state related to it, is explained by a run of the specification that
    shows exactly the callbacks and results of that action in the same order and ends
    in a state related again (it may have no step, or several: Close ends the
    connections it finds one after another); so every run of the server has a run of
    the specification with the same callbacks and results.  Related means: the
    directory is the store, the sessions are the registered connections with the
    packets still to be handled and the packets their peers were sent, and the mailbox
    holds the messages handed to goroutines that have not called the application yet. *)
Theorem server_refines (o : ServerOptions) (x : config) :
  reachable o x ->
  (exists a, spec_run o spec_init (reverse (events (srv x))) a /\ related x a) /\
  (forall y a, sys_step o x y -> related x a ->
     exists a' seen, spec_run o a seen a' /\ related y a' /\
       events (srv y) = reverse seen ++ events (srv x)).
Proof.
  intros Hr. split; [by apply refines|]. intros y a Hs Ha.
  destruct (explained_step o x y (inv_reachable _ _ Hr) (ext_reachable _ _ Hr) Hs) as [He _].
  by apply He.
Qed.

(** ** What the application is handed *)

(** The PUSH packets with a payload that the connections of a device sent. *)
Definition pushed_by (d : gostring) (payload : list Z) (s : server) : nat :=
  map_sum (fun c x => match nets s !! c with
                      | Some nc => of_device d (deviceID x) (pushes payload (packets (nc_all nc)))
                      | None => 0%nat
                      end) (dcs s).

Lemma deliveries_bounded o x d payload :
  reachable o x -> (count (is_delivery d payload) (events (srv x)) <= pushed_by d payload (srv x))%nat.
Proof.
  intros Hr. destruct (refines _ _ Hr) as (a & Ha & Hrel). pose proof (inv_reachable _ _ Hr) as Hi.
  pose proof (accounted_run d payload _ _ _ Ha) as Hacc. unfold accounted in Hacc.
  rewrite count_reverse in Hacc.
  enough (from_peers d payload (peers a) = pushed_by d payload (srv x)) by lia.
  apply map_sum_rel. intros c. rewrite (rel_peers _ _ Hrel). unfold abs_peer.
  destruct (dcs (srv x) !! c) as [y|] eqn:Hy; [|done]. cbn.
  destruct (inv_dc _ _ Hi c y Hy) as (nc & Hnc & _). by rewrite Hnc.
Qed.

(** The application is handed no message that was not sent and none twice:
    for every device and payload, the calls of the message handler so far are at
    most as many as the PUSH packets with that payload in the byte streams of
    the connections that authenticated as that device. *)
Theorem messages_not_forged (o : ServerOptions) (x : config) (d : gostring) (payload : list Z) :
  reachable o x ->
  (count (is_delivery d payload) (events (srv x)) <= pushed_by d payload (srv x))%nat.
Proof. apply deliveries_bounded. Qed.

(** ** Witnesses *)

(** The demo run, and one more step of it: the application is about to push. *)
Lemma server_refines_witness :
  (exists a, spec_run demo_options spec_init (reverse (events (srv demo))) a /\ related demo a) /\
  (exists y a, sys_step demo_options demo y /\ exists a' seen, spec_run demo_options a seen a' /\ related y a' /\
     events (srv y) = reverse seen ++ events (srv demo)).
Proof.
  destruct (server_refines demo_options demo demo_reachable) as [(a & Hrun & Ha) Hstep].
  split; [by exists a|].
  set (y := mkConfig (srv demo) (handlers demo) (TPush (go_bytes "dev-001") [] :: tasks demo)).
  assert (Hs : sys_step demo_options demo y) by (right; destruct demo; by apply env_push).
  exists y, a. split; [exact Hs|]. exact (Hstep y a Hs Ha).
Defined.

Lemma messages_not_forged_witness :
  events (srv demo) <> [] /\
  (count (is_delivery (go_bytes "dev-001") (Payload sample_push)) (events (srv demo)) <=
    pushed_by (go_bytes "dev-001") (Payload sample_push) (srv demo))%nat.
Proof.
  split; [vm_compute; discriminate|].
  exact (messages_not_forged demo_options demo (go_bytes "dev-001") (Payload sample_push) demo_reachable).
Defined.
