(* ===== verification/Wire.v ===== *)
(** * One network between two ends

    What one end of a connection can read is what the other end wrote, as far as it
    got.  Over the sequence of Write calls of a [netconn] this is enough to show
    that the packets one end reads are the first of those the other end sent
    completely, up to a frame that was cut short. *)

From Stdlib Require Import ZArith Lia.
From stdpp Require Import base list.
From S2P Require Import Prelude GoIO Codec CodecFacts Store Server ServerFacts ServerDrain.
From S2P Require Import ServerSpec.

Local Open Scope Z_scope.

(** ** Packets of a byte sequence that is written frame by frame *)

Lemma packets_frame cp rest e :
  packet_ok cp -> packets (Flat (frame cp ++ rest) e) = received cp :: packets (Flat rest e).
Proof.
  intros Hok. destruct (received_reads (R := flat) cp Hok (Flat (frame cp ++ rest) e) rest)
    as ([bs e'] & Hr & Hp & He); [done|].
  cbn in Hp, He. subst. by apply packets_read.
Qed.

Lemma packets_cut cp pre suf e :
  packet_ok cp -> pre ++ suf = frame cp -> suf <> [] -> packets (Flat pre e) = [].
Proof.
  intros Hok Hf Hs. destruct (frame_prefix_fails cp pre suf e Hok Hf Hs) as (x & Hx & _).
  apply packets_end. by rewrite Hx.
Qed.

(** ** What the peer may have received *)

(** Whether a Write call took a whole frame. *)
Definition whole (chunk : list Z) : bool :=
  match sent_packets chunk with [] => false | _ => true end.

(** The bytes up to the first frame that was cut short, the part of it that was
    sent included: after it the byte stream is no sequence of frames any more. *)
Fixpoint until_torn (chunks : list (list Z)) : list Z :=
  match chunks with
  | [] => []
  | chunk :: chunks => chunk ++ (if whole chunk then until_torn chunks else [])
  end.

(** The bytes [f] one end receives are carried from the other end's [nc]. *)
Definition carried (nc : netconn) (f : flat) : Prop := fl_bytes f `prefix_of` until_torn (nc_out nc).

(** Without a torn write this is everything. *)
Lemma until_torn_whole chunks : Forall frame_ok chunks -> until_torn chunks = concat chunks.
Proof.
  induction 1 as [|chunk chunks (cp & Hok & ->) _ IH]; [done|]. cbn.
  unfold whole. by rewrite sent_frame, IH by done.
Qed.

Lemma chunk_cases chunk :
  chunk_ok chunk ->
  (exists cp, packet_ok cp /\ chunk = frame cp) \/
  (whole chunk = false /\ sent_packets chunk = [] /\
     exists cp suf, packet_ok cp /\ chunk ++ suf = frame cp /\ suf <> []).
Proof.
  intros (cp & k & Hok & ->). destruct (decide (drop k (frame cp) = [])) as [Hd|Hd].
  - left. exists cp. split; [done|]. rewrite <- (take_drop k (frame cp)) at 2. by rewrite Hd, app_nil_r.
  - right. pose proof (packets_cut _ _ _ io_EOF Hok (take_drop k _) Hd) as Hp.
    unfold whole, sent_packets in *. rewrite Hp.
    do 2 (split; [done|]). exists cp, (drop k (frame cp)). auto using take_drop.
Qed.

(** A prefix of two pieces ends within the first one or goes beyond it. *)
Lemma prefix_of_app_cases {A} (l l1 l2 : list A) :
  l `prefix_of` l1 ++ l2 ->
  (exists suf, l ++ suf = l1 /\ suf <> []) \/ (exists l', l = l1 ++ l' /\ l' `prefix_of` l2).
Proof.
  intros [k Hk]. apply app_eq_inv in Hk as [(m & -> & ->)|(m & -> & Hm)].
  - destruct m as [|x m]; [right; exists []|left; by exists (x :: m)].
    split; [by rewrite !app_nil_r|apply prefix_nil].
  - right. exists m. split; [done|]. rewrite Hm. by apply prefix_app_r.
Qed.

Lemma carried_packets chunks bs e :
  Forall chunk_ok chunks -> bs `prefix_of` until_torn chunks ->
  packets (Flat bs e) `prefix_of` concat (sent_packets <$> chunks).
Proof.
  intros Hc. revert bs. induction Hc as [|chunk chunks Hc _ IH]; intros bs Hb; cbn [until_torn] in Hb;
    rewrite ?fmap_cons; cbn [concat].
  { apply prefix_nil_inv in Hb as ->. apply prefix_nil. }
  destruct (chunk_cases chunk Hc) as [(cp & Hok & ->)|(Hw & Hs & cp & suf & Hok & Hf & Hne)].
  - unfold whole in Hb. rewrite (sent_frame cp Hok) in Hb |- *.
    destruct (prefix_of_app_cases _ _ _ Hb) as [(suf & Hf & Hne)|(rest & -> & Hrest)].
    + rewrite (packets_cut cp bs suf e) by done. apply prefix_nil.
    + rewrite packets_frame by done. cbn. by apply prefix_cons, IH.
  - rewrite Hw, app_nil_r in Hb. destruct Hb as [k ->].
    rewrite (packets_cut cp bs (k ++ suf) e); [apply prefix_nil|done|by rewrite app_assoc|].
    by intros [_ ?]%app_eq_nil.
Qed.

(** The packets one end reads are the first of those the other end sent. *)
Lemma carried_outbox nc f :
  Forall chunk_ok (nc_out nc) -> carried nc f -> packets f `prefix_of` outbox nc.
Proof. destruct f as [bs e]. by apply carried_packets. Qed.

(** All of it, when nothing was cut short on the way. *)
Definition carried_whole (nc : netconn) (f : flat) : Prop :=
  Forall frame_ok (nc_out nc) /\ fl_bytes f = concat (nc_out nc).

Lemma carried_whole_carried nc f : carried_whole nc f -> carried nc f.
Proof. intros [Hok Hf]. unfold carried. by rewrite Hf, until_torn_whole. Qed.

Lemma frames_packets chunks e :
  Forall frame_ok chunks -> packets (Flat (concat chunks) e) = concat (sent_packets <$> chunks).
Proof.
  induction 1 as [|chunk chunks (cp & Hok & ->) _ IH].
  - apply packets_end. cbn [concat]. intros cp. by rewrite ReadPacket_nil.
  - rewrite fmap_cons. cbn [concat]. by rewrite packets_frame, IH, sent_frame.
Qed.

(** Then one end reads exactly what the other end sent. *)
Lemma carried_whole_outbox nc f : carried_whole nc f -> packets f = outbox nc.
Proof. destruct f as [bs e]. intros [Hok Hf]. cbn in Hf. subst bs. by apply frames_packets. Qed.

(** ** Messages *)

(** The message a packet carries. *)
Definition message_of (cp : ControlPacket) : list (list Z) :=
  match cp with PPush p => [Payload p] | _ => [] end.

(** The payloads of the PUSH packets in a list of packets. *)
Definition push_payloads (l : list ControlPacket) : list (list Z) := concat (message_of <$> l).

Lemma push_payloads_cons cp l : push_payloads (cp :: l) = message_of cp ++ push_payloads l.
Proof. done. Qed.

(** The PUSH messages among what a sequence of Write calls sent completely. *)
Definition pushed (chunks : list (list Z)) : list (list Z) :=
  push_payloads (concat (sent_packets <$> chunks)).

Lemma push_payloads_app l1 l2 : push_payloads (l1 ++ l2) = push_payloads l1 ++ push_payloads l2.
Proof. unfold push_payloads. by rewrite fmap_app, concat_app. Qed.

Lemma pushed_app l1 l2 : pushed (l1 ++ l2) = pushed l1 ++ pushed l2.
Proof. unfold pushed. by rewrite fmap_app, concat_app, push_payloads_app. Qed.

Lemma push_payloads_prefix l1 l2 : l1 `prefix_of` l2 -> push_payloads l1 `prefix_of` push_payloads l2.
Proof. intros [k ->]. rewrite push_payloads_app. by apply prefix_app_r. Qed.

Lemma Packet_Write_chunks cp nc :
  packet_ok cp -> exists l,
    nc_out (snd (Packet_Write cp nc)) = nc_out nc ++ l /\ Forall chunk_ok l /\
    (pushed l = [] \/ pushed l = message_of (received cp)) /\
    (snd (fst (Packet_Write cp nc)) = None -> pushed l = message_of (received cp)).
Proof.
  intros Hok. destruct (Packet_Write_net cp nc) as [cp' ->]. unfold pushed.
  assert (Hwhole : forall x, sent_packets x = [received cp] ->
    push_payloads (concat (sent_packets <$> [x])) = message_of (received cp)).
  { intros x Hx. rewrite fmap_cons. cbn [concat fmap list_fmap]. rewrite Hx. cbn [app].
    rewrite push_payloads_cons. by rewrite app_nil_r. }
  destruct (nc_closed nc); [by exists []; rewrite app_nil_r; repeat split; auto|].
  destruct (nc_fault nc) as [[k e]|]; cbn [fst snd nc_out wrote].
  - exists [take k (frame cp)]. split; [done|]. split; [repeat constructor; by exists cp, k|].
    split; [|done]. destruct (sent_cut cp k Hok) as [Hs|Hs]; [left|right; by apply Hwhole].
    rewrite fmap_cons. cbn [concat fmap list_fmap]. by rewrite Hs.
  - exists [frame cp]. split; [done|].
    split; [repeat constructor; apply frame_chunk; by exists cp|].
    assert (Hx : sent_packets (frame cp) = [received cp]) by by apply sent_frame.
    split; [right|intros _]; by apply Hwhole.
Qed.
