(* ===== verification/ServerCalls.v ===== *)
(** * Server: what devices are sent is what the application pushed

    Runs of the server with the calls of Push that the application has made, and
    the accounting of the PUSH packets on the connections of a device against the
    calls for that device. *)

From Stdlib Require Import ZArith Lia String.
From stdpp Require Import base list strings gmap numbers relations.
From S2P Require Import Prelude GoIO Codec CodecFacts Store Server ServerFacts ServerDrain.
From S2P Require Import ServerProps ServerSpec ServerRefine Wire.

Local Open Scope Z_scope.

(** ** Runs with the calls of Push *)

(** A step of the environment that is not a call of Push. *)
Definition no_call (x y : config) : Prop :=
  env_step x y /\ forall d payload, tasks y <> TPush d payload :: tasks x.

(** [calls o hist x]: some run reaches [x] in which the application called Push for
    the devices and payloads [hist], newest first. *)
Inductive calls (o : ServerOptions) : list (gostring * list Z) -> config -> Prop :=
| calls_init : calls o [] init
| calls_push hist s h ts d payload :
    calls o hist (mkConfig s h ts) -> Z.of_nat (length payload) < 2 ^ 28 - 1 ->
    calls o ((d, payload) :: hist) (mkConfig s h (TPush d payload :: ts))
| calls_run hist x y : calls o hist x -> run_step o x y -> calls o hist y
| calls_env hist x y : calls o hist x -> no_call x y -> calls o hist y.

Lemma calls_reachable o hist x : calls o hist x -> reachable o x.
Proof.
  induction 1 as [|hist s h ts d p _ IH Hp|hist x y _ IH Hs|hist x y _ IH [Hs _]]; [apply rtc_refl|..];
    (eapply rtc_r; [exact IH|]); [right; by constructor|by left|by right].
Qed.

(** Every run has such a history. *)
Lemma reachable_calls o x : reachable o x -> exists hist, calls o hist x.
Proof.
  unfold reachable. revert x. apply (rtc_ind_r (fun x => exists hist, calls o hist x)).
  - exists []. constructor.
  - intros x y _ [Hs|Hs] [hist Hc]; [exists hist; by eapply calls_run|]. revert Hc.
    destruct Hs as [s h ts c f Hn|s h ts d p Hp|s h ts d r Hr|s h ts|s h ts c kp Hh Hk|s h ts c nc e Hn];
      intros Hc; [|exists ((d, p) :: hist); by constructor|..]; exists hist;
      (eapply calls_env; [exact Hc|split; [by econstructor|intros ? ? Ht; cbn in Ht]]);
      try done; by apply (f_equal length) in Ht; cbn in Ht; lia.
Qed.

(** ** The PUSH packets sent to a device *)

Section sent.
Context (d : gostring) (payload : list Z).

Definition occurrences (l : list (list Z)) : nat :=
  length (List.filter (fun p => bool_decide (p = payload)) l).

Definition sent_on_net (nc : netconn) : nat := occurrences (pushed (nc_out nc)).

(** The PUSH packets with the payload on the connections of the device. *)
Definition sent_conn (s : server) (c : connid) (x : deviceConnection) : nat :=
  match nets s !! c with
  | Some nc => of_device d (deviceID x) (sent_on_net nc)
  | None => 0
  end.

Definition sent_to (s : server) : nat := map_sum (sent_conn s) (dcs s).

Definition sent_on (s : server) (c : connid) : nat := from_option (sent_conn s c) 0%nat (dcs s !! c).

(** Calls of Push that have not written yet. *)
Definition is_pending (t : task) : bool :=
  match t with
  | TPush d' p | TPushWrite _ d' p => bool_decide (d' = d /\ p = payload)
  | _ => false
  end.

Definition pending_pushes (ts : list task) : nat := length (List.filter is_pending ts).

(** An action that sends the device nothing. *)
Definition no_more (s s' : server) : Prop := forall c, (sent_on s' c <= sent_on s c)%nat.

#[local] Instance no_more_preorder : PreOrder no_more.
Proof. split; [by intros s c|]. intros s1 s2 s3 H1 H2 c. etransitivity; eauto. Qed.

Lemma occurrences_app l1 l2 : occurrences (l1 ++ l2) = (occurrences l1 + occurrences l2)%nat.
Proof. unfold occurrences. by rewrite List.filter_app, length_app. Qed.

Lemma pending_app l1 l2 : pending_pushes (l1 ++ l2) = (pending_pushes l1 + pending_pushes l2)%nat.
Proof. unfold pending_pushes. by rewrite List.filter_app, length_app. Qed.

Lemma no_more_same s s' : dcs s' = dcs s -> nets s' = nets s -> no_more s s'.
Proof. intros Hd Hn c. unfold sent_on, sent_conn. by rewrite Hd, Hn. Qed.

(** One connection and its device change. *)
Lemma no_more_one s s' c :
  (forall c', c' <> c -> nets s' !! c' = nets s !! c' /\ dcs s' !! c' = dcs s !! c') ->
  (sent_on s' c <= sent_on s c)%nat -> no_more s s'.
Proof.
  intros Ho Hc c'. destruct (decide (c' = c)) as [->|Hne]; [done|].
  unfold sent_on, sent_conn. by destruct (Ho c' Hne) as [-> ->].
Qed.

Lemma no_more_net s c nc nc' :
  nets s !! c = Some nc -> (sent_on_net nc' <= sent_on_net nc)%nat -> no_more s (set_net c nc' s).
Proof.
  intros Hn Hle. apply (no_more_one _ _ c).
  - intros c' Hne. cbn. by rewrite lookup_insert_ne.
  - unfold sent_on, sent_conn. cbn. rewrite lookup_insert_eq, Hn.
    destruct (dcs s !! c); cbn; [|done]. unfold of_device. by case_decide.
Qed.

Lemma sent_on_net_same nc nc' : nc_out nc' = nc_out nc -> sent_on_net nc' = sent_on_net nc.
Proof. intros Ho. unfold sent_on_net. by rewrite Ho. Qed.

Lemma received_message cp : message_of (received cp) = message_of cp.
Proof. by destruct cp. Qed.

(** What one write adds: at most the message of the packet. *)
Lemma sent_on_write cp nc :
  packet_ok cp ->
  (sent_on_net (snd (Packet_Write cp nc)) <= sent_on_net nc + occurrences (message_of cp))%nat.
Proof.
  intros Hok. destruct (Packet_Write_chunks cp nc Hok) as (l & Hl & _ & Hp & _).
  unfold sent_on_net. rewrite Hl, pushed_app, occurrences_app.
  destruct Hp as [-> | ->]; [cbn; lia|by rewrite received_message].
Qed.

Lemma no_more_write cp c s :
  packet_ok cp -> message_of cp = [] -> no_more s (snd (write_packet cp c s)).
Proof.
  intros Hok Hm. unfold write_packet. destruct (nets s !! c) as [nc|] eqn:Hn; [|done].
  pose proof (sent_on_write cp nc Hok) as Hle. rewrite Hm, Nat.add_0_r in Hle.
  destruct (Packet_Write cp nc) as [[? e] nc']. by eapply no_more_net.
Qed.

Lemma no_more_conn_Close c s : no_more s (conn_Close c s).
Proof.
  unfold conn_Close. destruct (nets s !! c) as [nc|] eqn:Hn; [|done].
  eapply no_more_net; [exact Hn|]. by rewrite (sent_on_net_same nc).
Qed.

Lemma no_more_dc_Close c s : no_more s (dc_Close c s).
Proof.
  unfold dc_Close. destruct (dcs s !! c) as [x|] eqn:Hx; [|done]. destruct (active x); [|done].
  etransitivity; [|apply no_more_conn_Close]. apply (no_more_one _ _ c).
  - intros c' Hne. cbn. by rewrite lookup_insert_ne.
  - unfold sent_on, sent_conn. cbn. by rewrite lookup_insert_eq, Hx.
Qed.

Lemma no_more_SendDisconnect c r s : byte_ok r -> no_more s (SendDisconnect c r s).
Proof. intros Hr. unfold SendDisconnect. destruct (IsActive c s); [|done]. by apply no_more_write. Qed.

Lemma no_more_close_all (cs : gset connid) s : no_more s (set_fold conn_Close s cs).
Proof.
  apply (set_fold_ind_L (fun s' _ => no_more s s')); [done|]. intros c X s' _ Hs.
  etransitivity; [exact Hs|apply no_more_conn_Close].
Qed.

Lemma no_more_read c nc s : nets s !! c = Some nc -> no_more s (set_net c (snd (ReadPacket nc)) s).
Proof.
  intros Hn. eapply no_more_net; [exact Hn|]. rewrite (sent_on_net_same nc); [done|].
  by rewrite (proj1 (keeps_ReadPacket nc)).
Qed.

(** ** No action but the write of Push sends a message *)

Lemma no_more_le s s' : no_more s s' -> (sent_to s' <= sent_to s)%nat.
Proof.
  intros Hs. apply (map_sum_bump _ _ _ _ 0%nat 0). intros c. specialize (Hs c). unfold sent_on in Hs.
  by case_decide.
Qed.

Lemma task_sent_other t s s' new :
  task_ok s t -> exec_task t s = (s', new) -> (forall c d' p, t <> TPushWrite c d' p) ->
  no_more s s' /\ (pending_pushes new <= pending_pushes [t])%nat.
Proof.
  intros Hok Hex Hne.
  destruct t as [p|p|p|p|d' pl|d' pl|p d' pl|d' r|p d' r|p d' r|p d' r|d' r| |[|p ps]|p ps| |];
    cbn in Hex; simplify_eq; try (by split; [apply no_more_same|cbn; lia]);
    try (split; [|cbn; lia]); auto using no_more_SendDisconnect, no_more_dc_Close, no_more_close_all.
  - apply no_more_SendDisconnect. by apply byte_small.
  - apply no_more_SendDisconnect. by apply byte_small.
  - destruct (Get (store s) d'); [destruct (IsActive _ s)|]; simplify_eq;
      (split; [by apply no_more_same|]); cbn; try done; unfold pending_pushes; cbn; case_match; cbn; lia.
  - by edestruct Hne.
  - destruct (Get (store s) d'); [destruct (IsActive _ s)|]; simplify_eq;
      (split; [by apply no_more_same|cbn; lia]).
  - apply no_more_SendDisconnect. apply Hok.
  - apply no_more_SendDisconnect. by apply byte_small.
Qed.

(** The write of Push sends its message once, to a connection of its device. *)
Lemma task_sent_push c d' p s s' new :
  task_ok s (TPushWrite c d' p) -> task_ext s (TPushWrite c d' p) ->
  exec_task (TPushWrite c d' p) s = (s', new) ->
  (sent_to s' <= pending_pushes [TPushWrite c d' p] + sent_to s)%nat /\ new = [].
Proof.
  intros [_ Hp] (x & Hx & Hid) Hex. cbn in Hex. unfold dc_Write in Hex.
  destruct (IsActive c s); [|simplify_eq; split; [apply Nat.le_trans with (sent_to s); [done|lia]|done]].
  unfold write_packet in Hex. destruct (nets s !! c) as [nc|] eqn:Hn.
  2: { simplify_eq. split; [apply Nat.le_trans with (sent_to s); [done|lia]|done]. }
  pose proof (sent_on_write (new_push p) nc ltac:(by split)) as Hle.
  destruct (Packet_Write (new_push p) nc) as [[? e] nc']. cbn in Hle. simplify_eq. split; [|done].
  apply (map_sum_bump _ _ _ _ c). intros c'. cbn. destruct (decide (c' = c)) as [->|Hc].
  - rewrite Hx. unfold sent_conn. cbn. rewrite lookup_insert_eq, Hn. unfold pending_pushes, of_device. cbn.
    unfold occurrences in Hle. cbn in Hle. repeat case_bool_decide; repeat case_decide; cbn in *; naive_solver lia.
  - destruct (dcs s !! c') as [y|]; [|done]. cbn. unfold sent_conn. cbn. by rewrite lookup_insert_ne.
Qed.

Lemma register_sent o s c d' kp nc :
  nets s !! c = Some nc -> phase_ext o nc (PRegister d' kp) ->
  no_more s (newDeviceConnection c d' s).
Proof.
  intros Hn [_ Ho]. apply (no_more_one _ _ c).
  - intros c' Hne. cbn. by rewrite lookup_insert_ne.
  - unfold sent_on, sent_conn. cbn. rewrite lookup_insert_eq. cbn. rewrite Hn.
    assert (Hs : sent_on_net nc = 0%nat).
    { unfold sent_on_net, pushed. rewrite Ho, fmap_cons. cbn [concat fmap list_fmap].
      rewrite sent_frame; [done|]. apply connack_ok; [done|apply u16_range]. }
    unfold of_device. rewrite Hs. case_decide; lia.
Qed.

Lemma loop_sent o c kp read s :
  no_more s (loop_step o c kp read s).1.1 /\ pending_pushes (loop_step o c kp read s).2 = 0%nat.
Proof.
  assert (H1 : no_more s (snd (write_packet (new_disconnect DiscProtocolViolation) c s)))
    by (by apply no_more_write).
  assert (H2 : no_more s (snd (write_packet new_pingresp c s))) by (by apply no_more_write).
  destruct read as [[]|e|]; cbn; repeat case_match; by split.
Qed.

Lemma handler_sent o s h ts c ph s' ph' new :
  inv o (mkConfig s h ts) -> ext o (mkConfig s h ts) -> h !! c = Some ph ->
  exec_handler o c ph s = (s', ph', new) -> no_more s s' /\ pending_pushes new = 0%nat.
Proof.
  intros Hi Hx Hh Hex. destruct (inv_at _ _ _ _ _ _ Hi Hh) as (nc & Hnc & Hph & _).
  pose proof (ext_phase _ _ Hx c ph nc Hh Hnc) as Hpe. pose proof (no_more_read c nc s Hnc) as Hrd.
  destruct ph as [| | |code|d' kp|d' kp|kp|kp| | | | |]; cbn in Hex;
    try (simplify_eq; split; [by apply no_more_same|done]).
  - rewrite Hnc in Hex. destruct (ReadPacket nc) as [first nc'].
    destruct (hello_decision o first); simplify_eq; (split; [|done]); [|exact Hrd..].
    etransitivity; [exact Hrd|apply no_more_conn_Close].
  - simplify_eq. split; [|done]. destruct Hph as (_ & _ & Hcode & _).
    etransitivity; [|apply no_more_conn_Close]. apply no_more_write; [|done]. by apply connack_ok.
  - pose proof (no_more_write (new_connack Accepted (u16 kp)) c s) as Hw.
    specialize (Hw (connack_ok Accepted (u16 kp) ltac:(done) (u16_range kp)) eq_refl).
    destruct (write_packet _ c s) as [[e|] s1]; simplify_eq; (split; [|done]); [|done].
    etransitivity; [exact Hw|apply no_more_conn_Close].
  - pose proof (register_sent o s c d' kp nc Hnc Hpe) as Hr.
    simplify_eq. split; [|by destruct (store s !! d')].
    etransitivity; [exact Hr|by apply no_more_same].
  - rewrite Hnc in Hex. destruct (ReadPacket nc) as [read nc'].
    destruct (loop_sent o c kp read (set_net c nc' s)) as [Hl Hp]. rewrite Hex in Hl, Hp.
    split; [|done]. etransitivity; [exact Hrd|exact Hl].
  - simplify_eq. split; [apply no_more_dc_Close|done].
Qed.

(** ** The invariant *)

#[local] Arguments pending_pushes : simpl never.
#[local] Arguments in_mailbox : simpl never.
#[local] Arguments sent_to : simpl never.

Definition covered (hist : list (gostring * list Z)) (x : config) : Prop :=
  (sent_to (srv x) + pending_pushes (tasks x) <= in_mailbox d payload hist)%nat.

Lemma pending_swap pre t new post :
  pending_pushes (pre ++ new ++ post) =
    (pending_pushes (pre ++ post) + pending_pushes new)%nat /\
  pending_pushes (pre ++ t :: post) = (pending_pushes (pre ++ post) + pending_pushes [t])%nat.
Proof. change (t :: post) with ([t] ++ post). rewrite !pending_app. lia. Qed.

Lemma covered_run o hist x y :
  inv o x -> ext o x -> covered hist x -> run_step o x y -> covered hist y.
Proof.
  intros Hi Hx Hc Hs. unfold covered in *. revert Hi Hx Hc.
  destruct Hs as [s h ts c ph s' ph' new Hh _ Hex|s h pre t post s' new _ Hex]; intros Hi Hx Hc; cbn in *.
  - destruct (handler_sent o s h ts c ph s' ph' new Hi Hx Hh Hex) as [Hm%no_more_le Hp].
    rewrite pending_app. lia.
  - pose proof (task_at _ _ _ _ _ _ Hi) as Hok. pose proof (ext_tasks _ _ Hx) as Ht. cbn in Ht.
    apply Forall_app in Ht as [_ [Ht _]%Forall_cons_1]. destruct (pending_swap pre t new post) as [E1 E2].
    rewrite E1. rewrite E2 in Hc.
    assert (Hcase : (exists c d' p, t = TPushWrite c d' p) \/ forall c d' p, t <> TPushWrite c d' p)
      by (destruct t; (by left; eauto) || by right).
    destruct Hcase as [(c & d' & p & ->)|Hne].
    + destruct (task_sent_push c d' p s s' new Hok Ht Hex) as [Hle ->]. change (pending_pushes []) with 0%nat. lia.
    + destruct (task_sent_other t s s' new Hok Hex Hne) as [Hm%no_more_le Hp]. lia.
Qed.

Lemma covered_env o hist x y : inv o x -> covered hist x -> no_call x y -> covered hist y.
Proof.
  intros Hi Hc [Hs Hn]. unfold covered in *. revert Hi Hc Hn.
  destruct Hs as [s h ts c f Hnone|s h ts d' p Hp|s h ts d' r Hr|s h ts|s h ts c kp Hh Hk|s h ts c nc e Hnc];
    intros Hi Hc Hn; cbn in *; try done.
  - assert (Hd : dcs s !! c = None).
    { apply eq_None_not_Some. intros [x Hx]. destruct (inv_dc _ _ Hi c x Hx) as (nc & Hnc & _).
      cbn in Hnc. congruence. }
    assert (Hm : no_more s (set_net c (mkNet f f [] false None false) s)).
    { apply (no_more_one _ _ c); [intros c' Hne; cbn; by rewrite lookup_insert_ne|].
      unfold sent_on. cbn. by rewrite Hd. }
    apply no_more_le in Hm. lia.
  - by edestruct Hn.
  - assert (Hm : no_more s (set_net c (set_fault e nc) s)) by (by eapply no_more_net).
    apply no_more_le in Hm. lia.
Qed.

Lemma calls_covered o hist x : calls o hist x -> covered hist x.
Proof.
  induction 1 as [|hist s h ts d' p Hr IH Hp|hist x y Hr IH Hs|hist x y Hr IH Hs].
  - by apply Nat.le_0_l.
  - unfold covered in *. cbn in *. rewrite in_mailbox_cons.
    change (TPush d' p :: ts) with ([TPush d' p] ++ ts). rewrite pending_app.
    assert (Hq : pending_pushes [TPush d' p] = of_device d d' (if decide (p = payload) then 1 else 0)).
    { unfold pending_pushes, of_device. cbn. by repeat case_bool_decide; repeat case_decide; naive_solver. }
    lia.
  - apply calls_reachable in Hr. eapply covered_run; [by apply inv_reachable|by apply (ext_reachable o)|done..].
  - apply calls_reachable in Hr. eapply covered_env; [by apply inv_reachable|done..].
Qed.

End sent.

(** ** Executable schedules with their calls *)

Definition asked (a : action) : list (gostring * list Z) :=
  match a with CallPush d payload => [(d, payload)] | _ => [] end.

Lemma no_call_intro x y :
  env_step x y -> tasks y = tasks x \/ (exists t, tasks y = t :: tasks x /\ forall d p, t <> TPush d p) ->
  no_call x y.
Proof.
  intros Hs Ht. split; [done|]. intros d p Hy. rewrite Hy in Ht.
  destruct Ht as [Ht|(t & Ht & Hne)]; [|naive_solver].
  apply (f_equal length) in Ht. cbn in Ht. lia.
Qed.

Lemma act_moves o a x y :
  act o a x = Some y -> asked a = [] -> run_step o x y \/ no_call x y.
Proof.
  intros Ha Hn. pose proof (act_kind _ _ _ _ Ha) as Hk.
  destruct x as [s h ts], a as [c f|d p|d r| |c|c e|c|i]; cbn in Ha, Hn; try done; try (by left); right;
    (apply no_call_intro; [done|]).
  - destruct (nets s !! c); simplify_eq. by left.
  - destruct ((0 <=? r) && (r <? 256)); simplify_eq. right. eauto.
  - simplify_eq. right. eauto.
  - destruct (h !! c) as [[]|]; simplify_eq. destruct (keepaliveTimer serverKp); simplify_eq. right. eauto.
  - destruct (nets s !! c); simplify_eq. by left.
Qed.

Lemma act_calls o hist a x y : calls o hist x -> act o a x = Some y -> calls o (asked a ++ hist) y.
Proof.
  intros Hc Ha. destruct (decide (asked a = [])) as [Hn|Hn].
  - rewrite Hn. destruct (act_moves o a x y Ha Hn); [by eapply calls_run|by eapply calls_env].
  - destruct x as [s h ts], a; cbn in *; try done.
    destruct (Z.ltb_spec (Z.of_nat (length payload)) (2 ^ 28 - 1)); simplify_eq. by constructor.
Qed.

Lemma schedule_calls o acts hist x y :
  calls o hist x -> schedule o acts x = Some y ->
  calls o (concat (asked <$> reverse acts) ++ hist) y.
Proof.
  revert hist x. induction acts as [|a acts IH]; cbn [schedule]; intros hist x Hc Hy; [by simplify_eq|].
  destruct (act o a x) as [z|] eqn:Ha; [|done].
  rewrite reverse_cons, fmap_app, concat_app, <- app_assoc. cbn. rewrite app_nil_r.
  apply (IH (asked a ++ hist) z); [by eapply act_calls|done].
Qed.
