(* ===== verification/ServerPushes.v ===== *)
(** * Server: no call of Push is lost

    The other half of [ServerCalls]: every call of Push has been answered with an
    error, is still to be answered, or put its PUSH packet on a connection of its
    device. *)

From Stdlib Require Import ZArith Lia String.
From stdpp Require Import base list strings gmap numbers relations.
From S2P Require Import Prelude GoIO Codec CodecFacts Store Server ServerFacts ServerDrain.
From S2P Require Import ServerProps ServerSpec ServerRefine Wire ServerCalls.

Local Open Scope Z_scope.

Section kept.
Context (d : gostring) (payload : list Z).

#[local] Notation sent_on := (sent_on d payload).
#[local] Notation sent_to := (sent_to d payload).
#[local] Notation pending := (pending_pushes d payload).

Definition is_failed_push (e : event) : bool :=
  match e with PushResult d' (Some _) => bool_decide (d' = d) | _ => false end.

Definition failed_pushes (s : server) : nat := count is_failed_push (events s).

(** ** Nothing written is taken back *)

Definition no_less (s s' : server) : Prop := forall c, (sent_on s c <= sent_on s' c)%nat.

Lemma no_less_le s s' : no_less s s' -> (sent_to s <= sent_to s')%nat.
Proof.
  intros Hs. apply (map_sum_bump _ _ _ _ 0%nat 0). intros c. specialize (Hs c).
  unfold ServerCalls.sent_on in Hs. by case_decide.
Qed.

Lemma sent_on_net_grows nc nc' l :
  nc_out nc' = nc_out nc ++ l -> (sent_on_net payload nc <= sent_on_net payload nc')%nat.
Proof. intros Ho. unfold sent_on_net. rewrite Ho, pushed_app, occurrences_app. lia. Qed.

Lemma sent_on_none s c : dcs s !! c = None -> sent_on s c = 0%nat.
Proof. intros Hd. unfold ServerCalls.sent_on. by rewrite Hd. Qed.

Lemma sent_on_some s c y nc :
  dcs s !! c = Some y -> nets s !! c = Some nc ->
  sent_on s c = of_device d (deviceID y) (sent_on_net payload nc).
Proof. intros Hy Hnc. unfold ServerCalls.sent_on, sent_conn. rewrite Hy. cbn. by rewrite Hnc. Qed.

Lemma sent_on_evolves s s' c : conn_evolves s s' c -> (sent_on s c <= sent_on s' c)%nat.
Proof.
  unfold conn_evolves. destruct (dcs s !! c) as [y|] eqn:Hy; [|rewrite (sent_on_none s) by done; lia].
  destruct (nets s !! c) as [nc|] eqn:Hnc.
  - intros (nc' & y' & Hnc' & Hy' & (_ & _ & _ & _ & l & Ho & _) & Hid & _).
    rewrite (sent_on_some s c y nc), (sent_on_some s' c y' nc'), Hid by done.
    pose proof (sent_on_net_grows _ _ _ Ho). unfold of_device. case_decide; lia.
  - intros _. unfold ServerCalls.sent_on, sent_conn. rewrite Hy. cbn. rewrite Hnc. lia.
Qed.

Lemma handler_no_less o s h ts c ph s' ph' new :
  inv o (mkConfig s h ts) -> h !! c = Some ph -> exec_handler o c ph s = (s', ph', new) -> no_less s s'.
Proof.
  intros Hi Hh Hex c'. destruct (decide (c' = c)) as [->|Hne].
  2: { destruct (exec_handler_others _ _ _ _ _ _ _ c' Hex Hne) as [Hn Hd].
       unfold ServerCalls.sent_on, sent_conn. by rewrite Hn, Hd. }
  destruct (inv_at _ _ _ _ _ _ Hi Hh) as (nc & Hnc & Hph & _).
  assert (Hz : dcs s !! c = None -> (sent_on s c <= sent_on s' c)%nat)
    by (intros Hd; rewrite (sent_on_none s) by done; lia).
  destruct ph as [| | |code|d' kp|d' kp|kp|kp| | | | |]; try (by apply Hz, Hph); cbn in Hex;
    try (simplify_eq; done).
  - rewrite Hnc in Hex. pose proof (keeps_ReadPacket nc) as Hk. destruct (ReadPacket nc) as [read nc1].
    cbn in Hk. destruct Hph as (y & Hy & _).
    assert (E : sent_on (set_net c nc1 s) c = sent_on s c).
    { rewrite (sent_on_some s c y nc), (sent_on_some _ c y nc1) by (done || apply lookup_set_net).
      unfold sent_on_net. by rewrite (proj1 Hk). }
    rewrite <- E.
    assert (Hw : forall cp, packet_ok cp ->
      (sent_on (set_net c nc1 s) c <= sent_on (snd (write_packet cp c (set_net c nc1 s))) c)%nat)
      by (intros cp Hok; apply sent_on_evolves, write_packet_evolves; [done|by exists y]).
    destruct read as [[]|err|]; cbn in Hex; try case_match; simplify_eq; by first [apply Hw|done].
  - simplify_eq. apply sent_on_evolves, dc_Close_evolves.
Qed.

(** ** The write of Push *)

Lemma new_push_sent p nc nc' :
  Z.of_nat (length p) < 2 ^ 28 - 1 -> nc_out nc' = nc_out nc ++ [frame (new_push p)] ->
  sent_on_net payload nc' = (sent_on_net payload nc + if decide (p = payload) then 1 else 0)%nat.
Proof.
  intros Hp Ho. unfold sent_on_net. rewrite Ho, pushed_app, occurrences_app. f_equal.
  unfold pushed. cbn [fmap list_fmap concat]. rewrite sent_frame by (by split). cbn.
  unfold occurrences. cbn. rewrite bool_decide_decide. by case_decide.
Qed.

(** One connection's output grows by a PUSH packet. *)
Lemma sent_to_push s c y nc nc' p :
  dcs s !! c = Some y -> nets s !! c = Some nc -> Z.of_nat (length p) < 2 ^ 28 - 1 ->
  nc_out nc' = nc_out nc ++ [frame (new_push p)] ->
  sent_to (set_net c nc' s) = (sent_to s + pending [TPushWrite c (deviceID y) p])%nat.
Proof.
  intros Hy Hnc Hp Ho. unfold ServerCalls.sent_to. cbn [set_net dcs]. rewrite !(map_sum_lookup _ _ c y Hy).
  rewrite (map_sum_ext _ (sent_conn d payload s) (delete c (dcs s))).
  - unfold sent_conn, pending_pushes. cbn. rewrite lookup_insert_eq, Hnc, (new_push_sent p nc nc' Hp Ho).
    unfold of_device. rewrite bool_decide_decide. repeat case_decide; cbn; try lia; naive_solver.
  - intros c' y' Hc'. unfold sent_conn. cbn. rewrite lookup_insert_ne; [done|].
    intros ->. by rewrite lookup_delete_eq in Hc'.
Qed.

(** A call that is answered with an error is counted. *)
Lemma failed_counted s d' p c e :
  (pending [TPushWrite c d' p] + failed_pushes s <= failed_pushes (log (PushResult d' (Some e)) s))%nat.
Proof.
  unfold failed_pushes, pending_pushes, count. cbn. repeat case_bool_decide; cbn; try lia. naive_solver.
Qed.

Lemma pending_call c d' p : pending [TPush d' p] = pending [TPushWrite c d' p].
Proof. unfold pending_pushes. cbn. by case_bool_decide. Qed.

Lemma failed_grow e s : (failed_pushes s <= failed_pushes (log e s))%nat.
Proof. unfold failed_pushes, count. cbn. destruct (is_failed_push e); cbn; lia. Qed.

Lemma push_write_kept s c d' p s' new :
  task_ok s (TPushWrite c d' p) -> task_ext s (TPushWrite c d' p) ->
  exec_task (TPushWrite c d' p) s = (s', new) ->
  (pending [TPushWrite c d' p] + sent_to s + failed_pushes s <= sent_to s' + failed_pushes s')%nat.
Proof.
  intros [_ Hp] (y & Hy & Hid) Hex. subst d'. cbn in Hex.
  pose proof (no_less_le s _ (fun c' => sent_on_evolves _ _ c' (dc_Write_evolves c p s c' Hp))) as Hge.
  pose proof (proj2 (proj2 (dc_Write_tables c p s))) as Hev.
  destruct (dc_Write c p s) as [e s1] eqn:Hw. cbn [snd] in Hge, Hev. simplify_eq.
  change (sent_to (log (PushResult (deviceID y) e) s1)) with (sent_to s1).
  assert (Hf : failed_pushes s = failed_pushes s1) by (unfold failed_pushes; by rewrite Hev).
  rewrite Hf. destruct e as [e|].
  - pose proof (failed_counted s1 (deviceID y) p c e). lia.
  - pose proof (failed_grow (PushResult (deviceID y) None) s1).
    unfold dc_Write in Hw. destruct (IsActive c s); [|done]. unfold write_packet in Hw.
    destruct (nets s !! c) as [nc|] eqn:Hnc; [|done].
    destruct (Packet_Write_net (new_push p) nc) as [cp' E]. rewrite E in Hw.
    destruct (nc_closed nc); [done|]. destruct (nc_fault nc) as [[k e]|]; [done|]. simplify_eq.
    rewrite (sent_to_push s c y nc _ p Hy Hnc Hp) by done. lia.
Qed.

(** Any other task passes the call on or answers it. *)
Lemma task_kept t s s' new :
  task_ok s t -> exec_task t s = (s', new) -> (forall c d' p, t <> TPushWrite c d' p) ->
  (pending [t] + sent_to s + failed_pushes s <= pending new + sent_to s' + failed_pushes s')%nat.
Proof.
  intros Hok Hex Hne.
  pose proof (no_less_le s s' (fun c => sent_on_evolves _ _ c (exec_task_evolves t s s' new c Hok Hex))) as Hs.
  assert (Htab : forall s2, same_tables s s2 -> failed_pushes s2 = failed_pushes s)
    by (intros s2 (_ & _ & He); unfold failed_pushes; by rewrite He).
  assert (Hzero : pending [t] = 0%nat -> (failed_pushes s <= failed_pushes s')%nat ->
    (pending [t] + sent_to s + failed_pushes s <= pending new + sent_to s' + failed_pushes s')%nat) by lia.
  destruct t as [p|p|p|p|d' pl|d' pl|p d' pl|d' r|p d' r|p d' r|p d' r|d' r| |[|p ps]|p ps| |]; cbn in Hex;
    try (simplify_eq; apply Hzero; [done|];
         rewrite ?(Htab _ (SendDisconnect_tables _ _ _)), ?(Htab _ (dc_Close_tables _ _)),
           ?(Htab _ (close_all_tables _ _)); by (done || apply failed_grow)).
  - pose proof (failed_counted s d' pl 0%nat (not_connected d')) as Hf.
    destruct (Get (store s) d') as [c|]; [destruct (IsActive c s)|]; simplify_eq;
      [rewrite (pending_call c); lia|rewrite (pending_call 0%nat)..]; change (pending []) with 0%nat; lia.
  - by edestruct Hne.
  - destruct (Get (store s) d') as [c|]; [destruct (IsActive c s)|]; simplify_eq; apply Hzero; try done;
      apply failed_grow.
Qed.

(** ** The invariant *)

#[local] Arguments pending_pushes : simpl never.
#[local] Arguments in_mailbox : simpl never.
#[local] Arguments ServerCalls.sent_to : simpl never.
#[local] Arguments failed_pushes : simpl never.

Definition kept (hist : list (gostring * list Z)) (x : config) : Prop :=
  (in_mailbox d payload hist <= sent_to (srv x) + pending (tasks x) + failed_pushes (srv x))%nat.

Lemma pending_grows l1 l2 : (pending l2 <= pending (l1 ++ l2))%nat.
Proof. rewrite pending_app. lia. Qed.

Lemma kept_run o hist x y : inv o x -> ext o x -> kept hist x -> run_step o x y -> kept hist y.
Proof.
  intros Hi Hx Hk Hs. unfold kept in *. revert Hi Hx Hk.
  destruct Hs as [s h ts c ph s' ph' new Hh _ Hex|s h pre t post s' new _ Hex]; intros Hi Hx Hk; cbn in *.
  - pose proof (no_less_le _ _ (handler_no_less _ _ _ _ _ _ _ _ _ Hi Hh Hex)).
    pose proof (pending_grows new ts).
    assert (failed_pushes s <= failed_pushes s')%nat; [|lia].
    pose proof (exec_handler_events _ _ _ _ _ _ _ Hex) as He. unfold failed_pushes. rewrite He.
    destruct ph; try done; unfold count; cbn; lia.
  - pose proof (task_at _ _ _ _ _ _ Hi) as Hok. pose proof (ext_tasks _ _ Hx) as Ht. cbn in Ht.
    apply Forall_app in Ht as [_ [Ht _]%Forall_cons_1].
    destruct (pending_swap d payload pre t new post) as [E1 E2]. rewrite E1. rewrite E2 in Hk.
    assert (Hcase : (exists c d' p, t = TPushWrite c d' p) \/ forall c d' p, t <> TPushWrite c d' p)
      by (destruct t; (by left; eauto) || by right).
    destruct Hcase as [(c & d' & p & ->)|Hne].
    + pose proof (push_write_kept s c d' p s' new Hok Ht Hex). lia.
    + pose proof (task_kept t s s' new Hok Hex Hne). lia.
Qed.

Lemma kept_env o hist x y : inv o x -> kept hist x -> no_call x y -> kept hist y.
Proof.
  intros Hi Hk [Hs Hn]. unfold kept in *. revert Hi Hk Hn.
  destruct Hs as [s h ts c f Hnone|s h ts d' p Hp|s h ts d' r Hr|s h ts|s h ts c kp Hh Hkp|s h ts c nc e Hnc];
    intros Hi Hk Hn; cbn in *; try done.
  - enough (sent_to s <= sent_to (set_net c (mkNet f f [] false None false) s))%nat
      by (change (failed_pushes (set_net c _ s)) with (failed_pushes s); lia).
    apply no_less_le. intros c'. unfold ServerCalls.sent_on, sent_conn. cbn.
    destruct (decide (c' = c)) as [->|Hne]; [|by rewrite lookup_insert_ne].
    destruct (dcs s !! c) as [y|] eqn:Hy; [|done]. destruct (inv_dc _ _ Hi c y Hy) as (nc & Hnc & _).
    cbn in Hnc. congruence.
  - by edestruct Hn.
  - enough (sent_to s <= sent_to (set_net c (set_fault e nc) s))%nat
      by (change (failed_pushes (set_net c _ s)) with (failed_pushes s); lia).
    apply no_less_le. intros c'. unfold ServerCalls.sent_on, sent_conn. cbn.
    destruct (decide (c' = c)) as [->|Hne]; [|by rewrite lookup_insert_ne].
    rewrite lookup_insert_eq, Hnc. done.
Qed.

Lemma calls_kept o hist x : calls o hist x -> kept hist x.
Proof.
  induction 1 as [|hist s h ts d' p Hr IH Hp|hist x y Hr IH Hs|hist x y Hr IH Hs].
  - by apply Nat.le_0_l.
  - unfold kept in *. cbn [srv tasks] in *. rewrite in_mailbox_cons.
    change (TPush d' p :: ts) with ([TPush d' p] ++ ts). rewrite pending_app.
    assert (Hq : pending [TPush d' p] = of_device d d' (if decide (p = payload) then 1 else 0)).
    { unfold pending_pushes, of_device. cbn. by repeat case_bool_decide; repeat case_decide; naive_solver. }
    lia.
  - apply calls_reachable in Hr. eapply kept_run; [by apply inv_reachable|by apply (ext_reachable o)|done..].
  - apply calls_reachable in Hr. eapply kept_env; [by apply inv_reachable|done..].
Qed.

End kept.

(** Every call of Push is accounted for: the PUSH packets with a payload sent to a
    device are at most as many as the calls with it, and every call that put none on
    a connection is still to be answered or was answered with an error. *)
Theorem pushes_accounted (o : ServerOptions) (hist : list (gostring * list Z)) (x : config)
    (d : gostring) (payload : list Z) :
  calls o hist x ->
  (sent_to d payload (srv x) + pending_pushes d payload (tasks x) <= in_mailbox d payload hist <=
    sent_to d payload (srv x) + pending_pushes d payload (tasks x) + failed_pushes d (srv x))%nat.
Proof. intros Hc. split; [by eapply calls_covered|by eapply calls_kept]. Qed.

(** At rest, when no call failed, the device was sent exactly what was pushed. *)
Lemma rested_pushes o hist x d payload :
  calls o hist x -> at_rest o x -> failed_pushes d (srv x) = 0%nat ->
  sent_to d payload (srv x) = in_mailbox d payload hist.
Proof.
  intros Hc Hrest Hf. pose proof (calls_covered d payload _ _ _ Hc) as Hle.
  pose proof (calls_kept d payload _ _ _ Hc) as Hge. unfold covered, kept in *.
  rewrite (at_rest_tasks _ _ Hrest), Hf in *. cbn in *. lia.
Qed.
