(* ===== verification/ServerComplete.v ===== *)
(** * Server: everything a device sends is handed over

    Runs of the server with a ledger of the messages its packet loops have read and
    of the connections whose loop was shut out because the server had closed them,
    and the accounting of the message handler's calls against that ledger: the other
    half of [ServerRefine.messages_not_forged]. *)

From Stdlib Require Import ZArith Lia String.
From stdpp Require Import base list strings gmap numbers relations.
From S2P Require Import Prelude GoIO Codec CodecFacts Store Server ServerFacts ServerDrain.
From S2P Require Import ServerProps ServerSpec ServerRefine Wire ServerCalls.

Local Open Scope Z_scope.

(** ** What a packet loop takes from a list of packets *)

(** The messages before the first packet that ends the loop. *)
Fixpoint served (l : list ControlPacket) : list (list Z) :=
  match l with
  | PPush m :: l => Payload m :: served l
  | PPingreq _ :: l => served l
  | _ => []
  end.

(** The messages in everything the peer of a connection ever sends, the CONNECT
    apart. *)
Definition to_serve (nc : netconn) : list (list Z) := served (tail (packets (nc_all nc))).

(** Nothing but messages and pings: nothing is cut short. *)
Definition chatty (cp : ControlPacket) : bool :=
  match cp with PPush _ | PPingreq _ => true | _ => false end.

Lemma served_chatty l : forallb chatty l = true -> served l = push_payloads l.
Proof.
  induction l as [|cp l IH]; [done|]. intros [Hc Hl]%andb_prop. rewrite push_payloads_cons, <- (IH Hl).
  by destruct cp.
Qed.

(** ** Runs with a ledger *)

Record ledger : Type := mkLedger {
  heard : gmap connid (list (list Z));
  shut : gset connid;
}.

Definition heard_on (l : ledger) (c : connid) : list (list Z) := default [] (heard l !! c).

(** The messages an action of the connection's goroutine reads. *)
Definition reads (s : server) (c : connid) (ph : phase) : list (list Z) :=
  match ph, nets s !! c with
  | PLoop _, Some nc => match fst (ReadPacket nc) with Ret (PPush m) => [Payload m] | _ => [] end
  | _, _ => []
  end.

(** Whether the packet loop finds the connection closed by the server. *)
Definition shut_out (s : server) (c : connid) (ph : phase) : bool :=
  match ph, nets s !! c with PLoop _, Some nc => nc_closed nc | _, _ => false end.

Definition entry (s : server) (c : connid) (ph : phase) (l : ledger) : ledger :=
  mkLedger (<[c := heard_on l c ++ reads s c ph]> (heard l))
    (if shut_out s c ph then {[c]} ∪ shut l else shut l).

(** [recorded o l x]: some run reaches [x] with the ledger [l]. *)
Inductive recorded (o : ServerOptions) : ledger -> config -> Prop :=
| recorded_init : recorded o (mkLedger ∅ ∅) init
| recorded_handler l s h ts c ph s' ph' new :
    recorded o l (mkConfig s h ts) -> h !! c = Some ph -> ph <> PDone ->
    exec_handler o c ph s = (s', ph', new) ->
    recorded o (entry s c ph l) (mkConfig s' (<[c := ph']> h) (new ++ ts))
| recorded_task l s h pre t post s' new :
    recorded o l (mkConfig s h (pre ++ t :: post)) -> may_run h t -> exec_task t s = (s', new) ->
    recorded o l (mkConfig s' h (pre ++ new ++ post))
| recorded_env l x y : recorded o l x -> env_step x y -> recorded o l y.

Lemma recorded_reachable o l x : recorded o l x -> reachable o x.
Proof.
  induction 1 as [|l s h ts c ph s' ph' new _ IH Hh Hne Hex|l s h pre t post s' new _ IH Hm Hex|l x y _ IH Hs];
    [apply rtc_refl|..]; (eapply rtc_r; [exact IH|]); [left; by eapply run_handler|left; by apply run_task|by right].
Qed.

(** Every run keeps such a ledger. *)
Lemma reachable_recorded o x : reachable o x -> exists l, recorded o l x.
Proof.
  unfold reachable. revert x. apply (rtc_ind_r (fun x => exists l, recorded o l x)).
  - eexists. constructor.
  - intros x y _ [Hs|Hs] [l Hl]; [|exists l; by eapply recorded_env]. revert Hl.
    destruct Hs as [s h ts c ph s' ph' new Hh Hne Hex|s h pre t post s' new Hm Hex]; intros Hl;
      eexists; [by eapply recorded_handler|by eapply recorded_task].
Qed.

Lemma heard_on_entry s c ph l c' :
  heard_on (entry s c ph l) c' =
    if decide (c' = c) then heard_on l c ++ reads s c ph else heard_on l c'.
Proof.
  unfold heard_on at 1, entry. cbn. case_decide as Hc; [subst; by rewrite lookup_insert_eq|].
  by rewrite lookup_insert_ne.
Qed.

Lemma shut_entry s c ph l c' :
  c' ∈ shut (entry s c ph l) <-> (c' = c /\ shut_out s c ph = true) \/ c' ∈ shut l.
Proof. unfold entry. cbn. destruct (shut_out s c ph); set_solver. Qed.

(** ** What the ledger says of a connection *)

Definition page_ok (s : server) (l : ledger) (c : connid) (nc : netconn) (ph : phase) : Prop :=
  match ph with
  | PStart | PTrack | PHello | PReject _ | PAccept _ _ | PRegister _ _ =>
      heard_on l c = [] /\ c ∉ shut l
  | PEstablish _ | PLoop _ => to_serve nc = heard_on l c ++ served (packets (nc_in nc)) /\ c ∉ shut l
  | _ => is_Some (dcs s !! c) ->
      heard_on l c `prefix_of` to_serve nc /\ (c ∉ shut l -> heard_on l c = to_serve nc)
  end.

Lemma page_ok_evolves s s' l c nc nc' ph :
  nets s !! c = Some nc -> nets s' !! c = Some nc' -> conn_evolves s s' c ->
  page_ok s l c nc ph -> page_ok s' l c nc' ph.
Proof.
  intros Hnc Hnc' He. unfold conn_evolves in He. rewrite Hnc in He.
  assert (H : nc_all nc' = nc_all nc /\ nc_in nc' = nc_in nc /\ (is_Some (dcs s' !! c) -> is_Some (dcs s !! c))).
  { destruct (dcs s !! c).
    - destruct He as (nc2 & x' & Hn & _ & (A & I & _) & _). rewrite Hnc' in Hn. injection Hn as <-. eauto.
    - destruct He as (nc2 & Hn & Hd & A & I & _). rewrite Hnc' in Hn. injection Hn as <-. by rewrite Hd. }
  destruct H as (A & I & Hd). unfold page_ok, to_serve. rewrite A, I. destruct ph; tauto.
Qed.

(** Another connection's goroutine moves. *)
Lemma page_ok_others s s' c ph0 l c' nc ph :
  c' <> c -> dcs s' !! c' = dcs s !! c' ->
  page_ok s l c' nc ph -> page_ok s' (entry s c ph0 l) c' nc ph.
Proof.
  intros Hne Hd. assert (Hh : heard_on (entry s c ph0 l) c' = heard_on l c')
    by (rewrite heard_on_entry; by case_decide).
  assert (Hs : c' ∉ shut l <-> c' ∉ shut (entry s c ph0 l)) by (rewrite shut_entry; naive_solver).
  unfold page_ok. rewrite Hh, Hd. destruct ph; tauto.
Qed.

(** The network connection after the answer of the packet loop. *)
Lemma loop_step_net o c kp read s nc :
  nets s !! c = Some nc -> exists nc', nets (loop_step o c kp read s).1.1 !! c = Some nc' /\
    nc_all nc' = nc_all nc /\ nc_in nc' = nc_in nc.
Proof.
  intros Hnc.
  assert (Hw : forall cp, exists nc', nets (snd (write_packet cp c s)) !! c = Some nc' /\
    nc_all nc' = nc_all nc /\ nc_in nc' = nc_in nc).
  { intros cp. unfold write_packet. rewrite Hnc. destruct (Packet_Write_net cp nc) as [cp' ->].
    destruct (nc_closed nc); [|destruct (nc_fault nc) as [[k e]|]]; cbn; rewrite lookup_insert_eq; eauto. }
  destruct read as [[]|err|]; cbn; try case_match; cbn; eauto 10.
Qed.

(** What a step of the packet loop leaves to be served. *)
Lemma loop_page o c kp s nc l s' ph' new nc' :
  nets s !! c = Some nc -> page_ok s l c nc (PLoop kp) ->
  exec_handler o c (PLoop kp) s = (s', ph', new) -> nets s' !! c = Some nc' ->
  page_ok s' (entry s c (PLoop kp) l) c nc' ph'.
Proof.
  intros Hnc [Hp Hc] Hex Hnc'. cbn in Hex. rewrite Hnc in Hex. pose proof (ReadPacket_net nc) as Hnet.
  assert (Hh : heard_on (entry s c (PLoop kp) l) c = heard_on l c ++ reads s c (PLoop kp))
    by (rewrite heard_on_entry; by case_decide).
  assert (Hsh : c ∉ shut (entry s c (PLoop kp) l) <-> nc_closed nc = false).
  { rewrite shut_entry. cbn. rewrite Hnc. destruct (nc_closed nc); naive_solver. }
  assert (Hrd : reads s c (PLoop kp) = match fst (ReadPacket nc) with Ret (PPush m) => [Payload m] | _ => [] end)
    by (cbn; by rewrite Hnc).
  pose proof (ReadPacket_net_total nc) as Htot. destruct (ReadPacket nc) as [read nc1]. cbn [fst] in Hrd, Htot.
  destruct (loop_step_net o c kp read (set_net c nc1 s) nc1) as (nc2 & Hn2 & Ha2 & Hi2); [apply lookup_set_net|].
  rewrite Hex in Hn2. cbn in Hn2. rewrite Hnc' in Hn2. injection Hn2 as <-.
  assert (Ht : to_serve nc' = to_serve nc)
    by (unfold to_serve; rewrite Ha2; destruct (nc_closed nc); injection Hnet as -> ->; done).
  destruct (nc_closed nc) eqn:Hcl.
  { injection Hnet as -> ->. cbn in Hex. simplify_eq. intros _. rewrite Hh, Hrd, Ht, Hp, app_nil_r.
    split; [by apply prefix_app_r|]. rewrite Hsh. done. }
  assert (Hin : nc_in nc1 = snd (ReadPacket (nc_in nc)) /\ read = fst (ReadPacket (nc_in nc)))
    by (by injection Hnet as -> ->). clear Hnet. destruct Hin as [Hin Hread].
  destruct (ReadPacket (nc_in nc)) as [r rest] eqn:Hr. cbn in Hin, Hread. subst r.
  assert (Hend : served (packets (nc_in nc)) = [] -> reads s c (PLoop kp) = [] ->
    heard_on (entry s c (PLoop kp) l) c `prefix_of` to_serve nc' /\
    (c ∉ shut (entry s c (PLoop kp) l) -> heard_on (entry s c (PLoop kp) l) c = to_serve nc')).
  { intros Hs Hrs. rewrite Hh, Hrs, Ht, Hp, Hs. done. }
  destruct read as [cp|err|]; [| |done].
  - rewrite (packets_read _ _ _ Hr) in Hp, Hend.
    destruct cp as [q|q|q|m|q|q]; cbn in Hex; simplify_eq; cbn [page_ok]; try (intros _; by apply Hend);
      rewrite Ht, Hh, Hrd, Hsh, Hi2, Hp, <- app_assoc; done.
  - rewrite (packets_end (nc_in nc)) in Hend by (by rewrite Hr).
    cbn in Hex. case_match; simplify_eq; cbn [page_ok]; auto.
Qed.

(** The connection whose goroutine moves. *)
Lemma own_page o s h ts c ph nc l s' ph' new nc' :
  inv o (mkConfig s h ts) -> ext o (mkConfig s h ts) -> h !! c = Some ph -> ph <> PDone ->
  nets s !! c = Some nc -> page_ok s l c nc ph ->
  exec_handler o c ph s = (s', ph', new) -> nets s' !! c = Some nc' ->
  page_ok s' (entry s c ph l) c nc' ph'.
Proof.
  intros Hi Hx Hh Hne Hnc Hp Hex Hnc'. destruct (inv_at _ _ _ _ _ _ Hi Hh) as (nc0 & Hnc0 & Hph & _).
  pose proof (ext_phase _ _ Hx c ph nc Hh Hnc) as Hpe. rewrite Hnc in Hnc0. injection Hnc0 as <-.
  assert (Hsame : (forall kp, ph <> PLoop kp) -> heard_on (entry s c ph l) c = heard_on l c /\
    (c ∈ shut (entry s c ph l) <-> c ∈ shut l)).
  { intros Hl. rewrite heard_on_entry, shut_entry. case_decide; [|done].
    destruct ph; try (by cbn; rewrite app_nil_r; naive_solver). by edestruct Hl. }
  destruct ph as [| | |code|d kp|d kp|kp|kp| | | | |];
    try (destruct Hsame as [Hhd Hsh]; [done|]); cbn [phase_inv phase_ext page_ok] in *.
  - cbn in Hex. simplify_eq. cbn [page_ok]. by rewrite Hhd, Hsh.
  - cbn in Hex. simplify_eq. cbn [page_ok]. by rewrite Hhd, Hsh.
  - destruct Hph as (Hd & _). assert (Hd' : ph' = PUntrack -> dcs s' !! c = None).
    { pose proof (before_registration o c PHello s s' ph' new I Hex) as (_ & _ & E & _). by rewrite E. }
    cbn in Hex. rewrite Hnc in Hex. destruct (ReadPacket nc) as [first nc1].
    destruct (hello_decision o first); simplify_eq; cbn [page_ok]; rewrite ?Hhd, ?Hsh; try done.
    rewrite Hd' by done. by intros [? ?].
  - destruct (before_registration o c (PReject code) s s' ph' new I Hex) as (_ & _ & E & _).
    cbn in Hex. simplify_eq. cbn [page_ok]. rewrite E, (proj1 Hph). by intros [? ?].
  - destruct (before_registration o c (PAccept d kp) s s' ph' new I Hex) as (_ & _ & E & _).
    cbn in Hex. destruct (write_packet _ _ _) as [[e|] s1]; simplify_eq; cbn [page_ok];
      [|by rewrite Hhd, Hsh]. rewrite E, (proj1 Hph). by intros [? ?].
  - cbn in Hex. simplify_eq. cbn [page_ok] in *. rewrite Hhd, Hsh. destruct Hpe as [(p & Hr & _) _].
    destruct Hp as [-> ?]. cbn in Hnc'. rewrite Hnc in Hnc'. injection Hnc' as <-.
    unfold to_serve. by rewrite (packets_read _ _ _ Hr).
  - cbn in Hex. simplify_eq. cbn [page_ok] in *. rewrite Hhd, Hsh. cbn in Hnc'.
    rewrite Hnc in Hnc'. by injection Hnc' as <-.
  - by eapply loop_page.
  - cbn in Hex. simplify_eq. pose proof (dc_Close_evolves c s c) as He.
    apply (page_ok_evolves s _ (entry s c PTeardown l) c nc nc' PRemove Hnc Hnc' He).
    cbn [page_ok]. by rewrite Hhd, Hsh.
  - cbn in Hex. simplify_eq. cbn in Hnc'. rewrite Hnc in Hnc'. injection Hnc' as <-.
    cbn [page_ok]. by rewrite Hhd, Hsh.
  - cbn in Hex. simplify_eq. cbn in Hnc'. rewrite Hnc in Hnc'. injection Hnc' as <-.
    cbn [page_ok]. by rewrite Hhd, Hsh.
  - cbn in Hex. simplify_eq. cbn in Hnc'. rewrite Hnc in Hnc'. injection Hnc' as <-.
    cbn [page_ok]. by rewrite Hhd, Hsh.
  - done.
Qed.

(** ** What the ledger says of a device *)

Section device.
Context (d : gostring) (payload : list Z).

(** The messages with the payload read on the connections of the device. *)
Definition heard_from (l : ledger) (s : server) : nat :=
  map_sum (fun c y => of_device d (deviceID y) (occurrences payload (heard_on l c))) (dcs s).

Lemma heard_from_same l l' s s' :
  (forall c, deviceID <$> dcs s' !! c = deviceID <$> dcs s !! c) ->
  (forall c, is_Some (dcs s !! c) -> heard_on l' c = heard_on l c) ->
  heard_from l' s' = heard_from l s.
Proof.
  intros Hd Hh. apply map_sum_rel. intros c. specialize (Hd c). specialize (Hh c).
  destruct (dcs s' !! c) as [y'|], (dcs s !! c) as [y|]; cbn in Hd; simplify_eq; [|done].
  by rewrite Hh, Hd.
Qed.

(** What one action reads is added for its device. *)
Lemma heard_from_entry l s c ph y :
  dcs s !! c = Some y ->
  heard_from (entry s c ph l) s =
    (heard_from l s + of_device d (deviceID y) (occurrences payload (reads s c ph)))%nat.
Proof.
  intros Hy. unfold heard_from. rewrite !(map_sum_lookup _ _ c y Hy).
  rewrite (map_sum_ext _ (fun c y => of_device d (deviceID y) (occurrences payload (heard_on l c))) (delete c (dcs s))).
  - rewrite heard_on_entry, decide_True, occurrences_app by done. unfold of_device. case_decide; lia.
  - intros c' y' Hc'. rewrite heard_on_entry. case_decide; [|done]. subst. by rewrite lookup_delete_eq in Hc'.
Qed.

(** A connection registers, with nothing read. *)
Lemma heard_from_register l s c d' st :
  dcs s !! c = None -> heard_on l c = [] ->
  heard_from l (set_store st (newDeviceConnection c d' s)) = heard_from l s.
Proof.
  intros Hd Hh. unfold heard_from. cbn. rewrite map_sum_insert, Hh by done. cbn.
  unfold of_device. by case_decide.
Qed.

End device.

(** Which actions change whose connections. *)
Lemma exec_handler_device o c ph s s' ph' new :
  exec_handler o c ph s = (s', ph', new) -> (forall d kp, ph <> PRegister d kp) ->
  forall c', deviceID <$> dcs s' !! c' = deviceID <$> dcs s !! c'.
Proof.
  intros Hex Hne c'. destruct (decide (c' = c)) as [->|Hc];
    [|by destruct (exec_handler_others _ _ _ _ _ _ _ c' Hex Hc) as [_ ->]].
  pose proof (fun H => before_registration o c ph s s' ph' new H Hex) as Hb.
  destruct ph as [| | |code|d kp|d kp|kp|kp| | | | |];
    try (destruct (Hb I) as (_ & _ & E & _); by rewrite E);
    cbn in Hex; try (by simplify_eq).
  - by edestruct Hne.
  - destruct (nets s !! c) as [nc|]; [|by simplify_eq]. destruct (ReadPacket nc) as [read nc'].
    pose proof (loop_step_dcs o c kp read (set_net c nc' s)) as Hd. rewrite Hex in Hd. cbn in Hd. by rewrite Hd.
  - simplify_eq. unfold dc_Close. destruct (dcs s !! c) as [y|] eqn:Hy; [|by rewrite Hy].
    destruct (active y); [|by rewrite Hy]. rewrite conn_Close_dcs. cbn. by rewrite lookup_insert_eq.
Qed.

Lemma exec_task_device t s s' new :
  task_ok s t -> exec_task t s = (s', new) ->
  (forall c, is_Some (nets s !! c) \/ dcs s !! c = None) ->
  forall c, deviceID <$> dcs s' !! c = deviceID <$> dcs s !! c.
Proof.
  intros Hok Hex Hn c. pose proof (exec_task_evolves t s s' new c Hok Hex) as He. unfold conn_evolves in He.
  destruct (nets s !! c) as [nc|] eqn:Hnc, (dcs s !! c) as [y|] eqn:Hy.
  - destruct He as (_ & y' & _ & -> & _ & Hid & _). cbn. by rewrite Hid.
  - by destruct He as (_ & _ & -> & _).
  - destruct (Hn c) as [[? ?]|?]; congruence.
  - destruct He as [_ He]. by rewrite He.
Qed.

(** ** The books balance *)

Section balance.
Context (d : gostring) (payload : list Z).

(** Messages handed over, or in the hands of a goroutine that will. *)
Definition handed_or_waiting (x : config) : nat :=
  (count (is_delivery d payload) (events (srv x)) + in_mailbox d payload (waiting (tasks x)))%nat.

Lemma in_mailbox_app box1 box2 :
  in_mailbox d payload (box1 ++ box2) = (in_mailbox d payload box1 + in_mailbox d payload box2)%nat.
Proof. unfold in_mailbox. by rewrite List.filter_app, length_app. Qed.

Lemma waiting_cons t ts : waiting (t :: ts) = waiting [t] ++ waiting ts.
Proof. change (t :: ts) with ([t] ++ ts). apply waiting_app. Qed.

Lemma count_event_cons e evs :
  count (is_delivery d payload) (e :: evs) =
    ((if is_delivery d payload e then 1 else 0) + count (is_delivery d payload) evs)%nat.
Proof. unfold count. cbn. by destruct (is_delivery d payload e). Qed.

Definition delivered_in (s : server) : nat := count (is_delivery d payload) (events s).

#[local] Arguments waiting : simpl never.
#[local] Arguments delivered_in : simpl never.

Lemma delivered_same s s' : events s' = events s -> delivered_in s' = delivered_in s.
Proof. unfold delivered_in. by intros ->. Qed.

Lemma delivered_log e s : is_delivery d payload e = false -> delivered_in (log e s) = delivered_in s.
Proof. intros He. unfold delivered_in. cbn [events log]. by rewrite count_event_cons, He. Qed.

(** A task hands over its message, or leaves all counts alone. *)
Lemma task_balance t s s' new :
  exec_task t s = (s', new) ->
  (delivered_in s' + in_mailbox d payload (waiting new) =
    delivered_in s + in_mailbox d payload (waiting [t]))%nat.
Proof.
  intros Hex.
  assert (Htab : forall s2, same_tables s s2 -> delivered_in s2 = delivered_in s)
    by (intros s2 (_ & _ & He); by apply delivered_same).
  destruct t as [p|p|p|p|d' pl|d' pl|p d' pl|d' r|p d' r|p d' r|p d' r|d' r| |[|p ps]|p ps| |]; cbn in Hex;
    try (simplify_eq; rewrite ?delivered_log by done;
         rewrite ?(Htab _ (SendDisconnect_tables _ _ _)), ?(Htab _ (dc_Close_tables _ _)),
           ?(Htab _ (close_all_tables _ _)); by cbn).
  - simplify_eq. unfold delivered_in. cbn [events log]. rewrite count_event_cons. cbn [is_delivery].
    unfold waiting, in_mailbox. cbn. case_bool_decide; cbn; lia.
  - destruct (Get _ _); [destruct (IsActive _ s)|]; simplify_eq; by rewrite ?delivered_log by done.
  - pose proof (Htab _ (dc_Write_tables p pl s)) as E. destruct (dc_Write p pl s). simplify_eq.
    rewrite delivered_log by done. cbn [snd] in E. by rewrite E.
  - destruct (Get _ _); [destruct (IsActive _ s)|]; simplify_eq; by rewrite ?delivered_log by done.
Qed.

(** An action of a connection hands what it read to new goroutines. *)
Lemma handler_balance o c ph s s' ph' new y :
  has_MessageHandler o = true -> exec_handler o c ph s = (s', ph', new) ->
  (dcs s !! c = Some y \/ (reads s c ph = [] /\ y = mkDC [] false)) ->
  delivered_in s' = delivered_in s /\
  in_mailbox d payload (waiting new) = of_device d (deviceID y) (occurrences payload (reads s c ph)).
Proof.
  intros Ho Hex Hy. split.
  { pose proof (exec_handler_events _ _ _ _ _ _ _ Hex) as He. unfold delivered_in. rewrite He.
    destruct ph; rewrite ?count_event_cons; done. }
  assert (Hz : reads s c ph = [] -> waiting new = [] -> in_mailbox d payload (waiting new) =
    of_device d (deviceID y) (occurrences payload (reads s c ph))).
  { intros -> ->. unfold of_device. by case_decide. }
  destruct ph as [| | |code|d' kp|d' kp|kp|kp| | | | |]; cbn in Hex; try (simplify_eq; by apply Hz).
  - destruct (nets s !! c) as [nc|]; [|by simplify_eq; apply Hz]. destruct (ReadPacket nc).
    destruct (hello_decision _ _); simplify_eq; by apply Hz.
  - destruct (write_packet _ _ _) as [[]]; simplify_eq; by apply Hz.
  - simplify_eq. apply Hz; [done|]. by destruct (store s !! d').
  - revert Hz Hy. unfold reads. destruct (nets s !! c) as [nc|]; [|by simplify_eq; auto].
    destruct (ReadPacket nc) as [read nc1]. cbn [fst]. intros Hz Hy.
    destruct read as [[| | |m| |]|err|]; cbn in Hex; try case_match; simplify_eq; try (by apply Hz).
    destruct Hy as [Hy|[? _]]; [|done]. unfold device_of. cbn. rewrite Hy, ?Ho.
    change (waiting [TDeliver (deviceID y) (Payload m)]) with [(deviceID y, Payload m)].
    rewrite in_mailbox_cons, bool_decide_decide. unfold of_device.
    repeat case_decide; cbn; lia.
Qed.

End balance.

(** What the ledger of every run satisfies. *)
Record balanced_books (o : ServerOptions) (l : ledger) (x : config) : Prop := mkBooks {
  books_page : forall c ph nc, handlers x !! c = Some ph -> nets (srv x) !! c = Some nc ->
    page_ok (srv x) l c nc ph;
  books_fresh : forall c, nets (srv x) !! c = None -> heard_on l c = [] /\ c ∉ shut l;
  books_sum : has_MessageHandler o = true -> forall d payload,
    handed_or_waiting d payload x = heard_from d payload l (srv x);
}.

Lemma books_task o l s h pre t post s' new :
  inv o (mkConfig s h (pre ++ t :: post)) -> balanced_books o l (mkConfig s h (pre ++ t :: post)) ->
  exec_task t s = (s', new) -> balanced_books o l (mkConfig s' h (pre ++ new ++ post)).
Proof.
  intros Hi [Hp Hf Hs] Hex. pose proof (task_at _ _ _ _ _ _ Hi) as Hok.
  pose proof (fun c => exec_task_evolves t s s' new c Hok Hex) as He. split; cbn in *.
  - intros c ph nc' Hh Hnc'. destruct (inv_at _ _ _ _ _ _ Hi Hh) as (nc & Hnc & _).
    eapply (page_ok_evolves s); eauto.
  - intros c Hc. apply Hf. specialize (He c). apply conn_evolves_net in He.
    apply eq_None_not_Some. intros Hx. apply He in Hx. rewrite Hc in Hx. by destruct Hx.
  - intros Ho d payload. specialize (Hs Ho d payload).
    rewrite (heard_from_same d payload l l s s'); [|eapply exec_task_device; try done|done].
    + rewrite <- Hs. pose proof (task_balance d payload t s s' new Hex) as Hb. revert Hb.
      unfold handed_or_waiting, delivered_in. cbn [srv tasks]. rewrite waiting_app, (waiting_app pre), waiting_app,
        (waiting_cons t post), !in_mailbox_app. lia.
    + intros c. destruct (dcs s !! c) as [y|] eqn:Hy; [left|by right].
      destruct (inv_dc _ _ Hi c y Hy) as (nc & Hnc & _). by exists nc.
Qed.

Lemma books_env o l x y : inv o x -> balanced_books o l x -> env_step x y -> balanced_books o l y.
Proof.
  intros Hi Hb He. revert Hi Hb.
  destruct He as [s h ts c f Hn|s h ts d p _|s h ts d r _|s h ts|s h ts c kp _ _|s h ts c nc e Hn];
    intros Hi [Hp Hf Hs]; cbn in *; (split; cbn in *; [| |exact Hs]); try done.
  - intros c' ph nc' Hh Hnc'. destruct (decide (c' = c)) as [->|Hne].
    + rewrite lookup_insert_eq in Hh. simplify_eq. by apply Hf.
    + rewrite lookup_insert_ne in Hh by done. rewrite lookup_insert_ne in Hnc' by done. exact (Hp c' ph nc' Hh Hnc').
  - intros c' [Hc' _]%lookup_insert_None. by apply Hf.
  - intros c' ph nc' Hh Hnc'. destruct (decide (c' = c)) as [->|Hne].
    + rewrite lookup_insert_eq in Hnc'. injection Hnc' as <-. exact (Hp c ph nc Hh Hn).
    + rewrite lookup_insert_ne in Hnc' by done. exact (Hp c' ph nc' Hh Hnc').
  - intros c' [Hc' _]%lookup_insert_None. by apply Hf.
Qed.

Lemma reads_loop s c ph : reads s c ph <> [] -> exists kp, ph = PLoop kp.
Proof. destruct ph; cbn; eauto; by intros. Qed.

(** The sum of a device grows by what an action of one of its connections reads. *)
Lemma heard_from_handler o l s h ts c ph nc s' ph' new d payload y :
  inv o (mkConfig s h ts) -> h !! c = Some ph -> nets s !! c = Some nc -> page_ok s l c nc ph ->
  exec_handler o c ph s = (s', ph', new) -> y = default (mkDC [] false) (dcs s !! c) ->
  heard_from d payload (entry s c ph l) s' =
    (heard_from d payload l s + of_device d (deviceID y) (occurrences payload (reads s c ph)))%nat.
Proof.
  intros Hi Hh Hnc Hp Hex ->. destruct (inv_at _ _ _ _ _ _ Hi Hh) as (nc0 & _ & Hph & _).
  assert (Hz : forall l0, of_device d l0 (occurrences payload []) = 0%nat)
    by (intros l0; unfold of_device; by case_decide).
  assert (Hsame : reads s c ph = [] -> forall c', heard_on (entry s c ph l) c' = heard_on l c').
  { intros Hr c'. rewrite heard_on_entry, Hr, app_nil_r. by case_decide; subst. }
  assert (Hcase : (exists d' kp, ph = PRegister d' kp) \/ forall d' kp, ph <> PRegister d' kp)
    by (destruct ph; (by left; eauto) || by right).
  destruct Hcase as [(d' & kp & ->)|Hne].
  - destruct Hph as [Hd _], Hp as [Hp _]. cbn in Hex. simplify_eq.
    rewrite <- (heard_from_register d payload l s c d' (<[d' := c]> (store s)) Hd Hp).
    rewrite (heard_from_same _ _ l _ (set_store (<[d' := c]> (store s)) (newDeviceConnection c d' s)));
      [|done|intros; by apply Hsame]. cbn [reads]. rewrite Hz. lia.
  - assert (Hdev : forall c', deviceID <$> dcs s' !! c' = deviceID <$> dcs s !! c')
      by (by eapply exec_handler_device).
    rewrite (heard_from_same _ _ (entry s c ph l) _ s) by done.
    destruct (dcs s !! c) as [y|] eqn:Hy; [by apply heard_from_entry|].
    destruct (decide (reads s c ph = [])) as [Hr|Hr].
    + rewrite (heard_from_same _ _ l _ s), Hr, Hz; [lia|done|intros; by apply Hsame].
    + destruct (reads_loop _ _ _ Hr) as [kp ->]. destruct Hph as (y & Hy' & _). congruence.
Qed.

Lemma books_handler o l s h ts c ph s' ph' new :
  inv o (mkConfig s h ts) -> ext o (mkConfig s h ts) -> balanced_books o l (mkConfig s h ts) ->
  h !! c = Some ph -> ph <> PDone -> exec_handler o c ph s = (s', ph', new) ->
  balanced_books o (entry s c ph l) (mkConfig s' (<[c := ph']> h) (new ++ ts)).
Proof.
  intros Hi Hx [Hp Hf Hs] Hh Hne Hex. destruct (inv_at _ _ _ _ _ _ Hi Hh) as (nc & Hnc & Hph & _).
  pose proof (fun c' => exec_handler_others o c ph s s' ph' new c' Hex) as Hoth. split; cbn in *.
  - intros c' ph2 nc' Hh' Hnc'. destruct (decide (c' = c)) as [->|Hc].
    + rewrite lookup_insert_eq in Hh'. injection Hh' as <-. by eapply (own_page o s h ts c ph nc); eauto.
    + rewrite lookup_insert_ne in Hh' by done. destruct (Hoth c' Hc) as [Hn Hd]. rewrite Hn in Hnc'.
      by apply (page_ok_others s); eauto.
  - intros c' Hc'. destruct (decide (c' = c)) as [->|Hc].
    + exfalso. destruct (exec_handler_quiet _ _ _ _ _ _ _ Hex c) as [Hq _]. rewrite Hc', Hnc in Hq.
      destruct (proj2 Hq ltac:(done)) as [? [=]].
    + destruct (Hoth c' Hc) as [Hn _]. rewrite Hn in Hc'. destruct (Hf c' Hc') as [Hl Hsh].
      split; [rewrite heard_on_entry; by case_decide|]. intros [[? _]|?]%shut_entry; done.
  - intros Ho d payload. specialize (Hs Ho d payload). specialize (Hp c ph nc Hh Hnc).
    rewrite (heard_from_handler o l s h ts c ph nc s' ph' new d payload _ Hi Hh Hnc Hp Hex eq_refl), <- Hs.
    destruct (handler_balance d payload o c ph s s' ph' new (default (mkDC [] false) (dcs s !! c)) Ho Hex)
      as [Hd Hw].
    { destruct (dcs s !! c) as [y|] eqn:Hy; [by left|right]. split; [|done].
      destruct (decide (reads s c ph = [])) as [|Hr]; [done|]. destruct (reads_loop _ _ _ Hr) as [kp ->].
      destruct Hph as (y & Hy' & _). congruence. }
    revert Hd Hw. unfold handed_or_waiting, delivered_in. cbn [srv tasks].
    rewrite waiting_app, in_mailbox_app. lia.
Qed.

Lemma recorded_books o l x : recorded o l x -> balanced_books o l x.
Proof.
  induction 1 as [|l s h ts c ph s' ph' new Hr IH Hh Hne Hex|l s h pre t post s' new Hr IH Hm Hex|l x y Hr IH Hs].
  - split; cbn; [done|done|]. done.
  - apply recorded_reachable in Hr. eapply books_handler; eauto using inv_reachable, ext_reachable.
  - apply recorded_reachable in Hr. eapply books_task; eauto using inv_reachable.
  - apply recorded_reachable in Hr. eapply books_env; eauto using inv_reachable.
Qed.

(** ** Executable schedules with their ledger *)

Definition noted (a : action) (x : config) (l : ledger) : ledger :=
  match a with
  | Handler c => match handlers x !! c with Some ph => entry (srv x) c ph l | None => l end
  | _ => l
  end.

Fixpoint schedule_ledger (o : ServerOptions) (acts : list action) (x : config) (l : ledger) : ledger :=
  match acts with
  | [] => l
  | a :: acts => match act o a x with Some y => schedule_ledger o acts y (noted a x l) | None => l end
  end.

Lemma act_recorded o l a x y : recorded o l x -> act o a x = Some y -> recorded o (noted a x l) y.
Proof.
  intros Hr Ha. pose proof (act_kind _ _ _ _ Ha) as Hk.
  destruct x as [s h ts], a as [c f|d p|d r| |c|c e|c|i]; try (by eapply recorded_env); cbn in Ha |- *.
  - destruct (h !! c) as [ph|] eqn:Hh; [|done]. destruct (decide (ph = PDone)); [done|].
    destruct (exec_handler o c ph s) as [[s' ph'] new] eqn:Hex. simplify_eq. by eapply recorded_handler.
  - destruct (ts !! i) as [t|] eqn:Ht; [|done]. destruct (decide (may_run h t)); [|done].
    destruct (exec_task t s) as [s' new] eqn:Hex. simplify_eq.
    eapply recorded_task; [|done|done]. by rewrite take_drop_middle.
Qed.

Lemma schedule_recorded o acts l x y :
  recorded o l x -> schedule o acts x = Some y -> recorded o (schedule_ledger o acts x l) y.
Proof.
  revert l x. induction acts as [|a acts IH]; cbn; intros l x Hr Hy; [by simplify_eq|].
  destruct (act o a x) as [z|] eqn:Ha; [|done]. apply IH; [by eapply act_recorded|done].
Qed.

(** ** The theorem *)

(** What the books say once the server has come to rest. *)
Lemma books_closed o l x :
  recorded o l x -> at_rest o x ->
  (forall c y nc, dcs (srv x) !! c = Some y -> nets (srv x) !! c = Some nc ->
     heard_on l c `prefix_of` to_serve nc /\ (c ∉ shut l -> heard_on l c = to_serve nc)) /\
  (has_MessageHandler o = true -> forall d payload,
     count (is_delivery d payload) (events (srv x)) = heard_from d payload l (srv x)).
Proof.
  intros Hr Hrest. pose proof (recorded_books _ _ _ Hr) as [Hp _ Hs].
  pose proof (inv_reachable _ _ (recorded_reachable _ _ _ Hr)) as Hi. split.
  - intros c y nc Hy Hnc. destruct (proj2 (inv_dom _ _ Hi c)) as [ph Hh]; [by exists nc|].
    pose proof (Hp c ph nc Hh Hnc) as Hpage. rewrite (at_rest_handlers _ _ _ _ Hrest Hh) in Hpage.
    apply Hpage. by exists y.
  - intros Ho d payload. rewrite <- (Hs Ho). unfold handed_or_waiting.
    rewrite (at_rest_tasks _ _ Hrest). cbn. by rewrite Nat.add_0_r.
Qed.

(** C6: the server hands over everything a device sends, exactly once.  In every run
    that has come to rest, each registered connection has read its peer's messages
    in order from the first one on, and all of them up to the packet that ends its
    loop (a DISCONNECT, a packet no device may send, or the end of the stream)
    unless the server itself had closed the connection before; and the calls of the
    message handler with a payload for a device are exactly as many as the messages
    with that payload read on the connections that authenticated as the device. *)
Theorem everything_handed_over (o : ServerOptions) (l : ledger) (x : config) :
  recorded o l x -> at_rest o x ->
  (forall c y nc, dcs (srv x) !! c = Some y -> nets (srv x) !! c = Some nc ->
     heard_on l c `prefix_of` to_serve nc /\ (c ∉ shut l -> heard_on l c = to_serve nc)) /\
  (has_MessageHandler o = true -> forall d payload,
     count (is_delivery d payload) (events (srv x)) = heard_from d payload l (srv x)).
Proof. apply books_closed. Qed.

(** ** A run

    The device of [ServerProps.demo]: its first connection is taken over while it is
    open, its second one ends by itself; both had a message to serve. *)

Lemma at_rest_intro o x :
  tasks x = [] -> map_Forall (fun _ ph => ph = PDone) (handlers x) -> at_rest o x.
Proof.
  intros Ht Hh y Hs. destruct Hs as [s h ts c ph s' ph' new Hc Hne _|s h pre t post s' new _ _]; cbn in *.
  - by apply Hne, (Hh c).
  - by destruct pre.
Qed.

Definition demo_end_schedule : list action :=
  demo_schedule ++ [Task 0] ++ replicate 5 (Handler 0) ++ replicate 2 (Handler 1) ++ [Task 0] ++
  replicate 5 (Handler 1).

Definition demo_end : config := default init (schedule demo_options demo_end_schedule init).

Definition demo_ledger : ledger :=
  schedule_ledger demo_options demo_end_schedule init (mkLedger ∅ ∅).

Lemma demo_end_recorded : recorded demo_options demo_ledger demo_end.
Proof.
  unfold demo_end, demo_ledger. destruct (schedule _ demo_end_schedule init) as [y|] eqn:Hy.
  - by apply (schedule_recorded demo_options demo_end_schedule _ init); [constructor|].
  - exfalso. revert Hy. vm_compute. discriminate.
Qed.

Lemma demo_end_rests : at_rest demo_options demo_end.
Proof. apply at_rest_intro; [vm_compute; reflexivity|]. apply (bool_decide_unpack _). vm_compute. exact I. Qed.

Lemma everything_handed_over_witness :
  elements (shut demo_ledger) = [0%nat] /\
  heard_on demo_ledger 0 = [Payload sample_push] /\ heard_on demo_ledger 1 = [Payload sample_push] /\
  count (is_delivery (go_bytes "dev-001") (Payload sample_push)) (events (srv demo_end)) = 2%nat /\
  count (is_delivery (go_bytes "dev-001") (Payload sample_push)) (events (srv demo_end)) =
    heard_from (go_bytes "dev-001") (Payload sample_push) demo_ledger (srv demo_end).
Proof.
  split; [vm_compute; reflexivity|]. split; [vm_compute; reflexivity|]. split; [vm_compute; reflexivity|].
  split; [vm_compute; reflexivity|].
  exact (proj2 (everything_handed_over demo_options demo_ledger demo_end demo_end_recorded demo_end_rests)
    eq_refl _ _).
Defined.
