(* ===== verification/ServerCalm.v ===== *)
(** * Server: calm runs

    Runs in which nobody takes a session over, kicks a device, lets a keepalive timer
    fire or closes the server.  Then no connection is closed before its own packet
    loop ends, so the server hands over everything ([ServerComplete]). *)

From Stdlib Require Import ZArith Lia String.
From stdpp Require Import base list strings gmap numbers relations.
From S2P Require Import Prelude GoIO Codec CodecFacts Store Server ServerFacts ServerDrain.
From S2P Require Import ServerProps ServerSpec ServerRefine Wire ServerCalls ServerComplete.

Local Open Scope Z_scope.

(** Goroutines that close nothing. *)
Definition gentle (t : task) : bool :=
  match t with TDeliver _ _ | TPush _ _ | TPushWrite _ _ _ => true | _ => false end.

Inductive calm (o : ServerOptions) : ledger -> config -> Prop :=
| calm_init : calm o (mkLedger ∅ ∅) init
| calm_handler l s h ts c ph s' ph' new :
    calm o l (mkConfig s h ts) -> h !! c = Some ph -> ph <> PDone ->
    exec_handler o c ph s = (s', ph', new) -> forallb gentle new = true ->
    calm o (entry s c ph l) (mkConfig s' (<[c := ph']> h) (new ++ ts))
| calm_task l s h pre t post s' new :
    calm o l (mkConfig s h (pre ++ t :: post)) -> may_run h t -> exec_task t s = (s', new) ->
    calm o l (mkConfig s' h (pre ++ new ++ post))
| calm_env l x y :
    calm o l x -> env_step x y ->
    tasks y = tasks x \/ (exists d payload, tasks y = TPush d payload :: tasks x) -> calm o l y.

Lemma calm_recorded o l x : calm o l x -> recorded o l x.
Proof.
  induction 1; [constructor|by eapply recorded_handler|by eapply recorded_task|by eapply recorded_env].
Qed.

(** Phases before the connection's own goroutine gives it up. *)
Definition serving_phase (ph : phase) : bool :=
  match ph with PTeardown | PRemove | PClosed | PUntrack | PDone => false | _ => true end.

Definition open_net (s : server) (c : connid) : Prop :=
  forall nc, nets s !! c = Some nc -> nc_closed nc = false.

Lemma write_packet_open cp c s c' : open_net s c' -> open_net (snd (write_packet cp c s)) c'.
Proof.
  intros Ho nc Hnc. destruct (decide (c' = c)) as [->|Hne];
    [|by rewrite write_packet_others in Hnc by done; apply Ho].
  destruct (nets s !! c) as [nc0|] eqn:H0; [|unfold write_packet in Hnc; rewrite H0 in Hnc; by apply Ho].
  destruct (write_own cp c nc0 s H0) as (e & nc1 & E & _ & Hc & _). rewrite E in Hnc. cbn in Hnc.
  rewrite lookup_insert_eq in Hnc. injection Hnc as <-. rewrite Hc. by apply Ho.
Qed.

Lemma read_open c nc s : nets s !! c = Some nc -> open_net s c -> open_net (set_net c (snd (ReadPacket nc)) s) c.
Proof.
  intros Hnc Ho nc' Hnc'. rewrite lookup_set_net in Hnc'. injection Hnc' as <-.
  rewrite (proj1 (keeps_ReadPacket nc)). by apply (Ho nc).
Qed.

(** A connection stays open as long as its goroutine serves it. *)
Lemma handler_open o c ph s s' ph' new :
  exec_handler o c ph s = (s', ph', new) -> serving_phase ph' = true -> open_net s c -> open_net s' c.
Proof.
  intros Hex Hs Ho. destruct ph as [| | |code|d kp|d kp|kp|kp| | | | |]; cbn in Hex; try (by simplify_eq).
  - destruct (nets s !! c) as [nc|] eqn:Hnc; [|by simplify_eq]. pose proof (read_open c nc s Hnc Ho) as Hr.
    destruct (ReadPacket nc) as [first nc']. destruct (hello_decision _ _); by simplify_eq.
  - pose proof (write_packet_open (new_connack Accepted (u16 kp)) c s c Ho) as Hw.
    destruct (write_packet _ c s) as [[e|] s1]; by simplify_eq.
  - destruct (nets s !! c) as [nc|] eqn:Hnc; [|by simplify_eq]. pose proof (read_open c nc s Hnc Ho) as Hr.
    destruct (ReadPacket nc) as [read nc']. cbn [snd] in Hr.
    destruct read as [[]|err|]; cbn in Hex; try case_match; simplify_eq; by try apply write_packet_open.
Qed.

Lemma serving_before o c ph s s' ph' new :
  exec_handler o c ph s = (s', ph', new) -> serving_phase ph' = true -> serving_phase ph = true.
Proof. intros Hex Hs. destruct ph; try done; cbn in Hex; by simplify_eq. Qed.

Lemma gentle_task t s s' new :
  gentle t = true -> exec_task t s = (s', new) ->
  forallb gentle new = true /\ forall c, open_net s c -> open_net s' c.
Proof.
  intros Hg Hex. destruct t as [| | | |d payload|d payload|c0 d payload| | | | | | | | | |]; try done; cbn in Hex.
  - by simplify_eq.
  - destruct (Get (store s) d) as [p|]; [destruct (IsActive p s)|]; by simplify_eq.
  - unfold dc_Write in Hex. destruct (IsActive c0 s); [|by simplify_eq].
    pose proof (write_packet_open (new_push payload) c0 s) as Hw.
    destruct (write_packet _ c0 s). simplify_eq. split; [done|]. intros c Ho. by apply Hw.
Qed.

Record at_peace (l : ledger) (x : config) : Prop := mkPeace {
  pc_tasks : forallb gentle (tasks x) = true;
  pc_open : forall c ph, handlers x !! c = Some ph -> serving_phase ph = true -> open_net (srv x) c;
  pc_shut : shut l = ∅;
}.

Lemma not_shut_out s c ph : (serving_phase ph = true -> open_net s c) -> shut_out s c ph = false.
Proof.
  intros Ho. destruct ph; try done. cbn. destruct (nets s !! c) as [nc|] eqn:Hnc; [|done]. by apply Ho.
Qed.

Lemma calm_at_peace o l x : calm o l x -> at_peace l x.
Proof.
  induction 1 as [|l s h ts c ph s' ph' new _ IH Hh _ Hex Hg|l s h pre t post s' new _ IH _ Hex|l x y Hr IH Hs Ht].
  - split; [done|intros c ph; cbn; by rewrite lookup_empty|done].
  - destruct IH as [Ht Ho Hsh]. cbn in *. split; cbn [tasks handlers srv].
    + rewrite forallb_app, Hg. exact Ht.
    + intros c' ph2 Hh' Hs. destruct (decide (c' = c)) as [->|Hne].
      * rewrite lookup_insert_eq in Hh'. injection Hh' as ->.
        assert (Hph : serving_phase ph = true) by (eapply serving_before; eauto).
        by eapply handler_open; eauto.
      * rewrite lookup_insert_ne in Hh' by done.
        destruct (exec_handler_others _ _ _ _ _ _ _ c' Hex Hne) as [Hn _]. unfold open_net. rewrite Hn. by eapply Ho.
    + unfold entry. cbn [shut]. rewrite not_shut_out; [done|]. by apply Ho.
  - destruct IH as [Ht Ho Hsh]. cbn in *. rewrite forallb_app in Ht. cbn in Ht.
    apply andb_prop in Ht as [Hpre [Hg Hpost]%andb_prop]. destruct (gentle_task t s s' new Hg Hex) as [Hn Hkeep].
    split; cbn; [by rewrite !forallb_app, Hpre, Hn, Hpost| |done]. intros c ph Hh Hs. by eapply Hkeep, Ho.
  - destruct IH as [Htk Ho Hsh]. split; [| |done].
    + destruct Ht as [-> |(d & p & ->)]; done.
    + destruct Hs as [s h ts c f Hn|s h ts d p _|s h ts d r _|s h ts|s h ts c kp _ _|s h ts c nc e Hn];
        cbn in *; intros c' ph Hh Hs; [|by eapply Ho..|]; intros nc' Hnc'; cbn in Hnc';
        (destruct (decide (c' = c)) as [->|Hne];
          [rewrite lookup_insert_eq in Hnc'; injection Hnc' as <-|rewrite lookup_insert_ne in Hnc' by done]).
      * done.
      * rewrite lookup_insert_ne in Hh by done. exact (Ho c' ph Hh Hs nc' Hnc').
      * exact (Ho c ph Hh Hs nc Hn).
      * exact (Ho c' ph Hh Hs nc' Hnc').
Qed.

(** In a calm run every connection is served to its end: at rest, the message
    handler's calls for a device are as many as the messages its connections sent
    before the packet that ends their loops. *)
Theorem calm_serves_all (o : ServerOptions) (l : ledger) (x : config) (d : gostring) (payload : list Z) :
  calm o l x -> at_rest o x -> has_MessageHandler o = true ->
  count (is_delivery d payload) (events (srv x)) =
    map_sum (fun c y => of_device d (deviceID y)
      (from_option (fun nc => occurrences payload (to_serve nc)) 0%nat (nets (srv x) !! c))) (dcs (srv x)).
Proof.
  intros Hc Hrest Ho. pose proof (calm_recorded _ _ _ Hc) as Hr.
  destruct (books_closed o l x Hr Hrest) as [Hp Hs]. rewrite (Hs Ho). apply map_sum_ext. intros c y Hy.
  destruct (inv_dc _ _ (inv_reachable _ _ (recorded_reachable _ _ _ Hr)) c y Hy) as (nc & Hnc & _).
  rewrite Hnc. cbn. destruct (Hp c y nc Hy Hnc) as [_ Hall]. rewrite Hall; [done|].
  by rewrite (pc_shut _ _ (calm_at_peace _ _ _ Hc)).
Qed.
