(* ===== verification/ServerListen.v ===== *)
(** * Server: options, listeners and ListenAndServe

    server/options.go, server/handler.go, the listeners (server/listener*.go),
    and NewServer, ListenAndServeContext and the first half of Close in
    server/server.go.  [service] is the state of a server and of one Serve call
    per listener; a connection that is handed to a handler here is one that
    [Server] then follows from its phase [PStart] on.

    The network libraries are a parameter: [network] says whether listening
    succeeds; when connections arrive and when accepting fails is the
    environment's.  Of the libraries the model relies on: Accept of a closed
    listener fails; quic's Accept also fails once its context is done; closing
    an http.Server makes its Serve return http.ErrServerClosed and closes its
    listener, which a failing Serve does too. *)

From Stdlib Require Import ZArith Lia String.
From stdpp Require Import base list strings gmap numbers relations pretty.
From S2P Require Import Prelude GoTime Transport Store.

Local Open Scope Z_scope.

(** ** Listeners *)

Inductive Listener : Type :=
| tcpListener (addr : gostring)
| kcpListener (addr : gostring)
| tlsListener (addr : gostring) (config : option TlsConfig)
| quicListener (addr : gostring) (config : option TlsConfig) (quicConf : option QuicConfig)
| wsListener (addr path : gostring) (config : option TlsConfig).

Definition NewTCPListener (addr : gostring) : Listener := tcpListener addr.
Definition NewKCPListener (addr : gostring) : Listener := kcpListener addr.
Definition NewTLSListener (addr : gostring) (config : option TlsConfig) : Listener :=
  tlsListener addr config.
Definition NewWSListener (addr path : gostring) : Listener := wsListener addr path None.
Definition NewWSSListener (addr path : gostring) (config : option TlsConfig) : Listener :=
  wsListener addr path config.
Definition NewQUICListener (addr : gostring) (config : option TlsConfig) : Listener :=
  quicListener addr config None.

Definition NewQUICListenerWithConfig (addr : gostring) (config : option TlsConfig)
    (quicCfg : option QuicConfig) : Listener :=
  let quicCfg := match quicCfg with
                 | Some q => if KeepAlivePeriod q <=? 0 then None else Some q
                 | None => None
                 end in
  quicListener addr config quicCfg.

Definition defaultQuicConf : QuicConfig := mkQuic (900 * Second) (30 * Second).

Definition chooseQuicConf (override : option QuicConfig) : QuicConfig :=
  match override with
  | Some q => q
  | None => defaultQuicConf
  end.

(** What the libraries answer to a request to listen, and whether the mux of the HTTP
    server, given a pattern, routes a request path to it. *)
Record network : Type := mkNetwork {
  net_Listen : gostring -> option error;
  kcp_Listen : gostring -> option error;
  quic_ListenAddr : gostring -> option TlsConfig -> QuicConfig -> option error;
  mux_matches : gostring -> gostring -> bool;
}.

(** The streams AcceptStream of one session returns, in order, until it fails: the
    handlers serveSession starts, and how often it closes the session. *)
Fixpoint serveSession {S : Type} (accepts : list (error + S)) : list S * nat :=
  match accepts with
  | [] => ([], 0%nat)
  | inl _ :: _ => ([], 1%nat)
  | inr stream :: accepts =>
      let '(started, closed) := serveSession accepts in (stream :: started, closed)
  end.

(** Every stream gets a handler, and the session is closed once, when accepting
    fails. *)
Lemma serveSession_closes {S : Type} (streams : list S) (e : error) rest :
  serveSession ((inr <$> streams) ++ inl e :: rest) = (streams, 1%nat).
Proof. induction streams as [|st streams IH]; cbn; [done|]. by rewrite IH. Qed.

(** A request on an HTTP connection: its path and what websocket.Server makes of it,
    the connection of a handshake that succeeds. *)
Record request : Type := mkRequest { rq_path : gostring; rq_upgraded : option nat }.

(** What arrives at a listener: a connection, a QUIC session with what its calls of
    AcceptStream return, or an HTTP connection with its requests. *)
Inductive arrival : Type :=
| ArrConn (c : nat)
| ArrSession (accepts : list (error + nat))
| ArrHTTP (requests : list request).

Definition ws_path (path : gostring) : gostring :=
  if bool_decide (path = []) then go_bytes "/rmtt" else path.

(** What the HTTP server does with the requests of one connection, in order: those
    for another path it answers itself; the first one for the upgrade path is given
    to websocket.Server, which takes the connection over, calls the handler if the
    handshake succeeds and closes the connection otherwise. *)
Fixpoint serveRequests (mux : gostring -> bool) (requests : list request) : list nat :=
  match requests with
  | [] => []
  | r :: requests =>
      if mux (rq_path r) then match rq_upgraded r with Some c => [c] | None => [] end
      else serveRequests mux requests
  end.

Definition arrival_fits (l : Listener) (a : arrival) : bool :=
  match l, a with
  | tcpListener _, ArrConn _ | kcpListener _, ArrConn _ | tlsListener _ _, ArrConn _ => true
  | quicListener _ _ _, ArrSession _ => true
  | wsListener _ _ _, ArrHTTP _ => true
  | _, _ => false
  end.

(** The connections with which the rmtt handler is called for one arrival, once it has
    been accepted. *)
Definition handlers_of (N : network) (l : Listener) (a : arrival) : list nat :=
  match l, a with
  | tcpListener _, ArrConn c | kcpListener _, ArrConn c | tlsListener _ _, ArrConn c => [c]
  | quicListener _ _ _, ArrSession accepts => fst (serveSession accepts)
  | wsListener _ path _, ArrHTTP requests => serveRequests (mux_matches N (ws_path path)) requests
  | _, _ => []
  end.

(** ** Options and NewServer *)

Record Options : Type := mkServerConfig {
  Port : Z;
  opt_Authenticator : option (gostring -> gostring * bool);
  opt_MessageHandler : bool;
  opt_ConnectionListener : option bool;      (* whether it is the application's *)
  opt_KeepalivePolicy : option KeepalivePolicy;
  listeners : list Listener;
}.

Definition NewServerOptions : Options :=
  mkServerConfig 18883 None false None (Some DefaultKeepalivePolicy) [].

Definition AddListener (l : Listener) (o : Options) : Options :=
  mkServerConfig (Port o) (opt_Authenticator o) (opt_MessageHandler o) (opt_ConnectionListener o)
    (opt_KeepalivePolicy o) (listeners o ++ [l]).

Definition SetPort (port : Z) (o : Options) : Options :=
  mkServerConfig port (opt_Authenticator o) (opt_MessageHandler o) (opt_ConnectionListener o)
    (opt_KeepalivePolicy o) (listeners o).

Definition SetAuthenticator (auth : option (gostring -> gostring * bool)) (o : Options) : Options :=
  mkServerConfig (Port o) auth (opt_MessageHandler o) (opt_ConnectionListener o)
    (opt_KeepalivePolicy o) (listeners o).

Definition SetMessageHandler (handler : bool) (o : Options) : Options :=
  mkServerConfig (Port o) (opt_Authenticator o) handler (opt_ConnectionListener o)
    (opt_KeepalivePolicy o) (listeners o).

Definition SetConnectionListener (listener : option bool) (o : Options) : Options :=
  mkServerConfig (Port o) (opt_Authenticator o) (opt_MessageHandler o) listener
    (opt_KeepalivePolicy o) (listeners o).

Definition SetKeepalivePolicy (policy : option KeepalivePolicy) (o : Options) : Options :=
  mkServerConfig (Port o) (opt_Authenticator o) (opt_MessageHandler o) (opt_ConnectionListener o)
    policy (listeners o).

(** The options a server works with: [opts] is nil for [None], and a missing
    policy, connection listener or list of listeners is filled in. *)
Definition NewServer (opts : option Options) : Options :=
  let opts := default NewServerOptions opts in
  let policy := match opt_KeepalivePolicy opts with
                | None => Some DefaultKeepalivePolicy
                | Some p => Some p
                end in
  let listener := match opt_ConnectionListener opts with None => Some false | Some l => Some l end in
  let ls := match listeners opts with
            | [] => [NewTCPListener (go_bytes (":" +:+ pretty (Port opts)))]
            | ls => ls
            end in
  mkServerConfig (Port opts) (opt_Authenticator opts) (opt_MessageHandler opts) listener policy ls.

(** ** Serving *)

(** Where a Serve call stands. *)
Inductive serve_pc : Type :=
| SvListen
| SvAccepting
| SvReturned (err : option error).

(** [sv_ln] is the field ln (srv for WebSocket): nil, or whether it is still open;
    [sv_watcher] whether the goroutine that waits for the context is there.  The
    lists are what arrived, what waits to be accepted, and what was accepted: for each
    of these a handler, a serveSession or an HTTP connection was started. *)
Record serving : Type := mkServing {
  sv_listener : Listener;
  sv_pc : serve_pc;
  sv_ln : option bool;
  sv_watcher : bool;
  sv_arrived : list arrival;
  sv_backlog : list arrival;
  sv_started : list arrival;
}.

(** The connections a listener has called the rmtt handler with, by arrival. *)
Definition sv_handlers (N : network) (v : serving) : list nat :=
  sv_started v ≫= handlers_of N (sv_listener v).

(** Where ListenAndServeContext stands. *)
Inductive main_pc : Type := MainNotCalled | MainSelect | MainReturned (err : error).

(** [parent] and [ctx] are the errors of the caller's context and of the one
    ListenAndServeContext derives from it; [closes] counts calls of Close. *)
Record service : Type := mkService {
  parent : option error;
  ctx : option error;
  main : main_pc;
  errCh : list error;
  svs : list serving;
  closes : nat;
}.

Definition context_Canceled : error := Sentinel "context.Canceled" "context canceled".

Definition with_pc (pc : serve_pc) (v : serving) : serving :=
  mkServing (sv_listener v) pc (sv_ln v) (sv_watcher v) (sv_arrived v) (sv_backlog v) (sv_started v).

Definition with_ln (ln : option bool) (watcher : bool) (v : serving) : serving :=
  mkServing (sv_listener v) (sv_pc v) ln watcher (sv_arrived v) (sv_backlog v) (sv_started v).

(** [ln.Close()] on a field that may be nil. *)
Definition close_ln (v : serving) : serving :=
  match sv_ln v with
  | Some _ => with_ln (Some false) (sv_watcher v) v
  | None => v
  end.

(** The Close methods.  That of a WebSocket listener shuts the HTTP server down,
    which closes its listener and lets handshakes finish. *)
Definition tcpListener_Close (v : serving) : serving := close_ln v.
Definition kcpListener_Close (v : serving) : serving := close_ln v.
Definition tlsListener_Close (v : serving) : serving := close_ln v.
Definition quicListener_Close (v : serving) : serving := close_ln v.
Definition wsListener_Close (v : serving) : serving := close_ln v.

Definition Listener_Close (v : serving) : serving :=
  match sv_listener v with
  | tcpListener _ => tcpListener_Close v
  | kcpListener _ => kcpListener_Close v
  | tlsListener _ _ => tlsListener_Close v
  | quicListener _ _ _ => quicListener_Close v
  | wsListener _ _ _ => wsListener_Close v
  end.

Lemma Listener_Close_ln v : Listener_Close v = close_ln v.
Proof. unfold Listener_Close. by destruct (sv_listener v). Qed.

(** The labels carry the position of the listener.  Own moves: net.Listen and
    what follows it; an Accept that succeeds; an Accept (for WebSocket, the
    select) that fails because the listener is closed or the context done; the
    watcher; the start and the two cases of ListenAndServeContext's select.
    The environment's: a connection arrives, accepting fails with an error, the
    caller's context ends, the application calls ListenAndServeContext and
    Close. *)
Inductive serve_label : Type :=
| SListen (i : nat) | SAccept (i : nat) | SFail (i : nat) | SWatch (i : nat)
| SErr | SParent
| EArrive (i : nat) (a : arrival) | EAcceptError (i : nat) (e : error)
| ECancel (e : error) | EServe | EClose.

Section serve.
Context (N : network).

(** After a failing Accept: ctx.Err() if the context is done, else the error. *)
Definition accept_failed (c : option error) (e : error) : error :=
  match c with
  | Some ce => ce
  | None => e
  end.

Definition set_sv (i : nat) (v : serving) (s : service) : service :=
  mkService (parent s) (ctx s) (main s) (errCh s) (<[i := v]> (svs s)) (closes s).

(** A Serve call returns; ListenAndServeContext's goroutine passes a non-nil error
    on (the buffer of errCh has room for one error per listener). *)
Definition serve_returns (i : nat) (v : serving) (err : option error) (s : service) : service :=
  mkService (parent s) (ctx s) (main s)
    (match err with Some e => errCh s ++ [e] | None => errCh s end)
    (<[i := with_pc (SvReturned err) v]> (svs s)) (closes s).

(** The watcher goroutine of a Serve call: it waits for the context and closes the
    listener. *)
Definition watch (i : nat) (v : serving) (s : service) : option service :=
  match sv_watcher v, ctx s with
  | true, Some _ => Some (set_sv i (with_ln (sv_ln (close_ln v)) false v) s)
  | _, _ => None
  end.

(** Accept returns what has waited longest, and its goroutine is started. *)
Definition accept (i : nat) (v : serving) (s : service) : option service :=
  match sv_ln v, sv_backlog v with
  | Some true, c :: rest =>
      Some (set_sv i (mkServing (sv_listener v) (sv_pc v) (sv_ln v) (sv_watcher v)
             (sv_arrived v) rest (sv_started v ++ [c])) s)
  | _, _ => None
  end.

(** A connection, session or HTTP connection arrives at an open listener. *)
Definition arrive (i : nat) (c : arrival) (v : serving) (s : service) : option service :=
  match sv_ln v, arrival_fits (sv_listener v) c with
  | Some true, true => Some (set_sv i (mkServing (sv_listener v) (sv_pc v) (sv_ln v) (sv_watcher v)
                        (sv_arrived v ++ [c]) (sv_backlog v ++ [c]) (sv_started v)) s)
  | _, _ => None
  end.

(** One step of a Serve call with an accept loop: [listen] is the answer to its
    listen call, [ctx_accept] whether Accept takes the context. *)
Definition accept_loop (ctx_accept : bool) (listen : option error) (l : serve_label) (i : nat)
    (v : serving) (s : service) : option service :=
  match l, sv_pc v with
  | SListen _, SvListen =>
      Some (match listen with
            | Some err => serve_returns i v (Some err) s
            | None => set_sv i (with_pc SvAccepting (with_ln (Some true) true v)) s
            end)
  | SAccept _, SvAccepting => accept i v s
  | SFail _, SvAccepting =>
      match sv_ln v, ctx s with
      | Some false, c => Some (serve_returns i v (Some (accept_failed c net_ErrClosed)) s)
      | _, Some ce => if ctx_accept then Some (serve_returns i v (Some ce) s) else None
      | _, None => None
      end
  | EAcceptError _ e, SvAccepting => Some (serve_returns i v (Some (accept_failed (ctx s) e)) s)
  | SWatch _, _ => watch i v s
  | EArrive _ c, SvAccepting => arrive i c v s
  | _, _ => None
  end.

Definition tcpListener_Serve (addr : gostring) :=
  accept_loop false (net_Listen N addr).

Definition kcpListener_Serve (addr : gostring) :=
  accept_loop false (kcp_Listen N addr).

(** tls.NewListener around the TCP listener cannot fail. *)
Definition tlsListener_Serve (addr : gostring) (config : option TlsConfig) :=
  accept_loop false (net_Listen N addr).

(** What a QUIC listener accepts are sessions, each given to [serveSession]. *)
Definition quicListener_Serve (addr : gostring) (config : option TlsConfig)
    (quicConf : option QuicConfig) :=
  accept_loop true (quic_ListenAddr N addr config (chooseQuicConf quicConf)).

(** The HTTP server accepts connections and serves their requests, see
    [serveRequests]; Serve itself waits
    for the context, shutting the server down then, or for the HTTP server's
    error, of which ErrServerClosed counts as the end of the context. *)
Definition wsListener_Serve (addr path : gostring) (config : option TlsConfig)
    (l : serve_label) (i : nat) (v : serving) (s : service) : option service :=
  match l, sv_pc v with
  | SListen _, SvListen =>
      Some (match net_Listen N addr with
            | Some err => serve_returns i v (Some err) s
            | None => set_sv i (with_pc SvAccepting (with_ln (Some true) false v)) s
            end)
  | SAccept _, SvAccepting => accept i v s
  | SFail _, SvAccepting =>
      match ctx s, sv_ln v with
      | Some ce, _ => Some (serve_returns i (close_ln v) (Some ce) s)
      | None, Some false => Some (serve_returns i v None s)
      | None, _ => None
      end
  | EAcceptError _ e, SvAccepting => Some (serve_returns i (close_ln v) (Some e) s)
  | EArrive _ c, SvAccepting => arrive i c v s
  | _, _ => None
  end.

(** One step of the Serve call of listener [i]. *)
Definition exec_serve (l : serve_label) (i : nat) (v : serving) (s : service) : option service :=
  match sv_listener v with
  | tcpListener addr => tcpListener_Serve addr l i v s
  | kcpListener addr => kcpListener_Serve addr l i v s
  | tlsListener addr config => tlsListener_Serve addr config l i v s
  | quicListener addr config q => quicListener_Serve addr config q l i v s
  | wsListener addr path config => wsListener_Serve addr path config l i v s
  end.

(** [s.cancel()] of the derived context. *)
Definition cancel_ctx (s : service) : service :=
  mkService (parent s) (match ctx s with Some e => Some e | None => Some context_Canceled end)
    (main s) (errCh s) (svs s) (closes s).

Definition set_main (m : main_pc) (s : service) : service :=
  mkService (parent s) (ctx s) m (errCh s) (svs s) (closes s).

(** ListenAndServeContext: it derives a context and starts a goroutine per
    listener; then its select, with the deferred cancel. *)
Definition exec_main (l : serve_label) (s : service) : option service :=
  match l, main s with
  | EServe, MainNotCalled =>
      Some (mkService (parent s) (parent s) MainSelect [] (svs s) (closes s))
  | SErr, MainSelect =>
      match errCh s with
      | e :: _ => Some (cancel_ctx (set_main (MainReturned e) s))
      | [] => None
      end
  | SParent, MainSelect =>
      match parent s with
      | Some e => Some (cancel_ctx (set_main (MainReturned e) s))
      | None => None
      end
  | ECancel e, m =>
      match parent s with
      | Some _ => None
      | None => Some (mkService (Some e)
          (match m, ctx s with MainNotCalled, c => c | _, Some c => Some c | _, None => Some e end)
          m (errCh s) (svs s) (closes s))
      end
  | _, _ => None
  end.

(** Close up to the listeners: [s.cancel] is the derived context's once
    ListenAndServeContext has stored it, and before that the one NewServer made,
    which nothing uses. *)
Definition exec_Close (s : service) : service :=
  let s := match main s with MainNotCalled => s | _ => cancel_ctx s end in
  mkService (parent s) (ctx s) (main s) (errCh s) (Listener_Close <$> svs s) (S (closes s)).

Definition on_listener (l : serve_label) (i : nat) (s : service) : option service :=
  match svs s !! i, main s with
  | Some v, MainSelect | Some v, MainReturned _ => exec_serve l i v s
  | _, _ => None
  end.

Definition exec_service (l : serve_label) (s : service) : option service :=
  match l with
  | SListen i | SAccept i | SFail i | SWatch i | EArrive i _ | EAcceptError i _ => on_listener l i s
  | SErr | SParent | ECancel _ | EServe => exec_main l s
  | EClose => Some (exec_Close s)
  end.

Definition is_own_serve (l : serve_label) : bool :=
  match l with
  | SListen _ | SAccept _ | SFail _ | SWatch _ | SErr | SParent => true
  | _ => false
  end.

Definition service_step (s s' : service) : Prop := exists l, exec_service l s = Some s'.

Definition own_service_step (s s' : service) : Prop :=
  exists l, is_own_serve l = true /\ exec_service l s = Some s'.

(** The service NewServer makes, before ListenAndServeContext. *)
Definition new_service (o : Options) : service :=
  mkService None None MainNotCalled []
    ((fun l => mkServing l SvListen None false [] [] []) <$> listeners o) 0.

Definition service_reachable (o : Options) (s : service) : Prop :=
  rtc service_step (new_service o) s.

End serve.
