(* ===== verification/ServerListenProps.v ===== *)
(** * ListenAndServe: the theorems

    What arrives is accepted once and in order and gets its handlers, and when the
    caller's context ends, a listener fails or the server is closed, every
    Serve call returns and nothing it opened stays open. *)

From Stdlib Require Import ZArith Lia String.
From stdpp Require Import base list strings gmap numbers relations pretty.
From S2P Require Import Prelude GoTime Transport Store ServerListen.

Local Open Scope Z_scope.

(** ** Serve of any listener *)

Definition is_ws (v : serving) : bool :=
  match sv_listener v with wsListener _ _ _ => true | _ => false end.

Definition is_quic (v : serving) : bool :=
  match sv_listener v with quicListener _ _ _ => true | _ => false end.

Section any.
Context (N : network).

(** The five Serve methods in one definition, by what distinguishes them. *)
Definition Listen (l : Listener) : option error :=
  match l with
  | tcpListener addr => net_Listen N addr
  | kcpListener addr => kcp_Listen N addr
  | tlsListener addr _ => net_Listen N addr
  | quicListener addr config q => quic_ListenAddr N addr config (chooseQuicConf q)
  | wsListener addr _ _ => net_Listen N addr
  end.

Definition serve_any (l : serve_label) (i : nat) (v : serving) (s : service) : option service :=
  match l, sv_pc v with
  | SListen _, SvListen =>
      Some (match Listen (sv_listener v) with
            | Some err => serve_returns i v (Some err) s
            | None => set_sv i (with_pc SvAccepting (with_ln (Some true) (negb (is_ws v)) v)) s
            end)
  | SAccept _, SvAccepting =>
      match sv_ln v, sv_backlog v with
      | Some true, c :: rest =>
          Some (set_sv i (mkServing (sv_listener v) SvAccepting (sv_ln v) (sv_watcher v)
                 (sv_arrived v) rest (sv_started v ++ [c])) s)
      | _, _ => None
      end
  | SFail _, SvAccepting =>
      if is_ws v then
        match ctx s, sv_ln v with
        | Some ce, _ => Some (serve_returns i (close_ln v) (Some ce) s)
        | None, Some false => Some (serve_returns i v None s)
        | None, _ => None
        end
      else
        match sv_ln v, ctx s with
        | Some false, c => Some (serve_returns i v (Some (accept_failed c net_ErrClosed)) s)
        | _, Some ce => if is_quic v then Some (serve_returns i v (Some ce) s) else None
        | _, None => None
        end
  | EAcceptError _ e, SvAccepting =>
      Some (if is_ws v then serve_returns i (close_ln v) (Some e) s
            else serve_returns i v (Some (accept_failed (ctx s) e)) s)
  | SWatch _, _ =>
      match sv_watcher v, ctx s with
      | true, Some _ =>
          if is_ws v then None else Some (set_sv i (with_ln (sv_ln (close_ln v)) false v) s)
      | _, _ => None
      end
  | EArrive _ c, SvAccepting =>
      match sv_ln v, arrival_fits (sv_listener v) c with
      | Some true, true => Some (set_sv i (mkServing (sv_listener v) (sv_pc v) (sv_ln v) (sv_watcher v)
                            (sv_arrived v ++ [c]) (sv_backlog v ++ [c]) (sv_started v)) s)
      | _, _ => None
      end
  | _, _ => None
  end.

Lemma exec_serve_any l i v s : exec_serve N l i v s = serve_any l i v s.
Proof.
  destruct v as [[] pc ln wa arr bl st]; destruct l, pc; try done;
    cbn; unfold accept_failed, watch, accept, arrive; cbn; by repeat case_match.
Qed.

End any.

(** ** The invariant *)

(** One Serve call, given the service it belongs to. *)
Record sv_ok (s : service) (v : serving) : Prop := mkSvOk {
  ok_served : sv_arrived v = sv_started v ++ sv_backlog v;
  ok_fits : Forall (fun a => arrival_fits (sv_listener v) a = true) (sv_arrived v);
  ok_listen : sv_pc v = SvListen -> sv_ln v = None /\ sv_watcher v = false;
  ok_called : sv_pc v <> SvListen -> main s <> MainNotCalled;
  ok_accept : sv_pc v = SvAccepting -> sv_ln v <> None;
  ok_open : sv_pc v = SvAccepting -> ctx s = None -> sv_ln v = Some true;
  ok_returned : forall err, sv_pc v = SvReturned err -> err <> None /\ errCh s <> [];
  ok_ws : is_ws v = true -> sv_watcher v = false /\
    (forall err, sv_pc v = SvReturned err -> sv_ln v <> Some true);
  ok_watcher : is_ws v = false -> sv_watcher v = false -> sv_ln v <> Some true;
}.

Record service_inv (s : service) : Prop := mkServiceInv {
  inv_svs : Forall (sv_ok s) (svs s);
  inv_idle : main s = MainNotCalled -> ctx s = None;
  inv_done : forall e, main s = MainReturned e -> ctx s <> None;
  inv_cause : forall e, main s = MainReturned e -> parent s = Some e \/ head (errCh s) = Some e;
}.

(** Only what a Serve call sees of the rest matters to it, and that only grows. *)
Lemma sv_ok_mono s s' v :
  (main s <> MainNotCalled -> main s' <> MainNotCalled) -> (ctx s <> None -> ctx s' <> None) ->
  (errCh s <> [] -> errCh s' <> []) -> sv_ok s v -> sv_ok s' v.
Proof.
  intros Hm Hc He []. split; auto.
  - intros Hpc Hctx. apply ok_open0; [done|]. destruct (ctx s); [|done]. by destruct Hc.
  - intros err Hr. destruct (ok_returned0 err Hr). auto.
Qed.

Section props.
Context (N : network).

Lemma inv_set_sv i v' s :
  service_inv s -> sv_ok s v' -> service_inv (set_sv i v' s).
Proof.
  intros [] Hv. split; cbn; try done. apply Forall_insert; [|by apply (sv_ok_mono s)].
  eapply Forall_impl; [exact inv_svs0|]. intros w. by apply sv_ok_mono.
Qed.

(** [v'] is [v], possibly with its listener closed. *)
Lemma inv_returns i v v' e s :
  service_inv s -> sv_ok s v -> main s <> MainNotCalled -> v' = v \/ v' = close_ln v ->
  (is_ws v = true -> sv_ln v' <> Some true) -> service_inv (serve_returns i v' (Some e) s).
Proof.
  intros [] Hv Hm Hv' Hws. split; cbn; try done.
  - apply Forall_insert.
    + eapply Forall_impl; [exact inv_svs0|]. intros w. apply sv_ok_mono; cbn; try done.
      by destruct (errCh s).
    + assert (He : errCh s ++ [e] <> []) by (by destruct (errCh s)).
      destruct Hv. unfold close_ln in *. destruct v as [l pc ln w arr bl st]. cbn in *.
      destruct Hv' as [-> | ->]; [|destruct ln]; split; cbn; try done; try (by intros err [= <-]).
      all: intros Hw; split; [by apply ok_ws0|]; intros _ _; by apply Hws.
  - intros e' He'. destruct (inv_cause0 e' He') as [?|Hh]; [by left|right]. by destruct (errCh s).
Qed.

Lemma sv_ok_close s v : sv_ok s v -> (ctx s <> None \/ sv_pc v = SvListen) -> sv_ok s (close_ln v).
Proof.
  intros Hv Hc. unfold close_ln. destruct (sv_ln v) as [b|] eqn:Hl; [|done].
  destruct Hv. split; cbn; try done.
  - intros Hpc. destruct (ok_listen0 Hpc). congruence.
  - intros Hpc Hctx. destruct Hc; congruence.
  - intros Hw. split; [by apply ok_ws0|done].
Qed.

(** Each clause by cases on what the Serve call looks like. *)
Local Ltac serve_clauses Hok :=
  destruct Hok; split; cbn in *; intros; subst; try done;
  repeat match goal with
         | H : ?P -> _, H' : ?P |- _ => specialize (H H')
         | H : ?x = ?x -> _ |- _ => specialize (H eq_refl)
         | H : _ /\ _ |- _ => destruct H
         end; try done; try congruence; auto.

Lemma exec_serve_inv l i v s s' :
  service_inv s -> svs s !! i = Some v -> main s <> MainNotCalled ->
  exec_serve N l i v s = Some s' -> service_inv s'.
Proof.
  intros Hi Hv Hm He. pose proof (Forall_lookup_1 _ _ _ _ (inv_svs s Hi) Hv) as Hok. clear Hv.
  destruct v as [lst pc ln wa arr bl st]. rewrite exec_serve_any in He. unfold serve_any, is_ws, is_quic in He. cbn in He.
  destruct l; try done; destruct pc; try done; cbn in He.
  - (* SListen *)
    destruct (ok_listen _ _ Hok eq_refl) as [Hln Hwa]. cbn in Hln, Hwa. subst ln wa.
    destruct (Listen N lst) as [err|]; injection He as <-.
    + eapply inv_returns; [done|exact Hok|done|by left|done].
    + apply inv_set_sv; [done|]. unfold is_ws. cbn. destruct lst; serve_clauses Hok.
  - (* SAccept *)
    destruct ln as [[]|]; try done. destruct bl as [|c rest]; [done|]. injection He as <-.
    apply inv_set_sv; [done|]. destruct Hok. split; try done. cbn in *.
    by rewrite ok_served0, <- app_assoc.
  - (* SFail *)
    destruct (match lst with wsListener _ _ _ => true | _ => false end) eqn:Hw.
    + destruct (ctx s) as [ce|] eqn:Hc.
      * injection He as <-. eapply inv_returns; [done|exact Hok|done|by right|by destruct ln].
      * pose proof (ok_open _ _ Hok eq_refl Hc) as Hopen. cbn in Hopen. by subst ln.
    + destruct ln as [[]|].
      * destruct (ctx s) as [ce|]; [|done]. destruct lst; try done. injection He as <-.
        eapply inv_returns; [done|exact Hok|done|by left|done].
      * injection He as <-. eapply inv_returns; [done|exact Hok|done|by left|by intros _].
      * by destruct (ok_accept _ _ Hok eq_refl).
  - (* SWatch, before listening *)
    destruct (ok_listen _ _ Hok eq_refl) as [_ Hwa]. cbn in Hwa. by subst wa.
  - (* SWatch *)
    destruct wa; [|done]. destruct (ctx s) as [ce|] eqn:Hc; [|done].
    destruct (match lst with wsListener _ _ _ => true | _ => false end) eqn:Hw; [done|]. injection He as <-.
    apply inv_set_sv; [done|]. destruct ln as [b|]; [|by destruct (ok_accept _ _ Hok eq_refl)].
    unfold close_ln. cbn. serve_clauses Hok.
  - destruct wa; [|done]. destruct (ctx s) as [ce|] eqn:Hc; [|done].
    destruct (match lst with wsListener _ _ _ => true | _ => false end) eqn:Hw; [done|]. injection He as <-.
    apply inv_set_sv; [done|]. destruct ln as [b|]; unfold close_ln; cbn; serve_clauses Hok.
  - (* EArrive *)
    destruct ln as [[]|]; try done. destruct (arrival_fits lst _) eqn:Hfit; [|done].
    injection He as <-. apply inv_set_sv; [done|]. destruct Hok. split; try done; cbn in *.
    + by rewrite ok_served0, app_assoc.
    + apply Forall_app_2; [done|by constructor].
  - (* EAcceptError *)
    injection He as <-. destruct (match lst with wsListener _ _ _ => true | _ => false end) eqn:Hw.
    + eapply inv_returns; [done|exact Hok|done|by right|by destruct ln].
    + eapply inv_returns; [done|exact Hok|done|by left|]. unfold is_ws. cbn. congruence.
Qed.

Lemma exec_main_inv l s s' : service_inv s -> exec_main l s = Some s' -> service_inv s'.
Proof.
  intros [] He. unfold exec_main in He. destruct l; try done.
  - destruct (main s) eqn:Hm; try done. destruct (errCh s) as [|e es] eqn:Hes; [done|].
    injection He as <-. split; cbn; try done.
    + eapply Forall_impl; [exact inv_svs0|]. intros w. apply sv_ok_mono; cbn; try done.
      by destruct (ctx s).
    + intros _ _. by destruct (ctx s).
    + intros e' [= <-]. right. by rewrite Hes.
  - destruct (main s) eqn:Hm; try done. destruct (parent s) as [e|] eqn:Hp; [|done].
    injection He as <-. split; cbn; try done.
    + eapply Forall_impl; [exact inv_svs0|]. intros w. apply sv_ok_mono; cbn; try done.
      by destruct (ctx s).
    + intros _ _. by destruct (ctx s).
    + intros e' [= <-]. by left.
  - destruct (parent s) as [e'|] eqn:Hp; [done|].
    assert (exists c, s' = mkService (Some e) c (main s) (errCh s) (svs s) (closes s) /\
      (ctx s <> None -> c <> None) /\ (main s = MainNotCalled -> c = ctx s)) as (c & -> & Hc & Hn).
    { injection He as <-. eexists. split; [reflexivity|]. by destruct (main s), (ctx s). }
    split; cbn.
    + eapply Forall_impl; [exact inv_svs0|]. intros w. by apply sv_ok_mono.
    + intros Hm. rewrite Hn; auto.
    + intros e' He'. apply Hc. by eapply inv_done0.
    + intros e' He'. destruct (inv_cause0 e' He') as [?|?]; [congruence|by right].
  - destruct (main s) eqn:Hm; try done. injection He as <-. split; cbn; try done.
    rewrite Forall_forall in *. intros v Hv. specialize (inv_svs0 v Hv).
    assert (Hpc : sv_pc v = SvListen).
    { destruct (sv_pc v) eqn:Hpc; [done|..]; by destruct (ok_called _ _ inv_svs0); rewrite ?Hpc. }
    destruct inv_svs0. split; try done; congruence.
Qed.

Lemma exec_Close_inv s : service_inv s -> service_inv (exec_Close s).
Proof.
  intros Hi. unfold exec_Close.
  assert (Hc : service_inv (match main s with MainNotCalled => s | _ => cancel_ctx s end)).
  { destruct (main s) eqn:Hm; [done|..]; destruct Hi; split; cbn; try congruence; try exact inv_cause0.
    all: try (intros ? _; by destruct (ctx s)).
    all: eapply Forall_impl; [exact inv_svs0|]; intros w; apply sv_ok_mono; cbn; try done;
      by destruct (ctx s). }
  set (t := match main s with MainNotCalled => s | _ => cancel_ctx s end) in *.
  assert (Ht : main t = MainNotCalled \/ ctx t <> None).
  { subst t. destruct (main s) eqn:Hm; [by left|right..]; cbn; by destruct (ctx s). }
  destruct Hc. split; cbn; try done. apply Forall_fmap. eapply Forall_impl; [exact inv_svs0|].
  intros v Hv. apply (sv_ok_mono t); try done. rewrite Listener_Close_ln. apply sv_ok_close; [done|].
  destruct Ht as [Hm|]; [right|by left].
  destruct (sv_pc v) eqn:Hpc; [done|..]; by destruct (ok_called _ _ Hv); rewrite ?Hpc.
Qed.

Lemma exec_service_inv l s s' : service_inv s -> exec_service N l s = Some s' -> service_inv s'.
Proof.
  intros Hi He.
  assert (Hon : forall i, on_listener N l i s = Some s' -> service_inv s').
  { intros i Ho. unfold on_listener in Ho. destruct (svs s !! i) as [v|] eqn:Hv; [|done].
    destruct (main s) eqn:Hm; [done|..]; (eapply exec_serve_inv; [done|exact Hv|congruence|exact Ho]). }
  destruct l; cbn [exec_service] in He; try (by eapply Hon); try (by eapply exec_main_inv).
  injection He as <-. by apply exec_Close_inv.
Qed.

Lemma new_service_inv o : service_inv (new_service o).
Proof.
  split; try done. cbn. apply Forall_fmap, Forall_true. intros l. split; cbn; try done.
Qed.

Lemma service_reachable_inv o s : service_reachable N o s -> service_inv s.
Proof.
  unfold service_reachable. apply (rtc_ind_r service_inv); [apply new_service_inv|].
  intros x y _ [l He] Hi. by eapply exec_service_inv.
Qed.

(** The listeners are those of the options. *)
Lemma exec_service_length l s s' : exec_service N l s = Some s' -> length (svs s') = length (svs s).
Proof.
  intros He.
  assert (Hon : forall i, on_listener N l i s = Some s' -> length (svs s') = length (svs s)).
  { intros i Ho. unfold on_listener in Ho. destruct (svs s !! i) as [v|] eqn:Hv; [|done].
    assert (Hx : exec_serve N l i v s = Some s') by (by destruct (main s)). clear Ho.
    rewrite exec_serve_any in Hx. unfold serve_any in Hx. repeat (case_match; try done); simplify_eq/=; by rewrite length_insert. }
  destruct l; cbn [exec_service] in He; try (by eapply Hon);
    try (unfold exec_main in He; repeat (case_match; try done); by simplify_eq/=).
  injection He as <-. unfold exec_Close. cbn. rewrite length_fmap. by destruct (main s).
Qed.

(** ** Coming to rest *)

Definition sv_weight (v : serving) : nat :=
  (match sv_pc v with SvListen => 4 | SvAccepting => 2 | SvReturned _ => 0 end) +
  Nat.b2n (sv_watcher v) + length (sv_backlog v).

Definition main_weight (m : main_pc) : nat :=
  match m with MainNotCalled => 2 | MainSelect => 1 | MainReturned _ => 0 end.

Definition service_weight (s : service) : nat :=
  main_weight (main s) + sum_list (sv_weight <$> svs s).

Lemma insert_weight i v v' l : l !! i = Some v -> (sv_weight v' < sv_weight v)%nat ->
  (sum_list (sv_weight <$> <[i:=v']> l) < sum_list (sv_weight <$> l))%nat.
Proof.
  intros Hi Hw. revert i Hi. induction l as [|x l IH]; intros [|i] Hi; simplify_eq/=; [lia|].
  specialize (IH i Hi). lia.
Qed.

Lemma own_service_step_weight s s' :
  service_inv s -> own_service_step N s s' -> (service_weight s' < service_weight s)%nat.
Proof.
  intros Hi (l & Hl & He).
  assert (Hon : forall i, on_listener N l i s = Some s' -> (service_weight s' < service_weight s)%nat).
  { intros i Ho. unfold on_listener in Ho. destruct (svs s !! i) as [v|] eqn:Hv; [|done].
    pose proof (Forall_lookup_1 _ _ _ _ (inv_svs s Hi) Hv) as Hok.
    assert (Hx : exec_serve N l i v s = Some s') by (by destruct (main s)). clear Ho.
    enough (exists v', main s' = main s /\ svs s' = <[i := v']> (svs s) /\
      (sv_weight v' < sv_weight v)%nat) as (v' & Hm & Hs & Hw).
    { unfold service_weight. rewrite Hm, Hs. pose proof (insert_weight i v v' _ Hv Hw). lia. }
    destruct v as [lst pc ln wa arr bl st]. rewrite exec_serve_any in Hx. unfold serve_any, close_ln, sv_weight in *. cbn in Hx.
    destruct l; try discriminate Hl; try done; cbn in Hx; repeat (case_match; try done); simplify_eq/=;
      eexists; (split; [reflexivity|split; [reflexivity|]]); cbn;
      try (destruct (ok_listen _ _ Hok eq_refl) as [_ Hwa]; cbn in Hwa; subst wa; cbn);
      try lia; unfold close_ln; cbn; repeat case_match; cbn; try lia.
    destruct (is_ws _); cbn; lia. }
  destruct l; cbn [exec_service] in He; try discriminate Hl; try (by eapply Hon);
    unfold exec_main in He; repeat (case_match; try done); simplify_eq/=;
    unfold service_weight; cbn; rewrite ?H; cbn; try lia.
Qed.
(** ** What is left when nothing can move *)

Definition serving_on (v : serving) : Prop :=
  sv_pc v = SvAccepting /\ sv_ln v = Some true /\ sv_started v = sv_arrived v.

Definition served_out (v : serving) : Prop :=
  (exists err, sv_pc v = SvReturned (Some err)) /\ sv_ln v <> Some true /\ sv_watcher v = false.

Section stuck.
Context (s : service) (Hi : service_inv s) (Hcalled : main s <> MainNotCalled).
Context (Hst : forall l, is_own_serve l = true -> exec_service N l s = None).

Lemma stuck_serve l i v : is_own_serve l = true -> svs s !! i = Some v ->
  (l = SListen i \/ l = SAccept i \/ l = SFail i \/ l = SWatch i) -> exec_serve N l i v s = None.
Proof.
  intros Hl Hv Hc. specialize (Hst l Hl).
  assert (on_listener N l i s = None) as Ho by (destruct Hc as [->|[->|[->| ->]]]; exact Hst).
  unfold on_listener in Ho. rewrite Hv in Ho. by destruct (main s).
Qed.

Lemma stuck_v i v : svs s !! i = Some v ->
  match ctx s with Some _ => served_out v | None => serving_on v \/ errCh s <> [] end.
Proof.
  intros Hv. pose proof (Forall_lookup_1 _ _ _ _ (inv_svs s Hi) Hv) as Hok.
  pose proof (stuck_serve (SListen i) i v eq_refl Hv ltac:(auto)) as H1.
  pose proof (stuck_serve (SAccept i) i v eq_refl Hv ltac:(auto)) as H2.
  pose proof (stuck_serve (SFail i) i v eq_refl Hv ltac:(auto)) as H3.
  pose proof (stuck_serve (SWatch i) i v eq_refl Hv ltac:(auto)) as H4.
  destruct v as [lst pc ln wa arr bl st]. rewrite exec_serve_any in H1, H2, H3, H4.
  unfold serve_any in *. cbn in *. destruct pc as [| |err]; [done| |].
  - destruct (ctx s) as [ce|] eqn:Hc.
    + destruct (is_ws _) eqn:Hw; [done|]. destruct wa; [done|].
      pose proof (ok_watcher _ _ Hok Hw eq_refl) as Hn. cbn in Hn.
      destruct ln as [[]|]; [done..|by destruct (ok_accept _ _ Hok eq_refl)].
    + left. pose proof (ok_open _ _ Hok eq_refl Hc) as Hln. cbn in Hln. subst ln.
      destruct bl as [|c bl]; [|done]. split; [done|split; [done|]]. cbn.
      pose proof (ok_served _ _ Hok) as Hs. cbn in Hs. by rewrite app_nil_r in Hs.
  - destruct (ok_returned _ _ Hok err eq_refl) as [He Hes].
    destruct (ctx s) as [ce|] eqn:Hc; [|by right].
    assert (wa = false) as ->.
    { destruct wa; [|done]. destruct (is_ws _) eqn:Hw; [|done]. by destruct (ok_ws _ _ Hok Hw). }
    split; [destruct err as [e|]; [by exists e|done]|]. split; [|done]. cbn.
    destruct (is_ws (mkServing lst (SvReturned err) ln false arr bl st)) eqn:Hw.
    + destruct (ok_ws _ _ Hok Hw) as [_ Hn]. by apply (Hn err).
    + by apply (ok_watcher _ _ Hok Hw).
Qed.

Lemma stuck_main : svs s <> [] ->
  match main s with
  | MainNotCalled => True
  | MainSelect => ctx s = None /\ Forall serving_on (svs s)
  | MainReturned e => Forall served_out (svs s)
  end.
Proof.
  intros Hne. pose proof (Hst SErr eq_refl) as He. cbn in He.
  assert (Hv : forall i v, svs s !! i = Some v ->
    match ctx s with Some _ => served_out v | None => serving_on v \/ errCh s <> [] end) by apply stuck_v.
  clear Hst. destruct (main s) eqn:Hm; [done| |].
  - destruct (errCh s) as [|e es] eqn:Hes; [|done].
    destruct (ctx s) as [ce|] eqn:Hc.
    + exfalso. destruct (svs s) as [|v vs] eqn:Hs; [done|].
      destruct (Hv 0%nat v eq_refl) as [[err Hpc] _].
      assert (Hok : sv_ok s v) by (apply (Forall_lookup_1 _ _ 0%nat _ (inv_svs s Hi)); by rewrite Hs).
      by destruct (ok_returned _ _ Hok _ Hpc).
    + split; [done|]. apply Forall_lookup. intros i v Hl. pose proof (Hv i v Hl) as Hx.
      by destruct Hx.
  - apply Forall_lookup. intros i v Hl. pose proof (Hv i v Hl) as Hx.
    pose proof (inv_done s Hi err Hm) as Hc. by destruct (ctx s).
Qed.

End stuck.

(** The options NewServer completes have a listener. *)
Lemma NewServer_listeners o : listeners (NewServer o) <> [].
Proof. unfold NewServer. cbn. by destruct (listeners (default NewServerOptions o)). Qed.

Lemma reachable_listeners o s : service_reachable N o s -> length (svs s) = length (listeners o).
Proof.
  unfold service_reachable. apply (rtc_ind_r (fun s => length (svs s) = length (listeners o))).
  - cbn. by rewrite length_fmap.
  - intros x y _ [l He] Hl. rewrite <- Hl. by eapply exec_service_length.
Qed.

(** ** Handlers *)

Definition is_stream (v : serving) : bool :=
  match sv_listener v with tcpListener _ | kcpListener _ | tlsListener _ _ => true | _ => false end.

(** A listener of plain connections starts one handler for each it accepts. *)
Lemma stream_handlers v :
  is_stream v = true -> Forall (fun a => arrival_fits (sv_listener v) a = true) (sv_started v) ->
  ArrConn <$> sv_handlers N v = sv_started v.
Proof.
  unfold is_stream, sv_handlers. intros Hv. induction 1 as [|a st Ha _ IH]; [done|].
  cbn [mbind list_bind]. rewrite fmap_app, IH. destruct (sv_listener v), a; done.
Qed.

(** A Serve call that has returned accepts nothing any more. *)
Lemma returned_for_good i v err s s' :
  svs s !! i = Some v -> sv_pc v = SvReturned err -> rtc (service_step N) s s' ->
  exists v', svs s' !! i = Some v' /\ sv_listener v' = sv_listener v /\ sv_started v' = sv_started v.
Proof.
  intros Hv Hpc Hr. enough (exists v', svs s' !! i = Some v' /\ sv_pc v' = SvReturned err /\
    sv_listener v' = sv_listener v /\ sv_started v' = sv_started v) as (v' & ? & _ & ? & ?) by eauto.
  revert Hv. revert Hr. apply (rtc_ind_r (fun s' => svs s !! i = Some v -> exists v', svs s' !! i = Some v' /\
    sv_pc v' = SvReturned err /\ sv_listener v' = sv_listener v /\ sv_started v' = sv_started v)); [by exists v|].
  intros y z _ [l He] IH Hv. destruct (IH Hv) as (w & Hw & Hwp & Hwl & Hws). clear IH.
  assert (Hon : forall j, on_listener N l j y = Some z -> exists v', svs z !! i = Some v' /\
    sv_pc v' = SvReturned err /\ sv_listener v' = sv_listener v /\ sv_started v' = sv_started v).
  { intros j Ho. unfold on_listener in Ho. destruct (svs y !! j) as [u|] eqn:Hu; [|done].
    assert (Hx : exec_serve N l j u y = Some z) by (by destruct (main y)). clear Ho.
    rewrite exec_serve_any in Hx. destruct (decide (j = i)) as [->|Hne].
    - rewrite Hw in Hu. injection Hu as <-. pose proof (lookup_lt_Some _ _ _ Hw) as Hlt.
      unfold serve_any in Hx. rewrite Hwp in Hx. destruct l; try done.
      repeat (case_match; try done). simplify_eq. cbn. exists (with_ln (sv_ln (close_ln w)) false w).
      by rewrite list_lookup_insert_eq.
    - exists w. split; [|done]. rewrite <- Hw. unfold serve_any in Hx.
      repeat (case_match; try done); simplify_eq/=; by apply list_lookup_insert_ne. }
  destruct l; cbn [exec_service] in He; try (by eapply Hon);
    try (unfold exec_main in He; repeat (case_match; try done); simplify_eq/=; by exists w).
  injection He as <-. exists (close_ln w). unfold exec_Close. cbn.
  assert (Hsv : svs match main y with MainNotCalled => y | _ => cancel_ctx y end = svs y) by (by destruct (main y)).
  rewrite Hsv, list_lookup_fmap, Hw. cbn. rewrite Listener_Close_ln. split; [done|].
  unfold close_ln. by destruct (sv_ln w).
Qed.


(** Close before ListenAndServe has begun is lost: Close has returned, but the
    ListenAndServeContext call that starts after it comes to rest with its
    listener open and goes on serving. *)
Theorem close_before_serve_lost :
  net_Listen N (go_bytes ":18883") = None ->
  exists s, service_reachable N (NewServer None) s /\ closes s = 1%nat /\ main s = MainSelect /\
    nf (own_service_step N) s /\ svs s <> [] /\ Forall serving_on (svs s).
Proof.
  intros Hl.
  exists (mkService None None MainSelect []
    [mkServing (NewTCPListener (go_bytes ":18883")) SvAccepting (Some true) true [] [] []] 1).
  split; [|split; [done|split; [done|split; [|split; [done|]]]]].
  - assert (Hnew : new_service (NewServer None) = mkService None None MainNotCalled []
      [mkServing (NewTCPListener (go_bytes ":18883")) SvListen None false [] [] []] 0)
      by (vm_compute; reflexivity).
    unfold service_reachable. rewrite Hnew.
    eapply rtc_l; [exists EClose; reflexivity|]. eapply rtc_l; [exists EServe; reflexivity|].
    apply rtc_once. exists (SListen 0). cbn in Hl |- *. by rewrite Hl.
  - intros [s (l & Hown & He)]. destruct l as [[|i]|[|i]|[|i]|[|i]| | | | | | |]; done.
  - repeat constructor.
Qed.
End props.

(** ** Witnesses *)

(** Ports can be bound, except 1; the mux matches its pattern only. *)
Definition demo_network : network :=
  mkNetwork (fun a => if bool_decide (a = go_bytes ":1") then Some (Errorf "bind") else None)
    (fun _ => None) (fun _ _ _ => None) (fun pattern path => bool_decide (path = pattern)).

Definition demo_server_options : Options :=
  AddListener (NewQUICListener (go_bytes ":18885") None)
    (AddListener (NewWSListener (go_bytes ":18886") []) (AddListener (NewTCPListener (go_bytes ":1"))
      (AddListener (NewTCPListener (go_bytes ":18883")) NewServerOptions))).

(** A QUIC session with two streams. *)
Definition demo_session : arrival := ArrSession [inr 8%nat; inr 9%nat; inl io_EOF].

(** An HTTP connection whose second request is for the upgrade path. *)
Definition demo_http : arrival :=
  ArrHTTP [mkRequest (go_bytes "/") None; mkRequest (go_bytes "/rmtt") (Some 10%nat)].

(** Before the second listener fails, two connections arrive on the first, one of which is
    accepted, and the others get a session and an HTTP connection. *)
Definition demo_serving : list serve_label :=
  [EServe; SListen 0; SListen 2; SListen 3; EArrive 0 (ArrConn 7); EArrive 2 demo_http; EArrive 3 demo_session;
   SAccept 0; SAccept 2; SAccept 3; EArrive 0 (ArrConn 6); SListen 1; SErr;
   SWatch 0; SWatch 3; SFail 0; SFail 2; SFail 3].

Fixpoint service_run (N : network) (ls : list serve_label) (s : service) : option service :=
  match ls with
  | [] => Some s
  | l :: ls => match exec_service N l s with Some s' => service_run N ls s' | None => None end
  end.

Lemma service_run_steps N ls s s' : service_run N ls s = Some s' -> rtc (service_step N) s s'.
Proof.
  revert s. induction ls as [|l ls IH]; cbn; intros s Hs; [simplify_eq; apply rtc_refl|].
  destruct (exec_service N l s) as [t|] eqn:Ht; [|done]. eapply rtc_l; [by exists l|by apply IH].
Qed.

Definition demo_served : service := default (new_service demo_server_options)
  (service_run demo_network demo_serving (new_service (NewServer (Some demo_server_options)))).

