(* ===== verification/Logging.v ===== *)
(** * Logging

    client/log.go and server/log.go, which have the same code: four package-level
    loggers and their setters.  A Logger interface value is [None] when it is
    nil; calling a method of a nil interface panics. *)

From Stdlib Require Import ZArith Lia String.
From stdpp Require Import base list strings numbers.
From S2P Require Import Prelude.

(** [L] is the type of the loggers an application may install. *)
Inductive Logger (L : Type) : Type := NOOPLogger | Installed (l : L).

Arguments NOOPLogger {L}.
Arguments Installed {L}.

Inductive level : Type := LevelError | LevelInfo | LevelWarn | LevelDebug.

#[global] Instance level_eq_dec : EqDecision level.
Proof. solve_decision. Defined.

Record loggers (L : Type) : Type := mkLoggers {
  ERROR : option (Logger L);
  INFO : option (Logger L);
  WARN : option (Logger L);
  DEBUG : option (Logger L);
}.

Arguments mkLoggers {L}.
Arguments ERROR {L}.
Arguments INFO {L}.
Arguments WARN {L}.
Arguments DEBUG {L}.

Section logging.
Context {L : Type}.
Implicit Types s : loggers L.

(** The package variables' initial values. *)
Definition initial_loggers : loggers L :=
  mkLoggers (Some NOOPLogger) (Some NOOPLogger) (Some NOOPLogger) (Some NOOPLogger).

(** [if logger == nil { logger = NOOPLogger{} }] *)
Definition or_noop (logger : option (Logger L)) : option (Logger L) :=
  match logger with
  | None => Some NOOPLogger
  | Some l => Some l
  end.

Definition SetLogger (logger : option (Logger L)) s : loggers L :=
  let logger := or_noop logger in mkLoggers logger logger logger logger.

Definition SetDebugLogger (logger : option (Logger L)) s : loggers L :=
  mkLoggers (ERROR s) (INFO s) (WARN s) (or_noop logger).

Definition SetInfoLogger (logger : option (Logger L)) s : loggers L :=
  mkLoggers (ERROR s) (or_noop logger) (WARN s) (DEBUG s).

Definition SetWarnLogger (logger : option (Logger L)) s : loggers L :=
  mkLoggers (ERROR s) (INFO s) (or_noop logger) (DEBUG s).

Definition SetErrorLogger (logger : option (Logger L)) s : loggers L :=
  mkLoggers (or_noop logger) (INFO s) (WARN s) (DEBUG s).

(** A call of Println or Printf at a level: the logger that gets the message,
    [None] when the call panics. *)
Inductive sink : Type := Discarded | Logged (l : L).

Definition Println (v : level) s : option sink :=
  match (match v with LevelError => ERROR s | LevelInfo => INFO s
                    | LevelWarn => WARN s | LevelDebug => DEBUG s end) with
  | None => None
  | Some NOOPLogger => Some Discarded
  | Some (Installed l) => Some (Logged l)
  end.

(** One call of a setter: for all levels, or for one. *)
Definition set_logger (c : option level * option (Logger L)) s : loggers L :=
  match c.1 with
  | None => SetLogger c.2 s
  | Some LevelDebug => SetDebugLogger c.2 s
  | Some LevelInfo => SetInfoLogger c.2 s
  | Some LevelWarn => SetWarnLogger c.2 s
  | Some LevelError => SetErrorLogger c.2 s
  end.

(** The specification: the last call that concerns the level decides. *)
Fixpoint chosen (v : level) (calls : list (option level * option (Logger L))) : sink :=
  match calls with
  | [] => Discarded
  | (v', logger) :: earlier =>
      if decide (v' = None \/ v' = Some v)
      then match logger with Some (Installed l) => Logged l | _ => Discarded end
      else chosen v earlier
  end.

(** Logging never panics, whatever the application installs: after any
    sequence of setter calls, nil loggers included, a message of a level goes to
    the logger the last call that concerns its level installed, and is discarded
    when that was nil or there was none. *)
Theorem logging_never_panics (v : level) (calls : list (option level * option (Logger L))) :
  Println v (fold_right set_logger initial_loggers calls) = Some (chosen v calls).
Proof.
  induction calls as [|[v' logger] calls IH]; cbn [fold_right chosen]; [by destruct v|].
  destruct v' as [v'|]; cbn.
  - destruct (decide (Some v' = None \/ Some v' = Some v)) as [[|[= ->]]|Hne]; [done| |].
    + destruct v; cbn; by destruct logger as [[]|].
    + rewrite <- IH. destruct v, v'; try done; exfalso; naive_solver.
  - rewrite decide_True by auto. destruct v; cbn; by destruct logger as [[]|].
Qed.

End logging.

(** ** The two packages

    client/log.go and server/log.go each have their own four variables and setters
    with the same bodies; a program that uses both has both sets. *)

Record packages (L : Type) : Type := mkPackages {
  client_log : loggers L;
  server_log : loggers L;
}.

Arguments mkPackages {L}.
Arguments client_log {L}.
Arguments server_log {L}.

Section packages.
Context {L : Type}.
Implicit Types p : packages L.

Definition server_Logger : Type := Logger L.

Definition server_initial_loggers : loggers L :=
  mkLoggers (Some NOOPLogger) (Some NOOPLogger) (Some NOOPLogger) (Some NOOPLogger).

Definition server_SetLogger (logger : option server_Logger) p : packages L :=
  mkPackages (client_log p) (SetLogger logger (server_log p)).

Definition server_SetDebugLogger (logger : option server_Logger) p : packages L :=
  mkPackages (client_log p) (SetDebugLogger logger (server_log p)).

Definition server_SetInfoLogger (logger : option server_Logger) p : packages L :=
  mkPackages (client_log p) (SetInfoLogger logger (server_log p)).

Definition server_SetWarnLogger (logger : option server_Logger) p : packages L :=
  mkPackages (client_log p) (SetWarnLogger logger (server_log p)).

Definition server_SetErrorLogger (logger : option server_Logger) p : packages L :=
  mkPackages (client_log p) (SetErrorLogger logger (server_log p)).

(** A call of a setter of the server's package, or ([true]) of the client's. *)
Definition set_package (c : bool * (option level * option (Logger L))) p : packages L :=
  match c with
  | (true, c) => mkPackages (set_logger c (client_log p)) (server_log p)
  | (false, (None, l)) => server_SetLogger l p
  | (false, (Some LevelDebug, l)) => server_SetDebugLogger l p
  | (false, (Some LevelInfo, l)) => server_SetInfoLogger l p
  | (false, (Some LevelWarn, l)) => server_SetWarnLogger l p
  | (false, (Some LevelError, l)) => server_SetErrorLogger l p
  end.

(** The calls, newest first, that concern one package. *)
Definition calls_of (client : bool) (calls : list (bool * (option level * option (Logger L)))) :=
  (List.filter (fun c => Bool.eqb c.1 client) calls).*2.

(** The packages do not touch each other's loggers: each ends with what its own
    calls alone would have made of it. *)
Theorem packages_independent (calls : list (bool * (option level * option (Logger L)))) :
  let p := fold_right set_package (mkPackages initial_loggers server_initial_loggers) calls in
  client_log p = fold_right set_logger initial_loggers (calls_of true calls) /\
  server_log p = fold_right set_logger initial_loggers (calls_of false calls).
Proof.
  cbn zeta. unfold calls_of.
  induction calls as [|[[] [v l]] calls [IHc IHs]]; [done|..]; cbn [fold_right List.filter fst Bool.eqb fmap list_fmap snd].
  - cbn. by rewrite IHc, IHs.
  - destruct v as [[]|]; cbn; by rewrite <- ?IHc, <- ?IHs.
Qed.

End packages.
