(* ===== verification/Status.v ===== *)
(** * Client: the connection status machine

    client/status.go.  [connectionStatus] is shared by all goroutines of a
    client; its methods hand out completion functions that must be called once.
    The state keeps Go's channels by identity: [actionCompleted] may be nil,
    closing a nil or closed channel panics, receiving from a nil channel blocks
    forever and receiving from a closed one returns.  A goroutine is at one
    [thread] point; a point is the code between two places where the lock is
    released for good or a channel is waited for. *)

From Stdlib Require Import ZArith Lia String.
From stdpp Require Import base list strings gmap numbers relations.
From S2P Require Import Prelude.

Abbreviation chan := nat (only parsing).

(** ** Data *)

Inductive status : Type := disconnected | disconnecting | connecting | reconnecting | connected.

#[global] Instance status_eq_dec : EqDecision status.
Proof. solve_decision. Defined.

Definition status_String (s : status) : string :=
  match s with
  | disconnected => "disconnected"
  | disconnecting => "disconnecting"
  | connecting => "connecting"
  | reconnecting => "reconnecting"
  | connected => "connected"
  end.

Definition errAbortConnection : error :=
  Sentinel "errAbortConnection" "disconnect called whist connection attempt in progress".
Definition errAlreadyConnectedOrReconnecting : error :=
  Sentinel "errAlreadyConnectedOrReconnecting" "status is already connected or reconnecting".
Definition errStatusMustBeDisconnected : error :=
  Sentinel "errStatusMustBeDisconnected" "status can only transition to connecting from disconnected".
Definition errAlreadyDisconnected : error :=
  Sentinel "errAlreadyDisconnected" "status is already disconnected".
Definition errDisconnectionRequested : error :=
  Sentinel "errDisconnectionRequested" "disconnection was requested whilst the action was in progress".
Definition errDisconnectionInProgress : error :=
  Sentinel "errDisconnectionInProgress" "disconnection already in progress".

(** The channels made so far are those below [made]. *)
Record connectionStatus : Type := mkStatus {
  st : status;
  willReconnect : bool;
  actionCompleted : option chan;
  made : chan;
  closed : gset chan;
}.

Definition set_status (s : status) (c : connectionStatus) : connectionStatus :=
  mkStatus s (willReconnect c) (actionCompleted c) (made c) (closed c).

Definition set_willReconnect (b : bool) (c : connectionStatus) : connectionStatus :=
  mkStatus (st c) b (actionCompleted c) (made c) (closed c).

(** The readers, each under the read lock. *)
Definition ConnectionStatus (c : connectionStatus) : status := st c.

Definition ConnectionStatusRetry (c : connectionStatus) : status * bool := (st c, willReconnect c).

(** Whatever is under way; only tests call it. *)
Definition forceConnectionStatus (s : status) (c : connectionStatus) : connectionStatus := set_status s c.

(** [c.actionCompleted = make(chan struct{})] *)
Definition make_action (c : connectionStatus) : connectionStatus :=
  mkStatus (st c) (willReconnect c) (Some (made c)) (S (made c)) (closed c).

(** [close(c.actionCompleted); c.actionCompleted = nil]; [None] is the panic. *)
Definition close_action (c : connectionStatus) : option connectionStatus :=
  match actionCompleted c with
  | Some ch =>
      if decide (ch ∈ closed c) then None
      else Some (mkStatus (st c) (willReconnect c) None (made c) ({[ch]} ∪ closed c))
  | None => None
  end.

(** [<-ch] can proceed. *)
Definition receivable (ch : option chan) (c : connectionStatus) : bool :=
  match ch with Some ch => bool_decide (ch ∈ closed c) | None => false end.

(** ** Goroutines *)

Inductive thread : Type :=
| CallConnecting                                       (* about to call Connecting *)
| ConnectedFn                                          (* holds c.connected *)
| CallDisconnecting                                    (* about to call Disconnecting *)
| DisconnectingWait (ch : option chan)                 (* <-disConnectDone *)
| DisconnectingJoin (prev : status) (ch : option chan) (* <-connectDone in Disconnecting *)
| DisconnectedFn                                       (* holds c.disconnectionCompleted *)
| CallConnectionLost (will : bool)                     (* about to call ConnectionLost *)
| ConnectionLostJoin (will : bool) (ch : option chan)  (* <-connectDone in ConnectionLost *)
| LostHandledFn (will : bool).                         (* holds getConnectionLostHandler(will) *)

(** What one stretch of code does: go on as another thread point, return, wait,
    or panic. *)
Inductive result : Type :=
| Goes (t : thread) (c : connectionStatus)
| Returns (err : option error) (c : connectionStatus)
| Blocks
| Panics.

Definition Connecting (c : connectionStatus) : result :=
  if decide (st c = connected \/ st c = reconnecting)
  then Returns (Some errAlreadyConnectedOrReconnecting) c
  else if negb (bool_decide (st c = disconnected))
  then Returns (Some errStatusMustBeDisconnected) c
  else Goes ConnectedFn (make_action (set_status connecting c)).

(** The deferred function runs last: the channel is closed on every path. *)
Definition connected_fn (success : bool) (c : connectionStatus) : result :=
  let '(err, c') :=
    if decide (st c = disconnecting) then (Some errAbortConnection, c)
    else (None, set_status (if success then connected else disconnected) c) in
  match close_action c' with
  | Some c'' => Returns err c''
  | None => Panics
  end.

Definition Disconnecting (c : connectionStatus) : result :=
  match st c with
  | disconnected => Returns (Some errAlreadyDisconnected) c
  | disconnecting => Goes (DisconnectingWait (actionCompleted c)) (set_willReconnect false c)
  | connecting => Goes (DisconnectingJoin connecting (actionCompleted c)) (set_status disconnecting c)
  | reconnecting =>
      Goes (DisconnectingJoin reconnecting (actionCompleted c)) (set_status disconnecting c)
  | connected => Goes DisconnectedFn (make_action (set_status disconnecting c))
  end.

(** Disconnecting after [<-connectDone]. *)
Definition Disconnecting_join (prev : status) (c : connectionStatus) : result :=
  if bool_decide (prev = reconnecting) && negb (willReconnect c)
  then Returns (Some errAlreadyDisconnected) c
  else Goes DisconnectedFn (make_action c).

Definition disconnectionCompleted (c : connectionStatus) : result :=
  match close_action (set_status disconnected c) with
  | Some c' => Returns None c'
  | None => Panics
  end.

Definition ConnectionLost (will : bool) (c : connectionStatus) : result :=
  match st c with
  | disconnected => Returns (Some errAlreadyDisconnected) c
  | disconnecting => Returns (Some errDisconnectionInProgress) c
  | connecting | reconnecting =>
      Goes (ConnectionLostJoin will (actionCompleted c))
        (set_status disconnecting (set_willReconnect will c))
  | connected =>
      Goes (LostHandledFn will) (make_action (set_status disconnecting (set_willReconnect will c)))
  end.

(** ConnectionLost after [<-connectDone]. *)
Definition ConnectionLost_join (will : bool) (c : connectionStatus) : result :=
  if negb will then Returns (Some errAlreadyDisconnected) c
  else Goes (LostHandledFn will) (make_action c).

(** The function getConnectionLostHandler returns. *)
Definition connectionLostHandler (reconnectRequested proceed : bool) (c : connectionStatus)
  : result :=
  if negb (willReconnect c) || negb proceed then
    match close_action (set_status disconnected c) with
    | Some c' => Returns (if negb reconnectRequested || negb proceed then None
                          else Some errDisconnectionRequested) c'
    | None => Panics
    end
  else Goes ConnectedFn (set_status reconnecting c).

(** [b] is the argument the holder of a completion function passes. *)
Definition advance (b : bool) (t : thread) (c : connectionStatus) : result :=
  match t with
  | CallConnecting => Connecting c
  | ConnectedFn => connected_fn b c
  | CallDisconnecting => Disconnecting c
  | DisconnectingWait ch =>
      if receivable ch c then Returns (Some errAlreadyDisconnected) c else Blocks
  | DisconnectingJoin prev ch => if receivable ch c then Disconnecting_join prev c else Blocks
  | DisconnectedFn => disconnectionCompleted c
  | CallConnectionLost will => ConnectionLost will c
  | ConnectionLostJoin will ch => if receivable ch c then ConnectionLost_join will c else Blocks
  | LostHandledFn will => connectionLostHandler will b c
  end.

(** ** The transition system *)

Record world : Type := mkWorld { cst : connectionStatus; threads : list thread }.

Definition is_call (t : thread) : bool :=
  match t with CallConnecting | CallDisconnecting | CallConnectionLost _ => true | _ => false end.

Inductive status_step : world -> world -> Prop :=
| step_call c ts t : is_call t = true -> status_step (mkWorld c ts) (mkWorld c (t :: ts))
| step_goes c pre t post b t' c' :
    advance b t c = Goes t' c' ->
    status_step (mkWorld c (pre ++ t :: post)) (mkWorld c' (pre ++ t' :: post))
| step_returns c pre t post b err c' :
    advance b t c = Returns err c' ->
    status_step (mkWorld c (pre ++ t :: post)) (mkWorld c' (pre ++ post)).

Definition fresh : connectionStatus := mkStatus disconnected false None 0 ∅.

Definition status_reachable (w : world) : Prop := rtc status_step (mkWorld fresh []) w.

(** ** The invariant *)

Definition holds_connected (t : thread) : bool :=
  match t with ConnectedFn => true | _ => false end.

(** The goroutine that turned the status into disconnecting and has to end it. *)
Definition owns_disconnect (t : thread) : bool :=
  match t with
  | DisconnectingJoin _ _ | DisconnectedFn | ConnectionLostJoin _ _ | LostHandledFn _ => true
  | _ => false
  end.

Definition joins (t : thread) : option (option chan) :=
  match t with
  | DisconnectingJoin _ ch | ConnectionLostJoin _ ch => Some ch
  | _ => None
  end.

Definition live (ch : chan) (c : connectionStatus) : Prop := ch < made c /\ ch ∉ closed c.

(** Which completion functions are out, by status. *)
Definition shape (c : connectionStatus) (conns owns : list thread) : Prop :=
  match st c with
  | disconnected | connected => conns = [] /\ owns = [] /\ actionCompleted c = None
  | connecting | reconnecting => conns = [ConnectedFn] /\ owns = [] /\
      exists ch, actionCompleted c = Some ch /\ live ch c
  | disconnecting =>
      (conns = [] /\ owns = [] /\ actionCompleted c = None) \/
      (exists t ch, conns = [ConnectedFn] /\ owns = [t] /\ joins t = Some (Some ch) /\
         actionCompleted c = Some ch /\ live ch c) \/
      (exists t ch, conns = [] /\ owns = [t] /\ joins t = Some (Some ch) /\
         actionCompleted c = None /\ ch ∈ closed c) \/
      (exists t ch, conns = [] /\ owns = [t] /\ joins t = None /\
         actionCompleted c = Some ch /\ live ch c)
  end.

(** A waiter's channel is closed, or it is the current one, or it is nil. *)
Definition waits_ok (c : connectionStatus) (t : thread) : Prop :=
  match t with
  | DisconnectingWait (Some ch) => ch ∈ closed c \/ actionCompleted c = Some ch
  | _ => True
  end.

Record status_inv (c : connectionStatus) (ts : list thread) : Prop := mkStatusInv {
  si_shape : shape c (List.filter holds_connected ts) (List.filter owns_disconnect ts);
  si_waits : Forall (waits_ok c) ts;
  si_closed : forall ch, ch ∈ closed c -> ch < made c;
}.

Lemma filter_perm {A} (p : A -> bool) l l' :
  l ≡ₚ l' -> List.filter p l ≡ₚ List.filter p l'.
Proof.
  induction 1 as [|a l l' _ IH|a b l|l1 l2 l3 _ IH1 _ IH2]; cbn; [done| | |by rewrite IH1].
  - by destruct (p a); [constructor|].
  - destruct (p a), (p b); [constructor|done..].
Qed.

Lemma shape_perm c l1 l2 k1 k2 : l1 ≡ₚ l2 -> k1 ≡ₚ k2 -> shape c l1 k1 -> shape c l2 k2.
Proof.
  intros Hl Hk. unfold shape.
  assert (forall (a b : list thread), a ≡ₚ b -> a = [] -> b = []) as H0
    by (intros a b Hab ->; by apply Permutation_nil in Hab).
  assert (forall (a b : list thread) x, a ≡ₚ b -> a = [x] -> b = [x]) as H1
    by (intros a b x Hab ->; by apply Permutation_length_1_inv in Hab).
  destruct (st c); naive_solver.
Qed.

Lemma status_inv_perm c ts ts' : ts ≡ₚ ts' -> status_inv c ts -> status_inv c ts'.
Proof.
  intros Hp [Hs Hw Hc]. split; [|by rewrite <- Hp|done].
  eapply shape_perm; [apply filter_perm, Hp|apply filter_perm, Hp|exact Hs].
Qed.

(** Changes to the state that no waiter can mistake. *)
Lemma waits_mono c c' t :
  waits_ok c t -> closed c ⊆ closed c' ->
  (forall ch, actionCompleted c = Some ch -> actionCompleted c' = Some ch \/ ch ∈ closed c') ->
  waits_ok c' t.
Proof. destruct t as [| | |[ch|]| | | | |]; cbn; try done. intros [?|?] Hc Ha; [set_solver|]. destruct (Ha ch); auto. Qed.

(** ** Preservation, one stretch of code at a time *)

Section preservation.
Context (c : connectionStatus) (rest : list thread).

Abbreviation conns := (List.filter holds_connected rest).
Abbreviation owns := (List.filter owns_disconnect rest).

Context (Hw : Forall (waits_ok c) rest) (Hc : forall ch, ch ∈ closed c -> ch < made c).

(** The waiters after closing the current channel. *)
Lemma close_inv ch s :
  actionCompleted c = Some ch -> live ch c ->
  (forall c', st c' = s -> actionCompleted c' = None -> ch ∈ closed c' -> closed c ⊆ closed c' ->
     shape c' conns owns) ->
  exists c', close_action (set_status s c) = Some c' /\ status_inv c' rest /\ st c' = s.
Proof.
  intros Ha [Hm Hl] Hsh. unfold close_action. cbn. rewrite Ha, decide_False by done.
  eexists. split; [done|]. split; [split; cbn|done].
  - apply Hsh; [done..|set_solver|cbn; set_solver].
  - eapply Forall_mono; [exact Hw|]. intros t Ht. eapply waits_mono; [exact Ht|set_solver|].
    cbn. intros ch'. rewrite Ha. intros [= <-]. right. set_solver.
  - intros ch'. rewrite elem_of_union, elem_of_singleton. intros [->|?]; auto.
Qed.

(** Making a new channel where there was none, in state [s] with [willReconnect = w]. *)
Lemma make_inv s w t' :
  actionCompleted c = None -> waits_ok (mkStatus s w (Some (made c)) (S (made c)) (closed c)) t' ->
  (forall c' ch, st c' = s -> actionCompleted c' = Some ch -> live ch c' ->
     shape c' (List.filter holds_connected (t' :: rest)) (List.filter owns_disconnect (t' :: rest))) ->
  status_inv (mkStatus s w (Some (made c)) (S (made c)) (closed c)) (t' :: rest).
Proof.
  intros Ha Ht' Hsh. split.
  - apply (Hsh _ (made c)); [done..|]. split; cbn; [lia|]. intros ?%Hc. lia.
  - constructor; [done|]. eapply Forall_mono; [exact Hw|]. intros t Ht.
    eapply waits_mono; [exact Ht|done|]. by rewrite Ha.
  - cbn. intros ch ?%Hc. lia.
Qed.

(** Changing status and flag only. *)
Lemma keep_inv s w t' :
  waits_ok (mkStatus s w (actionCompleted c) (made c) (closed c)) t' ->
  shape (mkStatus s w (actionCompleted c) (made c) (closed c))
    (List.filter holds_connected (t' :: rest)) (List.filter owns_disconnect (t' :: rest)) ->
  status_inv (mkStatus s w (actionCompleted c) (made c) (closed c)) (t' :: rest).
Proof.
  intros Ht' Hsh. split; [done| |done]. constructor; [done|].
  eapply Forall_mono; [exact Hw|]. intros t Ht. eapply waits_mono; [exact Ht|done|auto].
Qed.

End preservation.

(** A call that returns without having changed anything. *)
Lemma drop_inv c t rest :
  holds_connected t = false -> owns_disconnect t = false ->
  status_inv c (t :: rest) -> status_inv c rest.
Proof.
  intros Hh Ho [Hs Hw Hc]. cbn in Hs. rewrite Hh, Ho in Hs.
  split; [done|by apply Forall_cons_1 in Hw as [_ ?]|done].
Qed.

(** What a stretch of code must guarantee. *)
Definition result_ok (rest : list thread) (r : result) : Prop :=
  match r with
  | Goes t' c' => status_inv c' (t' :: rest)
  | Returns _ c' => status_inv c' rest
  | Blocks => True
  | Panics => False
  end.

Lemma Connecting_ok c rest :
  status_inv c (CallConnecting :: rest) -> result_ok rest (Connecting c).
Proof.
  intros Hi. unfold Connecting. destruct (decide _); [by apply (drop_inv c CallConnecting)|].
  case_bool_decide as Hs; cbn [negb]; [|by apply (drop_inv c CallConnecting)].
  destruct Hi as [Hsh [_ Hw]%Forall_cons_1 Hc]. cbn in Hsh. unfold shape in Hsh.
  rewrite Hs in Hsh. destruct Hsh as (Hn & Ho & Ha).
  apply (make_inv c rest Hw Hc); [done..|]. intros c' ch Hs' Ha' Hl. cbn. unfold shape.
  rewrite Hs', Hn, Ho. cbn. eauto 10.
Qed.

Lemma Disconnecting_ok c rest :
  status_inv c (CallDisconnecting :: rest) -> result_ok rest (Disconnecting c).
Proof.
  intros Hi. unfold Disconnecting. destruct (st c) eqn:Hs; [by apply (drop_inv c CallDisconnecting)| | | |];
    destruct Hi as [Hsh [_ Hw]%Forall_cons_1 Hc]; cbn in Hsh; unfold shape in Hsh; rewrite Hs in Hsh.
  - unfold set_willReconnect. rewrite Hs. apply keep_inv; cbn; [done..| |done].
    destruct (actionCompleted c) eqn:?; cbn; auto.
  - destruct Hsh as (Hn & Ho & ch & Ha & Hl). apply keep_inv; [done..|].
    unfold shape. cbn. rewrite Hn, Ho. right; left. rewrite Ha. eauto 10.
  - destruct Hsh as (Hn & Ho & ch & Ha & Hl). apply keep_inv; [done..|].
    unfold shape. cbn. rewrite Hn, Ho. right; left. rewrite Ha. eauto 10.
  - destruct Hsh as (Hn & Ho & Ha). apply (make_inv c rest Hw Hc); [done..|].
    intros c' ch Hs' Ha' Hl. cbn. unfold shape. rewrite Hs', Hn, Ho. cbn. do 3 right. eauto 10.
Qed.

Lemma ConnectionLost_ok will c rest :
  status_inv c (CallConnectionLost will :: rest) -> result_ok rest (ConnectionLost will c).
Proof.
  intros Hi. unfold ConnectionLost.
  destruct (st c) eqn:Hs; [by apply (drop_inv c (CallConnectionLost will))..| | |];
    destruct Hi as [Hsh [_ Hw]%Forall_cons_1 Hc]; cbn in Hsh; unfold shape in Hsh; rewrite Hs in Hsh.
  - destruct Hsh as (Hn & Ho & ch & Ha & Hl). apply keep_inv; [done..|].
    unfold shape. cbn. rewrite Hn, Ho. right; left. rewrite Ha. eauto 10.
  - destruct Hsh as (Hn & Ho & ch & Ha & Hl). apply keep_inv; [done..|].
    unfold shape. cbn. rewrite Hn, Ho. right; left. rewrite Ha. eauto 10.
  - destruct Hsh as (Hn & Ho & Ha). apply (make_inv c rest Hw Hc); [done..|].
    intros c' ch Hs' Ha' Hl. cbn. unfold shape. rewrite Hs', Hn, Ho. cbn. do 3 right. eauto 10.
Qed.

(** Closing the channel of the holder of the only completion function. *)
Lemma connected_ok b c rest :
  status_inv c (ConnectedFn :: rest) -> result_ok rest (connected_fn b c).
Proof.
  intros [Hsh [_ Hw]%Forall_cons_1 Hc]. cbn in Hsh. unfold connected_fn, shape in *.
  assert (Hset : c = set_status (st c) c) by (by destruct c).
  destruct (st c) eqn:Hs; cbn; try (destruct Hsh as [? _]; done).
  - destruct Hsh as [[? _]|[(t & ch & Hn & Ho & Hj & Ha & Hl)|[(t & ch & ? & _)|(t & ch & ? & _)]]];
      try done. injection Hn as Hn.
    destruct (close_inv c rest Hw Hc ch disconnecting) as (c' & Hcl & Hi & _); [done..| |].
    + intros c' Hs' Ha' Hch _. unfold shape. rewrite Hs'. right; right; left.
      exists t, ch. by rewrite Hn.
    + rewrite <- Hset in Hcl. by rewrite decide_True, Hcl by done.
  - destruct Hsh as (Hn & Ho & ch & Ha & Hl). injection Hn as Hn.
    destruct (close_inv c rest Hw Hc ch (if b then connected else disconnected))
      as (c' & Hcl & Hi & _); [done..| |by rewrite decide_False, Hcl by done].
    intros c' Hs' Ha' _ _. unfold shape. rewrite Hs', Hn, Ho. by destruct b.
  - destruct Hsh as (Hn & Ho & ch & Ha & Hl). injection Hn as Hn.
    destruct (close_inv c rest Hw Hc ch (if b then connected else disconnected))
      as (c' & Hcl & Hi & _); [done..| |by rewrite decide_False, Hcl by done].
    intros c' Hs' Ha' _ _. unfold shape. rewrite Hs', Hn, Ho. by destruct b.
Qed.

(** What the invariant says of a goroutine that owns the disconnect. *)
Lemma owner_facts c t rest :
  status_inv c (t :: rest) -> owns_disconnect t = true -> holds_connected t = false ->
  st c = disconnecting /\ List.filter owns_disconnect rest = [] /\
  match joins t with
  | Some ch => exists ch', ch = Some ch' /\
      ((actionCompleted c = None /\ ch' ∈ closed c /\ List.filter holds_connected rest = []) \/
       (actionCompleted c = Some ch' /\ live ch' c))
  | None => exists ch, actionCompleted c = Some ch /\ live ch c /\
      List.filter holds_connected rest = []
  end.
Proof.
  intros [Hsh _ _] Ho Hh. cbn in Hsh. rewrite Ho, Hh in Hsh. unfold shape in Hsh.
  destruct (st c) eqn:Hs; try (by destruct Hsh as (_ & ? & _)).
  destruct Hsh as [(_ & ? & _)|[(x & ch & Hn & Hx & Hj & Ha & Hl)
    |[(x & ch & Hn & Hx & Hj & Ha & Hl)|(x & ch & Hn & Hx & Hj & Ha & Hl)]]]; [done|..];
    injection Hx as -> Hx; rewrite Hj; eauto 10.
Qed.

(** A goroutine woken by the end of the attempt it was waiting for. *)
Lemma join_ok c t rest r :
  status_inv c (t :: rest) -> owns_disconnect t = true -> holds_connected t = false ->
  (exists ch, joins t = Some ch /\ receivable ch c = true) ->
  (exists err, r = Returns err c) \/
  (exists t', r = Goes t' (make_action c) /\ joins t' = None /\ owns_disconnect t' = true /\
     holds_connected t' = false) ->
  result_ok rest r.
Proof.
  intros Hi Ho Hh (ch & Hj & Hr) Hres.
  destruct (owner_facts _ _ _ Hi Ho Hh) as (Hs & Hrest & Hf). rewrite Hj in Hf.
  destruct Hf as (ch' & -> & [(Ha & Hcl & Hn)|(Ha & Hl)]);
    [|cbn in Hr; apply bool_decide_eq_true in Hr; by destruct Hl].
  destruct Hi as [_ [_ Hw]%Forall_cons_1 Hc].
  destruct Hres as [[err ->]|(t' & -> & Hj' & Ho' & Hh')]; cbn.
  - split; [|done|done]. unfold shape. rewrite Hs. by left.
  - unfold make_action. apply make_inv; [done|done|done| |].
    + by destruct t' as [| | |[ch2|]| | | | |].
    + intros c' ch2 Hs' Ha' Hl'. cbn. rewrite Ho', Hh', Hn, Hrest. unfold shape.
      rewrite Hs', Hs. do 3 right. eauto 10.
Qed.

Lemma complete_ok c t rest :
  status_inv c (t :: rest) -> owns_disconnect t = true -> joins t = None ->
  exists c', close_action (set_status disconnected c) = Some c' /\ status_inv c' rest.
Proof.
  intros Hi Ho Hj. assert (Hh : holds_connected t = false) by by destruct t.
  destruct (owner_facts _ _ _ Hi Ho Hh) as (Hs & Hrest & Hf). rewrite Hj in Hf.
  destruct Hf as (ch & Ha & Hl & Hn). destruct Hi as [_ [_ Hw]%Forall_cons_1 Hc].
  destruct (close_inv c rest Hw Hc ch disconnected) as (c' & Hcl & Hi & _); [done..| |eauto].
  intros c' Hs' Ha' _ _. unfold shape. by rewrite Hs', Hn, Hrest.
Qed.

Lemma LostHandled_ok will b c rest :
  status_inv c (LostHandledFn will :: rest) -> result_ok rest (connectionLostHandler will b c).
Proof.
  intros Hi. unfold connectionLostHandler. destruct (_ || _).
  - destruct (complete_ok _ _ _ Hi) as (c' & -> & Hi'); done.
  - destruct (owner_facts _ _ _ Hi) as (Hs & Hrest & ch & Ha & Hl & Hn); [done..|].
    destruct Hi as [_ [_ Hw]%Forall_cons_1 Hc]. cbn. apply keep_inv; [done..|].
    unfold shape. cbn. rewrite Hn, Hrest. eauto.
Qed.

Lemma advance_ok b t c rest : status_inv c (t :: rest) -> result_ok rest (advance b t c).
Proof.
  intros Hi. destruct t as [| | |ch|prev ch| |will|will ch|will]; cbn.
  - by apply Connecting_ok.
  - by apply connected_ok.
  - by apply Disconnecting_ok.
  - destruct (receivable ch c); [|done]. by apply (drop_inv c (DisconnectingWait ch)).
  - destruct (receivable ch c) eqn:Hr; [|done]. eapply join_ok; [exact Hi|done..|by exists ch|].
    unfold Disconnecting_join. destruct (_ && _); [left|right]; eauto 10.
  - unfold disconnectionCompleted. by destruct (complete_ok _ _ _ Hi) as (c' & -> & Hi').
  - by apply ConnectionLost_ok.
  - destruct (receivable ch c) eqn:Hr; [|done]. eapply join_ok; [exact Hi|done..|by exists ch|].
    unfold ConnectionLost_join. destruct will; [right|left]; eauto 10.
  - by apply LostHandled_ok.
Qed.

Lemma status_inv_reachable w : status_reachable w -> status_inv (cst w) (threads w).
Proof.
  unfold status_reachable. apply (rtc_ind_r (fun w => status_inv (cst w) (threads w))).
  - split; cbn; [done|done|set_solver].
  - intros x y _ Hs Hi. destruct Hs as [c ts t Ht|c pre t post b t' c' Ha|c pre t post b err c' Ha];
      cbn in *.
    + destruct Hi as [Hsh Hw Hc]. split; [by destruct t| |done]. constructor; [by destruct t|done].
    + pose proof (advance_ok b t c (pre ++ post)) as Hok. rewrite Ha in Hok.
      eapply status_inv_perm; [apply Permutation_middle|]. apply Hok.
      eapply status_inv_perm; [|exact Hi]. symmetry. apply Permutation_middle.
    + pose proof (advance_ok b t c (pre ++ post)) as Hok. rewrite Ha in Hok. apply Hok.
      eapply status_inv_perm; [|exact Hi]. symmetry. apply Permutation_middle.
Qed.

(** ** Executable schedules *)

Inductive move : Type := Call (t : thread) | Adv (i : nat) (b : bool).

Definition status_act (m : move) (w : world) : option world :=
  let '(mkWorld c ts) := w in
  match m with
  | Call t => if is_call t then Some (mkWorld c (t :: ts)) else None
  | Adv i b =>
      match ts !! i with
      | Some t =>
          match advance b t c with
          | Goes t' c' => Some (mkWorld c' (take i ts ++ t' :: drop (S i) ts))
          | Returns _ c' => Some (mkWorld c' (take i ts ++ drop (S i) ts))
          | _ => None
          end
      | None => None
      end
  end.

Fixpoint status_schedule (ms : list move) (w : world) : option world :=
  match ms with
  | [] => Some w
  | m :: ms => match status_act m w with Some w' => status_schedule ms w' | None => None end
  end.

Lemma status_act_step m w w' : status_act m w = Some w' -> status_step w w'.
Proof.
  destruct w as [c ts], m as [t|i b]; cbn.
  - destruct (is_call t) eqn:Ht; [|done]. intros [= <-]. by constructor.
  - destruct (ts !! i) as [t|] eqn:Hi; [|done].
    destruct (advance b t c) as [t' c'|err c'| |] eqn:Ha; intros ?; simplify_eq;
      rewrite <- (take_drop_middle ts i t Hi) at 1; [by eapply step_goes|by eapply step_returns].
Qed.

Lemma status_schedule_reachable ms w w' :
  status_reachable w -> status_schedule ms w = Some w' -> status_reachable w'.
Proof.
  revert w. induction ms as [|m ms IH]; cbn; intros w Hr Hs; [by simplify_eq|].
  destruct (status_act m w) as [w1|] eqn:Ha; [|done].
  apply (IH w1); [|done]. eapply rtc_r; [exact Hr|by apply status_act_step in Ha].
Qed.

(** ** Theorems *)

(** Goroutines on which the others depend: they hold a completion function. *)
Definition completes (t : thread) : bool :=
  match t with ConnectedFn | DisconnectedFn | LostHandledFn _ => true | _ => false end.

Definition no_join (t : thread) : bool := match joins t with None => true | Some _ => false end.

Lemma completes_length l :
  length (List.filter completes l) =
    length (List.filter holds_connected l) + length (List.filter no_join (List.filter owns_disconnect l)).
Proof. induction l as [|t l IH]; [done|]. destruct t; cbn; lia. Qed.

(** There is a current channel exactly when one completion function is out. *)
Lemma completes_count c ts : status_inv c ts ->
  length (List.filter completes ts) = match actionCompleted c with Some _ => 1 | None => 0 end.
Proof.
  intros [Hsh _ _]. rewrite completes_length. unfold shape in Hsh.
  destruct (st c); try (destruct Hsh as (-> & -> & Ha); by rewrite Ha);
    try (destruct Hsh as (-> & -> & ch & Ha & _); by rewrite Ha).
  destruct Hsh as [(-> & -> & ->)|[(t & ch & -> & -> & Hj & -> & _)
    |[(t & ch & -> & -> & Hj & -> & _)|(t & ch & -> & -> & Hj & -> & _)]]];
    cbn; unfold no_join; by rewrite ?Hj.
Qed.

Lemma filter_elem {A} (p : A -> bool) l : 0 < length (List.filter p l) ->
  exists x, x ∈ l /\ p x = true.
Proof.
  destruct (List.filter p l) as [|x k] eqn:Hl; cbn; [lia|]. intros _. exists x.
  rewrite list_elem_of_In. apply filter_In. rewrite Hl. by left.
Qed.

Lemma inv_elem c ts t : status_inv c ts -> t ∈ ts -> exists rest, status_inv c (t :: rest).
Proof.
  intros Hi (pre & post & ->)%list_elem_of_split. exists (pre ++ post).
  eapply status_inv_perm; [|exact Hi]. symmetry. apply Permutation_middle.
Qed.

(** C25: the completion protocol is safe under every interleaving: when every
    goroutine calls the completion function it was given, no call ever closes a
    nil or already closed channel (which would panic), at most one completion
    function is out at any time, and one is out exactly when the status has a
    current action channel. *)
Theorem status_completion_safe (w : world) :
  status_reachable w ->
  (forall t b, t ∈ threads w -> advance b t (cst w) <> Panics) /\
  length (List.filter completes (threads w)) =
    match actionCompleted (cst w) with Some _ => 1 | None => 0 end.
Proof.
  intros Hi%status_inv_reachable. split; [|by apply completes_count].
  intros t b Ht Hp. destruct (inv_elem _ _ _ Hi Ht) as [rest Hr].
  pose proof (advance_ok b t _ rest Hr) as Hok. by rewrite Hp in Hok.
Qed.

(** What a goroutine waits for, if anything. *)
Definition waits_for (t : thread) : option (option chan) :=
  match t with
  | DisconnectingWait ch | DisconnectingJoin _ ch | ConnectionLostJoin _ ch => Some ch
  | _ => None
  end.

(** C27: no wake-up is lost: a goroutine that waits for a channel either can go
    on, or its channel is the current one and some goroutine holds the
    completion function that closes it.  The one exception is a second
    Disconnecting that found no current action and waits for nil; a goroutine
    that ended a connection attempt's wait is never that one. *)
Theorem status_waiters_served (w : world) (t : thread) (ch : option chan) :
  status_reachable w -> t ∈ threads w -> waits_for t = Some ch ->
  (ch = None /\ t = DisconnectingWait None) \/
  receivable ch (cst w) = true \/
  (ch = actionCompleted (cst w) /\ exists t', t' ∈ threads w /\ completes t' = true).
Proof.
  intros Hi%status_inv_reachable Ht Hwf.
  assert (Hserve : actionCompleted (cst w) <> None ->
    exists t', t' ∈ threads w /\ completes t' = true).
  { intros Ha. apply filter_elem. rewrite (completes_count _ _ Hi).
    by destruct (actionCompleted (cst w)); [lia|]. }
  destruct t as [| | |k|prev k| | |will k|]; cbn in Hwf; simplify_eq.
  - destruct ch as [ch|]; [right|by left].
    pose proof (proj1 (Forall_forall _ _) (si_waits _ _ Hi) _ Ht) as [Hcl|Ha].
    + left. by apply bool_decide_eq_true.
    + right. rewrite Ha in Hserve. split; [done|by apply Hserve].
  - right. destruct (inv_elem _ _ _ Hi Ht) as [rest Hr].
    destruct (owner_facts _ _ _ Hr) as (_ & _ & ch' & -> & [(_ & Hcl & _)|(Ha & _)]); [done..| |].
    + left. by apply bool_decide_eq_true.
    + right. rewrite Ha in Hserve. split; [done|by apply Hserve].
  - right. destruct (inv_elem _ _ _ Hi Ht) as [rest Hr].
    destruct (owner_facts _ _ _ Hr) as (_ & _ & ch' & -> & [(_ & Hcl & _)|(Ha & _)]); [done..| |].
    + left. by apply bool_decide_eq_true.
    + right. rewrite Ha in Hserve. split; [done|by apply Hserve].
Qed.

(** The status changes the machine may make. *)
Definition allowed (s s' : status) : bool :=
  match s, s' with
  | disconnected, connecting => true
  | connecting, (connected | disconnected | disconnecting) => true
  | reconnecting, (connected | disconnected | disconnecting) => true
  | connected, disconnecting => true
  | disconnecting, (disconnected | reconnecting) => true
  | _, _ => bool_decide (s = s')
  end.

Lemma allowed_refl s : allowed s s = true.
Proof. by destruct s. Qed.

Definition result_state (r : result) : option connectionStatus :=
  match r with Goes _ c | Returns _ c => Some c | _ => None end.

Lemma close_action_st c c' : close_action c = Some c' -> st c' = st c /\ willReconnect c' = willReconnect c.
Proof.
  unfold close_action. destruct (actionCompleted c); [|done].
  destruct (decide _); [done|]. by intros [= <-].
Qed.

Definition change_ok (c c' : connectionStatus) : Prop :=
  allowed (st c) (st c') = true /\
  (st c = disconnecting -> st c' = reconnecting -> willReconnect c = true).

Lemma change_ok_refl c : change_ok c c.
Proof. split; [apply allowed_refl|]. intros ->. done. Qed.

Lemma advance_change b t c rest c' :
  status_inv c (t :: rest) -> result_state (advance b t c) = Some c' -> change_ok c c'.
Proof.
  intros Hi Ha. unfold change_ok.
  destruct t as [| | |ch|prev ch| |will|will ch|will]; cbn in Ha.
  - unfold Connecting in Ha. destruct (decide _); [simplify_eq/=; apply change_ok_refl|].
    case_bool_decide as Hs; simplify_eq/=; [by rewrite Hs|apply change_ok_refl].
  - unfold connected_fn in Ha. destruct Hi as [Hsh _ _]. unfold shape in Hsh.
    destruct (decide _) as [Hs|Hs].
    + destruct (close_action c) as [c1|] eqn:Hc; simplify_eq/=.
      apply close_action_st in Hc as [-> _]. by rewrite Hs.
    + destruct (close_action _) as [c1|] eqn:Hc; simplify_eq/=.
      apply close_action_st in Hc as [-> _]. cbn in *.
      destruct (st c); try (by destruct Hsh as (? & _)); by destruct b.
  - unfold Disconnecting in Ha. destruct (st c) eqn:Hs; simplify_eq/=; by rewrite ?Hs.
  - destruct (receivable ch c); simplify_eq/=. apply change_ok_refl.
  - destruct (receivable ch c); [|done]. unfold Disconnecting_join in Ha.
    destruct (_ && _); simplify_eq/=; apply change_ok_refl.
  - destruct (owner_facts _ _ _ Hi) as (Hs & _); [done..|]. unfold disconnectionCompleted in Ha.
    destruct (close_action _) as [c1|] eqn:Hc; simplify_eq/=.
    apply close_action_st in Hc as [-> _]. by rewrite Hs.
  - unfold ConnectionLost in Ha. destruct (st c) eqn:Hs; simplify_eq/=; by rewrite ?Hs.
  - destruct (receivable ch c); [|done]. unfold ConnectionLost_join in Ha.
    destruct will; simplify_eq/=; apply change_ok_refl.
  - destruct (owner_facts _ _ _ Hi) as (Hs & _); [done..|]. unfold connectionLostHandler in Ha.
    destruct (willReconnect c); cbn in Ha; [destruct b; cbn in Ha|].
    + simplify_eq/=. by rewrite Hs.
    + destruct (close_action _) as [c1|] eqn:Hc; simplify_eq/=.
      apply close_action_st in Hc as [-> _]. by rewrite Hs.
    + destruct (close_action _) as [c1|] eqn:Hc; simplify_eq/=.
      apply close_action_st in Hc as [-> _]. by rewrite Hs.
Qed.

(** C26: under every interleaving the status only moves along the diagram the
    client is written against; in particular a connection that is being torn
    down never becomes connected without passing through disconnected and
    connecting, or through reconnecting, and the latter only while no
    disconnect was requested since the connection was lost. *)
Theorem status_transitions (w w' : world) :
  status_reachable w -> status_step w w' ->
  allowed (st (cst w)) (st (cst w')) = true /\
  (st (cst w) = disconnecting -> st (cst w') = reconnecting -> willReconnect (cst w) = true).
Proof.
  intros Hi%status_inv_reachable Hs.
  destruct Hs as [c ts t Ht|c pre t post b t' c' Ha|c pre t post b err c' Ha]; cbn in *.
  - apply change_ok_refl.
  - eapply (advance_change b t c (pre ++ post)); [|by rewrite Ha].
    eapply status_inv_perm; [|exact Hi]. symmetry. apply Permutation_middle.
  - eapply (advance_change b t c (pre ++ post)); [|by rewrite Ha].
    eapply status_inv_perm; [|exact Hi]. symmetry. apply Permutation_middle.
Qed.

(** ** Two overlapping disconnects during a reconnect *)

Definition overlapping_disconnects : list move :=
  [Call CallConnecting; Adv 0 true; Adv 0 true;                      (* connect *)
   Call (CallConnectionLost true); Adv 0 true; Adv 0 true;           (* lost, reconnecting *)
   Call CallDisconnecting; Adv 0 true;                               (* first disconnect waits *)
   Call CallDisconnecting; Adv 0 true;                               (* second disconnect waits *)
   Adv 2 true;                                                       (* the attempt ends *)
   Adv 1 true; Adv 0 true].                                          (* both disconnects return *)

(** Nobody is left to end the disconnect. *)
Definition abandoned (w : world) : Prop :=
  st (cst w) = disconnecting /\ actionCompleted (cst w) = None /\
  Forall (fun t => is_call t = true \/ t = DisconnectingWait None) (threads w).

Lemma abandoned_step w w' : abandoned w -> status_step w w' -> abandoned w'.
Proof.
  intros (Hs & Ha & Ht) Hst. revert Hs Ha Ht.
  destruct Hst as [c ts t Hc|c pre t post b t' c' Hadv|c pre t post b err c' Hadv]; cbn;
    intros Hs Ha Ht.
  - repeat split; [done..|]. constructor; auto.
  - apply Forall_app in Ht as [Hpre [Ht Hpost]%Forall_cons_1].
    destruct Ht as [Ht| ->]; [|done]. destruct t; try done; cbn in Hadv.
    + unfold Connecting in Hadv. by rewrite Hs in Hadv.
    + unfold Disconnecting in Hadv. rewrite Hs, Ha in Hadv. simplify_eq.
      repeat split; [done..|]. apply Forall_app. auto.
    + unfold ConnectionLost in Hadv. by rewrite Hs in Hadv.
  - apply Forall_app in Ht as [Hpre [Ht Hpost]%Forall_cons_1].
    assert (c' = c) as ->.
    { destruct Ht as [Ht| ->]; [|done]. destruct t; try done; cbn in Hadv.
      - unfold Connecting in Hadv. rewrite Hs in Hadv. by simplify_eq/=.
      - unfold Disconnecting in Hadv. by rewrite Hs in Hadv.
      - unfold ConnectionLost in Hadv. rewrite Hs in Hadv. by simplify_eq. }
    repeat split; [done..|]. by apply Forall_app.
Qed.

(** Two Disconnect calls that overlap while the client is reconnecting leave
    the status at disconnecting for good: there is a reachable state in which
    every call has returned, from which on the status never changes again, so
    that every later Connecting fails, and a later Disconnecting never
    returns. *)
Theorem overlapping_disconnects_wedge : exists w,
  status_reachable w /\ threads w = [] /\
  forall w', rtc status_step w w' ->
    st (cst w') = disconnecting /\
    Connecting (cst w') = Returns (Some errStatusMustBeDisconnected) (cst w') /\
    Disconnecting (cst w') =
      Goes (DisconnectingWait None) (set_willReconnect false (cst w')) /\
    forall b c, advance b (DisconnectingWait None) c = Blocks.
Proof.
  destruct (status_schedule overlapping_disconnects (mkWorld fresh [])) as [w|] eqn:Hw;
    [|by vm_compute in Hw].
  exists w. split; [by eapply status_schedule_reachable; [apply rtc_refl|exact Hw]|].
  vm_compute in Hw. injection Hw as <-. split; [done|]. intros w' Hr.
  assert (abandoned w') as (Hs & Ha & _).
  { eapply (rtc_ind_r abandoned); [|intros y z _ Hyz Hy; by eapply abandoned_step|exact Hr].
    repeat split. constructor. }
  split; [done|]. unfold Connecting, Disconnecting. rewrite Hs, Ha. done.
Qed.

(** ** Witnesses *)

(** Reconnecting, with two disconnects waiting for the attempt to end. *)
Definition busy_world : world :=
  match status_schedule (take 10 overlapping_disconnects) (mkWorld fresh []) with
  | Some w => w
  | None => mkWorld fresh []
  end.

Lemma busy_reachable : status_reachable busy_world.
Proof.
  apply (status_schedule_reachable (take 10 overlapping_disconnects) (mkWorld fresh []));
    [apply rtc_refl|]. vm_compute. reflexivity.
Qed.

Lemma status_completion_safe_witness :
  length (threads busy_world) = 3 /\
  (forall t b, t ∈ threads busy_world -> advance b t (cst busy_world) <> Panics) /\
  length (List.filter completes (threads busy_world)) = 1.
Proof. split; [reflexivity|]. exact (status_completion_safe busy_world busy_reachable). Defined.

Lemma status_waiters_served_witness :
  (Some 1 = None /\ DisconnectingWait (Some 1) = DisconnectingWait None) \/
  receivable (Some 1) (cst busy_world) = true \/
  (Some 1 = actionCompleted (cst busy_world) /\
   exists t', t' ∈ threads busy_world /\ completes t' = true).
Proof.
  refine (status_waiters_served busy_world (DisconnectingWait (Some 1)) (Some 1) busy_reachable _ _).
  - apply list_elem_of_In. vm_compute. left. reflexivity.
  - reflexivity.
Defined.

Lemma status_transitions_witness :
  allowed (st (cst busy_world)) disconnecting = true /\
  (st (cst busy_world) = disconnecting -> disconnecting = reconnecting ->
   willReconnect (cst busy_world) = true).
Proof.
  refine (status_transitions busy_world (mkWorld (cst busy_world)
    (CallConnecting :: threads busy_world)) busy_reachable _).
  exact (step_call (cst busy_world) (threads busy_world) CallConnecting eq_refl).
Defined.
