(* ===== verification/Backoff.v ===== *)
(** * Client: reconnection backoff

    client/backoff.go.  The controller keeps one status per situation; the
    reading of the clock in a call is the argument [now], the number that
    rand.Float64 returns the argument [r]. *)

From Stdlib Require Import ZArith Lia String SpecFloat.
From stdpp Require Import base list strings gmap numbers.
From S2P Require Import Prelude GoTime GoFloat.

Local Open Scope Z_scope.

Record backoffStatus : Type := mkBackoff { lastSleepPeriod : Z; lastErrorTime : Z }.

Abbreviation backoffController := (gmap string backoffStatus) (only parsing).

Definition newBackoffController : backoffController := ∅.

(** The sleep period, whether errors of this kind keep coming, and the new status. *)
Definition firstProcess (status : backoffStatus) (init : Z) (skip : bool) : (Z * bool) * backoffStatus :=
  if skip then ((0, false), mkBackoff 0 (lastErrorTime status))
  else ((init, false), mkBackoff init (lastErrorTime status)).

Definition getBackoffSleepTime (situation : string) (initSleepPeriod maxSleepPeriod processTime : Z)
    (skipFirst : bool) (now : Z) (b : backoffController) : (Z * bool) * backoffController :=
  let init := if maxSleepPeriod <? initSleepPeriod then maxSleepPeriod else initSleepPeriod in
  match b !! situation with
  | None =>
      let '(res, status) := firstProcess (mkBackoff init now) init skipFirst in
      (res, <[situation := status]> b)
  | Some old =>
      let oldTime := lastErrorTime old in
      let status := mkBackoff (lastSleepPeriod old) now in
      if i64 (i64 (processTime * 2) + lastSleepPeriod status) <? Sub now oldTime then
        let '(res, status) := firstProcess status init skipFirst in
        (res, <[situation := status]> b)
      else if lastSleepPeriod status =? 0 then
        ((init, true), <[situation := mkBackoff init now]> b)
      else
        let next := i64 (lastSleepPeriod status * 2) in
        let sleep := if next <=? maxSleepPeriod then next else maxSleepPeriod in
        ((sleep, true), <[situation := mkBackoff sleep now]> b)
  end.

(** ** A run of errors

    What the successive calls for one situation, at the times [nows], return. *)
Fixpoint sleeps (situation : string) (init max process : Z) (skip : bool) (nows : list Z)
    (b : backoffController) : list (Z * bool) :=
  match nows with
  | [] => []
  | now :: nows =>
      let '(res, b') := getBackoffSleepTime situation init max process skip now b in
      res :: sleeps situation init max process skip nows b'
  end.

(** ** Lemmas *)

Section backoff.
Context (situation : string) (init max process : Z) (skip : bool).
Context (Hinit : 0 <= init) (Hmax : 0 <= max < 2 ^ 62) (Hproc : 0 <= process < 2 ^ 61).

Lemma next_sleep s : 0 <= s <= max ->
  (if i64 (s * 2) <=? max then i64 (s * 2) else max) = Z.min (2 * s) max.
Proof. intros Hs. rewrite i64_small by lia. destruct (Z.leb_spec (s * 2) max); lia. Qed.

Lemma stored_step now b res b' :
  getBackoffSleepTime situation init max process skip now b = (res, b') ->
  (forall st, b !! situation = Some st -> 0 <= lastSleepPeriod st <= max) ->
  b' = <[situation := mkBackoff (fst res) now]> b /\ 0 <= fst res <= max.
Proof.
  unfold getBackoffSleepTime, firstProcess. intros Hget Hst.
  destruct (b !! situation) as [[s t]|] eqn:Hb; cbn in Hget.
  - specialize (Hst _ eq_refl). cbn in Hst. rewrite (next_sleep s Hst) in Hget.
    repeat case_match; simplify_eq/=; split; try done; lia.
  - repeat case_match; simplify_eq/=; split; try done; lia.
Qed.

Lemma sleeps_bounded nows b :
  (forall st, b !! situation = Some st -> 0 <= lastSleepPeriod st <= max) ->
  Forall (fun r => 0 <= fst r <= max) (sleeps situation init max process skip nows b).
Proof.
  revert b. induction nows as [|now nows IH]; intros b Hb; cbn; [done|].
  destruct (getBackoffSleepTime _ _ _ _ _ _ _) as [res b'] eqn:Hget.
  destruct (stored_step _ _ _ _ Hget Hb) as [-> Hr]. constructor; [done|]. apply IH.
  intros st. rewrite lookup_insert_eq. by intros [= <-].
Qed.

(** One more error inside the window doubles the period, up to the maximum. *)
Lemma continual_step now s t b :
  b !! situation = Some (mkBackoff s t) -> 0 <= s <= max ->
  0 <= now - t <= process * 2 + s ->
  let s' := if s =? 0 then Z.min init max else Z.min (2 * s) max in
  getBackoffSleepTime situation init max process skip now b =
    ((s', true), <[situation := mkBackoff s' now]> b).
Proof.
  intros Hb Hs Hnow. unfold getBackoffSleepTime. rewrite Hb. cbn.
  rewrite (i64_small (process * 2)) by lia. rewrite (i64_small (process * 2 + s)) by lia.
  rewrite Sub_exact by lia.
  destruct (Z.ltb_spec (process * 2 + s) (now - t)); [lia|].
  destruct (s =? 0).
  - destruct (Z.ltb_spec max init); [rewrite Z.min_r by lia|rewrite Z.min_l by lia]; done.
  - by rewrite (next_sleep s Hs).
Qed.

(** The [n]-th period of a run of errors: doubling, capped. *)
Definition period (n : nat) : Z := Z.min (init * 2 ^ Z.of_nat n) max.

Lemma period_step n : 0 < init -> Z.min (2 * period n) max = period (S n).
Proof.
  intros Hi. unfold period. rewrite Nat2Z.inj_succ, Z.pow_succ_r by lia.
  pose proof (Z.pow_pos_nonneg 2 (Z.of_nat n)). nia.
Qed.

Lemma continual_sleeps nows n last b :
  0 < init -> 0 < max -> b !! situation = Some (mkBackoff (period n) last) ->
  (forall i now, nows !! i = Some now ->
     0 <= now - (match i with O => last | S j => nth j nows 0 end) <= process * 2 + period (n + i)) ->
  sleeps situation init max process skip nows b =
    (fun i => (period (n + 1 + i), true)) <$> seq 0 (length nows).
Proof.
  intros Hi Hm. revert n last b. induction nows as [|now nows IH]; intros n last b Hb Hw; [done|].
  cbn [sleeps length seq fmap list_fmap].
  assert (Hp : 0 < period n <= max).
  { unfold period. pose proof (Z.pow_pos_nonneg 2 (Z.of_nat n)). nia. }
  rewrite (continual_step now (period n) last b Hb ltac:(lia)).
  2: { specialize (Hw 0%nat now eq_refl). by rewrite Nat.add_0_r in Hw. }
  destruct (Z.eqb_spec (period n) 0); [lia|]. rewrite period_step by done.
  rewrite Nat.add_0_r, Nat.add_1_r. f_equal.
  rewrite (IH (S n) now).
  - rewrite <- (fmap_S_seq 0), <- list_fmap_compose. apply list_fmap_ext. intros i j _. cbn.
    do 2 f_equal. lia.
  - by rewrite lookup_insert_eq.
  - intros i t Ht. specialize (Hw (S i) t Ht). replace (S n + i)%nat with (n + S i)%nat by lia.
    by destruct i.
Qed.

End backoff.

(** The sleeps of a run of errors grow as exponential backoff: from the
    first error of a situation, as long as each error comes within two process
    times plus the last sleep of the previous one, the periods are the base,
    then twice, four times the base and so on, capped by the maximum (with
    [skipFirst] the first one is skipped and the base comes second), and every
    sleep after the first is reported as continual. *)
Theorem backoff_doubles (situation : string) (init max process first : Z) (skip : bool)
    (nows : list Z) :
  0 < init -> 0 < max < 2 ^ 62 -> 0 <= process < 2 ^ 61 ->
  let nth_sleep (n : nat) := if skip then match n with O => 0 | S n => period init max n end
                             else period init max n in
  (forall i now, nows !! i = Some now ->
     0 <= now - nth i (first :: nows) 0 <= process * 2 + nth_sleep i) ->
  sleeps situation init max process skip (first :: nows) newBackoffController =
    (nth_sleep 0%nat, false) :: ((fun i => (nth_sleep (S i), true)) <$> seq 0 (length nows)).
Proof.
  intros Hi Hm Hp nth_sleep Hw. cbn [sleeps].
  assert (Hget : getBackoffSleepTime situation init max process skip first newBackoffController =
    ((nth_sleep 0%nat, false),
     <[situation := mkBackoff (nth_sleep 0%nat) first]> newBackoffController)).
  { unfold getBackoffSleepTime, firstProcess, nth_sleep, period, newBackoffController.
    rewrite lookup_empty. cbn.
    rewrite Z.mul_1_r. destruct skip; [done|]. destruct (Z.ltb_spec max init); cbn.
    - by rewrite Z.min_r by lia.
    - by rewrite Z.min_l by lia. }
  rewrite Hget. f_equal. destruct skip.
  - destruct nows as [|now nows]; [done|]. cbn [sleeps length seq fmap list_fmap].
    rewrite (continual_step situation init max process true) with (s := 0) (t := first); try lia.
    2: by rewrite lookup_insert_eq.
    2: { specialize (Hw 0%nat now eq_refl). cbn in Hw. lia. }
    cbn. unfold period at 1. rewrite Z.mul_1_r. f_equal.
    rewrite continual_sleeps with (n := 0%nat) (last := now); try lia.
    + rewrite <- (fmap_S_seq 0), <- list_fmap_compose. by apply list_fmap_ext.
    + rewrite lookup_insert_eq. unfold period. by rewrite Z.mul_1_r.
    + intros i t Ht. specialize (Hw (S i) t Ht). destruct i; exact Hw.
  - rewrite continual_sleeps with (n := 0%nat) (last := first); try lia.
    + by apply list_fmap_ext.
    + by rewrite lookup_insert_eq.
    + intros i t Ht. specialize (Hw i t Ht). destruct i; exact Hw.
Qed.

Lemma backoff_doubles_witness :
  sleeps "attemptReconnection" (1 * Second) (600 * Second) (30 * Second) false
    [0; 5 * Second; 20 * Second; 80 * Second] newBackoffController =
  [(1 * Second, false); (2 * Second, true); (4 * Second, true); (8 * Second, true)].
Proof.
  refine (eq_trans (backoff_doubles "attemptReconnection" (1 * Second) (600 * Second)
    (30 * Second) 0 false [5 * Second; 20 * Second; 80 * Second] _ _ _ _) _).
  - reflexivity.
  - split; reflexivity.
  - split; [discriminate|reflexivity].
  - intros [|[|[|i]]] now Hn; cbn in Hn; try discriminate; injection Hn as <-;
      split; (discriminate || reflexivity).
  - vm_compute. reflexivity.
Defined.

(** ** The jitter *)

Definition float64_1 : spec_float := binary_normalize 53 1024 1 0 false.
Definition float64_2 : spec_float := binary_normalize 53 1024 2 0 false.
Definition float64_0_25 : spec_float := binary_normalize 53 1024 1 (-2) false.

(** [rand.Float64()]: one of the 2^53 multiples of 2^-53 below 1. *)
Definition rand_Float64 (k : Z) : spec_float := binary_normalize 53 1024 k (-53) false.

(** [r] is what rand.Float64 returned. *)
Definition jitterDuration (d : Z) (jitter r : spec_float) : Z :=
  if SFleb jitter (S754_zero false) then d
  else
    let factor := float64_add (float64_sub float64_1 jitter) (float64_mul r (float64_mul float64_2 jitter)) in
    int_of_float64 (float64_mul (float64_of_int d) factor).

(** The result, how long the goroutine sleeps (if it does), and the controller. *)
Definition sleepWithBackoff (situation : string) (initSleepPeriod maxSleepPeriod processTime : Z)
    (skipFirst : bool) (now : Z) (r : spec_float) (b : backoffController)
  : ((Z * bool) * option Z) * backoffController :=
  let '((sleep, isFirst), b') :=
    getBackoffSleepTime situation initSleepPeriod maxSleepPeriod processTime skipFirst now b in
  (((sleep, isFirst), if sleep =? 0 then None else Some (jitterDuration sleep float64_0_25 r)), b').

Lemma jitter_low : float64_sub float64_1 float64_0_25 = S754_finite false 6755399441055744 (-53).
Proof. reflexivity. Qed.

Lemma jitter_width : float64_mul float64_2 float64_0_25 = S754_finite false 4503599627370496 (-53).
Proof. reflexivity. Qed.

(** A random number times one half. *)
Lemma jitter_random k :
  0 < k < 2 ^ 53 ->
  let c := float64_mul (rand_Float64 k) (S754_finite false 4503599627370496 (-53)) in
  (exists m e, c = S754_finite false m e /\ -200 <= e <= 200 /\ Zpos m < 2 ^ 60) /\
  0 < 2 * scaled c <= 2 ^ 1100 + 2 ^ 1050.
Proof.
  intros Hk c. pose proof (Z.log2_nonneg k) as Hl0.
  assert (Hl : Z.log2 k <= 52) by (apply Z.lt_succ_r, Z.log2_lt_pow2; lia).
  destruct (normalize_near k (-53)) as [Hr Hnr]; [lia|lia|lia|]. fold (rand_Float64 k) in Hr, Hnr.
  change (-53 + 1100) with 1047 in Hnr. unfold near in Hnr.
  destruct (float_shape (rand_Float64 k) 1046 1101 Hr) as (m & e & Hrs & Hm & He); [lia|lia|nia|].
  destruct (mul_near (rand_Float64 k) (S754_finite false 4503599627370496 (-53)) m e
    4503599627370496 (-53) Hrs eq_refl) as [Hc Hnc]; [lia|lia|lia|lia|].
  fold c in Hc, Hnc. change (scaled (S754_finite false 4503599627370496 (-53))) with (2 ^ 1099) in Hnc.
  replace (scaled c * 2 ^ 1100) with (2 * scaled c * 2 ^ 1099) in Hnc by lia.
  apply near_cancel in Hnc; [|by apply Z.pow_pos_nonneg]. unfold near in Hnc.
  assert (Hb : 2 ^ 1040 <= scaled c < 2 ^ 1101 /\ 2 * scaled c <= 2 ^ 1100 + 2 ^ 1050) by nia.
  destruct (float_shape c 1040 1101 Hc) as (mc & ec & Hcs & Hmc & Hec); [lia|lia|lia|].
  split; [exists mc, ec; repeat split; (done || lia)|lia].
Qed.

(** The factor is between 3/4 and 5/4, up to rounding. *)
Lemma jitter_factor k :
  0 <= k < 2 ^ 53 ->
  let f := float64_add (S754_finite false 6755399441055744 (-53))
             (float64_mul (rand_Float64 k) (S754_finite false 4503599627370496 (-53))) in
  positive_float f /\
  3 * (2 ^ 50 - 1) * 2 ^ 1100 <= 4 * 2 ^ 50 * scaled f <= 5 * (2 ^ 50 + 1) * 2 ^ 1100.
Proof.
  intros Hk f. destruct (Z.eq_dec k 0) as [->|Hne]; [by vm_compute|].
  destruct (jitter_random k ltac:(lia)) as [(m & e & Hc & He & Hm) Hb].
  destruct (add_near (S754_finite false 6755399441055744 (-53))
    (float64_mul (rand_Float64 k) (S754_finite false 4503599627370496 (-53)))
    6755399441055744 (-53) m e eq_refl Hc) as [Hf Hn]; [lia|lia|lia|lia|].
  fold f in Hf, Hn. split; [done|]. unfold near in Hn.
  change (scaled (S754_finite false 6755399441055744 (-53))) with (3 * 2 ^ 1098) in Hn. lia.
Qed.

(** Three roundings and a truncation: [X] is [d] up to one, [F] the factor up to
    two, [P] their product up to one, all scaled by [U], and [j] the whole part. *)
Lemma product_upper d X F P U j :
  0 < U -> 0 <= d -> 0 <= X -> 2 ^ 52 * X <= (2 ^ 52 + 1) * (d * U) ->
  4 * 2 ^ 50 * F <= 5 * (2 ^ 50 + 1) * U ->
  2 ^ 52 * (P * U) <= (2 ^ 52 + 1) * (X * F) -> j * U <= P ->
  2 ^ 156 * j <= 5 * d * ((2 ^ 52 + 1) * (2 ^ 52 + 1) * (2 ^ 50 + 1)).
Proof.
  intros HU Hd HX0 HX HF HP Hj.
  apply (Z.mul_le_mono_pos_r _ _ (U * U)); [nia|].
  pose proof (Z.mul_le_mono_nonneg_l _ _ X HX0 HF).
  pose proof (Z.mul_le_mono_nonneg_l _ _ U (Z.lt_le_incl _ _ HU) HX).
  pose proof (Z.mul_le_mono_nonneg_l _ _ U (Z.lt_le_incl _ _ HU) Hj).
  lia.
Qed.

Lemma product_lower d X F P U j :
  0 < U -> 0 <= d -> 0 <= X -> (2 ^ 52 - 1) * (d * U) <= 2 ^ 52 * X ->
  3 * (2 ^ 50 - 1) * U <= 4 * 2 ^ 50 * F ->
  (2 ^ 52 - 1) * (X * F) <= 2 ^ 52 * (P * U) -> P < (j + 1) * U ->
  3 * d * ((2 ^ 52 - 1) * (2 ^ 52 - 1) * (2 ^ 50 - 1)) <= 2 ^ 156 * (j + 1).
Proof.
  intros HU Hd HX0 HX HF HP Hj.
  apply (Z.mul_le_mono_pos_r _ _ (U * U)); [nia|].
  pose proof (Z.mul_le_mono_nonneg_l _ _ X HX0 HF).
  pose proof (Z.mul_le_mono_nonneg_l _ _ U (Z.lt_le_incl _ _ HU) HX).
  pose proof (Z.mul_le_mono_nonneg_l _ _ U (Z.lt_le_incl _ _ HU) (Z.lt_le_incl _ _ Hj)).
  lia.
Qed.

(** With the factor the library uses, a sleep is jittered by at most a quarter in
    either direction (and an error of one part in 2^42 and a nanosecond), however
    the random number falls: no sleep of up to 146 years overflows or becomes
    negative. *)
Theorem jitter_bounded (d k : Z) :
  0 < d < 2 ^ 62 -> 0 <= k < 2 ^ 53 ->
  let j := jitterDuration d float64_0_25 (rand_Float64 k) in
  let err := d / 2 ^ 40 + 4 in
  0 <= j /\ 3 * d - err <= 4 * j <= 5 * d + err.
Proof.
  intros Hd Hk j err.
  assert (Hj : j = int_of_float64 (float64_mul (float64_of_int d)
    (float64_add (S754_finite false 6755399441055744 (-53))
      (float64_mul (rand_Float64 k) (S754_finite false 4503599627370496 (-53)))))).
  { unfold j, jitterDuration. rewrite jitter_low, jitter_width. reflexivity. }
  destruct (jitter_factor k Hk) as [Hf Hfb]. set (f := float64_add _ _) in *.
  pose proof (Z.log2_nonneg d) as Hl0.
  assert (Hl : Z.log2 d < 62) by (apply Z.log2_lt_pow2; lia).
  destruct (normalize_near d 0) as [Hx Hxn]; [lia|lia|lia|]. fold (float64_of_int d) in Hx, Hxn.
  change (0 + 1100) with 1100 in Hxn. unfold near in Hxn.
  destruct (float_shape f 1099 1102 Hf) as (mf & ef & Hfs & Hmf & Hef); [lia|lia|lia|].
  destruct (float_shape (float64_of_int d) 1099 1163 Hx) as (mx & ex & Hxs & Hmx & Hex); [lia|lia|nia|].
  destruct (mul_near _ _ _ _ _ _ Hxs Hfs) as [Hp Hpn]; [lia|lia|lia|lia|]. unfold near in Hpn.
  pose proof (int_of_float64_spec _ Hp) as Hi. rewrite <- Hj in Hi.
  pose proof (positive_scaled _ Hp) as HP0.
  set (P := scaled (float64_mul (float64_of_int d) f)) in *. set (X := scaled (float64_of_int d)) in *.
  set (F := scaled f) in *. clearbody P X F j. clear Hj Hfs Hxs Hp Hf Hx f.
  assert (HU : 0 < 2 ^ 1100) by reflexivity. set (U := 2 ^ 1100) in *. clearbody U.
  assert (HX : 0 <= X) by nia.
  destruct Hxn, Hfb, Hpn, Hi. split; [nia|].
  pose proof (product_upper d X F P U j HU ltac:(lia) HX ltac:(done) ltac:(done) ltac:(done) ltac:(done)) as Hup.
  pose proof (product_lower d X F P U j HU ltac:(lia) HX ltac:(done) ltac:(done) ltac:(done) ltac:(done)) as Hlow.
  unfold err. clear -Hd Hup Hlow.
  pose proof (Z.div_mod d (2 ^ 40) ltac:(done)). pose proof (Z.mod_pos_bound d (2 ^ 40) ltac:(done)).
  set (q := d `div` 2 ^ 40) in *. set (r := d `mod` 2 ^ 40) in *. clearbody q r. lia.
Qed.

Lemma jitter_bounded_witness :
  jitterDuration (4 * Second) float64_0_25 (rand_Float64 (2 ^ 52)) = 4 * Second /\
  jitterDuration (4 * Second) float64_0_25 (rand_Float64 0) = 3 * Second /\
  let j := jitterDuration (4 * Second) float64_0_25 (rand_Float64 (2 ^ 53 - 1)) in
  4 * j <= 5 * (4 * Second) + (4 * Second / 2 ^ 40 + 4).
Proof.
  split; [vm_compute; reflexivity|]. split; [vm_compute; reflexivity|].
  refine (proj2 (proj2 (jitter_bounded (4 * Second) (2 ^ 53 - 1) _ _))); split; (reflexivity || discriminate).
Defined.

(** ** Sleeping *)

(** A pause between zero and a quarter more than [max]. *)
Definition pause_within (max d : Z) : Prop := 0 <= d /\ 4 * d <= 5 * max + max / 2 ^ 40 + 4.

Lemma sleep_pause situation init max process skip now k b res pause b' :
  0 <= init -> 0 <= max < 2 ^ 62 -> 0 <= k < 2 ^ 53 ->
  sleepWithBackoff situation init max process skip now (rand_Float64 k) b = ((res, pause), b') ->
  (forall st, b !! situation = Some st -> 0 <= lastSleepPeriod st <= max) ->
  b' = <[situation := mkBackoff (fst res) now]> b /\ 0 <= fst res <= max /\
  (forall d, pause = Some d -> pause_within max d).
Proof.
  intros Hinit Hmax Hk Hs Hb. unfold sleepWithBackoff in Hs.
  destruct (getBackoffSleepTime _ _ _ _ _ _ _) as [[sleep first] b1] eqn:Hget.
  destruct (stored_step _ _ _ _ _ Hinit Hmax _ _ _ _ Hget Hb) as [-> Hr]. cbn [fst] in Hr.
  injection Hs as <- <- <-. split; [done|]. split; [done|]. intros d Hd. cbn [fst].
  destruct (Z.eqb_spec sleep 0); [done|]. injection Hd as <-.
  destruct (jitter_bounded sleep k) as (Hj & _ & Hu); [lia|done|]. split; [done|].
  pose proof (Z.div_le_mono sleep max (2 ^ 40)). lia.
Qed.
