(* ===== verification/ClientOptions.v ===== *)
(** * Client: options

    client/options.go, and the QUIC defaults of client/net.go.  The setters are
    functions on the options; the code changes them in place and returns them for
    chaining.  Of the callbacks OnConnectionLost and OnReconnecting only whether the
    application set them is kept; url.Parse is a parameter. *)

From Stdlib Require Import ZArith Lia String SpecFloat.
From stdpp Require Import base list strings numbers.
From S2P Require Import Prelude GoTime Transport.

Local Open Scope Z_scope.

(** ** Strings *)

(** [strings.HasPrefix] and [strings.Contains] on the bytes of Go strings. *)
Fixpoint HasPrefix (s prefix : gostring) : bool :=
  match prefix, s with
  | [], _ => true
  | p :: prefix, b :: s => (b =? p) && HasPrefix s prefix
  | _, [] => false
  end.

Fixpoint StringContains (s sub : gostring) : bool :=
  HasPrefix s sub || match s with [] => false | _ :: s => StringContains s sub end.

Lemma HasPrefix_app sub s : HasPrefix (sub ++ s) sub = true.
Proof. induction sub; cbn; [by destruct s|by rewrite Z.eqb_refl]. Qed.

Lemma StringContains_app pre sub s : StringContains (pre ++ sub ++ s) sub = true.
Proof.
  induction pre as [|b pre IH]; cbn [app].
  - pose proof (HasPrefix_app sub s) as H. destruct (sub ++ s); cbn [StringContains]; by rewrite H.
  - cbn [StringContains]. rewrite IH. apply orb_true_r.
Qed.

(** ** The options *)

(** [URL] is the parsed server address; of the callbacks OnConnectionLost and
    OnReconnecting, whether the application has set them. *)
Record ClientOptions (URL : Type) : Type := mkOptions {
  Servers : list URL;
  opt_Credential : gostring;
  Heartbeat : Z;
  opt_ProtocolVersion : Z;
  ConnectRetry : bool;
  ConnectRetryInterval : Z;
  ConnectTimeout : Z;
  WriteTimeout : Z;
  AutoReconnect : bool;
  OnConnectionLost : bool;
  MaxReconnectInterval : Z;
  OnReconnecting : bool;
  TLSConfig : option TlsConfig;
  OnConnectAttempt : option (URL -> option TlsConfig -> option TlsConfig);
  ReconnectBase : Z;
  ReconnectJitter : spec_float;
  AdaptiveHeartbeat : bool;
  AdaptiveShort : Z;
  AdaptiveMax : Z;
  ProbeCount : Z;
  ResponseWindow : Z;
  FineStep : Z;
  quicConfig : option QuicConfig;
}.

Arguments mkOptions {URL}.
Arguments Servers {URL}.
Arguments opt_Credential {URL}.
Arguments Heartbeat {URL}.
Arguments opt_ProtocolVersion {URL}.
Arguments ConnectRetry {URL}.
Arguments ConnectRetryInterval {URL}.
Arguments ConnectTimeout {URL}.
Arguments WriteTimeout {URL}.
Arguments AutoReconnect {URL}.
Arguments OnConnectionLost {URL}.
Arguments MaxReconnectInterval {URL}.
Arguments OnReconnecting {URL}.
Arguments TLSConfig {URL}.
Arguments OnConnectAttempt {URL}.
Arguments ReconnectBase {URL}.
Arguments ReconnectJitter {URL}.
Arguments AdaptiveHeartbeat {URL}.
Arguments AdaptiveShort {URL}.
Arguments AdaptiveMax {URL}.
Arguments ProbeCount {URL}.
Arguments ResponseWindow {URL}.
Arguments FineStep {URL}.
Arguments quicConfig {URL}.

Section options.
Context {URL : Type}.
Implicit Types o : ClientOptions URL.

Definition NewClientOptions : ClientOptions URL :=
  mkOptions [] [] 10 0 true (30 * Second) (30 * Second) 0 true false (600 * Second) false None None
    (1 * Second) (binary_normalize 53 1024 1 (-2) false) false 0 0 0 0 0 None.

(** ** AddServer *)

(** The address AddServer parses: ":port" means this host, and a bare address is
    a TCP address. *)
Definition server_address (server : gostring) : gostring :=
  let server := match server with
                | b :: _ => if b =? 58 then go_bytes "127.0.0.1" ++ server else server
                | [] => server
                end in
  if StringContains server (go_bytes "://") then server else go_bytes "tcp://" ++ server.

(** [Parse] is url.Parse. *)
Definition AddServer (Parse : gostring -> error + URL) (server : gostring) (o : ClientOptions URL)
  : ClientOptions URL :=
  match Parse (server_address server) with
  | inl _ => o
  | inr serverURI =>
      mkOptions (Servers o ++ [serverURI]) (opt_Credential o) (Heartbeat o) (opt_ProtocolVersion o)
        (ConnectRetry o) (ConnectRetryInterval o) (ConnectTimeout o) (WriteTimeout o)
        (AutoReconnect o) (OnConnectionLost o) (MaxReconnectInterval o) (OnReconnecting o)
        (TLSConfig o) (OnConnectAttempt o) (ReconnectBase o) (ReconnectJitter o)
        (AdaptiveHeartbeat o) (AdaptiveShort o) (AdaptiveMax o) (ProbeCount o) (ResponseWindow o)
        (FineStep o) (quicConfig o)
  end.

(** ** The other setters *)

Definition SetCredential (id : gostring) (o : ClientOptions URL) : ClientOptions URL :=
  mkOptions (Servers o) id (Heartbeat o) (opt_ProtocolVersion o) (ConnectRetry o)
    (ConnectRetryInterval o) (ConnectTimeout o) (WriteTimeout o) (AutoReconnect o)
    (OnConnectionLost o) (MaxReconnectInterval o) (OnReconnecting o) (TLSConfig o)
    (OnConnectAttempt o) (ReconnectBase o) (ReconnectJitter o) (AdaptiveHeartbeat o)
    (AdaptiveShort o) (AdaptiveMax o) (ProbeCount o) (ResponseWindow o) (FineStep o) (quicConfig o).

(** [o.Heartbeat = int64(k / time.Second)]; Go's division truncates. *)
Definition SetHeartbeat (k : Z) (o : ClientOptions URL) : ClientOptions URL :=
  mkOptions (Servers o) (opt_Credential o) (Z.quot k Second) (opt_ProtocolVersion o)
    (ConnectRetry o) (ConnectRetryInterval o) (ConnectTimeout o) (WriteTimeout o) (AutoReconnect o)
    (OnConnectionLost o) (MaxReconnectInterval o) (OnReconnecting o) (TLSConfig o)
    (OnConnectAttempt o) (ReconnectBase o) (ReconnectJitter o) (AdaptiveHeartbeat o)
    (AdaptiveShort o) (AdaptiveMax o) (ProbeCount o) (ResponseWindow o) (FineStep o) (quicConfig o).

Definition SetAdaptiveHeartbeat (shortSeconds maxSeconds : Z) (o : ClientOptions URL)
  : ClientOptions URL :=
  if shortSeconds <? 1 then o
  else if maxSeconds <? shortSeconds then o
  else
    mkOptions (Servers o) (opt_Credential o) (Heartbeat o) (opt_ProtocolVersion o) (ConnectRetry o)
      (ConnectRetryInterval o) (ConnectTimeout o) (WriteTimeout o) (AutoReconnect o)
      (OnConnectionLost o) (MaxReconnectInterval o) (OnReconnecting o) (TLSConfig o)
      (OnConnectAttempt o) (ReconnectBase o) (ReconnectJitter o) true shortSeconds maxSeconds
      (if ProbeCount o =? 0 then 3 else ProbeCount o)
      (if ResponseWindow o =? 0 then 2 * Second else ResponseWindow o)
      (if FineStep o =? 0 then 5 else FineStep o) (quicConfig o).

Definition SetProbeCount (n : Z) (o : ClientOptions URL) : ClientOptions URL :=
  mkOptions (Servers o) (opt_Credential o) (Heartbeat o) (opt_ProtocolVersion o) (ConnectRetry o)
    (ConnectRetryInterval o) (ConnectTimeout o) (WriteTimeout o) (AutoReconnect o)
    (OnConnectionLost o) (MaxReconnectInterval o) (OnReconnecting o) (TLSConfig o)
    (OnConnectAttempt o) (ReconnectBase o) (ReconnectJitter o) (AdaptiveHeartbeat o)
    (AdaptiveShort o) (AdaptiveMax o) n (ResponseWindow o) (FineStep o) (quicConfig o).

Definition SetResponseWindow (d : Z) (o : ClientOptions URL) : ClientOptions URL :=
  mkOptions (Servers o) (opt_Credential o) (Heartbeat o) (opt_ProtocolVersion o) (ConnectRetry o)
    (ConnectRetryInterval o) (ConnectTimeout o) (WriteTimeout o) (AutoReconnect o)
    (OnConnectionLost o) (MaxReconnectInterval o) (OnReconnecting o) (TLSConfig o)
    (OnConnectAttempt o) (ReconnectBase o) (ReconnectJitter o) (AdaptiveHeartbeat o)
    (AdaptiveShort o) (AdaptiveMax o) (ProbeCount o) d (FineStep o) (quicConfig o).

Definition SetFineStep (seconds : Z) (o : ClientOptions URL) : ClientOptions URL :=
  mkOptions (Servers o) (opt_Credential o) (Heartbeat o) (opt_ProtocolVersion o) (ConnectRetry o)
    (ConnectRetryInterval o) (ConnectTimeout o) (WriteTimeout o) (AutoReconnect o)
    (OnConnectionLost o) (MaxReconnectInterval o) (OnReconnecting o) (TLSConfig o)
    (OnConnectAttempt o) (ReconnectBase o) (ReconnectJitter o) (AdaptiveHeartbeat o)
    (AdaptiveShort o) (AdaptiveMax o) (ProbeCount o) (ResponseWindow o) seconds (quicConfig o).

Definition SetReconnectBase (k : Z) (o : ClientOptions URL) : ClientOptions URL :=
  mkOptions (Servers o) (opt_Credential o) (Heartbeat o) (opt_ProtocolVersion o) (ConnectRetry o)
    (ConnectRetryInterval o) (ConnectTimeout o) (WriteTimeout o) (AutoReconnect o)
    (OnConnectionLost o) (MaxReconnectInterval o) (OnReconnecting o) (TLSConfig o)
    (OnConnectAttempt o) k (ReconnectJitter o) (AdaptiveHeartbeat o) (AdaptiveShort o)
    (AdaptiveMax o) (ProbeCount o) (ResponseWindow o) (FineStep o) (quicConfig o).

Definition SetReconnectJitter (j : spec_float) (o : ClientOptions URL) : ClientOptions URL :=
  mkOptions (Servers o) (opt_Credential o) (Heartbeat o) (opt_ProtocolVersion o) (ConnectRetry o)
    (ConnectRetryInterval o) (ConnectTimeout o) (WriteTimeout o) (AutoReconnect o)
    (OnConnectionLost o) (MaxReconnectInterval o) (OnReconnecting o) (TLSConfig o)
    (OnConnectAttempt o) (ReconnectBase o) j (AdaptiveHeartbeat o) (AdaptiveShort o) (AdaptiveMax o)
    (ProbeCount o) (ResponseWindow o) (FineStep o) (quicConfig o).

Definition SetConnectTimeout (k : Z) (o : ClientOptions URL) : ClientOptions URL :=
  mkOptions (Servers o) (opt_Credential o) (Heartbeat o) (opt_ProtocolVersion o) (ConnectRetry o)
    (ConnectRetryInterval o) k (WriteTimeout o) (AutoReconnect o) (OnConnectionLost o)
    (MaxReconnectInterval o) (OnReconnecting o) (TLSConfig o) (OnConnectAttempt o) (ReconnectBase o)
    (ReconnectJitter o) (AdaptiveHeartbeat o) (AdaptiveShort o) (AdaptiveMax o) (ProbeCount o)
    (ResponseWindow o) (FineStep o) (quicConfig o).

Definition SetWriteTimeout (k : Z) (o : ClientOptions URL) : ClientOptions URL :=
  mkOptions (Servers o) (opt_Credential o) (Heartbeat o) (opt_ProtocolVersion o) (ConnectRetry o)
    (ConnectRetryInterval o) (ConnectTimeout o) k (AutoReconnect o) (OnConnectionLost o)
    (MaxReconnectInterval o) (OnReconnecting o) (TLSConfig o) (OnConnectAttempt o) (ReconnectBase o)
    (ReconnectJitter o) (AdaptiveHeartbeat o) (AdaptiveShort o) (AdaptiveMax o) (ProbeCount o)
    (ResponseWindow o) (FineStep o) (quicConfig o).

Definition SetTlsConfig (config : option TlsConfig) (o : ClientOptions URL) : ClientOptions URL :=
  mkOptions (Servers o) (opt_Credential o) (Heartbeat o) (opt_ProtocolVersion o) (ConnectRetry o)
    (ConnectRetryInterval o) (ConnectTimeout o) (WriteTimeout o) (AutoReconnect o)
    (OnConnectionLost o) (MaxReconnectInterval o) (OnReconnecting o) config (OnConnectAttempt o)
    (ReconnectBase o) (ReconnectJitter o) (AdaptiveHeartbeat o) (AdaptiveShort o) (AdaptiveMax o)
    (ProbeCount o) (ResponseWindow o) (FineStep o) (quicConfig o).

Definition SetQuicConfig (config : option QuicConfig) (o : ClientOptions URL) : ClientOptions URL :=
  let q := match config with
           | None => None
           | Some cfg => if KeepAlivePeriod cfg <=? 0 then None else Some cfg
           end in
  mkOptions (Servers o) (opt_Credential o) (Heartbeat o) (opt_ProtocolVersion o) (ConnectRetry o)
    (ConnectRetryInterval o) (ConnectTimeout o) (WriteTimeout o) (AutoReconnect o)
    (OnConnectionLost o) (MaxReconnectInterval o) (OnReconnecting o) (TLSConfig o)
    (OnConnectAttempt o) (ReconnectBase o) (ReconnectJitter o) (AdaptiveHeartbeat o)
    (AdaptiveShort o) (AdaptiveMax o) (ProbeCount o) (ResponseWindow o) (FineStep o) q.

Definition SetConnectionAttemptHandler (h : option (URL -> option TlsConfig -> option TlsConfig)) (o : ClientOptions URL) : ClientOptions URL :=
  mkOptions (Servers o) (opt_Credential o) (Heartbeat o) (opt_ProtocolVersion o) (ConnectRetry o)
    (ConnectRetryInterval o) (ConnectTimeout o) (WriteTimeout o) (AutoReconnect o)
    (OnConnectionLost o) (MaxReconnectInterval o) (OnReconnecting o) (TLSConfig o) h
    (ReconnectBase o) (ReconnectJitter o) (AdaptiveHeartbeat o) (AdaptiveShort o) (AdaptiveMax o)
    (ProbeCount o) (ResponseWindow o) (FineStep o) (quicConfig o).

(** net.go: the configuration a QUIC dial uses. *)
Definition quicConf (override : option QuicConfig) : QuicConfig :=
  match override with
  | Some q => q
  | None => mkQuic (900 * Second) (30 * Second)
  end.

End options.

(** ** Building options *)

(** One call on the options. *)
Inductive setting (URL : Type) : Type :=
| UAddServer (Parse : gostring -> error + URL) (server : gostring)
| UCredential (id : gostring)
| UHeartbeat (k : Z)
| UAdaptive (short max : Z)
| UProbeCount (n : Z)
| UResponseWindow (d : Z)
| UFineStep (seconds : Z)
| UReconnectBase (k : Z)
| UReconnectJitter (j : spec_float)
| UConnectTimeout (k : Z)
| UWriteTimeout (k : Z)
| UTlsConfig (config : option TlsConfig)
| UQuicConfig (config : option QuicConfig)
| UAttemptHandler (h : option (URL -> option TlsConfig -> option TlsConfig)).

Arguments UAddServer {URL}.
Arguments UCredential {URL}.
Arguments UHeartbeat {URL}.
Arguments UAdaptive {URL}.
Arguments UProbeCount {URL}.
Arguments UResponseWindow {URL}.
Arguments UFineStep {URL}.
Arguments UReconnectBase {URL}.
Arguments UReconnectJitter {URL}.
Arguments UConnectTimeout {URL}.
Arguments UWriteTimeout {URL}.
Arguments UTlsConfig {URL}.
Arguments UQuicConfig {URL}.
Arguments UAttemptHandler {URL}.

Definition configure {URL} (o : ClientOptions URL) (u : setting URL) : ClientOptions URL :=
  match u with
  | UAddServer Parse server => AddServer Parse server o
  | UCredential id => SetCredential id o
  | UHeartbeat k => SetHeartbeat k o
  | UAdaptive short max => SetAdaptiveHeartbeat short max o
  | UProbeCount n => SetProbeCount n o
  | UResponseWindow d => SetResponseWindow d o
  | UFineStep seconds => SetFineStep seconds o
  | UReconnectBase k => SetReconnectBase k o
  | UReconnectJitter j => SetReconnectJitter j o
  | UConnectTimeout k => SetConnectTimeout k o
  | UWriteTimeout k => SetWriteTimeout k o
  | UTlsConfig config => SetTlsConfig config o
  | UQuicConfig config => SetQuicConfig config o
  | UAttemptHandler h => SetConnectionAttemptHandler h o
  end.

(** The addresses given so far that parsed. *)
Definition parsed {URL} (u : setting URL) : list URL :=
  match u with
  | UAddServer Parse server => match Parse (server_address server) with inr x => [x] | inl _ => [] end
  | _ => []
  end.

Lemma configure_servers {URL} (us : list (setting URL)) o :
  Servers (fold_left configure us o) = Servers o ++ concat (parsed <$> us).
Proof.
  revert o. induction us as [|u us IH]; intros o; cbn; [by rewrite app_nil_r|].
  rewrite IH, app_assoc. f_equal. destruct u; cbn; try by rewrite app_nil_r.
  - unfold AddServer. destruct (Parse _); cbn; by rewrite ?app_nil_r.
  - unfold SetAdaptiveHeartbeat. by repeat case_match; rewrite app_nil_r.
Qed.

(** Options the rest of the client can rely on. *)
Definition well_formed {URL} (o : ClientOptions URL) : Prop :=
  (AdaptiveHeartbeat o = true -> 1 <= AdaptiveShort o <= AdaptiveMax o) /\
  0 < KeepAlivePeriod (quicConf (quicConfig o)).

Lemma configure_well_formed {URL} (u : setting URL) o : well_formed o -> well_formed (configure o u).
Proof.
  intros [Ha Hq]. destruct u; try done; cbn.
  - unfold AddServer. by destruct (Parse _).
  - unfold SetAdaptiveHeartbeat. destruct (Z.ltb_spec short 1); [done|].
    destruct (Z.ltb_spec max short); [done|]. split; [cbn; lia|done].
  - split; [done|]. cbn. destruct config as [q|]; [|done].
    destruct (Z.leb_spec (KeepAlivePeriod q) 0); cbn; [done|lia].
Qed.

(** However the options are built from the defaults with the setters, in
    whatever order and with whatever arguments, they are well-formed: an adaptive
    heartbeat has a non-empty positive range and the QUIC transport the client
    dials with has its keepalive enabled; and the servers are exactly the
    addresses that parsed, in the order they were added. *)
Theorem options_well_formed {URL : Type} (us : list (setting URL)) :
  well_formed (fold_left configure us NewClientOptions) /\
  Servers (fold_left configure us NewClientOptions) = concat (parsed <$> us).
Proof.
  split; [|by rewrite configure_servers].
  assert (H : forall o, well_formed o -> well_formed (fold_left configure us o)).
  { induction us as [|u us IH]; intros o Ho; [done|]. apply IH. by apply configure_well_formed. }
  by apply H.
Qed.

Lemma server_address_scheme server : StringContains (server_address server) (go_bytes "://") = true.
Proof.
  unfold server_address. set (s := match server with [] => _ | b :: _ => _ end).
  destruct (StringContains s (go_bytes "://")) eqn:Hs; [done|].
  apply (StringContains_app (go_bytes "tcp") (go_bytes "://") s).
Qed.

(** The address AddServer parses always names a scheme; an address that names
    one already is parsed as it is, a port alone means a TCP connection to this
    host and anything else a TCP address; giving AddServer an address it has
    completed itself changes nothing. *)
Theorem add_server_address (server : gostring) :
  StringContains (server_address server) (go_bytes "://") = true /\
  (StringContains server (go_bytes "://") = true -> head server <> Some 58 ->
     server_address server = server) /\
  (StringContains server (go_bytes "://") = false -> head server <> Some 58 ->
     server_address server = go_bytes "tcp://" ++ server) /\
  (forall port, server = 58 :: port -> StringContains port (go_bytes "://") = false ->
     HasPrefix port (go_bytes "//") = false ->
     server_address server = go_bytes "tcp://127.0.0.1" ++ server) /\
  server_address (server_address server) = server_address server.
Proof.
  assert (Hhead : forall s, head s <> Some 58 -> server_address s =
    if StringContains s (go_bytes "://") then s else go_bytes "tcp://" ++ s).
  { intros [|b s] Hb; [done|]. unfold server_address. cbn in Hb.
    by destruct (Z.eqb_spec b 58) as [->|]. }
  assert (Hfix : forall s, StringContains s (go_bytes "://") = true -> head s <> Some 58 ->
    server_address s = s) by (intros s Hs Hb; by rewrite Hhead, Hs).
  split; [apply server_address_scheme|]. split; [apply Hfix|].
  split; [intros Hs Hb; by rewrite Hhead, Hs|]. split.
  - intros port -> Hp Hpre. unfold server_address. cbn [Z.eqb Pos.eqb].
    assert (Hs : StringContains (go_bytes "127.0.0.1" ++ 58 :: port) (go_bytes "://") = false).
    { cbn in Hp, Hpre |- *. rewrite Hp, Hpre. done. }
    by rewrite Hs.
  - apply Hfix; [apply server_address_scheme|]. unfold server_address.
    destruct server as [|b s]; [done|]. destruct (Z.eqb_spec b 58) as [->|Hb].
    + by destruct (StringContains _ _).
    + destruct (StringContains (b :: s) _); [|done]. cbn. congruence.
Qed.
