(* ===== verification/ClientDial.v ===== *)
(** * Client: dialing

    openConnection, dialWebSocket and quicConn.Close of client/net.go.  The
    network libraries are a parameter, [environment], that says which of their
    calls fail; a connection, QUIC session or stream they hand out is a resource
    that stays open until it is closed, and [world] is the set of open ones. *)

From Stdlib Require Import ZArith Lia String.
From stdpp Require Import base list strings gmap numbers.
From S2P Require Import Prelude GoTime Transport ClientOptions.

Local Open Scope Z_scope.

Record URI : Type := mkURI { Scheme : gostring; Host : gostring; Path : gostring }.

(** websocket.Config, without the fields that are constants (the protocol "rmtt"
    and the version) and the origin, which is made of the host. *)
Record WsConfig : Type := mkWsConfig { Location : gostring; ws_TlsConfig : option TlsConfig }.

(** The calls into the libraries, each with the error it may return. *)
Record environment : Type := mkEnv {
  Dialer_Dial : gostring -> option error;
  kcp_Dial : gostring -> option error;
  Handshake : option TlsConfig -> option error;
  quic_DialAddr : gostring -> option TlsConfig -> QuicConfig -> option error;
  OpenStreamSync : option error;
  url_Parse : gostring -> option error;
  websocket_DialConfig : WsConfig -> option error;
  Stream_Close : option error;
}.

Abbreviation world := (gset nat) (only parsing).

Inductive conn : Type :=
| TcpConn (r : nat)
| KcpConn (r : nat)
| TlsConn (r : nat)                       (* around the TCP connection *)
| QuicConn (stream session : nat)
| WsStreamConn (r : nat).

Definition handles (c : conn) : gset nat :=
  match c with
  | TcpConn r | KcpConn r | TlsConn r | WsStreamConn r => {[r]}
  | QuicConn stream session => {[stream; session]}
  end.

Section dial.
Context (E : environment).

(** A library call that hands out a resource unless it fails. *)
Definition acquire (err : option error) (w : world) : (error + nat) * world :=
  match err with
  | Some e => (inl e, w)
  | None => let r := fresh w in (inr r, {[r]} ∪ w)
  end.

Definition release (r : nat) (w : world) : world := w ∖ {[r]}.

Definition dialWebSocket (host path scheme : gostring) (tlsConfig : option TlsConfig) (w : world)
  : (error + conn) * world :=
  let path := match path with [] => go_bytes "/rmtt" | _ => path end in
  let loc := scheme ++ go_bytes "://" ++ host ++ path in
  match url_Parse E loc with
  | Some err => (inl err, w)
  | None =>
      match acquire (websocket_DialConfig E (mkWsConfig loc tlsConfig)) w with
      | (inl err, w) => (inl err, w)
      | (inr r, w) => (inr (WsStreamConn r), w)
      end
  end.

Definition unknown_protocol : error := Errorf "unknown protocol".

Definition openConnection (uri : URI) (tlsc : option TlsConfig) (quicConfig : option QuicConfig)
    (w : world) : (error + conn) * world :=
  if bool_decide (Scheme uri = go_bytes "tcp") then
    match acquire (Dialer_Dial E (Host uri)) w with
    | (inl err, w) => (inl err, w)
    | (inr r, w) => (inr (TcpConn r), w)
    end
  else if bool_decide (Scheme uri = go_bytes "kcp") then
    match acquire (kcp_Dial E (Host uri)) w with
    | (inl err, w) => (inl err, w)
    | (inr r, w) => (inr (KcpConn r), w)
    end
  else if bool_decide (Scheme uri = go_bytes "tls") then
    match acquire (Dialer_Dial E (Host uri)) w with
    | (inl err, w) => (inl err, w)
    | (inr r, w) =>
        match Handshake E tlsc with
        | Some err => (inl err, release r w)
        | None => (inr (TlsConn r), w)
        end
    end
  else if bool_decide (Scheme uri = go_bytes "quic") then
    match acquire (quic_DialAddr E (Host uri) tlsc (quicConf quicConfig)) w with
    | (inl err, w) => (inl err, w)
    | (inr session, w) =>
        match acquire (OpenStreamSync E) w with
        | (inl err, w) => (inl err, release session w)
        | (inr stream, w) => (inr (QuicConn stream session), w)
        end
    end
  else if bool_decide (Scheme uri = go_bytes "ws") then
    dialWebSocket (Host uri) (Path uri) (go_bytes "ws") None w
  else if bool_decide (Scheme uri = go_bytes "wss") then
    dialWebSocket (Host uri) (Path uri) (go_bytes "wss") tlsc w
  else (inl unknown_protocol, w).

(** [conn.Close()]; for QUIC, the stream first and then the session. *)
Definition Close (c : conn) (w : world) : option error * world :=
  match c with
  | TcpConn r | KcpConn r | TlsConn r | WsStreamConn r => (None, release r w)
  | QuicConn stream session =>
      match Stream_Close E with
      | Some err => (Some err, w)
      | None => (None, release session (release stream w))
      end
  end.

(** The schemes openConnection knows. *)
Definition known_scheme (s : gostring) : Prop :=
  s ∈ [go_bytes "tcp"; go_bytes "kcp"; go_bytes "tls"; go_bytes "quic"; go_bytes "ws"; go_bytes "wss"].

(** ** Resources *)

Lemma acquire_spec err w :
  match acquire err w with
  | (inl _, w') => w' = w
  | (inr r, w') => w' = {[r]} ∪ w /\ r ∉ w
  end.
Proof. destruct err; cbn; [done|]. split; [done|]. apply is_fresh. Qed.

Definition opens (w : world) (res : (error + conn) * world) : Prop :=
  match res with
  | (inl _, w') => w' = w
  | (inr c, w') => w' = handles c ∪ w /\ handles c ## w
  end.

Lemma acquire_opens err w (mk : nat -> conn) : (forall r, handles (mk r) = {[r]}) ->
  opens w (match acquire err w with (inl e, w) => (inl e, w) | (inr r, w) => (inr (mk r), w) end).
Proof.
  intros Hmk. pose proof (acquire_spec err w) as Ha. destruct (acquire err w) as [[e|r] w']; [done|].
  cbn. rewrite Hmk. destruct Ha as [-> Hr]. split; [done|set_solver].
Qed.

Lemma dialWebSocket_opens host path scheme tlsc w : opens w (dialWebSocket host path scheme tlsc w).
Proof.
  unfold dialWebSocket. destruct (url_Parse _ _); [done|]. by apply acquire_opens.
Qed.

Lemma openConnection_opens uri tlsc q w : opens w (openConnection uri tlsc q w).
Proof.
  unfold openConnection. repeat case_bool_decide; try (by apply acquire_opens);
    try apply dialWebSocket_opens; [| |done].
  - pose proof (acquire_spec (Dialer_Dial E (Host uri)) w) as Ha.
    destruct (acquire _ w) as [[e|r] w']; [done|]. destruct Ha as [-> Hr].
    destruct (Handshake E tlsc); cbn; [|split; [done|set_solver]].
    unfold release. set_solver.
  - pose proof (acquire_spec (quic_DialAddr E (Host uri) tlsc (quicConf q)) w) as Ha.
    destruct (acquire _ w) as [[e|r] w']; [done|]. destruct Ha as [-> Hr].
    pose proof (acquire_spec (OpenStreamSync E) ({[r]} ∪ w)) as Ha.
    destruct (acquire _ ({[r]} ∪ w)) as [[e|r'] w']; cbn; [subst w'; unfold release; set_solver|].
    destruct Ha as [-> Hr']. split; set_solver.
Qed.

(** C32: openConnection leaks nothing: for every scheme, wherever dialing fails,
    everything it had opened is closed again; on success exactly the returned
    connection is open, and closing it releases all of it, except that the QUIC
    session stays open when closing its stream fails.  An unknown scheme fails
    without dialing. *)
Theorem dial_leaks_nothing (uri : URI) (tlsc : option TlsConfig) (q : option QuicConfig) (w : world) :
  (~ known_scheme (Scheme uri) -> openConnection uri tlsc q w = (inl unknown_protocol, w)) /\
  match openConnection uri tlsc q w with
  | (inl _, w') => w' = w
  | (inr c, w') =>
      w' = handles c ∪ w /\ handles c ## w /\
      (fst (Close c w') = None -> snd (Close c w') = w) /\
      (fst (Close c w') <> None -> exists stream session,
         c = QuicConn stream session /\ Scheme uri = go_bytes "quic" /\
         session ∈ snd (Close c w'))
  end.
Proof.
  split.
  { intros Hs. unfold openConnection, known_scheme in *. rewrite !not_elem_of_cons in Hs.
    destruct_and?. by rewrite !bool_decide_eq_false_2. }
  pose proof (openConnection_opens uri tlsc q w) as Ho.
  destruct (openConnection uri tlsc q w) as [[e|c] w'] eqn:Hopen; [done|].
  destruct Ho as [Hw Hd]. split; [done|]. split; [done|]. subst w'.
  destruct c; cbn in *; unfold release; try (split; [intros _; set_solver|done]).
  destruct (Stream_Close E); cbn; (split; [|done || intros _]); [done| |intros _; set_solver].
  exists stream, session. split; [done|]. split; [|set_solver].
  unfold openConnection, dialWebSocket in Hopen.
  repeat (case_match; simplify_eq; try done); by case_bool_decide.
Qed.

End dial.
