(* ===== verification/ClientKeepalive.v ===== *)
(** * Client: keepalive

    client/keepalive.go: the fixed heartbeat and the adaptive one, as functions
    of one tick of their tickers.  The readings of the clock inside a tick are
    arguments; the state is what the goroutine reads and writes: lastSent,
    lastReceived, the negotiated server keepalive and the connection. *)

From Stdlib Require Import ZArith Lia String.
From stdpp Require Import base list strings numbers.
From S2P Require Import Prelude GoIO Codec GoTime GoFloat Server ClientOptions.

Local Open Scope Z_scope.

Record comms (W : Type) : Type := mkComms {
  lastSent : Z;
  lastReceived : Z;
  serverKp : Z;
  conn : W;
}.

Arguments mkComms {W}.
Arguments lastSent {W}.
Arguments lastReceived {W}.
Arguments serverKp {W}.
Arguments conn {W}.

Definition errReceiveTimeout : error := Sentinel "errReceiveTimeout" "keepalive receive timeout".

(** How a tick ends: the loop goes on, or internalConnLost was called and the
    goroutine returned. *)
Inductive tick_result (A : Type) : Type :=
| Ticking (a : A)
| Lost (a : A).

Arguments Ticking {A}.
Arguments Lost {A}.

Section keepalive.
Context {URL W : Type} `{Writer W}.
Implicit Types (o : ClientOptions URL) (k : comms W).

(** The error of the write is only logged. *)
Definition writePingReq (k : comms W) : comms W :=
  mkComms (lastSent k) (lastReceived k) (serverKp k) (snd (Packet_Write new_pingreq (conn k))).

Definition set_lastSent (t : Z) (k : comms W) : comms W :=
  mkComms t (lastReceived k) (serverKp k) (conn k).

Definition effectiveHeartbeat (o : ClientOptions URL) (k : comms W) : Z :=
  if 0 <? serverKp k then serverKp k else Heartbeat o.

(** ** The fixed heartbeat *)

(** [None]: the goroutine returns at once; otherwise the ticker's period. *)
Definition keepalive_period (o : ClientOptions URL) (k : comms W) : option Z :=
  let heartbeat := effectiveHeartbeat o k in
  if heartbeat <=? 0 then None
  else Some (Z.max Second (Z.quot (i64 (heartbeat * Second)) 4)).

(** One tick: [t1] and [t3] are the readings of the two time.Since calls,
    [t2] that of the time.Now stored into lastSent. *)
Definition keepalive_tick (o : ClientOptions URL) (t1 t2 t3 : Z) (k : comms W)
  : tick_result (comms W) :=
  let heartbeat := effectiveHeartbeat o k in
  if heartbeat <=? 0 then Ticking k
  else
    let received := lastReceived k in
    let k := if i64 (heartbeat * Second) <=? Sub t1 (lastSent k)
             then set_lastSent t2 (writePingReq k) else k in
    if one_and_a_half heartbeat <=? Sub t3 received then Lost k else Ticking k.

(** The tick of fixedKeepalive, used by the adaptive heartbeat when it has no
    headroom: lastReceived is read after the ping. *)
Definition fixedKeepalive_tick (o : ClientOptions URL) (t1 t2 t3 : Z) (k : comms W)
  : tick_result (comms W) :=
  let heartbeat := effectiveHeartbeat o k in
  if heartbeat <=? 0 then Ticking k
  else
    let k := if i64 (heartbeat * Second) <=? Sub t1 (lastSent k)
             then set_lastSent t2 (writePingReq k) else k in
    if one_and_a_half heartbeat <=? Sub t3 (lastReceived k) then Lost k else Ticking k.

(** Nothing arrives within a tick, so it is the tick of keepalive. *)
Lemma fixedKeepalive_same o t1 t2 t3 k :
  fixedKeepalive_tick o t1 t2 t3 k = keepalive_tick o t1 t2 t3 k.
Proof.
  unfold fixedKeepalive_tick, keepalive_tick. destruct (_ <=? 0); [done|].
  by destruct (_ <=? Sub t1 _).
Qed.

(** What the outgoing and incoming loops do after each packet (client.go). *)
Definition UpdateLastSent (o : ClientOptions URL) (t : Z) (k : comms W) : comms W :=
  if negb (Heartbeat o =? 0) || AdaptiveHeartbeat o then set_lastSent t k else k.

Definition UpdateLastReceived (o : ClientOptions URL) (t : Z) (k : comms W) : comms W :=
  if negb (Heartbeat o =? 0) || AdaptiveHeartbeat o
  then mkComms (lastSent k) t (serverKp k) (conn k) else k.

(** ** The adaptive heartbeat *)

Inductive adaptivePhase : Type := phaseProbeShort | phaseProbeDoubling | phaseProbeFine | phaseStable.

(** The constants computed before the loop. *)
Record adaptive_params : Type := mkParams {
  shortMillis : Z;
  ceilingMillis : Z;
  probeCount : Z;
  responseWindow : Z;
  fineStepMillis : Z;
}.

Inductive adaptive_start : Type :=
| Disabled
| UseFixed
| Adapt (p : adaptive_params).

Definition adaptive_init (o : ClientOptions URL) (k : comms W) : adaptive_start :=
  let short := i64 (AdaptiveShort o * 1000) in
  let short := if short <? 1000 then 1000 else short in
  let max := i64 (AdaptiveMax o * 1000) in
  let max := if max <? short then short else max in
  let kp := serverKp k in
  let ceiling := if 0 <? kp then
                   let kpMs := i64 (kp * 1000) in if kpMs <? max then kpMs else max
                 else max in
  if kp <=? 0 then Disabled
  else if ceiling <=? short then UseFixed
  else
    let fine := i64 (FineStep o * 1000) in
    Adapt (mkParams short ceiling
      (if ProbeCount o <? 1 then 3 else ProbeCount o)
      (if ResponseWindow o <=? 0 then 2 * Second else ResponseWindow o)
      (if fine <? 1000 then 1000 else fine)).

(** The variables of the loop. *)
Record adaptive : Type := mkAdaptive {
  a_phase : adaptivePhase;
  shortOk : Z;
  intervalMillis : Z;
  lastSuccessMillis : Z;
  successHeartMillis : Z;
  sentAt : Z;
  awaiting : bool;
}.

Definition adaptive_begin (p : adaptive_params) : adaptive :=
  mkAdaptive phaseProbeShort 0 (shortMillis p) 0 0 zero_time false.

(** [gotResponse]: not before [sentAt]. *)
Definition gotResponse (a : adaptive) (k : comms W) : bool := sentAt a <=? lastReceived k.

Definition enterStable (p : adaptive_params) (a : adaptive) : adaptive :=
  let heart := if 0 <? lastSuccessMillis a then
                 let h := Z.quot (i64 (lastSuccessMillis a * 9)) 10 in
                 if h <? shortMillis p then shortMillis p else h
               else shortMillis p in
  mkAdaptive phaseStable (shortOk a) (intervalMillis a) (lastSuccessMillis a) heart zero_time false.

(** [t1] is stored into lastSent, [t2] into sentAt. *)
Definition sendProbe (t1 t2 : Z) (a : adaptive) (k : comms W) : adaptive * comms W :=
  (mkAdaptive (a_phase a) (shortOk a) (intervalMillis a) (lastSuccessMillis a)
     (successHeartMillis a) t2 true,
   set_lastSent t1 (writePingReq k)).

(** [time.Duration(ms) * time.Millisecond] *)
Definition millis (ms : Z) : Z := i64 (ms * Millisecond).

Definition adaptive_tick (p : adaptive_params) (now t1 t2 : Z) (a : adaptive) (k : comms W)
  : tick_result (adaptive * comms W) :=
  let idle := if millis (intervalMillis a) <=? Sub now (lastSent k)
              then Ticking (sendProbe t1 t2 a k) else Ticking (a, k) in
  match a_phase a with
  | phaseProbeShort =>
      if awaiting a then
        if gotResponse a k then
          let ok := i64 (shortOk a + 1) in
          if probeCount p <=? ok
          then Ticking (mkAdaptive phaseProbeDoubling ok (shortMillis p) (shortMillis p)
                 (successHeartMillis a) zero_time false, k)
          else Ticking (mkAdaptive phaseProbeShort ok (intervalMillis a) (lastSuccessMillis a)
                 (successHeartMillis a) (sentAt a) false, k)
        else if responseWindow p <=? Sub now (sentAt a) then Lost (a, k)
        else Ticking (a, k)
      else idle
  | phaseProbeDoubling | phaseProbeFine =>
      if awaiting a then
        if gotResponse a k then
          let a := mkAdaptive (a_phase a) (shortOk a) (intervalMillis a) (intervalMillis a)
                     (successHeartMillis a) (sentAt a) false in
          let next := match a_phase a with
                      | phaseProbeDoubling =>
                          let n := i64 (intervalMillis a * 2) in
                          if ceilingMillis p <? n then ceilingMillis p else n
                      | _ => i64 (intervalMillis a + fineStepMillis p)
                      end in
          if next <=? intervalMillis a then Ticking (enterStable p a, k)
          else Ticking (mkAdaptive (a_phase a) (shortOk a) next (lastSuccessMillis a)
                 (successHeartMillis a) (sentAt a) (awaiting a), k)
        else if responseWindow p <=? Sub now (sentAt a) then Ticking (enterStable p a, k)
        else Ticking (a, k)
      else idle
  | phaseStable =>
      if Z.quot (i64 (millis (successHeartMillis a) * 3)) 2 <=? Sub now (lastReceived k)
      then Ticking (mkAdaptive phaseProbeShort 0 (shortMillis p) 0 0 zero_time false, k)
      else if millis (successHeartMillis a) <=? Sub now (lastSent k)
      then Ticking (sendProbe t1 t2 a k)
      else Ticking (a, k)
  end.

(** ** Runs of the fixed heartbeat

    Ticks of the ticker, packets sent by the outgoing loop and packets received,
    each at its time. *)

Inductive kevent : Type := Tick (t : Z) | Sent (t : Z) | Received (t : Z).

Definition ktime (e : kevent) : Z := match e with Tick t | Sent t | Received t => t end.

Definition kstep (o : ClientOptions URL) (e : kevent) (k : comms W) : tick_result (comms W) :=
  match e with
  | Tick t => keepalive_tick o t t t k
  | Sent t => Ticking (UpdateLastSent o t k)
  | Received t => Ticking (UpdateLastReceived o t k)
  end.

(** Times do not go backwards, and a tick is never more than a period away from
    the one before. *)
Fixpoint timely (period tick prev : Z) (evs : list kevent) : Prop :=
  match evs with
  | [] => True
  | e :: evs =>
      prev <= ktime e <= tick + period /\
      timely period (match e with Tick t => t | _ => tick end) (ktime e) evs
  end.

(** How long nothing had been sent, at each event until the loop ends. *)
Fixpoint silences (o : ClientOptions URL) (evs : list kevent) (k : comms W) : list Z :=
  match evs with
  | [] => []
  | e :: evs =>
      (ktime e - lastSent k) ::
      match kstep o e k with Ticking k => silences o evs k | Lost _ => [] end
  end.

(** When the last packet was received, after these events. *)
Definition received_at (evs : list kevent) (r : Z) : Z :=
  fold_left (fun r e => match e with Received t => t | _ => r end) evs r.

(** The loop reports the connection lost during the run. *)
Fixpoint reports_loss (o : ClientOptions URL) (evs : list kevent) (k : comms W) : bool :=
  match evs with
  | [] => false
  | e :: evs => match kstep o e k with Ticking k => reports_loss o evs k | Lost _ => true end
  end.

Section fixed_runs.
Context (o : ClientOptions URL) (hb : Z) (Hhb : 1 <= hb < 65536).
Context (Hon : negb (Heartbeat o =? 0) || AdaptiveHeartbeat o = true).

Definition tick_period : Z := Z.max Second (Z.quot (hb * Second) 4).

Lemma tick_period_le : 2 <= hb -> 0 < tick_period /\ 2 * tick_period <= hb * Second.
Proof.
  intros H2. unfold tick_period, Second. rewrite Z.quot_div_nonneg by lia.
  Z.to_euclidean_division_equations. lia.
Qed.

(** One tick in plain arithmetic. *)
Lemma keepalive_tick_run t k :
  effectiveHeartbeat o k = hb ->
  let k' := if hb * Second <=? t - lastSent k then set_lastSent t (writePingReq k) else k in
  keepalive_tick o t t t k =
    if 1500000000 * hb <=? t - lastReceived k then Lost k' else Ticking k'.
Proof.
  intros Hk. unfold keepalive_tick. rewrite Hk.
  destruct (Z.leb_spec hb 0); [lia|].
  rewrite i64_small, one_and_a_half_exact by (unfold Second; lia).
  assert (forall d u, 0 < d < 2 ^ 62 -> (d <=? Sub t u) = (d <=? t - u)) as Hsub.
  { intros d u Hd. apply eq_true_iff_eq. rewrite !Z.leb_le. apply Sub_ge;
      unfold max_duration, min_duration; lia. }
  rewrite !Hsub by (unfold Second; lia). done.
Qed.

Lemma effective_keeps t k :
  effectiveHeartbeat o (set_lastSent t (writePingReq k)) = effectiveHeartbeat o k /\
  effectiveHeartbeat o (UpdateLastSent o t k) = effectiveHeartbeat o k /\
  effectiveHeartbeat o (UpdateLastReceived o t k) = effectiveHeartbeat o k.
Proof. unfold UpdateLastSent, UpdateLastReceived. by rewrite Hon. Qed.

(** Between ticks the last packet is less than a heartbeat before the last tick. *)
Lemma silences_bound evs tick prev k :
  2 <= hb -> effectiveHeartbeat o k = hb -> lastSent k <= prev -> tick <= prev ->
  tick - lastSent k < hb * Second -> timely tick_period tick prev evs ->
  Forall (fun s => s < hb * Second + tick_period) (silences o evs k).
Proof.
  intros H2. pose proof (tick_period_le H2) as [Hp0 Hp].
  revert tick prev k. induction evs as [|e evs IH]; intros tick prev k Hk Hs Htp Ht; cbn [timely silences];
    [done|]. intros [[Hge Hle] Hrest].
  assert (Hgap : 0 <= ktime e - lastSent k < hb * Second + tick_period) by lia.
  constructor; [lia|]. destruct (effective_keeps (ktime e) k) as (E1 & E2 & E3).
  destruct e as [t|t|t]; cbn [kstep ktime] in *.
  - rewrite (keepalive_tick_run t k Hk).
    destruct (_ <=? t - lastReceived k); [done|].
    destruct (Z.leb_spec (hb * Second) (t - lastSent k)); eapply IH; try exact Hrest;
      try done; cbn; lia || congruence.
  - unfold UpdateLastSent in *. rewrite Hon in *. eapply IH; try exact Hrest; try done; cbn; lia || congruence.
  - unfold UpdateLastReceived in *. rewrite Hon in *. eapply IH; try exact Hrest; try done; cbn; lia || congruence.
Qed.

(** That leaves half a heartbeat. *)
Lemma silences_half evs tick prev k :
  2 <= hb -> effectiveHeartbeat o k = hb -> lastSent k <= prev -> tick <= prev ->
  tick - lastSent k < hb * Second -> timely tick_period tick prev evs ->
  Forall (fun s => s < 1500000000 * hb) (silences o evs k).
Proof.
  intros. eapply Forall_mono; [by eapply silences_bound|].
  destruct tick_period_le; [done|]. cbn. unfold Second in *. lia.
Qed.

(** What a tick that goes on leaves as it was. *)
Lemma tick_goes_on t k k' :
  effectiveHeartbeat o k = hb -> keepalive_tick o t t t k = Ticking k' ->
  effectiveHeartbeat o k' = hb /\ lastReceived k' = lastReceived k /\ t - lastReceived k < 1500000000 * hb.
Proof.
  intros Hk. rewrite (keepalive_tick_run t k Hk).
  destruct (Z.leb_spec (1500000000 * hb) (t - lastReceived k)); [done|].
  destruct (hb * Second <=? t - lastSent k); intros [= <-]; done.
Qed.

(** The loop goes on as long as no tick finds that the last packet is too old. *)
Lemma loss_iff evs k :
  effectiveHeartbeat o k = hb ->
  (reports_loss o evs k = true <->
   exists pre t post, evs = pre ++ Tick t :: post /\
     1500000000 * hb <= t - received_at pre (lastReceived k)).
Proof.
  revert k. induction evs as [|e evs IH]; intros k Hk; cbn [reports_loss].
  { split; [done|]. intros ([|] & t & post & ? & _); done. }
  destruct (effective_keeps (ktime e) k) as (_ & H2 & H3).
  assert (Hgo : forall k', effectiveHeartbeat o k' = hb -> lastReceived k' = received_at [e] (lastReceived k) ->
    (forall t, e = Tick t -> t - lastReceived k < 1500000000 * hb) ->
    (reports_loss o evs k' = true <-> exists pre t post, e :: evs = pre ++ Tick t :: post /\
       1500000000 * hb <= t - received_at pre (lastReceived k))).
  { intros k' Hk' Hr Hne. rewrite (IH k' Hk'), Hr. split.
    - intros (pre & t & post & -> & Ht). by exists (e :: pre), t, post.
    - intros ([|e' pre] & t & post & Heq & Ht); cbn in Heq; injection Heq as He Hevs.
      + specialize (Hne t He). cbn in Ht. lia.
      + subst e'. by exists pre, t, post. }
  destruct e as [t|t|t]; cbn [kstep ktime] in *.
  - destruct (keepalive_tick o t t t k) as [k'|k'] eqn:Ht.
    + destruct (tick_goes_on t k k' Hk Ht) as (Hk' & Hr & Hl). apply Hgo; [done|done|]. by intros ? [= <-].
    + split; [intros _|done]. exists [], t, evs. split; [done|]. cbn.
      rewrite (keepalive_tick_run t k Hk) in Ht.
      by destruct (Z.leb_spec (1500000000 * hb) (t - lastReceived k)).
  - unfold UpdateLastSent in *. rewrite Hon in *. apply Hgo; [congruence|done|done].
  - unfold UpdateLastReceived in *. rewrite Hon in *. apply Hgo; [congruence|done|done].
Qed.

(** Ticks come often enough to find it within a period. *)
Lemma loss_in_time pre e post tick prev k :
  effectiveHeartbeat o k = hb -> tick <= prev -> timely tick_period tick prev (pre ++ e :: post) ->
  tick - lastReceived k < 1500000000 * hb -> reports_loss o pre k = false ->
  ktime e < received_at pre (lastReceived k) + 1500000000 * hb + tick_period.
Proof.
  revert tick prev k. induction pre as [|x pre IH]; intros tick prev k Hk Hp;
    cbn [app timely reports_loss received_at fold_left]; [lia|].
  intros [[Hge Hle] Hrest] Hr Hno. destruct (effective_keeps (ktime x) k) as (_ & H2 & H3).
  destruct x as [t|t|t]; cbn [kstep ktime] in *.
  - destruct (keepalive_tick o t t t k) as [k'|k'] eqn:Ht; [|done].
    destruct (tick_goes_on t k k' Hk Ht) as (Hk' & Hr' & Hl). rewrite <- Hr'. rewrite <- Hr' in Hl.
    by apply (IH t t k').
  - unfold UpdateLastSent in *. rewrite Hon in *.
    by apply (IH tick t (set_lastSent t k) ltac:(congruence) ltac:(lia)).
  - unfold UpdateLastReceived in *. rewrite Hon in *.
    apply (IH tick t (mkComms (lastSent k) t (serverKp k) (conn k)) ltac:(congruence) ltac:(lia)); [done| |done].
    cbn. lia.
Qed.

End fixed_runs.

End keepalive.

(** ** The heartbeat against the server's timer *)

(** The fixed heartbeat keeps the server's reaper away: with a negotiated
    keepalive of at least 2 seconds and a ticker that keeps its period, at no
    event of any run has the client been silent for as long as the server's
    keepalive timer waits. *)
Theorem heartbeat_outpaces_reaper {URL W : Type} `{Writer W} (o : ClientOptions URL) (k : comms W)
    (evs : list kevent) (period timeout : Z) :
  2 <= serverKp k < 65536 -> Heartbeat o <> 0 ->
  keepalive_period o k = Some period -> keepaliveTimer (serverKp k) = Some timeout ->
  timely period (lastSent k) (lastSent k) evs ->
  Forall (fun s => s < timeout) (silences o evs k).
Proof.
  intros Hkp Hhb Hp Ht Htime.
  assert (Heff : effectiveHeartbeat o k = serverKp k).
  { unfold effectiveHeartbeat. by rewrite (proj2 (Z.ltb_lt _ _)) by lia. }
  unfold keepalive_period in Hp. rewrite Heff in Hp.
  destruct (Z.leb_spec (serverKp k) 0); [lia|].
  rewrite i64_small in Hp by (unfold Second; lia). injection Hp as <-.
  unfold keepaliveTimer in Ht. rewrite (proj2 (Z.ltb_lt _ _)) in Ht by lia.
  injection Ht as <-. rewrite one_and_a_half_exact by lia.
  assert (Hon : negb (Heartbeat o =? 0) || AdaptiveHeartbeat o = true)
    by by rewrite (proj2 (Z.eqb_neq _ _) Hhb).
  apply (silences_half o (serverKp k) ltac:(lia) Hon) with (tick := lastSent k) (prev := lastSent k);
    unfold Second; done || lia.
Qed.

(** C35: the fixed heartbeat notices a dead peer, and only a dead one.  A tick writes a
    PINGREQ exactly when nothing has been sent for a heartbeat, and reports the
    connection lost exactly when nothing has been received for one and a half, whatever
    was sent and received when.  So a run, in which packets come and go in any order,
    reports a loss if and only if some tick of it is one and a half heartbeats after the
    last packet received; and with a ticker that keeps its period it has done so before
    the silence has lasted one and a half heartbeats and a period. *)
Theorem dead_peer_detected {URL W : Type} `{Writer W} (o : ClientOptions URL) (k : comms W)
    (start : Z) (evs : list kevent) (period : Z) :
  1 <= serverKp k < 65536 -> Heartbeat o <> 0 -> keepalive_period o k = Some period ->
  (forall t (k : comms W), 1 <= serverKp k < 65536 ->
     keepalive_tick o t t t k =
       (if one_and_a_half (serverKp k) <=? t - lastReceived k then Lost else Ticking)
         (if serverKp k * Second <=? t - lastSent k then set_lastSent t (writePingReq k) else k)) /\
  (reports_loss o evs k = true <->
   exists pre t post, evs = pre ++ Tick t :: post /\
     one_and_a_half (serverKp k) <= t - received_at pre (lastReceived k)) /\
  (timely period start start evs -> start - lastReceived k < one_and_a_half (serverKp k) ->
   forall pre e post, evs = pre ++ e :: post ->
     received_at pre (lastReceived k) + one_and_a_half (serverKp k) + period <= ktime e ->
     reports_loss o pre k = true).
Proof.
  intros Hkp Hhb Hp.
  assert (Heff : forall k : comms W, 1 <= serverKp k < 65536 -> effectiveHeartbeat o k = serverKp k).
  { intros k1 Hk1. unfold effectiveHeartbeat. by rewrite (proj2 (Z.ltb_lt _ _)) by lia. }
  assert (Hon : negb (Heartbeat o =? 0) || AdaptiveHeartbeat o = true)
    by by rewrite (proj2 (Z.eqb_neq _ _) Hhb).
  unfold keepalive_period in Hp. rewrite (Heff k Hkp), (proj2 (Z.leb_gt _ 0)) in Hp by lia.
  rewrite i64_small in Hp by (unfold Second; lia). injection Hp as <-.
  rewrite one_and_a_half_exact by lia. split; [|split].
  - intros t k1 Hk1. rewrite (keepalive_tick_run o (serverKp k1) Hk1 t k1 (Heff k1 Hk1)).
    rewrite one_and_a_half_exact by lia. by destruct (_ <=? t - lastReceived k1).
  - by apply (loss_iff o (serverKp k) Hkp Hon), Heff.
  - intros Htime Hr pre e post -> He. destruct (reports_loss o pre k) eqn:Hl; [done|].
    pose proof (loss_in_time o (serverKp k) Hkp Hon pre e post start start k (Heff k Hkp) ltac:(lia) Htime Hr Hl).
    unfold tick_period in *. lia.
Qed.

(** ** Witnesses *)

Definition sample_options : ClientOptions unit := SetHeartbeat (20 * Second) NewClientOptions.

Definition sample_comms : comms Buffer := mkComms 0 0 30 (mkBuffer []).

(** Ticks every 7.5 seconds; the fourth one sends a PINGREQ. *)
Definition sample_run : list kevent :=
  [Tick 7500000000; Tick 15000000000; Sent 16000000000; Tick 22500000000; Tick 30000000000;
   Tick 37500000000; Tick 45000000000; Tick 52500000000].

Lemma heartbeat_outpaces_reaper_witness :
  silences sample_options sample_run sample_comms =
    [7500000000; 15000000000; 16000000000; 6500000000; 14000000000; 21500000000; 29000000000] /\
  Forall (fun s => s < 45000000000) (silences sample_options sample_run sample_comms).
Proof.
  split; [vm_compute; reflexivity|].
  refine (heartbeat_outpaces_reaper sample_options sample_comms sample_run 7500000000 45000000000
    _ _ _ _ _); vm_compute; intuition congruence.
Defined.

(** A packet arrives 10 seconds after the start, and no other one: the tick after 60
    seconds reports the loss. *)
Definition quiet_run : list kevent :=
  [Tick 7500000000; Received 10000000000] ++
  ((fun i => Tick (7500000000 * Z.of_nat i)) <$> seq 2 8).

Lemma dead_peer_detected_witness :
  received_at quiet_run 0 = 10000000000 /\ reports_loss sample_options quiet_run sample_comms = true /\
  reports_loss sample_options (take 8 quiet_run) sample_comms = false.
Proof.
  assert (Hrange : 1 <= serverKp sample_comms < 65536) by (vm_compute; intuition congruence).
  assert (Hhb : Heartbeat sample_options <> 0) by (vm_compute; discriminate).
  destruct (dead_peer_detected sample_options sample_comms 0 (quiet_run ++ [Tick 67500000001]) 7500000000
    Hrange Hhb eq_refl) as (_ & _ & H).
  split; [vm_compute; reflexivity|]. split; [|vm_compute; reflexivity].
  apply (H ltac:(vm_compute; intuition congruence) ltac:(vm_compute; reflexivity) quiet_run (Tick 67500000001) []);
    [reflexivity|vm_compute; discriminate].
Defined.
