(* ===== verification/ClientAdaptive.v ===== *)
(** * Client: what the adaptive heartbeat guarantees

    Theorems about adaptiveKeepalive of client/keepalive.go: the interval it
    probes and settles at stays inside the configured and negotiated bounds,
    and probing ends. *)

From Stdlib Require Import ZArith Lia String.
From stdpp Require Import base list strings numbers relations.
From S2P Require Import Prelude GoIO Codec GoTime Server ClientOptions ClientKeepalive.

Local Open Scope Z_scope.

Definition params_ok (p : adaptive_params) : Prop :=
  1000 <= shortMillis p < ceilingMillis p /\ ceilingMillis p <= 65535000.

Definition adaptive_ok (p : adaptive_params) (a : adaptive) : Prop :=
  a_phase a <> phaseProbeFine /\
  shortMillis p <= intervalMillis a <= ceilingMillis p /\
  0 <= lastSuccessMillis a <= ceilingMillis p /\
  (a_phase a <> phaseProbeShort -> shortMillis p <= lastSuccessMillis a) /\
  (a_phase a = phaseStable -> shortMillis p <= successHeartMillis a < ceilingMillis p /\
     successHeartMillis a = Z.max (shortMillis p) (lastSuccessMillis a * 9 / 10)).

Lemma params_init {URL W : Type} (o : ClientOptions URL) (k : comms W) p :
  0 <= serverKp k < 65536 -> adaptive_init o k = Adapt p ->
  params_ok p /\ ceilingMillis p <= 1000 * serverKp k /\
  ceilingMillis p <= Z.max (shortMillis p) (i64 (AdaptiveMax o * 1000)).
Proof.
  intros Hkp. unfold adaptive_init, params_ok. rewrite (i64_small (serverKp k * 1000)) by lia.
  destruct (Z.ltb_spec 0 (serverKp k)), (Z.leb_spec (serverKp k) 0); try lia; [|done].
  set (s := if i64 (AdaptiveShort o * 1000) <? 1000 then 1000 else i64 (AdaptiveShort o * 1000)).
  set (m := if i64 (AdaptiveMax o * 1000) <? s then s else i64 (AdaptiveMax o * 1000)).
  set (c := if serverKp k * 1000 <? m then serverKp k * 1000 else m).
  destruct (Z.leb_spec c s) as [|Hcs]; [done|]. intros [= <-]. cbn.
  assert (1000 <= s) by (subst s; destruct (Z.ltb_spec (i64 (AdaptiveShort o * 1000)) 1000); lia).
  assert (m <= Z.max s (i64 (AdaptiveMax o * 1000)))
    by (subst m; destruct (Z.ltb_spec (i64 (AdaptiveMax o * 1000)) s); lia).
  assert (c <= m /\ c <= serverKp k * 1000)
    by (subst c; destruct (Z.ltb_spec (serverKp k * 1000) m); lia).
  lia.
Qed.

(** States the loop can be in: at every tick the rest of the client may have
    changed lastSent, lastReceived and the connection in any way. *)
Inductive adaptive_reach (W : Type) `{Writer W} (p : adaptive_params) : adaptive -> Prop :=
| reach_begin : adaptive_reach W p (adaptive_begin p)
| reach_tick a now t1 t2 (k : comms W) a' k' :
    adaptive_reach W p a -> adaptive_tick p now t1 t2 a k = Ticking (a', k') ->
    adaptive_reach W p a'.

Lemma stable_ok p a :
  params_ok p -> adaptive_ok p a -> a_phase a <> phaseProbeShort -> adaptive_ok p (enterStable p a).
Proof.
  unfold params_ok. intros Hp (Hf & Hi & Hl & Hs & _) Hph. specialize (Hs Hph). unfold enterStable.
  rewrite i64_small, Z.quot_div_nonneg by lia.
  rewrite (proj2 (Z.ltb_lt _ _)) by lia. set (h := lastSuccessMillis a * 9 / 10).
  assert (h < ceilingMillis p) by (subst h; Z.to_euclidean_division_equations; lia).
  destruct (Z.ltb_spec h (shortMillis p)); repeat split; cbn; done || lia.
Qed.

Section ticks.
Context {W : Type} `{Writer W} (p : adaptive_params) (Hp : params_ok p).

(** A response to a probe of the doubling phase. *)
Lemma doubling_answer a (k : comms W) now t1 t2 :
  adaptive_ok p a -> a_phase a = phaseProbeDoubling -> awaiting a = true ->
  gotResponse a k = true ->
  let a1 := mkAdaptive phaseProbeDoubling (shortOk a) (intervalMillis a) (intervalMillis a)
              (successHeartMillis a) (sentAt a) false in
  adaptive_tick p now t1 t2 a k = Ticking
    (if intervalMillis a <? ceilingMillis p
     then mkAdaptive phaseProbeDoubling (shortOk a) (Z.min (2 * intervalMillis a) (ceilingMillis p))
            (intervalMillis a) (successHeartMillis a) (sentAt a) false
     else enterStable p a1, k).
Proof.
  intros (_ & Hi & _) Hph Haw Hg a1. destruct Hp as [Hs Hc]. unfold adaptive_tick.
  rewrite Hph, Haw, Hg. cbn. rewrite i64_small by lia. subst a1.
  destruct (Z.ltb_spec (ceilingMillis p) (intervalMillis a * 2)),
    (Z.ltb_spec (intervalMillis a) (ceilingMillis p)).
  - rewrite (proj2 (Z.leb_gt _ _)), Z.min_r by lia. done.
  - rewrite (proj2 (Z.leb_le _ _)) by lia. done.
  - rewrite (proj2 (Z.leb_gt _ _)), Z.min_l by lia. by rewrite Z.mul_comm.
  - lia.
Qed.

Lemma sendProbe_ok t1 t2 a (k : comms W) : adaptive_ok p a -> adaptive_ok p (fst (sendProbe t1 t2 a k)).
Proof. done. Qed.

Lemma tick_ok a now t1 t2 (k : comms W) a' k' :
  adaptive_ok p a -> adaptive_tick p now t1 t2 a k = Ticking (a', k') -> adaptive_ok p a'.
Proof.
  intros Ha Ht. pose proof (sendProbe_ok t1 t2 a k Ha) as Hsend.
  destruct (a_phase a) eqn:Hph; unfold adaptive_tick in Ht; rewrite Hph in Ht.
  - destruct Ha as (Hf & Hi & Hl & Hls & Hst), Hp as [Hs Hc].
    destruct (awaiting a); [destruct (gotResponse a k)|];
      repeat case_match; simplify_eq; try done; repeat split; cbn; done || lia.
  - destruct (awaiting a) eqn:Haw.
    + destruct (gotResponse a k) eqn:Hg.
      * pose proof (doubling_answer a k now t1 t2 Ha Hph Haw Hg) as Hd. cbn zeta in Hd.
        unfold adaptive_tick in Hd. rewrite Hph, Haw, Hg in Hd. rewrite Hd in Ht. clear Hd.
        destruct Ha as (Hf & Hi & Hl & Hls & Hst), Hp as [Hs Hc].
        destruct (Z.ltb_spec (intervalMillis a) (ceilingMillis p)); simplify_eq.
        -- repeat split; cbn; done || lia.
        -- apply stable_ok; [done| |done]. repeat split; cbn; done || lia.
      * case_match; simplify_eq; [apply stable_ok; [done..|congruence]|done].
    + case_match; simplify_eq; done.
  - by destruct Ha as [Hf _].
  - destruct Ha as (Hf & Hi & Hl & Hls & Hst), Hp as [Hs Hc].
    repeat case_match; simplify_eq; try done; repeat split; cbn; done || lia.
Qed.

Lemma reach_ok a : adaptive_reach W p a -> adaptive_ok p a.
Proof.
  induction 1 as [|a now t1 t2 k a' k' _ IH Ht]; [|by eapply tick_ok].
  destruct Hp as [Hs Hc]. repeat split; cbn; done || lia.
Qed.

End ticks.

(** C37: the adaptive heartbeat stays inside its bounds: whatever happens to the
    connection between ticks, the probed interval lies between the short period
    and the ceiling, which exceeds neither the negotiated server keepalive nor
    the configured maximum; once the short probes have worked, the last interval that
    worked is at least the short period and at most the ceiling, and the period of the
    stable state is exactly 90% of it, or the short period where that is longer (after
    a first doubling probe that fails that is 100% of it), always below the ceiling;
    and the fine-probing phase that the README and [FineStep] describe is never
    entered. *)
Theorem adaptive_bounds {URL W : Type} `{Writer W} (o : ClientOptions URL) (k : comms W)
    (p : adaptive_params) (a : adaptive) :
  0 <= serverKp k < 65536 -> adaptive_init o k = Adapt p -> adaptive_reach W p a ->
  shortMillis p <= intervalMillis a <= ceilingMillis p /\
  ceilingMillis p <= 1000 * serverKp k /\
  ceilingMillis p <= Z.max (shortMillis p) (i64 (AdaptiveMax o * 1000)) /\
  (a_phase a <> phaseProbeShort -> shortMillis p <= lastSuccessMillis a <= ceilingMillis p) /\
  (a_phase a = phaseStable -> shortMillis p <= successHeartMillis a < ceilingMillis p /\
     successHeartMillis a = Z.max (shortMillis p) (lastSuccessMillis a * 9 / 10)) /\
  a_phase a <> phaseProbeFine.
Proof.
  intros Hkp Hinit Hreach. destruct (params_init o k p Hkp Hinit) as (Hp & Hc & Hm).
  destruct (reach_ok p Hp a Hreach) as (Hf & Hi & Hl & Hs & Hst).
  split; [done|]. split; [done|]. split; [done|]. split; [|by split].
  intros Hph. specialize (Hs Hph). lia.
Qed.

(** ** Probing ends

    A round: the interval passes, a probe goes out, and a packet arrives before
    the response window is over. *)

Definition receive {W} (t : Z) (k : comms W) : comms W :=
  mkComms (lastSent k) t (serverKp k) (conn k).

Definition probe_round {W} `{Writer W} (p : adaptive_params) (x y : adaptive * comms W) : Prop :=
  exists now r x1,
    millis (intervalMillis (fst x)) <= Sub now (lastSent (snd x)) /\ now <= r /\
    adaptive_tick p now now now (fst x) (snd x) = Ticking x1 /\
    adaptive_tick p r r r (fst x1) (receive r (snd x1)) = Ticking y.

Section rounds.
Context {W : Type} `{Writer W} (p : adaptive_params) (Hp : params_ok p).

Definition probing (i : Z) (x : adaptive * comms W) : Prop :=
  adaptive_ok p (fst x) /\ a_phase (fst x) = phaseProbeDoubling /\ awaiting (fst x) = false /\
  intervalMillis (fst x) = i.

Definition settled (x : adaptive * comms W) : Prop :=
  a_phase (fst x) = phaseStable /\
  successHeartMillis (fst x) = Z.max (shortMillis p) (ceilingMillis p * 9 / 10).

Lemma probe_sent i x now :
  probing i x -> millis (intervalMillis (fst x)) <= Sub now (lastSent (snd x)) ->
  adaptive_tick p now now now (fst x) (snd x) = Ticking (sendProbe now now (fst x) (snd x)).
Proof.
  intros (_ & Hph & Haw & _) Hdue. unfold adaptive_tick. rewrite Hph, Haw.
  by rewrite (proj2 (Z.leb_le _ _) Hdue).
Qed.

Lemma probe_answered i x now r :
  probing i x -> now <= r ->
  let x1 := sendProbe now now (fst x) (snd x) in
  exists y, adaptive_tick p r r r (fst x1) (receive r (snd x1)) = Ticking y /\
    if i <? ceilingMillis p then probing (Z.min (2 * i) (ceilingMillis p)) y else settled y.
Proof.
  intros (Hok & Hph & Haw & <-) Hr x1.
  assert (Hg : gotResponse (fst x1) (receive r (snd x1)) = true) by by apply Z.leb_le.
  assert (Hok1 : adaptive_ok p (fst x1)) by done.
  assert (Hph1 : a_phase (fst x1) = phaseProbeDoubling) by done.
  pose proof (doubling_answer p Hp (fst x1) (receive r (snd x1)) r r r Hok1 Hph1 eq_refl Hg) as Ht.
  cbn zeta in Ht. eexists. split; [exact Ht|].
  pose proof (tick_ok p Hp _ _ _ _ _ _ _ Hok1 Ht) as Hok2. revert Hok2.
  change (intervalMillis (fst x1)) with (intervalMillis (fst x)).
  destruct Hok as (_ & Hi & _), Hp as [Hs Hc].
  destruct (Z.ltb_spec (intervalMillis (fst x)) (ceilingMillis p)); intros Hok2; [done|].
  split; [done|]. cbn. assert (intervalMillis (fst x) = ceilingMillis p) as -> by lia.
  rewrite i64_small, Z.quot_div_nonneg by lia.
  rewrite (proj2 (Z.ltb_lt 0 (ceilingMillis p))) by lia.
  destruct (Z.ltb_spec (ceilingMillis p * 9 / 10) (shortMillis p)); lia.
Qed.

Lemma probe_round_step i x y : probing i x -> probe_round p x y ->
  if i <? ceilingMillis p then probing (Z.min (2 * i) (ceilingMillis p)) y else settled y.
Proof.
  intros Hx (now & r & x1 & Hdue & Hr & H1 & H2).
  rewrite (probe_sent i x now Hx Hdue) in H1. injection H1 as <-.
  destruct (probe_answered i x now r Hx Hr) as (y' & H2' & Hy). cbn zeta in H2'.
  rewrite H2' in H2. by injection H2 as <-.
Qed.

Lemma probe_round_enabled i x : probing i x -> exists y, probe_round p x y.
Proof.
  intros Hx. set (now := lastSent (snd x) + millis (intervalMillis (fst x))).
  assert (Hdue : millis (intervalMillis (fst x)) <= Sub now (lastSent (snd x))).
  { assert (0 <= millis (intervalMillis (fst x)) < 2 ^ 62).
    { destruct Hx as ((_ & Hi & _) & _), Hp. unfold millis, Millisecond.
      rewrite i64_small; lia. }
    rewrite Sub_exact; subst now; lia. }
  destruct (probe_answered i x now now Hx (Z.le_refl now)) as (y & Hy & _).
  exists y, now, now, (sendProbe now now (fst x) (snd x)).
  repeat split; [done|done|by apply (probe_sent i)|exact Hy].
Qed.

(** After [n] answered probes, while the ceiling was not reached before. *)
Lemma probe_rounds_interval n i x y :
  probing i x -> (forall m, (m < n)%nat -> i * 2 ^ Z.of_nat m < ceilingMillis p) -> 0 < i ->
  nsteps (probe_round p) n x y -> probing (Z.min (i * 2 ^ Z.of_nat n) (ceilingMillis p)) y.
Proof.
  revert i x. induction n as [|n IH]; intros i x Hx Hlow Hi Hn.
  - inversion Hn; subst. rewrite Z.mul_1_r.
    assert (i <= ceilingMillis p) by (destruct Hx as ((_ & ? & _) & _ & _ & <-); lia).
    by rewrite Z.min_l.
  - inversion Hn as [|n' x' z y' Hs Hr]; subst. pose proof (probe_round_step _ _ _ Hx Hs) as Hz.
    pose proof (Hlow 0%nat ltac:(lia)) as H0. rewrite Z.mul_1_r in H0.
    rewrite (proj2 (Z.ltb_lt _ _) H0) in Hz.
    rewrite Nat2Z.inj_succ, Z.pow_succ_r by lia.
    destruct (Z.le_gt_cases (ceilingMillis p) (2 * i)) as [Hc|Hc].
    + destruct n as [|n].
      * inversion Hr; subst. rewrite Z.min_r in Hz |- * by lia. done.
      * specialize (Hlow 1%nat ltac:(lia)). cbn in Hlow. lia.
    + rewrite Z.min_l in Hz by lia.
      replace (i * (2 * 2 ^ Z.of_nat n)) with (2 * i * 2 ^ Z.of_nat n) by lia.
      apply (IH (2 * i) z); [done| |lia|done]. intros m Hm.
      specialize (Hlow (S m) ltac:(lia)). rewrite Nat2Z.inj_succ, Z.pow_succ_r in Hlow by lia. lia.
Qed.

Lemma probe_rounds_enabled n i x :
  probing i x -> (forall m, (m < n)%nat -> i * 2 ^ Z.of_nat m < ceilingMillis p) -> 0 < i ->
  exists y, nsteps (probe_round p) (S n) x y.
Proof.
  revert i x. induction n as [|n IH]; intros i x Hx Hlow Hi.
  - destruct (probe_round_enabled i x Hx) as [y Hy]. exists y. eapply nsteps_l; [exact Hy|constructor].
  - destruct (probe_round_enabled i x Hx) as [z Hz].
    pose proof (probe_round_step _ _ _ Hx Hz) as Hpz.
    pose proof (Hlow 0%nat ltac:(lia)) as H0. rewrite Z.mul_1_r in H0.
    rewrite (proj2 (Z.ltb_lt _ _) H0) in Hpz.
    destruct (IH _ z Hpz) as [y Hy].
    + intros m Hm. specialize (Hlow (S m) ltac:(lia)).
      rewrite Nat2Z.inj_succ, Z.pow_succ_r in Hlow by lia.
      pose proof (Z.pow_pos_nonneg 2 (Z.of_nat m)). nia.
    + destruct Hp. lia.
    + exists y. by eapply nsteps_l.
Qed.

End rounds.

(** C38: probing ends: while probes are answered, the interval doubles from the
    short period until it is capped by the ceiling; if [n] doublings reach the
    ceiling, then after exactly [n + 1] answered probes, which can always be
    made, the loop is stable at 90% of the ceiling (or the short period, when
    that is longer). *)
Theorem adaptive_settles {W : Type} `{Writer W} (p : adaptive_params) (n : nat)
    (x : adaptive * comms W) :
  params_ok p -> probing p (shortMillis p) x ->
  (forall m, (m < n)%nat -> shortMillis p * 2 ^ Z.of_nat m < ceilingMillis p) ->
  ceilingMillis p <= shortMillis p * 2 ^ Z.of_nat n ->
  (exists y, nsteps (probe_round p) (S n) x y) /\
  (forall y, nsteps (probe_round p) (S n) x y ->
     a_phase (fst y) = phaseStable /\
     successHeartMillis (fst y) = Z.max (shortMillis p) (ceilingMillis p * 9 / 10)).
Proof.
  intros Hp Hx Hlow Hn. assert (0 < shortMillis p) by (destruct Hp; lia). split.
  - by apply (probe_rounds_enabled p Hp n (shortMillis p)).
  - intros y Hy. apply nsteps_inv_r in Hy as (z & Hz & Hy).
    pose proof (probe_rounds_interval p Hp n _ _ _ Hx Hlow ltac:(done) Hz) as Hpz.
    rewrite Z.min_r in Hpz by lia.
    pose proof (probe_round_step p Hp _ _ _ Hpz Hy) as Hs. by rewrite Z.ltb_irrefl in Hs.
Qed.

(** ** Witnesses *)

Definition adaptive_options : ClientOptions unit := SetAdaptiveHeartbeat 10 300 NewClientOptions.

Definition adaptive_comms : comms Buffer := mkComms 0 0 60 (mkBuffer []).

Definition sample_params : adaptive_params := mkParams 10000 60000 3 (2 * Second) 5000.

(** Ticks, each with the comms it finds. *)
Fixpoint run_ticks {W : Type} `{Writer W} (p : adaptive_params) (xs : list (Z * comms W)) (a : adaptive)
  : option adaptive :=
  match xs with
  | [] => Some a
  | (now, k) :: xs =>
      match adaptive_tick p now now now a k with
      | Ticking (a', _) => run_ticks p xs a'
      | Lost _ => None
      end
  end.

Lemma run_ticks_reach {W : Type} `{Writer W} p (xs : list (Z * comms W)) a b :
  adaptive_reach W p a -> run_ticks p xs a = Some b -> adaptive_reach W p b.
Proof.
  revert a. induction xs as [|[now k] xs IH]; intros a Ha; cbn; [by intros [= <-]|].
  destruct (adaptive_tick p now now now a k) as [[a' k']|] eqn:Ht; [|done].
  apply IH. by eapply reach_tick.
Qed.

(** Three short probes that are answered, and a longer one that is not. *)
Definition probe_at (t answer : Z) : list (Z * comms Buffer) :=
  [(t, mkComms (t - 10 * Second) 0 60 (mkBuffer [])); (t + 2 * Second, mkComms t answer 60 (mkBuffer []))].

Definition first_probe_fails : list (Z * comms Buffer) :=
  probe_at (10 * Second) (11 * Second) ++ probe_at (21 * Second) (22 * Second) ++
  probe_at (32 * Second) (33 * Second) ++ probe_at (43 * Second) (33 * Second).

(** It settles at the short period, all of the last interval that worked. *)
Definition settled_short : adaptive := mkAdaptive phaseStable 3 10000 10000 10000 zero_time false.

Lemma adaptive_bounds_witness :
  adaptive_init adaptive_options adaptive_comms = Adapt sample_params /\
  10000 <= 10000 <= 60000 /\ 60000 <= 1000 * 60 /\
  60000 <= Z.max 10000 (i64 (300 * 1000)) /\
  (phaseStable <> phaseProbeShort -> 10000 <= 10000 <= 60000) /\
  (phaseStable = phaseStable -> 10000 <= 10000 < 60000 /\ 10000 = Z.max 10000 (10000 * 9 / 10)) /\
  phaseStable <> phaseProbeFine.
Proof.
  split; [vm_compute; reflexivity|].
  refine (adaptive_bounds (W := Buffer) adaptive_options adaptive_comms sample_params settled_short _ _ _).
  - vm_compute. intuition congruence.
  - vm_compute. reflexivity.
  - apply (run_ticks_reach sample_params first_probe_fails (adaptive_begin sample_params));
      [constructor|vm_compute; reflexivity].
Defined.

Definition doubling_start : adaptive * comms Buffer :=
  (mkAdaptive phaseProbeDoubling 3 10000 10000 0 zero_time false, adaptive_comms).

Lemma adaptive_settles_witness :
  (exists y, nsteps (probe_round sample_params) 4 doubling_start y) /\
  (forall y, nsteps (probe_round sample_params) 4 doubling_start y ->
     a_phase (fst y) = phaseStable /\ successHeartMillis (fst y) = 54000).
Proof.
  refine (adaptive_settles sample_params 3 doubling_start _ _ _ _).
  - vm_compute. intuition congruence.
  - vm_compute. intuition congruence.
  - intros [|[|[|m]]] Hm; try (vm_compute; reflexivity). lia.
  - vm_compute. discriminate.
Defined.
