(* ===== verification/ClientAdaptiveRuns.v ===== *)
(** * Client: the adaptive heartbeat in time

    Runs of adaptiveKeepalive of client/keepalive.go with the ticks of its ticker,
    the packets the outgoing loop sends and the packets that arrive, each at its
    time: how long the client can be silent, when a dead peer is noticed, and when
    it is not. *)

From Stdlib Require Import ZArith Lia String.
From stdpp Require Import base list strings numbers relations.
From S2P Require Import Prelude GoIO Codec GoTime Server ClientOptions ClientKeepalive ClientAdaptive.

Local Open Scope Z_scope.

(** [adaptiveTickInterval] *)
Definition adaptiveTickInterval : Z := 250 * Millisecond.

(** The time of the last event. *)
Fixpoint last_time (now : Z) (evs : list kevent) : Z :=
  match evs with
  | [] => now
  | e :: evs => last_time (ktime e) evs
  end.

Section runs.
Context {URL W : Type} `{Writer W} (o : ClientOptions URL) (p : adaptive_params).

Definition astep (e : kevent) (x : adaptive * comms W) : tick_result (adaptive * comms W) :=
  match e with
  | Tick t => adaptive_tick p t t t (fst x) (snd x)
  | Sent t => Ticking (fst x, UpdateLastSent o t (snd x))
  | Received t => Ticking (fst x, UpdateLastReceived o t (snd x))
  end.

(** How long nothing had been sent, at each event until the loop ends. *)
Fixpoint asilences (evs : list kevent) (x : adaptive * comms W) : list Z :=
  match evs with
  | [] => []
  | e :: evs =>
      (ktime e - lastSent (snd x)) ::
      match astep e x with Ticking x => asilences evs x | Lost _ => [] end
  end.

(** The loop runs through all events; [None]: it reported the connection lost. *)
Fixpoint arun (evs : list kevent) (x : adaptive * comms W) : option (adaptive * comms W) :=
  match evs with
  | [] => Some x
  | e :: evs => match astep e x with Ticking x => arun evs x | Lost _ => None end
  end.

Context (Hp : params_ok p) (Hw : 0 < responseWindow p < 2 ^ 62) (Hon : AdaptiveHeartbeat o = true).

Lemma leb_Sub d t u : 0 < d < 2 ^ 62 -> (d <=? Sub t u) = (d <=? t - u).
Proof.
  intros Hd. apply eq_true_iff_eq. rewrite !Z.leb_le. apply Sub_ge; unfold max_duration, min_duration; lia.
Qed.

Lemma millis_exact i : 0 <= i <= 65535000 -> millis i = 1000000 * i.
Proof. intros Hi. unfold millis, Millisecond. rewrite i64_small; lia. Qed.

Lemma updates (k : comms W) t :
  UpdateLastSent o t k = set_lastSent t k /\ UpdateLastReceived o t k = receive t k.
Proof. unfold UpdateLastSent, UpdateLastReceived. by rewrite Hon, orb_true_r. Qed.

(** One tick with plain arithmetic. *)
Lemma tick_idle t a (k : comms W) :
  adaptive_ok p a -> (a_phase a = phaseProbeShort \/ a_phase a = phaseProbeDoubling) -> awaiting a = false ->
  adaptive_tick p t t t a k =
    if 1000000 * intervalMillis a <=? t - lastSent k then Ticking (sendProbe t t a k) else Ticking (a, k).
Proof.
  intros (_ & Hi & _) Hph Haw. destruct Hp as [Hs Hc]. unfold adaptive_tick.
  by destruct Hph as [-> | ->]; rewrite Haw, leb_Sub, millis_exact by (rewrite ?millis_exact; lia).
Qed.

Lemma tick_unanswered t a (k : comms W) :
  (a_phase a = phaseProbeShort \/ a_phase a = phaseProbeDoubling) -> awaiting a = true ->
  gotResponse a k = false ->
  adaptive_tick p t t t a k =
    if responseWindow p <=? t - sentAt a
    then match a_phase a with phaseProbeShort => Lost (a, k) | _ => Ticking (enterStable p a, k) end
    else Ticking (a, k).
Proof.
  intros Hph Haw Hg. unfold adaptive_tick. rewrite leb_Sub by lia.
  by destruct Hph as [-> | ->]; rewrite Haw, Hg.
Qed.

(** An answer never makes the loop send or end. *)
Lemma tick_answered t a (k : comms W) x :
  adaptive_ok p a -> (a_phase a = phaseProbeShort \/ a_phase a = phaseProbeDoubling) -> awaiting a = true ->
  gotResponse a k = true -> adaptive_tick p t t t a k = Ticking x ->
  snd x = k /\ awaiting (fst x) = false.
Proof.
  intros Hok Hph Haw Hg Ht. destruct Hph as [Hph|Hph].
  - unfold adaptive_tick in Ht. rewrite Hph, Haw, Hg in Ht. by destruct (_ <=? _); simplify_eq.
  - rewrite (doubling_answer p Hp a k t t t Hok Hph Haw Hg) in Ht. simplify_eq. cbn.
    by destruct (_ <? _).
Qed.

Lemma tick_stable t a (k : comms W) :
  adaptive_ok p a -> a_phase a = phaseStable ->
  exists late, 1500000 * shortMillis p <= late <= 1500000 * ceilingMillis p /\
  adaptive_tick p t t t a k =
    if late <=? t - lastReceived k
    then Ticking (mkAdaptive phaseProbeShort 0 (shortMillis p) 0 0 zero_time false, k)
    else if 1000000 * successHeartMillis a <=? t - lastSent k then Ticking (sendProbe t t a k)
    else Ticking (a, k).
Proof.
  intros (_ & _ & _ & _ & Hst) Hph. destruct (Hst Hph) as [Hh _]. destruct Hp as [Hs Hc].
  exists (1500000 * successHeartMillis a). split; [lia|]. unfold adaptive_tick.
  rewrite Hph, !millis_exact, i64_small by lia.
  replace (Z.quot (1000000 * successHeartMillis a * 3) 2) with (1500000 * successHeartMillis a)
    by (rewrite Z.quot_div_nonneg by lia; Z.to_euclidean_division_equations; lia).
  by rewrite !leb_Sub by lia.
Qed.

(** ** Silences *)

Section silence.
Context (longest : Z) (Hlong : 1000000 * ceilingMillis p <= longest /\ responseWindow p <= longest).

#[local] Notation P := adaptiveTickInterval.

(** How long the client can have been silent after a tick. *)
Definition slack (a : adaptive) : Z :=
  match a_phase a with phaseStable => P | _ => if awaiting a then 0 else 2 * P end.

Record paced (tick : Z) (x : adaptive * comms W) : Prop := mkPaced {
  paced_ok : adaptive_ok p (fst x);
  paced_gap : tick - lastSent (snd x) < longest + slack (fst x);
  paced_probe : a_phase (fst x) <> phaseStable -> awaiting (fst x) = true ->
    sentAt (fst x) <= lastSent (snd x) /\ tick - sentAt (fst x) < responseWindow p;
}.

Lemma paced_tick tick t x y :
  paced tick x -> lastSent (snd x) <= t <= tick + P -> astep (Tick t) x = Ticking y ->
  paced t y /\ lastSent (snd y) <= t.
Proof.
  destruct x as [a k]. intros [Hok Hgap Hpr] Ht Hst. cbn [fst snd astep] in *.
  assert (Hy : adaptive_ok p (fst y)) by (destruct y; by eapply (tick_ok p Hp)).
  assert (HP : 0 < P) by done. destruct Hp as [Hs Hc]. unfold slack in Hgap.
  assert (Hphase : a_phase a = phaseStable \/ a_phase a <> phaseStable /\
    (a_phase a = phaseProbeShort \/ a_phase a = phaseProbeDoubling))
    by (destruct Hok as (Hf & _); destruct (a_phase a); naive_solver).
  destruct Hphase as [Hph|[Hne Hph]].
  - rewrite Hph in Hgap. destruct (tick_stable t a k Hok Hph) as (late & Hlate & E). rewrite E in Hst.
    destruct Hok as (_ & _ & _ & _ & Hh). destruct (Hh Hph) as [Hheart _].
    destruct (late <=? _); [|destruct (Z.leb_spec (1000000 * successHeartMillis a) (t - lastSent k))];
      simplify_eq; cbn [fst snd] in *; (split; [|cbn; lia]); (split; [done| |]); unfold slack; cbn in *;
      rewrite ?Hph; try done; lia.
  - assert (Hx : longest + slack a <= longest + 2 * P)
      by (unfold slack; destruct (a_phase a), (awaiting a); lia).
    destruct (awaiting a) eqn:Haw.
    + destruct (Hpr Hne eq_refl) as [Hsa Hwin]. destruct (gotResponse a k) eqn:Hg.
      * destruct (tick_answered t a k y Hok Hph Haw Hg Hst) as [Hk Ha]. subst k.
        split; [|lia]. split; [done| |by rewrite Ha]. unfold slack. rewrite Ha.
        assert (t - lastSent (snd y) < longest + P) by lia. destruct (a_phase (fst y)); lia.
      * rewrite (tick_unanswered t a k Hph Haw Hg) in Hst.
        destruct (Z.leb_spec (responseWindow p) (t - sentAt a)).
        -- destruct (a_phase a); simplify_eq; try done; cbn [fst snd] in *; (split; [|lia]);
             (split; [done| |]); unfold slack; cbn; try done; lia.
        -- simplify_eq. cbn [fst snd] in *. split; [|lia]. split; [done| |by intros]. unfold slack. cbn. rewrite Haw.
           destruct (a_phase a); lia.
    + rewrite (tick_idle t a k Hok Hph Haw) in Hst. destruct Hok as (_ & Hi & _).
      destruct (Z.leb_spec (1000000 * intervalMillis a) (t - lastSent k)); simplify_eq; cbn [fst snd] in *;
        (split; [|cbn; lia]); (split; [done| |]); unfold slack in *; cbn in *; rewrite ?Haw in *;
        try (destruct (a_phase a); lia); try (intros; lia); congruence.
Qed.

(** Between ticks the client can only have sent something more. *)
Lemma paced_between tick t x y e :
  paced tick x -> lastSent (snd x) <= t -> tick <= t -> e = Sent t \/ e = Received t -> astep e x = Ticking y ->
  paced tick y /\ lastSent (snd y) <= t.
Proof.
  intros [Hok Hgap Hpr] Ht Htick He Hst. destruct x as [a k], (updates k t) as [Hs Hr].
  destruct He as [-> | ->]; cbn in Hst; rewrite ?Hs, ?Hr in Hst; simplify_eq; cbn in *;
    (split; [|done]); split; cbn; try done; try lia.
  intros Hn Ha. destruct (Hpr Hn Ha). lia.
Qed.

Lemma asilences_bound evs tick prev x :
  paced tick x -> lastSent (snd x) <= prev -> tick <= prev -> timely P tick prev evs ->
  Forall (fun s => s < longest + 3 * P) (asilences evs x).
Proof.
  assert (HP : 0 < P) by done.
  revert tick prev x. induction evs as [|e evs IH]; intros tick prev x Hx Hs Htp; cbn [timely asilences]; [done|].
  intros [[Hge Hle] Hrest]. constructor.
  { pose proof (paced_gap _ _ Hx). unfold slack in *. destruct (a_phase (fst x)), (awaiting (fst x)); lia. }
  destruct (astep e x) as [y|y] eqn:Hst; [|done]. destruct e as [t|t|t]; cbn [ktime] in *.
  - destruct (paced_tick tick t x y Hx) as [Hy Hly]; [lia|done|]. by eapply (IH t t).
  - destruct (paced_between tick t x y (Sent t) Hx) as [Hy Hly]; [lia..|by left|done|].
    eapply (IH tick t); [done..|lia|done].
  - destruct (paced_between tick t x y (Received t) Hx) as [Hy Hly]; [lia..|by right|done|].
    eapply (IH tick t); [done..|lia|done].
Qed.

End silence.
(** ** Nothing arrives any more

    The client has nothing to send but its pings. *)

#[local] Notation P := adaptiveTickInterval.

Definition is_tick (e : kevent) : bool := match e with Tick _ => true | _ => false end.

(** In the short phase the interval is the short one. *)
Definition short_ok (a : adaptive) : Prop :=
  a_phase a = phaseProbeShort -> intervalMillis a = shortMillis p.

Lemma short_tick t1 t2 t3 a (k : comms W) y :
  short_ok a -> adaptive_tick p t1 t2 t3 a k = Ticking y -> short_ok (fst y).
Proof.
  intros Ha Ht. unfold short_ok in *. unfold adaptive_tick in Ht.
  destruct (a_phase a) eqn:Hph; repeat case_match; simplify_eq; cbn; try done; try (by intros; apply Ha);
    try congruence.
Qed.

Lemma tick_received t1 t2 t3 a (k : comms W) y :
  adaptive_tick p t1 t2 t3 a k = Ticking y -> lastReceived (snd y) = lastReceived k.
Proof. unfold adaptive_tick. intros Ht. repeat case_match; simplify_eq; done. Qed.

(** The loop after any events, the last tick at [tick] and the last event at [now]:
    nothing is in the future, and a probe that has not been answered is younger
    than the response window. *)
Record timed (tick now : Z) (a : adaptive) (k : comms W) : Prop := mkTimed {
  timed_ok : adaptive_ok p a;
  timed_short : short_ok a;
  timed_now : tick <= now /\ lastSent k <= now /\ lastReceived k <= now;
  timed_probe : a_phase a <> phaseStable -> awaiting a = true ->
    sentAt a <= now /\ (gotResponse a k = false -> tick - sentAt a < responseWindow p);
}.

Lemma phase_cases a : adaptive_ok p a ->
  a_phase a = phaseStable \/ a_phase a <> phaseStable /\
  (a_phase a = phaseProbeShort \/ a_phase a = phaseProbeDoubling).
Proof. intros (Hf & _). destruct (a_phase a); naive_solver. Qed.

Lemma timed_tick tick now t a k y :
  timed tick now a k -> now <= t -> adaptive_tick p t t t a k = Ticking y -> timed t t (fst y) (snd y).
Proof.
  intros [Hok Hsh Hn Hpr] Ht Hst.
  assert (Hy : adaptive_ok p (fst y)) by (destruct y; by eapply (tick_ok p Hp)).
  pose proof (short_tick t t t a k y Hsh Hst) as Hsy. pose proof (tick_received t t t a k y Hst) as Hr.
  split; [done|done| |].
  - rewrite Hr. split; [lia|]. split; [|lia]. unfold adaptive_tick in Hst.
    repeat case_match; simplify_eq; cbn; lia.
  - destruct (phase_cases a Hok) as [Hph|[Hne Hph]].
    + destruct (tick_stable t a k Hok Hph) as (late & _ & E). rewrite E in Hst.
      repeat case_match; simplify_eq; cbn in *; congruence.
    + destruct (awaiting a) eqn:Haw.
      * destruct (gotResponse a k) eqn:Hg.
        -- destruct (tick_answered t a k y Hok Hph Haw Hg Hst) as [_ Ha]. by rewrite Ha.
        -- rewrite (tick_unanswered t a k Hph Haw Hg) in Hst. destruct (Hpr Hne eq_refl).
           destruct (Z.leb_spec (responseWindow p) (t - sentAt a)); [repeat case_match|]; simplify_eq;
             cbn; try done; lia.
      * rewrite (tick_idle t a k Hok Hph Haw) in Hst. case_match; simplify_eq; cbn; [lia|congruence].
Qed.

Lemma timed_run evs tick now a k x :
  timed tick now a k -> timely P tick now evs -> arun evs (a, k) = Some x ->
  exists tick', timed tick' (last_time now evs) (fst x) (snd x) /\
    forall rest, timely P tick now (evs ++ rest) -> timely P tick' (last_time now evs) rest.
Proof.
  revert tick now a k. induction evs as [|e evs IH]; intros tick now a k Hti; cbn [timely arun last_time].
  { intros _ [= <-]. by exists tick. }
  intros [[Hge Hle] Hrest] Hr. destruct (updates k (ktime e)) as [Hs Hrv], Hti as [Hok Hsh Hn Hpr].
  destruct e as [t|t|t]; cbn [ktime astep fst snd] in *; rewrite ?Hs, ?Hrv in Hr.
  - destruct (adaptive_tick p t t t a k) as [[a' k']|] eqn:Hst; [|done].
    pose proof (timed_tick tick now t a k _ (mkTimed _ _ _ _ Hok Hsh Hn Hpr) Hge Hst) as Hti'.
    destruct (IH t t a' k' Hti' Hrest Hr) as (tick' & Hti'' & Hre).
    exists tick'. split; [done|]. intros rest [_ Ht]. by apply Hre.
  - destruct (IH tick t a (set_lastSent t k)) as (tick' & Hti' & Hre); [|done..|].
    { split; cbn; [done|done|lia|]. intros Hne Haw. destruct (Hpr Hne Haw). split; [lia|done]. }
    exists tick'. split; [done|]. intros rest [_ Ht]. by apply Hre.
  - destruct (IH tick t a (receive t k)) as (tick' & Hti' & Hre); [|done..|].
    { split; cbn; [done|done|lia|]. intros Hne Haw. destruct (Hpr Hne Haw). split; [lia|].
      unfold gotResponse. cbn. intros ?%Z.leb_gt. lia. }
    exists tick'. split; [done|]. intros rest [_ Ht]. by apply Hre.
Qed.

(** When the loss is reported at the latest, after a tick, if nothing arrives. *)
Definition deadline (tick : Z) (a : adaptive) (k : comms W) : Z :=
  let S := 1000000 * shortMillis p in
  let C := 1000000 * ceilingMillis p in
  let w := responseWindow p in
  let stale := lastReceived k + 1500000 * ceilingMillis p in
  match a_phase a with
  | phaseStable => Z.max stale tick
  | ph =>
      if awaiting a then
        if gotResponse a k then Z.max stale (Z.max (lastSent k + C) tick + w + 3 * P)
        else match ph with
             | phaseProbeShort => sentAt a + P - S - 3 * P
             | _ => Z.max stale (sentAt a + w + P)
             end
      else match ph with
           | phaseProbeShort => Z.max (lastSent k + S) tick - S - P
           | _ => Z.max stale (Z.max (lastSent k + C) tick + w + 2 * P)
           end
  end + S + w + 3 * P.

(** Each tick of a loop that goes on keeps the deadline. *)
Lemma deadline_tick tick now t a k y :
  timed tick now a k -> now <= t <= tick + P -> lastReceived k < t -> adaptive_tick p t t t a k = Ticking y ->
  deadline t (fst y) (snd y) <= deadline tick a k.
Proof.
  intros [Hok Hsh Hn Hpr] Ht Hlr Hst. assert (HP : 0 < P) by done.
  destruct (phase_cases a Hok) as [Hph|[Hne Hph]].
  - destruct (tick_stable t a k Hok Hph) as (late & Hlate & E). rewrite E in Hst. destruct Hp as [Hsp Hc].
    destruct (Z.leb_spec late (t - lastReceived k));
      [|destruct (Z.leb_spec (1000000 * successHeartMillis a) (t - lastSent k))]; simplify_eq;
      unfold deadline; cbn; rewrite ?Hph; lia.
  - destruct (awaiting a) eqn:Haw; [destruct (gotResponse a k) eqn:Hg|].
    + destruct (tick_answered t a k y Hok Hph Haw Hg Hst) as [Hk Ha]. destruct Hp as [Hsp Hc].
      unfold deadline. rewrite Hk, Ha, Haw, Hg.
      destruct Hph as [-> | ->], (a_phase (fst y)); lia.
    + rewrite (tick_unanswered t a k Hph Haw Hg) in Hst. destruct (Hpr Hne eq_refl) as [_ Hwin].
      specialize (Hwin eq_refl). destruct Hp as [Hsp Hc]. unfold deadline. rewrite Haw, Hg.
      destruct (Z.leb_spec (responseWindow p) (t - sentAt a)).
      * destruct Hph as [Hph|Hph]; rewrite Hph in Hst |- *; simplify_eq. cbn. lia.
      * simplify_eq. cbn. rewrite Haw, Hg. destruct Hph as [-> | ->]; lia.
    + rewrite (tick_idle t a k Hok Hph Haw) in Hst. pose proof Hok as (_ & Hi & _). destruct Hp as [Hsp Hc].
      unfold deadline. rewrite Haw.
      destruct (Z.leb_spec (1000000 * intervalMillis a) (t - lastSent k)); simplify_eq; cbn.
      * unfold gotResponse. cbn. rewrite (proj2 (Z.leb_gt _ _) Hlr). destruct Hph as [-> | ->]; lia.
      * rewrite Haw. destruct Hph as [Hph|Hph]; rewrite Hph; [|lia]. specialize (Hsh Hph). lia.
Qed.

(** It is not over before the next tick, and never far away. *)
Lemma deadline_open tick now a k :
  timed tick now a k -> tick + P < deadline tick a k <= now + 1500000 * ceilingMillis p +
    1000000 * shortMillis p + 2 * responseWindow p + 5 * P.
Proof.
  intros [Hok _ Hn Hpr]. assert (HP : P = 250000000) by done. destruct Hp as [Hsp Hc], Hok as (Hf & _).
  unfold deadline. destruct (a_phase a); try done; try lia;
    (destruct (awaiting a); [destruct (Hpr ltac:(done) eq_refl) as [Hsa Hw1]; destruct (gotResponse a k);
      [|specialize (Hw1 eq_refl)]|]; lia).
Qed.

Lemma timely_later period evs tick prev :
  timely period tick prev evs -> Forall (fun e => prev <= ktime e) evs.
Proof.
  revert tick prev. induction evs as [|e evs IH]; intros tick prev; [done|]. intros [[Hge _] Hrest].
  constructor; [done|]. eapply Forall_impl; [by eapply IH|]. cbn. lia.
Qed.

Lemma ticks_before_deadline evs tick now a (k : comms W) D :
  timed tick now a k -> deadline tick a k <= D -> timely P tick now evs ->
  Forall (fun e => lastReceived k < ktime e) evs ->
  forallb is_tick evs = true -> arun evs (a, k) <> None -> Forall (fun e => ktime e < D) evs.
Proof.
  revert tick now a k. induction evs as [|e evs IH]; intros tick now a k Hti HD; cbn [timely arun forallb];
    [done|]. intros [[Hge Hle] Hrest] [Hl Hls]%Forall_cons_1 [He Hevs]%andb_prop Hno. destruct e as [t|t|t]; try done.
  cbn [ktime astep fst snd] in *. pose proof (deadline_open tick now a k Hti). constructor; [cbn; lia|].
  destruct (adaptive_tick p t t t a k) as [[a' k']|y] eqn:Hst; [|done].
  pose proof (deadline_tick tick now t a k _ Hti (conj Hge Hle) Hl Hst) as HD'.
  pose proof (timed_tick tick now t a k _ Hti Hge Hst) as Hti'. pose proof (tick_received _ _ _ _ _ _ Hst) as Hr.
  cbn [fst snd] in *. apply (IH t t a' k'); try done; [lia|]. by rewrite Hr.
Qed.

(** Ticks at the very time of the last packet received come before. *)
Lemma ticks_in_time evs tick now a (k : comms W) :
  timed tick now a k -> timely P tick now evs -> forallb is_tick evs = true -> arun evs (a, k) <> None ->
  Forall (fun e => ktime e < now + 1500000 * ceilingMillis p + 1000000 * shortMillis p +
    2 * responseWindow p + 5 * P) evs.
Proof.
  revert tick a k. induction evs as [|e evs IH]; intros tick a k Hti Htime Hall Hno; [done|].
  pose proof (deadline_open tick now a k Hti) as Hd. pose proof Htime as [[Hge Hle] Hrest].
  destruct (Z.lt_ge_cases (lastReceived k) (ktime e)) as [Hlt|Hle'].
  - eapply (ticks_before_deadline _ tick now a k); [done|apply Hd|done| |done..]. constructor; [done|].
    apply timely_later in Hrest. eapply Forall_impl; [exact Hrest|]. cbn. lia.
  - destruct e as [t|t|t]; try done. cbn [ktime arun astep fst snd forallb] in *.
    destruct Hti as [Hok Hsh Hn Hpr]. assert (t = now) as -> by lia.
    destruct (adaptive_tick p now now now a k) as [[a' k']|y] eqn:Hst; [|done].
    pose proof (timed_tick tick now now a k _ (mkTimed _ _ _ _ Hok Hsh Hn Hpr) Hge Hst) as Hti'.
    constructor; [cbn; lia|]. by apply (IH now a' k').
Qed.

(** ** A client that keeps sending *)

(** While packets go out more often than the short period, no probe does. *)
Lemma busy_runs evs a (k : comms W) :
  adaptive_ok p a -> short_ok a -> a_phase a = phaseProbeShort -> awaiting a = false ->
  Forall (fun s => s < 1000000 * shortMillis p) (asilences evs (a, k)) ->
  exists k', arun evs (a, k) = Some (a, k') /\ conn k' = conn k.
Proof.
  intros Hok Hsh Hph Haw. revert k. induction evs as [|e evs IH]; intros k; cbn [asilences arun].
  - intros _. by exists k.
  - intros [Hs Hall]%Forall_cons_1. cbn [snd] in Hs. destruct e as [t|t|t]; cbn [astep fst snd ktime] in *.
    + rewrite (tick_idle t a k Hok (or_introl Hph) Haw), (Hsh Hph) in Hall |- *.
      rewrite (proj2 (Z.leb_gt _ _) Hs) in Hall |- *. by apply IH.
    + rewrite (proj1 (updates k t)) in Hall |- *. destruct (IH _ Hall) as (k' & Hr & Hc). by exists k'.
    + rewrite (proj2 (updates k t)) in Hall |- *. destruct (IH _ Hall) as (k' & Hr & Hc). by exists k'.
Qed.

Lemma arun_app evs evs' x : arun (evs ++ evs') x = match arun evs x with Some y => arun evs' y | None => None end.
Proof. revert x. induction evs as [|e evs IH]; intros x; cbn; [done|]. by destruct (astep e x). Qed.

End runs.

Lemma timely_prefix period tick prev evs rest :
  timely period tick prev (evs ++ rest) -> timely period tick prev evs.
Proof.
  revert tick prev. induction evs as [|e evs IH]; intros tick prev; [done|]. intros [Ht Hr]. split; [done|].
  by apply IH.
Qed.

Lemma ticks_only ts : forallb is_tick (Tick <$> ts) = true.
Proof. by induction ts. Qed.

(** ** The theorems *)

Lemma window_positive {URL W : Type} (o : ClientOptions URL) (k : comms W) p :
  adaptive_init o k = Adapt p -> 0 < responseWindow p.
Proof.
  unfold adaptive_init. destruct (serverKp k <=? 0); [done|]. destruct (_ <=? _); [done|].
  intros [= <-]. cbn. destruct (Z.leb_spec (ResponseWindow o) 0); unfold Second; lia.
Qed.

(** The time within which the adaptive heartbeat notices that nothing arrives: one
    and a half ceilings, a short period, two response windows and five ticks. *)
Definition detection_time (p : adaptive_params) : Z :=
  1500000 * ceilingMillis p + 1000000 * shortMillis p + 2 * responseWindow p + 5 * adaptiveTickInterval.

(** C36: the adaptive heartbeat notices a dead peer: after any run from its beginning,
    with packets sent, packets received and probes answered or not in any order and
    with a ticker that keeps its period, when nothing arrives any more and the client
    sends nothing but its pings, it reports the connection lost within
    [detection_time] of the last event, whatever phase it was in: when it is stable or
    still doubling it gives that up, probes with the short period, and ends when that
    probe stays unanswered. *)
Theorem adaptive_dead_peer_detected {URL W : Type} `{Writer W} (o : ClientOptions URL) (k : comms W)
    (p : adaptive_params) (start : Z) (evs : list kevent) (ticks : list Z) (t : Z) :
  0 <= serverKp k < 65536 -> AdaptiveHeartbeat o = true -> adaptive_init o k = Adapt p ->
  responseWindow p < 2 ^ 62 -> lastSent k <= start -> lastReceived k <= start ->
  timely adaptiveTickInterval start start (evs ++ (Tick <$> ticks ++ [t])) ->
  last_time start evs + detection_time p <= t ->
  arun o p (evs ++ (Tick <$> ticks ++ [t])) (adaptive_begin p, k) = None.
Proof.
  intros Hkp Hon Hinit Hw Hls Hlr Htime Hlate. destruct (params_init o k p Hkp Hinit) as (Hp & _).
  pose proof (conj (window_positive o k p Hinit) Hw) as Hw'.
  assert (Hti : timed p start start (adaptive_begin p) k).
  { split; cbn; [apply (reach_ok (W := W) p Hp); constructor|done|lia|done]. }
  rewrite arun_app. destruct (arun o p evs (adaptive_begin p, k)) as [[a1 k1]|] eqn:Hr1; [|done].
  destruct (timed_run o p Hp Hw' Hon evs start start _ k _ Hti (timely_prefix _ _ _ _ _ Htime) Hr1)
    as (tick & Hti1 & Hre). specialize (Hre _ Htime).
  destruct (arun o p (Tick <$> ticks ++ [t]) (a1, k1)) eqn:Hr2; [|done]. exfalso.
  pose proof (ticks_in_time o p Hp Hw' _ tick _ a1 k1 Hti1 Hre (ticks_only _) ltac:(by rewrite Hr2)) as Hb.
  rewrite fmap_app in Hb. apply Forall_app in Hb as [_ [Hb _]%Forall_cons_1].
  cbn in Hb. unfold detection_time in Hlate. lia.
Qed.

(** But it does not notice a dead peer while the client keeps sending: as long as the
    packets of the application are less than the short period apart, it neither
    probes nor reports a loss, whether or not anything is received.  (The fixed
    heartbeat looks at what was received in any case: [dead_peer_detected].) *)
Theorem adaptive_blind_while_sending {URL W : Type} `{Writer W} (o : ClientOptions URL) (k0 k : comms W)
    (p : adaptive_params) (evs : list kevent) :
  0 <= serverKp k0 < 65536 -> AdaptiveHeartbeat o = true -> adaptive_init o k0 = Adapt p ->
  Forall (fun s => s < 1000000 * shortMillis p) (asilences o p evs (adaptive_begin p, k)) ->
  exists k', arun o p evs (adaptive_begin p, k) = Some (adaptive_begin p, k') /\ conn k' = conn k.
Proof.
  intros Hkp Hon Hinit. destruct (params_init o k0 p Hkp Hinit) as (Hp & _).
  apply (busy_runs o p Hp Hon); try done. apply (reach_ok (W := W) p Hp). constructor.
Qed.

(** ** Runs *)

Definition ticks_to (n : nat) : list Z := (fun i => adaptiveTickInterval * (Z.of_nat i + 1)) <$> seq 0 n.

(** A tick every quarter of a second up to the first short probe, which is answered. *)
Definition adaptive_sample : list kevent :=
  (Tick <$> ((fun i => 10000000000 + adaptiveTickInterval * (Z.of_nat i - 39)) <$> seq 0 40)) ++
  [Received 10100000000; Tick 10250000000].

(** The first short probe is answered; then nothing arrives any more. *)
Lemma adaptive_dead_peer_detected_witness :
  detection_time sample_params = 105250000000 /\ last_time 0 adaptive_sample = 10250000000 /\
  is_Some (arun adaptive_options sample_params adaptive_sample (adaptive_begin sample_params, adaptive_comms)) /\
  arun adaptive_options sample_params
    (adaptive_sample ++ (Tick <$> drop 41 (ticks_to 461) ++ [adaptiveTickInterval * 462]))
    (adaptive_begin sample_params, adaptive_comms) = None.
Proof.
  split; [vm_compute; reflexivity|]. split; [vm_compute; reflexivity|].
  split; [eexists; vm_compute; reflexivity|].
  refine (adaptive_dead_peer_detected adaptive_options adaptive_comms sample_params 0 adaptive_sample
    (drop 41 (ticks_to 461)) (adaptiveTickInterval * 462) _ _ _ _ _ _ _ _).
  - vm_compute. intuition congruence.
  - reflexivity.
  - vm_compute. reflexivity.
  - vm_compute. reflexivity.
  - vm_compute. discriminate.
  - vm_compute. discriminate.
  - vm_compute. intuition congruence.
  - vm_compute. discriminate.
Defined.

(** Ten minutes of a packet every second and nothing received: still running. *)
Definition busy_run : list kevent :=
  concat ((fun i => let s := Second * Z.of_nat i in
    [Tick (s + adaptiveTickInterval); Tick (s + 2 * adaptiveTickInterval); Tick (s + 3 * adaptiveTickInterval);
     Tick (s + Second); Sent (s + Second)]) <$> seq 0 600).

Lemma adaptive_blind_while_sending_witness :
  last (ktime <$> busy_run) = Some (600 * Second) /\
  exists k', arun adaptive_options sample_params busy_run (adaptive_begin sample_params, adaptive_comms) =
    Some (adaptive_begin sample_params, k') /\ conn k' = mkBuffer [].
Proof.
  split; [vm_compute; reflexivity|].
  refine (adaptive_blind_while_sending adaptive_options adaptive_comms adaptive_comms sample_params busy_run
    _ _ _ _).
  - vm_compute. intuition congruence.
  - reflexivity.
  - vm_compute. reflexivity.
  - apply (bool_decide_unpack _). vm_compute. exact I.
Defined.
