(* ===== verification/ClientKeepaliveLoop.v ===== *)
(** * Client: the keepalive goroutine

    keepalive of client/keepalive.go as a whole: which of its loops it enters, the
    loop until it is told to stop or reports the connection lost, and what holds
    whichever loop it is. *)

From Stdlib Require Import ZArith Lia String.
From stdpp Require Import base list strings numbers.
From S2P Require Import Prelude GoIO Codec GoTime GoFloat Server ClientOptions ClientKeepalive ClientAdaptive.
From S2P Require Import ClientAdaptiveRuns.

Local Open Scope Z_scope.

(** Where the goroutine is: returned, in the loop of keepalive or of fixedKeepalive
    with the period of its ticker, or in the adaptive loop with its variables. *)
Inductive kmode : Type :=
| KReturned
| KKeepalive (period : Z)
| KFixed (period : Z)
| KAdaptive (p : adaptive_params) (a : adaptive).

(** What wakes it, and what the rest of the client does meanwhile. *)
Inductive kwake : Type :=
| KStop
| KEvent (e : kevent).

(** How the goroutine ends. *)
Inductive kend (A : Type) : Type :=
| KRunning (a : A)
| KStopped (a : A)
| KLost (a : A).

Arguments KRunning {A}.
Arguments KStopped {A}.
Arguments KLost {A}.

Section goroutine.
Context {URL W : Type} `{Writer W} (o : ClientOptions URL).

Definition fixedKeepalive (k : comms W) : kmode :=
  match keepalive_period o k with
  | Some period => KFixed period
  | None => KReturned
  end.

Definition adaptiveKeepalive (k : comms W) : kmode :=
  match adaptive_init o k with
  | Disabled => KReturned
  | UseFixed => fixedKeepalive k
  | Adapt p => KAdaptive p (adaptive_begin p)
  end.

Definition keepalive (k : comms W) : kmode :=
  if AdaptiveHeartbeat o then adaptiveKeepalive k
  else match keepalive_period o k with
       | Some period => KKeepalive period
       | None => KReturned
       end.

(** The period of the ticker it waits for. *)
Definition ticker (m : kmode) : Z :=
  match m with
  | KReturned => 0
  | KKeepalive period | KFixed period => period
  | KAdaptive _ _ => adaptiveTickInterval
  end.

Definition keepalive_event (e : kevent) (m : kmode) (k : comms W) : tick_result (kmode * comms W) :=
  match e with
  | Sent t => Ticking (m, UpdateLastSent o t k)
  | Received t => Ticking (m, UpdateLastReceived o t k)
  | Tick t =>
      match m with
      | KReturned => Ticking (m, k)
      | KKeepalive _ =>
          match keepalive_tick o t t t k with Ticking k => Ticking (m, k) | Lost k => Lost (m, k) end
      | KFixed _ =>
          match fixedKeepalive_tick o t t t k with Ticking k => Ticking (m, k) | Lost k => Lost (m, k) end
      | KAdaptive p a =>
          match adaptive_tick p t t t a k with
          | Ticking (a, k) => Ticking (KAdaptive p a, k)
          | Lost (a, k) => Lost (KAdaptive p a, k)
          end
      end
  end.

(** The loops: [select] on the stop channel and the ticker. *)
Fixpoint keepalive_loop (ws : list kwake) (m : kmode) (k : comms W) : kend (kmode * comms W) :=
  match ws with
  | [] => KRunning (m, k)
  | KStop :: _ => KStopped (m, k)
  | KEvent e :: ws =>
      match keepalive_event e m k with
      | Ticking (m, k) => keepalive_loop ws m k
      | Lost x => KLost x
      end
  end.

(** How long nothing had been sent, at each event until the goroutine ends. *)
Fixpoint loop_silences (ws : list kwake) (m : kmode) (k : comms W) : list Z :=
  match ws with
  | [] | KStop :: _ => []
  | KEvent e :: ws =>
      (ktime e - lastSent k) ::
      match keepalive_event e m k with
      | Ticking (m, k) => loop_silences ws m k
      | Lost _ => []
      end
  end.

(** The events before the stop. *)
Fixpoint until_stop (ws : list kwake) : list kevent :=
  match ws with
  | [] | KStop :: _ => []
  | KEvent e :: ws => e :: until_stop ws
  end.

(** Both fixed loops are runs of [kstep], the adaptive one of [astep]. *)
Lemma loop_silences_fixed ws m k :
  match m with KKeepalive _ | KFixed _ => True | _ => False end ->
  loop_silences ws m k = silences o (until_stop ws) k.
Proof.
  intros Hm. revert k. induction ws as [|[|e] ws IH]; intros k; [done..|].
  cbn [loop_silences until_stop silences]. f_equal. destruct m; try done;
    destruct e as [t|t|t]; cbn [keepalive_event kstep]; try apply IH;
    rewrite ?fixedKeepalive_same; destruct (keepalive_tick o t t t k); (apply IH || done).
Qed.

Lemma loop_silences_adaptive ws p a k :
  loop_silences ws (KAdaptive p a) k = asilences o p (until_stop ws) (a, k).
Proof.
  revert a k. induction ws as [|[|e] ws IH]; intros a k; [done..|].
  cbn [loop_silences until_stop asilences]. f_equal.
  destruct e as [t|t|t]; cbn [keepalive_event astep fst snd]; try apply IH.
  destruct (adaptive_tick p t t t a k) as [[a' k']|[a' k']]; [apply IH|done].
Qed.

End goroutine.

(** ** Whatever the configuration *)

Section negotiated.
Context {URL W : Type} `{Writer W} (o : ClientOptions URL) (k : comms W).
Context (Hkp : 2 <= serverKp k < 65536).

Lemma negotiated_period : keepalive_period o k = Some (tick_period (serverKp k)).
Proof.
  unfold keepalive_period, effectiveHeartbeat. rewrite (proj2 (Z.ltb_lt 0 _)) by lia.
  rewrite (proj2 (Z.leb_gt _ _)) by lia. by rewrite i64_small by (unfold Second; lia).
Qed.

Lemma window_at_most p :
  adaptive_init o k = Adapt p -> ResponseWindow o <= serverKp k * Second ->
  responseWindow p <= serverKp k * Second.
Proof.
  unfold adaptive_init. destruct (serverKp k <=? 0); [done|]. destruct (_ <=? _); [done|].
  intros [= <-] Hw. cbn. destruct (ResponseWindow o <=? 0); unfold Second in *; lia.
Qed.

(** With a keepalive negotiated the goroutine always has a loop to enter. *)
Lemma keepalive_enters :
  match keepalive o k with
  | KReturned => False
  | KKeepalive period => period = tick_period (serverKp k) /\ AdaptiveHeartbeat o = false
  | KFixed period => period = tick_period (serverKp k) /\ AdaptiveHeartbeat o = true
  | KAdaptive p a => adaptive_init o k = Adapt p /\ a = adaptive_begin p /\ AdaptiveHeartbeat o = true
  end.
Proof.
  unfold keepalive, adaptiveKeepalive, fixedKeepalive. rewrite negotiated_period.
  destruct (AdaptiveHeartbeat o) eqn:Hon; [|done]. destruct (adaptive_init o k) eqn:Hi; try done.
  revert Hi. unfold adaptive_init. rewrite (proj2 (Z.leb_gt (serverKp k) 0)) by lia. by destruct (_ <=? _).
Qed.

(** The longest the client can have been silent at an event. *)
Definition longest_silence : Z :=
  Z.max (serverKp k * Second + tick_period (serverKp k)) (serverKp k * Second + 3 * adaptiveTickInterval).

Lemma longest_silence_timer timeout :
  keepaliveTimer (serverKp k) = Some timeout -> timeout = 1500000000 * serverKp k /\ longest_silence <= timeout.
Proof.
  unfold keepaliveTimer. rewrite (proj2 (Z.ltb_lt _ _)) by lia. intros [= <-].
  rewrite one_and_a_half_exact by lia. split; [done|]. destruct (tick_period_le (serverKp k) ltac:(lia)).
  unfold longest_silence, adaptiveTickInterval, Millisecond, Second in *. lia.
Qed.

Lemma fixed_silences evs :
  negb (Heartbeat o =? 0) || AdaptiveHeartbeat o = true ->
  timely (tick_period (serverKp k)) (lastSent k) (lastSent k) evs ->
  Forall (fun s => s < longest_silence) (silences o evs k).
Proof.
  intros Hon Htime. eapply Forall_mono.
  - apply (silences_bound o (serverKp k) ltac:(lia) Hon) with (tick := lastSent k) (prev := lastSent k);
      try done; unfold Second; try lia.
    unfold effectiveHeartbeat. by rewrite (proj2 (Z.ltb_lt 0 _)) by lia.
  - unfold longest_silence. cbn. lia.
Qed.

Lemma adaptive_silences p evs :
  AdaptiveHeartbeat o = true -> adaptive_init o k = Adapt p ->
  responseWindow p <= serverKp k * Second ->
  timely adaptiveTickInterval (lastSent k) (lastSent k) evs ->
  Forall (fun s => s < longest_silence) (asilences o p evs (adaptive_begin p, k)).
Proof.
  intros Hon Hinit Hwin Htime. destruct (params_init o k p ltac:(lia) Hinit) as (Hp & Hc & _).
  pose proof (window_positive o k p Hinit) as Hw0.
  assert (Hl : 1000000 * ceilingMillis p <= serverKp k * Second /\
    responseWindow p <= serverKp k * Second) by (unfold Second in *; lia).
  assert (Hw : 0 < responseWindow p < 2 ^ 62) by (unfold Second in *; lia).
  eapply Forall_mono; [apply (asilences_bound o p Hp Hw Hon _ Hl evs (lastSent k) (lastSent k)); [|done..]|].
  - split; cbn; [apply (reach_ok p Hp); constructor| |done].
    unfold adaptiveTickInterval, Millisecond, Second in *. lia.
  - cbn. unfold longest_silence. lia.
Qed.

(** Whichever loop it enters. *)
Lemma silences_below ws :
  Heartbeat o <> 0 \/ AdaptiveHeartbeat o = true -> ResponseWindow o <= serverKp k * Second ->
  timely (ticker (keepalive o k)) (lastSent k) (lastSent k) (until_stop ws) ->
  keepalive o k <> KReturned /\
  Forall (fun s => s < longest_silence) (loop_silences o ws (keepalive o k) k).
Proof.
  intros Hhb Hw Htime. pose proof keepalive_enters as Hm.
  assert (Hon : negb (Heartbeat o =? 0) || AdaptiveHeartbeat o = true).
  { destruct Hhb as [Hhb | ->]; [by rewrite (proj2 (Z.eqb_neq _ _) Hhb)|apply orb_true_r]. }
  destruct (keepalive o k) as [|period|period|p a]; cbn [ticker] in Htime; [done|..]; (split; [done|]).
  - destruct Hm as [-> _]. rewrite loop_silences_fixed by done. by apply fixed_silences.
  - destruct Hm as [-> _]. rewrite loop_silences_fixed by done. by apply fixed_silences.
  - destruct Hm as (Hi & -> & Ha). rewrite loop_silences_adaptive.
    by apply adaptive_silences; try done; apply window_at_most.
Qed.

End negotiated.

(** C34: with a negotiated keepalive of at least 2 seconds (below 65536, which is all a
    CONNACK can carry), a heartbeat configured, fixed or adaptive and with or without
    headroom, a [ResponseWindow] no longer than the keepalive and a ticker that keeps
    its period, the client keeps the server's reaper away: the goroutine enters one of
    its loops, and at no event until it is stopped or reports a loss has the client
    been silent for as long as the server's keepalive timer waits.  Each condition is
    needed: with a keepalive of 1 second the ticker is too coarse
    ([one_second_keepalive]), and while a probe waits for a longer window nothing is
    sent ([long_window]). *)
Theorem keepalive_outpaces_reaper {URL W : Type} `{Writer W} (o : ClientOptions URL) (k : comms W)
    (ws : list kwake) (timeout : Z) :
  2 <= serverKp k < 65536 -> Heartbeat o <> 0 \/ AdaptiveHeartbeat o = true ->
  ResponseWindow o <= serverKp k * Second -> keepaliveTimer (serverKp k) = Some timeout ->
  timely (ticker (keepalive o k)) (lastSent k) (lastSent k) (until_stop ws) ->
  keepalive o k <> KReturned /\
  Forall (fun s => s < timeout) (loop_silences o ws (keepalive o k) k).
Proof.
  intros Hkp Hhb Hw Ht Htime. destruct (longest_silence_timer k Hkp timeout Ht) as [_ Hl].
  destruct (silences_below o k Hkp ws Hhb Hw Htime) as [Hm Hs]. split; [done|].
  eapply Forall_mono; [exact Hs|]. cbn. lia.
Qed.

(** The sample runs of both heartbeats, the second one stopped at its end. *)
Lemma keepalive_outpaces_reaper_witness :
  Forall (fun s => s < 45000000000)
    (loop_silences sample_options (KEvent <$> sample_run) (keepalive sample_options sample_comms) sample_comms) /\
  Forall (fun s => s < 90000000000)
    (loop_silences adaptive_options ((KEvent <$> adaptive_sample) ++ [KStop])
       (keepalive adaptive_options adaptive_comms) adaptive_comms) /\
  keepalive adaptive_options adaptive_comms = KAdaptive sample_params (adaptive_begin sample_params).
Proof.
  split; [|split; [|vm_compute; reflexivity]].
  - refine (proj2 (keepalive_outpaces_reaper sample_options sample_comms (KEvent <$> sample_run) 45000000000
      _ _ _ _ _)); [| |vm_compute; discriminate|vm_compute; reflexivity|vm_compute; intuition congruence].
    + vm_compute. intuition congruence.
    + left. vm_compute. discriminate.
  - refine (proj2 (keepalive_outpaces_reaper adaptive_options adaptive_comms
      ((KEvent <$> adaptive_sample) ++ [KStop]) 90000000000 _ _ _ _ _));
      [| |vm_compute; discriminate|vm_compute; reflexivity|vm_compute; intuition congruence].
    + vm_compute. intuition congruence.
    + right. reflexivity.
Defined.

(** ** The conditions are needed *)

(** With a keepalive of one second: a packet at half a second, and the ticks of the
    ticker, which cannot be faster than one a second: the client is silent for all of
    the 1.5 seconds the server waits. *)
Definition one_second : comms Buffer := mkComms 0 0 1 (mkBuffer []).

Example one_second_keepalive :
  keepalive sample_options one_second = KKeepalive Second /\
  keepaliveTimer 1 = Some 1500000000 /\
  loop_silences sample_options (KEvent <$> [Sent 500000000; Received 600000000; Tick Second; Tick (2 * Second)])
    (keepalive sample_options one_second) one_second = [500000000; 100000000; 500000000; 1500000000].
Proof. vm_compute. repeat split. Qed.

(** With a keepalive of 60 seconds, a response window of 100: after its first probe, at
    10 seconds, the client sends nothing for the 90 seconds the server waits. *)
Definition long_window_options : ClientOptions unit :=
  SetResponseWindow (100 * Second) adaptive_options.

Example long_window :
  List.last (loop_silences long_window_options
    (KEvent <$> (Tick <$> ((fun i => adaptiveTickInterval * (Z.of_nat i + 1)) <$> seq 0 400)))
    (keepalive long_window_options adaptive_comms) adaptive_comms) 0 = 90000000000.
Proof. vm_compute. reflexivity. Qed.
