(* ===== verification/Heartbeat.v ===== *)
(** * The client's heartbeat against the server's timer

    The keepalive goroutine of the client ([ClientKeepaliveLoop]) on one side of a
    network with a bounded delay, the keepalive timer of handleDeviceConnection
    (src/server/server.go), which every packet read sets again, on the other. *)

From Stdlib Require Import ZArith Lia String.
From stdpp Require Import base list strings numbers.
From S2P Require Import Prelude GoIO Codec GoTime GoFloat Server ClientOptions ClientKeepalive ClientAdaptive.
From S2P Require Import ClientAdaptiveRuns ClientKeepaliveLoop.

Local Open Scope Z_scope.

(** ** The server *)

(** Whether a timer of [timeout], armed at [armed] and reset at each of [reads],
    fires up to the time [until]. *)
Fixpoint reaps (timeout armed until : Z) (reads : list Z) : bool :=
  match reads with
  | [] => armed + timeout <=? until
  | t :: reads => if armed + timeout <=? Z.min t until then true else reaps timeout t until reads
  end.

(** ** The client *)

Section sends.
Context {URL W : Type} `{Writer W} (o : ClientOptions URL).

(** The packets one event sends: that of the outgoing loop, or the PINGREQ of a
    tick, whose time is stored into lastSent. *)
Definition sends_of (e : kevent) (k k' : comms W) : list Z :=
  match e with
  | Sent t => [t]
  | Received _ => []
  | Tick t => if lastSent k' =? lastSent k then [] else [t]
  end.

(** When packets are sent until the goroutine ends, and when it was last awake. *)
Fixpoint loop_sends (ws : list kwake) (m : kmode) (k : comms W) : list Z :=
  match ws with
  | [] | KStop :: _ => []
  | KEvent e :: ws =>
      match keepalive_event o e m k with
      | Ticking (m', k') => sends_of e k k' ++ loop_sends ws m' k'
      | Lost (_, k') => sends_of e k k'
      end
  end.

Fixpoint loop_end (prev : Z) (ws : list kwake) (m : kmode) (k : comms W) : Z :=
  match ws with
  | [] | KStop :: _ => prev
  | KEvent e :: ws =>
      match keepalive_event o e m k with
      | Ticking (m', k') => loop_end (ktime e) ws m' k'
      | Lost _ => ktime e
      end
  end.

(** A tick sends at its own time or not at all. *)
Lemma tick_sends t m k m' k' :
  keepalive_event o (Tick t) m k = Ticking (m', k') \/ keepalive_event o (Tick t) m k = Lost (m', k') ->
  lastSent k' = lastSent k \/ lastSent k' = t.
Proof.
  assert (Hka : forall k0 k1, keepalive_tick o t t t k0 = Ticking k1 \/ keepalive_tick o t t t k0 = Lost k1 ->
    lastSent k1 = lastSent k0 \/ lastSent k1 = t).
  { intros k0 k1. unfold keepalive_tick. repeat case_match; intros [?|?]; simplify_eq; cbn; auto. }
  destruct m as [|period|period|p a]; cbn [keepalive_event].
  - intros [?|?]; simplify_eq; auto.
  - intros Hk. apply Hka. destruct (keepalive_tick o t t t k); destruct Hk; simplify_eq; auto.
  - rewrite fixedKeepalive_same. intros Hk. apply Hka.
    destruct (keepalive_tick o t t t k); destruct Hk; simplify_eq; auto.
  - intros Hk. destruct (adaptive_tick p t t t a k) as [[a1 k1]|[a1 k1]] eqn:Ht;
      destruct Hk; simplify_eq; revert Ht; unfold adaptive_tick; repeat case_match; intros; simplify_eq; cbn; auto.
Qed.

Context (Hon : negb (Heartbeat o =? 0) || AdaptiveHeartbeat o = true).

(** What one event leaves as the last time something was sent. *)
Lemma event_sends e m k x m' k' :
  keepalive_event o e m k = x -> x = Ticking (m', k') \/ x = Lost (m', k') ->
  (sends_of e k k' = [] /\ lastSent k' = lastSent k) \/
  (sends_of e k k' = [ktime e] /\ lastSent k' = ktime e).
Proof.
  intros He Hx. destruct e as [t|t|t].
  - assert (Ht : lastSent k' = lastSent k \/ lastSent k' = t)
      by (apply (tick_sends t m k m' k'); destruct Hx; subst; auto).
    unfold sends_of. cbn [ktime]. destruct (Z.eqb_spec (lastSent k') (lastSent k)); [by left|].
    destruct Ht; [done|]. by right.
  - cbn in He. subst x. unfold UpdateLastSent in Hx. rewrite Hon in Hx.
    destruct Hx; simplify_eq. by right.
  - cbn in He. subst x. unfold UpdateLastReceived in Hx. rewrite Hon in Hx.
    destruct Hx; simplify_eq. by left.
Qed.

(** Every packet is read between 0 and [delay] after it was sent. *)
Definition delayed (delay : Z) (sends reads : list Z) : Prop :=
  Forall2 (fun s r => s <= r <= s + delay) sends reads.

(** With silences below [most], a timer that leaves room for the delay twice does
    not fire. *)
Lemma never_reaped timeout delay most until ws m k prev armed reads :
  0 < most -> 0 <= delay -> most + 2 * delay <= timeout ->
  Forall (fun s => s < most) (loop_silences o ws m k) -> prev - lastSent k < most ->
  lastSent k <= armed + delay -> delayed delay (loop_sends ws m k) reads ->
  until <= loop_end prev ws m k -> reaps timeout armed until reads = false.
Proof.
  intros Hmost Hdel Hroom. revert m k prev armed reads.
  assert (Hend : forall (k : comms W) prev armed, prev - lastSent k < most -> lastSent k <= armed + delay ->
    until <= prev -> reaps timeout armed until [] = false).
  { intros k prev armed Hp Ha Hu. cbn. apply Z.leb_gt. lia. }
  induction ws as [|[|e] ws IH]; intros m k prev armed reads; cbn [loop_silences loop_sends loop_end].
  1,2: intros _ Hp Ha Hr Hu; inversion Hr; subst; by eapply Hend.
  intros [Hs Hall]%Forall_cons_1 Hp Ha Hr Hu.
  destruct (keepalive_event o e m k) as [[m' k']|[m' k']] eqn:He;
    (destruct (event_sends e m k _ m' k' He ltac:(auto)) as [[Hse Hl]|[Hse Hl]]; rewrite Hse in Hr; cbn [app] in Hr).
  - eapply (IH m' k' (ktime e)); try done; lia.
  - apply Forall2_cons_inv_l in Hr as (r & reads' & Hd & Hr & ->). cbn [reaps].
    rewrite (proj2 (Z.leb_gt _ _)) by lia. eapply (IH m' k' (ktime e)); try done; lia.
  - inversion Hr; subst. eapply (Hend k' (ktime e)); lia.
  - apply Forall2_cons_inv_l in Hr as (r & reads' & Hd & Hr & ->). inversion Hr; subst. cbn [reaps].
    rewrite (proj2 (Z.leb_gt _ _)) by lia. apply Z.leb_gt. lia.
Qed.

End sends.

(** ** The theorem *)

(** C33: a live session is not reaped: with a negotiated keepalive of at least 4
    seconds (below 65536, which is all a CONNACK can carry), a heartbeat configured,
    fixed or adaptive, a [ResponseWindow] no longer than the keepalive, a ticker that
    keeps its period and a network that delays the handshake and every packet by at
    most an eighth of the keepalive, the server's timer, armed when the session begins
    and set again by every packet it reads, does not fire while the client's keepalive
    goroutine runs. *)
Theorem heartbeat_keeps_session {URL W : Type} `{Writer W} (o : ClientOptions URL) (k : comms W)
    (ws : list kwake) (timeout delay armed until : Z) (reads : list Z) :
  4 <= serverKp k < 65536 -> Heartbeat o <> 0 \/ AdaptiveHeartbeat o = true ->
  ResponseWindow o <= serverKp k * Second -> keepaliveTimer (serverKp k) = Some timeout ->
  timely (ticker (keepalive o k)) (lastSent k) (lastSent k) (until_stop ws) ->
  0 <= delay -> 8 * delay <= serverKp k * Second -> lastSent k <= armed + delay ->
  delayed delay (loop_sends o ws (keepalive o k) k) reads ->
  until <= loop_end o (lastSent k) ws (keepalive o k) k ->
  reaps timeout armed until reads = false.
Proof.
  intros Hkp Hhb Hw Ht Htime Hd0 Hd Ha Hr Hu. assert (Hkp' : 2 <= serverKp k < 65536) by lia.
  destruct (longest_silence_timer k Hkp' timeout Ht) as [-> _].
  destruct (silences_below o k Hkp' ws Hhb Hw Htime) as [_ Hs].
  assert (Hon : negb (Heartbeat o =? 0) || AdaptiveHeartbeat o = true).
  { destruct Hhb as [Hhb | ->]; [by rewrite (proj2 (Z.eqb_neq _ _) Hhb)|apply orb_true_r]. }
  assert (Hl : 0 < longest_silence k /\ longest_silence k <= 1250000000 * serverKp k).
  { unfold longest_silence, tick_period, adaptiveTickInterval, Millisecond, Second in *.
    rewrite Z.quot_div_nonneg by lia. split; [lia|]. Z.to_euclidean_division_equations. lia. }
  apply (never_reaped o Hon _ delay (longest_silence k) until ws (keepalive o k) k (lastSent k)); try done;
    unfold Second in *; lia.
Qed.

(** ** A run

    The adaptive run of [ClientAdaptiveRuns] with a delay of two seconds each way. *)

Definition sample_reads : list Z :=
  (fun s => s + 2 * Second) <$> loop_sends adaptive_options (KEvent <$> adaptive_sample)
    (keepalive adaptive_options adaptive_comms) adaptive_comms.

Lemma heartbeat_keeps_session_witness :
  sample_reads = [12 * Second] /\
  reaps 90000000000 (2 * Second) 10250000000 sample_reads = false.
Proof.
  split; [vm_compute; reflexivity|].
  refine (heartbeat_keeps_session adaptive_options adaptive_comms (KEvent <$> adaptive_sample) 90000000000
    (2 * Second) (2 * Second) 10250000000 sample_reads _ _ _ _ _ _ _ _ _ _).
  - vm_compute. intuition congruence.
  - right. reflexivity.
  - vm_compute. discriminate.
  - vm_compute. reflexivity.
  - vm_compute. intuition congruence.
  - vm_compute. discriminate.
  - vm_compute. discriminate.
  - vm_compute. discriminate.
  - unfold delayed, sample_reads. apply (bool_decide_unpack _). vm_compute. exact I.
  - vm_compute. discriminate.
Defined.
