(* ===== verification/ClientNet.v ===== *)
(** * Client: handshake, incoming and outgoing loops

    client/net.go and the connection attempt of client/client.go, over the
    network connections of the server model: [nc_in] is what the server will
    send on the connection, [nc_out] what the client wrote. *)

From Stdlib Require Import ZArith Lia String.
From stdpp Require Import base list strings gmap numbers.
From S2P Require Import Prelude GoIO Codec CodecFacts GoTime Store Server.
From S2P Require Import ServerFacts ServerDrain ServerProps ClientOptions.

Local Open Scope Z_scope.

(** ** net.go: the handshake *)

Definition errNonConnack : error := Errorf "non-CONNACK first packet received".

(** Return code, server keepalive and error; [None] when reading diverges. *)
Definition verifyCONNACK {R} `{Reader R} (conn : R) : option ((Z * Z) * option error) * R :=
  match ReadPacket conn with
  | (Throw err, conn) => (Some ((ErrNetworkError, 0), Some err), conn)
  | (Ret (PConnack msg), conn) => (Some ((ReturnCode msg, ServerKeepalive msg), None), conn)
  | (Ret _, conn) => (Some ((ErrNetworkError, 0), Some errNonConnack), conn)
  | (Diverge, conn) => (None, conn)
  end.

Definition connectServer {C} `{Reader C} `{Writer C} (conn : C) (cm : ConnectPacket)
  : option ((Z * Z) * option error) * C :=
  match ConnectPacket_Write cm conn with
  | ((_, Some err), conn) => (Some ((ErrNetworkError, 0), Some err), conn)
  | ((_, None), conn) => verifyCONNACK conn
  end.

(** ** client.go: one connection attempt *)

Definition RefusedNotAuthorisedErr : error := Sentinel "RefusedNotAuthorisedErr"
  "The server has rejected our request. Please check your permissions".
Definition RefusedBadProtocolVersionErr : error := Sentinel "RefusedBadProtocolVersionErr"
  "Server does not support protocol version".
Definition ProtocolViolationErr : error := Sentinel "ProtocolViolationErr"
  "The server has rejected our request. Please check your permissions".

Section attempt.
Context {URL : Type}.

(** The options a client works with: a copy, with the protocol version forced. *)
Definition NewClient (o : ClientOptions URL) : ClientOptions URL :=
  mkOptions (Servers o) (opt_Credential o) (Heartbeat o)
    (if opt_ProtocolVersion o =? 1 then opt_ProtocolVersion o else 1) (ConnectRetry o)
    (ConnectRetryInterval o) (ConnectTimeout o) (WriteTimeout o) (AutoReconnect o)
    (OnConnectionLost o) (MaxReconnectInterval o) (OnReconnecting o) (TLSConfig o)
    (OnConnectAttempt o) (ReconnectBase o) (ReconnectJitter o) (AdaptiveHeartbeat o)
    (AdaptiveShort o) (AdaptiveMax o) (ProbeCount o) (ResponseWindow o) (FineStep o) (quicConfig o).

Definition newConnectMsgFromOptions (o : ClientOptions URL) : ConnectPacket :=
  let kp := if AdaptiveHeartbeat o then AdaptiveMax o else Heartbeat o in
  mkConnect (new_packet Connect) 0x637a7175 (u8 (opt_ProtocolVersion o)) 0 (u16 kp)
    (opt_Credential o).

(** The variables of attemptConnection: [a_conn] is a position in [opened],
    the connections openConnection has returned so far. *)
Record attempt : Type := mkAttempt {
  a_conn : option nat;
  a_rc : Z;
  a_err : option error;
  a_serverKp : option Z;
  opened : list netconn;
}.

(** [dial] is openConnection: an error, or a fresh connection. *)
Context (dial : URL -> error + netconn).

Fixpoint attempt_servers (o : ClientOptions URL) (servers : list URL) (a : attempt) : attempt :=
  match servers with
  | [] => a
  | server :: servers =>
      let cm := newConnectMsgFromOptions o in
      match dial server with
      | inl err =>
          attempt_servers o servers (mkAttempt None ErrNetworkError (Some err) (a_serverKp a) (opened a))
      | inr nc =>
          let '(res, nc') := connectServer nc cm in
          let conns := opened a ++ [nc'] in
          let id := Some (length (opened a)) in
          match res with
          | None => mkAttempt id (a_rc a) (a_err a) (a_serverKp a) conns
          | Some ((rc, kp), err) =>
              if rc =? Accepted then mkAttempt id rc err (Some kp) conns
              else attempt_servers o servers (mkAttempt id rc err (a_serverKp a) conns)
          end
      end
  end.

Definition close_conn (id : option nat) (conns : list netconn) : list netconn :=
  match id with
  | Some i => alter net_close i conns
  | None => conns
  end.

Definition attemptConnection (o : ClientOptions URL) : attempt :=
  let a := attempt_servers o (Servers o) (mkAttempt None 0 None None []) in
  let refuse err := mkAttempt (a_conn a) (a_rc a) (Some err) (a_serverKp a)
                      (close_conn (a_conn a) (opened a)) in
  if a_rc a =? ErrNetworkError then a
  else if a_rc a =? Accepted then a
  else if a_rc a =? ErrRefusedBadProtocolVersion then refuse RefusedBadProtocolVersionErr
  else if a_rc a =? ErrRefusedNotAuthorised then refuse RefusedNotAuthorisedErr
  else if a_rc a =? ErrProtocolViolation then refuse ProtocolViolationErr
  else a.

(** Connect's loop: what happens after a failed attempt, when the status is
    still connecting after the pause ([still]). *)
Definition connect_retries (o : ClientOptions URL) (err : error) (still : bool) : bool :=
  ConnectRetry o && negb (bool_decide (err = ProtocolViolationErr)) &&
  negb (bool_decide (err = RefusedNotAuthorisedErr)) &&
  negb (bool_decide (err = RefusedBadProtocolVersionErr)) && still.

End attempt.

(** ** net.go: the incoming loop *)

Definition closedNetConnErrorText : string := "use of closed network connection".

(** What startIncomingComms does for its client, in order. *)
Inductive inevent : Type :=
| Publish (payload : list Z)
| CloseConnect (reason : Z)
| IncomingError (err : error).

(** The effect of one received packet. *)
Definition incoming_packet (cp : ControlPacket) : list inevent :=
  match cp with
  | PPush m => [Publish (Payload m)]
  | PDisconnect m => [CloseConnect (GetReturnCode m)]
  | _ => []
  end.

(** startIncoming feeding startIncomingComms: one ReadPacket per unit of fuel. *)
Fixpoint incoming {C} `{Reader C} `{Writer C} (fuel : nat) (conn : C)
  : option (list inevent) * C :=
  match fuel with
  | O => (None, conn)
  | S fuel =>
      match ReadPacket conn with
      | (Ret cp, conn) =>
          let '(evs, conn) := incoming fuel conn in
          (match evs with Some evs => Some (incoming_packet cp ++ evs) | None => None end, conn)
      | (Throw err, conn) =>
          let conn := if Contains (Error err) "unsupported packet type"
                      then snd (Packet_Write (new_disconnect DiscProtocolViolation) conn)
                      else conn in
          (Some (if Contains (Error err) closedNetConnErrorText then [] else [IncomingError err]), conn)
      | (Diverge, conn) => (None, conn)
      end
  end.

(** ** net.go: the outgoing loop *)

(** What one message does: the connection after, the token's outcome, the error
    reported to the client, and whether UpdateLastSent is called. *)
Record outcome_out (C : Type) : Type := mkOut {
  out_conn : C;
  token : option (option error);
  reported : option error;
  sent_updated : bool;
}.

Arguments mkOut {C}.
Arguments out_conn {C}.
Arguments token {C}.
Arguments reported {C}.
Arguments sent_updated {C}.

(** The case of [obound]: a PUSH. *)
Definition outgoing_push {C} `{Writer C} (payload : list Z) (conn : C) : outcome_out C :=
  let '((_, writeErr), conn) := Packet_Write (new_push payload) conn in
  match writeErr with
  | Some err => mkOut conn (Some (Some err))
      (if Contains (Error err) closedNetConnErrorText then None else Some err) false
  | None => mkOut conn (Some None) None true
  end.

(** The case of [oboundp]: after DISCONNECT the connection is closed. *)
Definition outgoing_priority (p : ControlPacket) (conn : netconn) : outcome_out netconn :=
  let '((_, writeErr), conn) := Packet_Write p conn in
  match writeErr with
  | Some err => mkOut conn (Some (Some err)) (Some err) false
  | None =>
      match p with
      | PDisconnect _ => mkOut (net_close conn) (Some None) None true
      | _ => mkOut conn None None true
      end
  end.

(** ** Lemmas *)

Lemma connect_write cm nc :
  healthy nc -> exists cm', ConnectPacket_Write cm nc =
    ((cm', None), wrote (frame (PConnect cm)) (nc_torn nc) nc).
Proof.
  intros [Hc Hf]. destruct (Packet_Write_net (PConnect cm) nc) as [cp' Hw].
  rewrite Hc, Hf in Hw. unfold Packet_Write in Hw.
  destruct (ConnectPacket_Write cm nc) as [[cm' e] nc'] eqn:He. simplify_eq. eauto.
Qed.

(** The client's half of the handshake on a working connection. *)
Lemma connectServer_reply cm nc code kp rest :
  healthy nc -> byte_ok code -> 0 <= kp < 65536 ->
  fl_bytes (nc_in nc) = frame (new_connack code kp) ++ rest ->
  connectServer nc cm = (Some ((code, kp), None),
    mkNet (nc_all nc) (Flat rest (fl_end (nc_in nc))) (nc_out nc ++ [frame (PConnect cm)]) false None
      (nc_torn nc)).
Proof.
  intros Hh Hcode Hkp Hin. unfold connectServer. destruct (connect_write cm nc Hh) as [cm' ->].
  unfold verifyCONNACK. rewrite (read_healthy _ (new_connack code kp) rest) by done.
  cbn. by rewrite (proj2 Hh).
Qed.

Lemma connect_packet_ok {URL} (o : ClientOptions URL) :
  Z.of_nat (length (opt_Credential o)) < 65536 -> packet_ok (PConnect (newConnectMsgFromOptions o)).
Proof.
  intros Hl. pose proof (u16_range (if AdaptiveHeartbeat o then AdaptiveMax o else Heartbeat o)).
  cbn. repeat split; try done; try lia; unfold u8; apply Z.mod_pos_bound; lia.
Qed.

(** C14: client and server agree on the handshake: on a working connection the
    bytes the client writes make a server that accepts its credential register
    it under the device ID its authenticator returned, and the server's answer
    makes the client's handshake succeed with exactly the keepalive the
    server's policy decided on the client's proposal; both ends are left
    positioned right after the handshake. *)
Theorem handshake_end_to_end {URL : Type} (o : ClientOptions URL) (so : ServerOptions) (s : server)
    (c : connid) (d : gostring) (more later : list Z) (e e' : error) (nc : netconn) :
  let cm := newConnectMsgFromOptions (NewClient o) in
  let kp := Decide (Policy so) (Keepalive cm) in
  Z.of_nat (length (opt_Credential o)) < 65536 ->
  identity so cm = (d, true) -> d <> [] -> 0 <= kp < 65536 ->
  let f := Flat (frame (PConnect cm) ++ more) e in
  nets s !! c = Some (mkNet f f [] false None false) ->
  healthy nc -> nc_out nc = [] ->
  exists reply,
    (let '(s1, ph1, _) := exec_handler so c PHello s in
     let '(s2, ph2, _) := exec_handler so c ph1 s1 in
     ph2 = PRegister d kp /\ nets s2 !! c = Some (mkNet f (Flat more e) [reply] false None false)) /\
    (nc_in nc = Flat (reply ++ later) e' ->
     connectServer nc cm = (Some ((Accepted, kp), None),
       mkNet (nc_all nc) (Flat later e') [frame (PConnect cm)] false None (nc_torn nc))).
Proof.
  intros cm kp Hl Hid Hd Hkp f Hnet Hh Hout. exists (frame (new_connack Accepted kp)). split.
  - cbn [exec_handler]. rewrite Hnet.
    rewrite (read_healthy _ (PConnect cm) more) by (done || by apply connect_packet_ok).
    cbn [nc_all nc_in nc_out nc_fault nc_torn f fl_end].
    cbn [received hello_decision MagicNumber ProtocolVersion Keepalive Credential].
    change (MagicNumber cm =? magic) with true. cbn [negb].
    assert (ProtocolVersion cm = 1) as ->
      by (cbn; by destruct (Z.eqb_spec (opt_ProtocolVersion o) 1) as [-> |]). cbn [Z.eqb Pos.eqb negb].
    fold (identity so cm). rewrite Hid. cbn [fst snd negb].
    destruct d as [|b d]; [done|]. cbn [exec_handler]. fold kp.
    set (nc1 := mkNet _ _ [] false None false).
    rewrite (write_healthy _ c nc1) by (done || apply lookup_set_net).
    split; [done|]. rewrite lookup_set_net. cbn. unfold u16. by rewrite Z.mod_small.
  - intros Hin. rewrite (connectServer_reply cm nc Accepted kp later) by (done || by rewrite Hin).
    by rewrite Hin, Hout.
Qed.

(** ** What an attempt makes of the server's answer *)

Section outcomes.
Context {URL : Type} (dial : URL -> error + netconn) (o : ClientOptions URL).
Context (u : URL) (nc : netconn) (code kp : Z) (rest : list Z).
Context (Hserver : Servers o = [u]) (Hdial : dial u = inr nc) (Hh : healthy nc).
Context (Hcode : byte_ok code) (Hkp : 0 <= kp < 65536).
Context (Hin : fl_bytes (nc_in nc) = frame (new_connack code kp) ++ rest).

Definition answered_conn : netconn :=
  mkNet (nc_all nc) (Flat rest (fl_end (nc_in nc)))
    (nc_out nc ++ [frame (PConnect (newConnectMsgFromOptions o))]) false None (nc_torn nc).

Lemma attempt_answered :
  attempt_servers dial o (Servers o) (mkAttempt None 0 None None []) =
    mkAttempt (Some 0%nat) code None (if code =? Accepted then Some kp else None) [answered_conn].
Proof.
  rewrite Hserver. cbn [attempt_servers]. rewrite Hdial.
  rewrite (connectServer_reply _ nc code kp rest) by done. cbn [opened app length].
  by destruct (code =? Accepted).
Qed.

End outcomes.

(** With one server, the attempt reports the server's verdict: Accepted
    gives the open connection and stores the server's keepalive; a bad protocol
    version, a refused credential or a protocol violation gives the matching
    error and closes the connection. *)
Theorem attempt_reports_verdict {URL : Type} (dial : URL -> error + netconn)
    (o : ClientOptions URL) (u : URL) (nc : netconn) (code kp : Z) (rest : list Z) :
  Servers o = [u] -> dial u = inr nc -> healthy nc -> 0 <= kp < 65536 ->
  code ∈ [Accepted; ErrRefusedBadProtocolVersion; ErrRefusedNotAuthorised; ErrProtocolViolation] ->
  fl_bytes (nc_in nc) = frame (new_connack code kp) ++ rest ->
  let a := attemptConnection dial o in
  a_conn a = Some 0%nat /\ a_rc a = code /\
  (a_err a = None <-> code = Accepted) /\
  (a_err a = if code =? Accepted then None
             else if code =? ErrRefusedBadProtocolVersion then Some RefusedBadProtocolVersionErr
             else if code =? ErrRefusedNotAuthorised then Some RefusedNotAuthorisedErr
             else Some ProtocolViolationErr) /\
  a_serverKp a = (if code =? Accepted then Some kp else None) /\
  nc_closed <$> opened a = [negb (code =? Accepted)].
Proof.
  intros Hs Hd Hh Hkp Hc Hin. assert (Hcode : byte_ok code).
  { unfold byte_ok. rewrite !elem_of_cons, elem_of_nil in Hc.
    destruct Hc as [-> |[-> |[-> |[-> |[]]]]]; vm_compute; intuition congruence. }
  unfold attemptConnection. rewrite (attempt_answered dial o u nc code kp rest) by done.
  rewrite !elem_of_cons, elem_of_nil in Hc.
  destruct Hc as [-> |[-> |[-> |[-> |[]]]]]; cbn; repeat split; done.
Qed.

(** Every other return code is taken for success: a CONNACK with the code
    "server unavailable", "network error" or any code the protocol does not
    define makes the attempt return the connection, still open, without an
    error, although the server refused. *)
Theorem attempt_swallows_refusal {URL : Type} (dial : URL -> error + netconn)
    (o : ClientOptions URL) (u : URL) (nc : netconn) (code kp : Z) (rest : list Z) :
  Servers o = [u] -> dial u = inr nc -> healthy nc -> 0 <= kp < 65536 -> byte_ok code ->
  code ∉ [Accepted; ErrRefusedBadProtocolVersion; ErrRefusedNotAuthorised; ErrProtocolViolation] ->
  fl_bytes (nc_in nc) = frame (new_connack code kp) ++ rest ->
  let a := attemptConnection dial o in
  a_err a = None /\ a_conn a = Some 0%nat /\ nc_closed <$> opened a = [false] /\ a_serverKp a = None.
Proof.
  intros Hs Hd Hh Hkp Hcode Hc Hin.
  unfold attemptConnection. rewrite (attempt_answered dial o u nc code kp rest) by done. cbn.
  rewrite !not_elem_of_cons in Hc. destruct Hc as (H1 & H2 & H3 & H4 & _).
  rewrite (proj2 (Z.eqb_neq _ _) H1), (proj2 (Z.eqb_neq _ _) H2), (proj2 (Z.eqb_neq _ _) H3),
    (proj2 (Z.eqb_neq _ _) H4). by destruct (code =? ErrNetworkError).
Qed.

(** ** Connections an attempt leaves behind *)

Lemma connectServer_closed cm nc : nc_closed (snd (connectServer nc cm)) = nc_closed nc.
Proof.
  unfold connectServer. destruct (Packet_Write_net (PConnect cm) nc) as [cp' Hw].
  unfold Packet_Write in Hw. destruct (ConnectPacket_Write cm nc) as [[cm' e] nc1].
  assert (Hc : nc_closed nc1 = nc_closed nc).
  { destruct (nc_closed nc) eqn:?; [|destruct (nc_fault nc) as [[k err]|]]; by simplify_eq. }
  destruct e as [err|]; [done|]. rewrite <- Hc. unfold verifyCONNACK. rewrite ReadPacket_net.
  destruct (nc_closed nc1) eqn:Hc1; [done|].
  destruct (fst (ReadPacket (nc_in nc1))) as [[]| |]; done.
Qed.

Lemma attempt_servers_open {URL} (dial : URL -> error + netconn) o servers a :
  (forall u nc, dial u = inr nc -> nc_closed nc = false) ->
  Forall (fun nc => nc_closed nc = false) (opened a) ->
  Forall (fun nc => nc_closed nc = false) (opened (attempt_servers dial o servers a)).
Proof.
  intros Hdial. revert a. induction servers as [|u servers IH]; intros a Ha; [done|].
  cbn [attempt_servers]. destruct (dial u) as [err|nc] eqn:Hu; [by apply IH|].
  pose proof (connectServer_closed (newConnectMsgFromOptions o) nc) as Hc.
  destruct (connectServer nc _) as [res nc']. cbn in Hc. rewrite (Hdial u nc Hu) in Hc.
  assert (Hnew : Forall (fun nc => nc_closed nc = false) (opened a ++ [nc'])).
  { apply Forall_app. split; [done|]. by repeat constructor. }
  destruct res as [[[rc kp] err]|]; [|done]. destruct (rc =? Accepted); [done|by apply IH].
Qed.

(** An attempt closes no connection but the one it returns: every connection
    to an earlier server whose handshake failed is still open when the attempt
    is over, and the caller never learns of it. *)
Theorem attempt_leaks {URL : Type} (dial : URL -> error + netconn) (o : ClientOptions URL)
    (i : nat) (nc : netconn) :
  (forall u nc, dial u = inr nc -> nc_closed nc = false) ->
  opened (attemptConnection dial o) !! i = Some nc ->
  a_conn (attemptConnection dial o) <> Some i -> nc_closed nc = false.
Proof.
  intros Hdial. unfold attemptConnection.
  pose proof (attempt_servers_open dial o (Servers o) (mkAttempt None 0 None None []) Hdial
    ltac:(constructor)) as Hopen.
  set (a := attempt_servers dial o _ _) in *. rewrite Forall_lookup in Hopen.
  assert (Hc : forall j, close_conn (a_conn a) (opened a) !! j = Some nc -> a_conn a <> Some j ->
    nc_closed nc = false).
  { intros j. destruct (a_conn a) as [k|]; cbn; [|eauto]. intros Hj Hne.
    rewrite list_lookup_alter_ne in Hj by congruence. eauto. }
  repeat case_match; cbn; eauto.
Qed.

(** ** The incoming loop *)

Lemma incoming_received cp : incoming_packet (received cp) = incoming_packet cp.
Proof. by destruct cp. Qed.

(** Downlink messages are neither lost, duplicated nor reordered: when the
    server sends a sequence of packets and the connection then ends, the client
    publishes exactly the payloads of the PUSH packets, in order, acts on each
    DISCONNECT where it stands, ignores the rest, and finally reports why the
    connection ended, unless it was closed locally. *)
Theorem incoming_in_order (cps : list ControlPacket) (nc : netconn) :
  Forall packet_ok cps -> nc_closed nc = false ->
  fl_bytes (nc_in nc) = concat (frame <$> cps) ->
  fst (incoming (S (length cps)) nc) =
    Some (concat (incoming_packet <$> cps) ++
      (if Contains (Error (fl_end (nc_in nc))) closedNetConnErrorText then []
       else [IncomingError (fl_end (nc_in nc))])).
Proof.
  intros Hok. revert nc. induction Hok as [|cp cps Hcp _ IH]; intros nc Hc Hin.
  - cbn [incoming length]. rewrite ReadPacket_net, Hc.
    destruct (nc_in nc) as [bs e]. cbn in Hin. subst bs. rewrite ReadPacket_nil. done.
  - cbn [length]. remember (S (length cps)) as fuel. cbn [incoming fmap list_fmap concat] in *.
    rewrite (read_healthy nc cp _ Hcp Hc Hin).
    set (nc1 := mkNet _ _ _ false _ _). specialize (IH nc1 eq_refl eq_refl).
    destruct (incoming fuel nc1) as [evs nc2]. cbn in IH. subst evs. cbn.
    by rewrite incoming_received, app_assoc.
Qed.

(** The incoming loop always ends once the peer's bytes do: one step per
    byte is enough on any input, well-formed or not. *)
Theorem incoming_terminates (nc : netconn) :
  exists evs nc', incoming (S (length (fl_bytes (nc_in nc)))) nc = (Some evs, nc').
Proof.
  remember (length (fl_bytes (nc_in nc))) as n eqn:Hn.
  assert (Hle : (length (fl_bytes (nc_in nc)) <= n)%nat) by lia. clear Hn. revert nc Hle.
  induction n as [|n IH]; intros nc Hle; pose proof (ReadPacket_net_total nc) as Ht;
    cbn [incoming]; destruct (ReadPacket nc) as [[cp|err|] nc1] eqn:Hr; try done; eauto.
  - apply ReadPacket_unread in Hr. lia.
  - apply ReadPacket_unread in Hr. destruct (IH nc1) as (evs & nc2 & He); [lia|].
    cbn [incoming] in He. rewrite He. eauto.
Qed.

(** ** The outgoing loop *)

(** A PushToken completes without error only when one complete PUSH frame
    with the payload was handed to the connection (and only then counts as
    traffic for the heartbeat); otherwise at most a prefix of the frame was, and
    the token carries the write error, which is also reported as a lost
    connection unless the connection was closed locally. *)
Theorem push_token_outcome (payload : list Z) (nc : netconn) :
  let r := outgoing_push payload nc in
  exists err, token r = Some err /\
    (err = None -> out_conn r = wrote (frame (new_push payload)) (nc_torn nc) nc) /\
    (err = None <-> sent_updated r = true) /\
    (err <> None -> out_conn r = nc \/
       exists k, out_conn r = wrote (take k (frame (new_push payload))) true nc) /\
    reported r = match err with
                 | Some e => if Contains (Error e) closedNetConnErrorText then None else Some e
                 | None => None
                 end /\
    (healthy nc -> err = None).
Proof.
  cbn zeta. unfold outgoing_push. destruct (Packet_Write_net (new_push payload) nc) as [cp' ->].
  unfold healthy. destruct (nc_closed nc); [|destruct (nc_fault nc) as [[k e]|]]; eexists;
    (split; [reflexivity|]); cbn; repeat split; try done; naive_solver.
Qed.

(** ** Witnesses *)

Definition client_options : ClientOptions nat :=
  mkOptions [0%nat] (go_bytes "dev-001") 60 0 true 0 0 0 true false 0 false None None 0
    (GoTime.float64_of_int 0) false 0 0 0 0 0 None.

Definition two_servers : ClientOptions nat :=
  mkOptions [0%nat; 1%nat] (go_bytes "dev-001") 60 0 true 0 0 0 true false 0 false None None 0
    (GoTime.float64_of_int 0) false 0 0 0 0 0 None.

(** A connection on which the server sends [bs] and then closes. *)
Definition peer_sends (bs : list Z) : netconn :=
  mkNet (Flat bs io_EOF) (Flat bs io_EOF) [] false None false.

Definition accepting_server : server :=
  let f := Flat (frame (PConnect (newConnectMsgFromOptions (NewClient client_options))) ++ []) io_EOF in
  mkServer ∅ {[0%nat]} {[0%nat := mkNet f f [] false None false]} ∅ [].

Lemma handshake_end_to_end_witness : exists reply,
  (let '(s1, ph1, _) := exec_handler demo_options 0 PHello accepting_server in
   let '(s2, ph2, _) := exec_handler demo_options 0 ph1 s1 in
   ph2 = PRegister (go_bytes "dev-001") 60 /\
   nets s2 !! 0%nat = Some (mkNet
     (Flat (frame (PConnect (newConnectMsgFromOptions (NewClient client_options))) ++ []) io_EOF)
     (Flat [] io_EOF) [reply] false None false)) /\
  (Flat (frame (new_connack Accepted 60)) io_EOF = Flat (reply ++ []) io_EOF ->
   connectServer (peer_sends (frame (new_connack Accepted 60)))
     (newConnectMsgFromOptions (NewClient client_options)) =
     (Some ((Accepted, 60), None),
      mkNet (nc_all (peer_sends (frame (new_connack Accepted 60)))) (Flat [] io_EOF)
        [frame (PConnect (newConnectMsgFromOptions (NewClient client_options)))] false None false)).
Proof.
  refine (handshake_end_to_end client_options demo_options accepting_server 0 (go_bytes "dev-001")
    [] [] io_EOF io_EOF (peer_sends (frame (new_connack Accepted 60))) _ _ _ _ _ _ _).
  - vm_compute. reflexivity.
  - reflexivity.
  - discriminate.
  - vm_compute. intuition congruence.
  - vm_compute. reflexivity.
  - split; reflexivity.
  - reflexivity.
Defined.

Lemma attempt_reports_verdict_witness :
  let a := attemptConnection
    (fun _ => inr (peer_sends (frame (new_connack ErrRefusedNotAuthorised 0)))) client_options in
  a_conn a = Some 0%nat /\ a_rc a = ErrRefusedNotAuthorised /\
  (a_err a = None <-> ErrRefusedNotAuthorised = Accepted) /\
  a_err a = Some RefusedNotAuthorisedErr /\ a_serverKp a = None /\
  nc_closed <$> opened a = [true].
Proof.
  refine (attempt_reports_verdict
    (fun _ => inr (peer_sends (frame (new_connack ErrRefusedNotAuthorised 0)))) client_options 0%nat
    (peer_sends (frame (new_connack ErrRefusedNotAuthorised 0))) ErrRefusedNotAuthorised 0 []
    _ _ _ _ _ _).
  - reflexivity.
  - reflexivity.
  - split; reflexivity.
  - lia.
  - apply list_elem_of_In. vm_compute. intuition.
  - reflexivity.
Defined.

Lemma attempt_swallows_refusal_witness :
  let a := attemptConnection
    (fun _ => inr (peer_sends (frame (new_connack ErrRefusedServerUnavailable 0)))) client_options in
  a_err a = None /\ a_conn a = Some 0%nat /\ nc_closed <$> opened a = [false] /\ a_serverKp a = None.
Proof.
  refine (attempt_swallows_refusal
    (fun _ => inr (peer_sends (frame (new_connack ErrRefusedServerUnavailable 0)))) client_options 0%nat
    (peer_sends (frame (new_connack ErrRefusedServerUnavailable 0))) ErrRefusedServerUnavailable 0 []
    _ _ _ _ _ _ _).
  - reflexivity.
  - reflexivity.
  - split; reflexivity.
  - lia.
  - vm_compute. intuition congruence.
  - rewrite list_elem_of_In. vm_compute. intuition congruence.
  - reflexivity.
Defined.

(** The first server closes during the handshake, the second accepts. *)
Definition flaky_dial (u : nat) : error + netconn :=
  match u with
  | O => inr (peer_sends [])
  | _ => inr (peer_sends (frame (new_connack Accepted 60)))
  end.

Lemma attempt_leaks_witness :
  a_conn (attemptConnection flaky_dial two_servers) = Some 1%nat /\
  a_err (attemptConnection flaky_dial two_servers) = None /\
  exists nc, opened (attemptConnection flaky_dial two_servers) !! 0%nat = Some nc /\
    nc_closed nc = false.
Proof.
  split; [vm_compute; reflexivity|]. split; [vm_compute; reflexivity|].
  eexists. split; [vm_compute; reflexivity|].
  eapply (attempt_leaks flaky_dial two_servers 0%nat).
  - intros [|u] nc [= <-]; reflexivity.
  - vm_compute. reflexivity.
  - vm_compute. discriminate.
Defined.

Lemma incoming_in_order_witness :
  fst (incoming 3 (peer_sends (frame (PPush sample_push) ++ frame new_pingresp))) =
    Some [Publish (go_bytes "hello"); IncomingError io_EOF].
Proof.
  refine (incoming_in_order [PPush sample_push; new_pingresp]
    (peer_sends (frame (PPush sample_push) ++ frame new_pingresp)) _ _ _).
  - repeat constructor; vm_compute; intuition congruence.
  - reflexivity.
  - vm_compute. reflexivity.
Defined.
