(* ===== verification/ClientToken.v ===== *)
(** * Client: tokens

    client/token.go.  A token is completed once, by the goroutine that works for
    it, while any number of goroutines wait for it, with or without a timeout,
    and read its error; [tokens] is such a token with everybody at work on it. *)

From Stdlib Require Import ZArith Lia String.
From stdpp Require Import base list strings gmap numbers relations.
From S2P Require Import Prelude Codec.

Local Open Scope Z_scope.

(** ** Tokens *)

(** The dynamic type behind the Token interface. *)
Inductive token_type : Type := ConnectToken | PushToken | DisconnectToken.

(** [complete] is whether the channel is closed; [t_handled] the errors handed
    to the error handler, newest first. *)
Record baseToken : Type := mkToken {
  complete : bool;
  t_err : option error;
  has_errHandler : bool;
  t_handled : list error;
}.

Definition open_token : baseToken := mkToken false None false [].

(** The nil token of an unknown type is [None]. *)
Definition newToken (tType : Z) : option (token_type * baseToken) :=
  if tType =? Connect then Some (ConnectToken, open_token)
  else if tType =? Push then Some (PushToken, open_token)
  else if tType =? Disconnect then Some (DisconnectToken, open_token)
  else None.

(** Closing is guarded by the select: a completed token stays as it is. *)
Definition flowComplete (b : baseToken) : baseToken :=
  if complete b then b else mkToken true (t_err b) (has_errHandler b) (t_handled b).

Definition HandlerError (e : error) (b : baseToken) : baseToken :=
  if has_errHandler b then mkToken (complete b) (t_err b) true (e :: t_handled b) else b.

Definition store_err (e : error) (b : baseToken) : baseToken :=
  mkToken (complete b) (Some e) (has_errHandler b) (t_handled b).

Definition setError (e : error) (b : baseToken) : baseToken :=
  flowComplete (store_err e (HandlerError e b)).

Definition SetErrorHandler (b : baseToken) : baseToken :=
  mkToken (complete b) (t_err b) true (t_handled b).

Definition TimedOut : error := Sentinel "TimedOut" "context canceled".

(** ** A token and the goroutines around it *)

(** Where the completing goroutine stands: setError takes the lock, calls the
    handler, stores the error, and completes; flowComplete looks whether the
    channel is open and then closes it. *)
Inductive completer : Type :=
| CpStart | CpLocked | CpHandled | CpStored | CpOpen | CpClosed | CpDone.

(** A goroutine in Wait, in WaitTokenTimeout's WaitTimeout, about to call Error
    afterwards, and what it got: Wait returned, the timeout, or the error. *)
Inductive waiter : Type :=
| WWait | WTimed | WError | WReturned | WTimedOut | WVerdict (r : option error).

Record tokens : Type := mkTokens {
  tok : baseToken;
  m_locked : bool;
  cp_pc : completer;
  waiters : list waiter;
  tok_panic : bool;
}.

(** The moves: the completer's, a waiter's, a timer that fires, and an
    application that installs its error handler. *)
Inductive token_label : Type :=
| TComplete | TWaiter (i : nat) | TTimer (i : nat) | THandler.

Section token.
(** The verdict, and whether the application's error handler reads the token's
    error (through Error). *)
Context (verdict : option error) (calls_back : bool).

(** [close(b.complete)] *)
Definition close_complete (pc : completer) (s : tokens) : tokens :=
  if complete (tok s) then mkTokens (tok s) (m_locked s) pc (waiters s) true
  else mkTokens (flowComplete (tok s)) (m_locked s) pc (waiters s) (tok_panic s).

Definition at_pc (pc : completer) (s : tokens) : tokens :=
  mkTokens (tok s) (m_locked s) pc (waiters s) (tok_panic s).

Definition with_tok (b : baseToken) (pc : completer) (s : tokens) : tokens :=
  mkTokens b (m_locked s) pc (waiters s) (tok_panic s).

Definition with_lock (l : bool) (pc : completer) (s : tokens) : tokens :=
  mkTokens (tok s) l pc (waiters s) (tok_panic s).

(** setError for a verdict that is an error, flowComplete otherwise.  A handler
    that calls Error waits for the lock its own goroutine holds. *)
Definition exec_completer (s : tokens) : option tokens :=
  match cp_pc s, verdict with
  | CpStart, Some _ => if m_locked s then None else Some (with_lock true CpLocked s)
  | CpLocked, Some e =>
      if has_errHandler (tok s) && calls_back then None
      else Some (with_tok (HandlerError e (tok s)) CpHandled s)
  | CpHandled, Some e => Some (with_tok (store_err e (tok s)) CpStored s)
  | CpStored, Some _ => Some (at_pc (if complete (tok s) then CpClosed else CpOpen) s)
  | CpOpen, Some _ => Some (close_complete CpClosed s)
  | CpClosed, Some _ => Some (with_lock false CpDone s)
  | CpStart, None => Some (at_pc (if complete (tok s) then CpDone else CpOpen) s)
  | CpOpen, None => Some (close_complete CpDone s)
  | _, _ => None
  end.

(** Wait, WaitTimeout and Error; a select with both cases ready takes either. *)
Definition exec_waiter (w : waiter) (s : tokens) : option waiter :=
  match w with
  | WWait => if complete (tok s) then Some WReturned else None
  | WTimed => if complete (tok s) then Some WError else None
  | WError => if m_locked s then None else Some (WVerdict (t_err (tok s)))
  | _ => None
  end.

Definition set_waiter (i : nat) (w : waiter) (s : tokens) : tokens :=
  mkTokens (tok s) (m_locked s) (cp_pc s) (<[i := w]> (waiters s)) (tok_panic s).

Definition exec_token (l : token_label) (s : tokens) : option tokens :=
  match l with
  | TComplete => exec_completer s
  | TWaiter i =>
      match waiters s !! i with
      | Some w => match exec_waiter w s with Some w' => Some (set_waiter i w' s) | None => None end
      | None => None
      end
  | TTimer i =>
      match waiters s !! i with
      | Some WTimed => Some (set_waiter i WTimedOut s)
      | _ => None
      end
  | THandler => Some (with_tok (SetErrorHandler (tok s)) (cp_pc s) s)
  end.

Definition token_step (s s' : tokens) : Prop := exists l, exec_token l s = Some s'.

(** The moves the runtime makes on its own. *)
Definition own_token_step (s s' : tokens) : Prop :=
  exists l, l <> THandler /\ exec_token l s = Some s'.

Definition fresh_token (handler : bool) (ws : list waiter) : tokens :=
  mkTokens (mkToken false None handler []) false CpStart ws false.

(** Waiters start in Wait or WaitTokenTimeout. *)
Definition token_reachable (s : tokens) : Prop :=
  exists handler ws, Forall (fun w => w = WWait \/ w = WTimed) ws /\
    rtc token_step (fresh_token handler ws) s.

(** ** The invariant *)

Definition waiter_ok (s : tokens) (w : waiter) : Prop :=
  match w with
  | WReturned | WError => complete (tok s) = true
  | WVerdict r => complete (tok s) = true /\ r = verdict
  | _ => True
  end.

(** The completer's position determines the token. *)
Definition pc_ok (s : tokens) : Prop :=
  let b := tok s in
  match cp_pc s with
  | CpStart => complete b = false /\ t_err b = None /\ m_locked s = false
  | CpLocked | CpHandled => complete b = false /\ t_err b = None /\ m_locked s = true /\ verdict <> None
  | CpStored => complete b = false /\ t_err b = verdict /\ m_locked s = true /\ verdict <> None
  | CpOpen => complete b = false /\ t_err b = verdict /\
      m_locked s = match verdict with Some _ => true | None => false end
  | CpClosed => complete b = true /\ t_err b = verdict /\ m_locked s = true /\ verdict <> None
  | CpDone => complete b = true /\ t_err b = verdict /\ m_locked s = false
  end.

Definition token_inv (s : tokens) : Prop :=
  tok_panic s = false /\ pc_ok s /\ Forall (waiter_ok s) (waiters s).

Lemma waiter_ok_mono s s' w :
  (complete (tok s) = true -> complete (tok s') = true) -> waiter_ok s w -> waiter_ok s' w.
Proof. intros Hc. destruct w; cbn; intuition. Qed.

Lemma exec_completer_inv s s' : token_inv s -> exec_completer s = Some s' -> token_inv s'.
Proof.
  intros (Hp & Hpc & Hw) He. destruct s as [b l pc ws p]. cbn in *. subst p.
  assert (Hmono : forall s', waiters s' = ws -> (complete b = true -> complete (tok s') = true) ->
    Forall (waiter_ok s') (waiters s')).
  { intros t -> Hc. eapply Forall_impl; [exact Hw|]. intros w. by apply waiter_ok_mono. }
  unfold exec_completer in He. cbn in He. unfold pc_ok in Hpc. cbn in Hpc.
  destruct pc, verdict as [e|] eqn:Hv; try done; destruct b as [c er h hd]; cbn in *;
    destruct_and?; subst; repeat case_match; try done; simplify_eq/=;
    (split; [done|split; [|apply Hmono; done]]); unfold pc_ok; cbn.
  all: rewrite ?Hv; unfold HandlerError; cbn; try (destruct h); split_and?; done.
Qed.

Lemma exec_token_inv l s s' : token_inv s -> exec_token l s = Some s' -> token_inv s'.
Proof.
  intros Hi He. destruct l as [|i|i|]; cbn in He; [by eapply exec_completer_inv| | |].
  - destruct (waiters s !! i) as [w|] eqn:Hl; [|done].
    destruct (exec_waiter w s) as [w'|] eqn:Hw; [|done]. injection He as <-.
    destruct Hi as (Hp & Hpc & Hws). split; [done|split; [done|]]. cbn.
    apply Forall_insert; [done|]. pose proof (Forall_lookup_1 _ _ _ _ Hws Hl) as Hok.
    unfold exec_waiter in Hw. destruct w; try done; case_match; try done; simplify_eq; try done.
    cbn in Hok |- *. split; [done|]. unfold pc_ok in Hpc.
    destruct (cp_pc s); destruct_and?; congruence.
  - destruct (waiters s !! i) as [[]|] eqn:Hl; try done. injection He as <-.
    destruct Hi as (Hp & Hpc & Hws). split; [done|split; [done|]]. cbn. by apply Forall_insert.
  - injection He as <-. destruct Hi as (Hp & Hpc & Hws). split; [done|split; [|done]].
    unfold pc_ok in *. by destruct s as [[] ? [] ? ?].
Qed.

Lemma token_inv_reachable s : token_reachable s -> token_inv s.
Proof.
  intros (h & ws & Hws & Hs). revert s Hs. apply (rtc_ind_r token_inv).
  - split; [done|split; [done|]]. cbn. eapply Forall_impl; [exact Hws|]. by intros w [-> | ->].
  - intros x y _ [l He] Hi. by eapply exec_token_inv.
Qed.

(** C29: a token keeps its promise whatever the interleaving: its channel is
    closed at most once, Wait returns only once it is complete, and
    WaitTokenTimeout returns TimedOut or the verdict of the goroutine that
    completed the token, never the absence of an error of one that failed. *)
Theorem token_verdict (s : tokens) :
  token_reachable s ->
  tok_panic s = false /\
  (WReturned ∈ waiters s -> complete (tok s) = true) /\
  (forall r, WVerdict r ∈ waiters s -> complete (tok s) = true /\ r = verdict) /\
  (complete (tok s) = true -> t_err (tok s) = verdict).
Proof.
  intros Hr. destruct (token_inv_reachable s Hr) as (Hp & Hpc & Hws).
  rewrite Forall_forall in Hws. split; [done|]. split; [exact (Hws WReturned)|]. split.
  - intros r Hw. exact (Hws _ Hw).
  - unfold pc_ok in Hpc. destruct (cp_pc s); destruct_and?; congruence.
Qed.

(** ** Termination *)

Definition completer_weight (pc : completer) : nat :=
  match pc with
  | CpStart => 6 | CpLocked => 5 | CpHandled => 4 | CpStored => 3 | CpOpen => 2 | CpClosed => 1
  | CpDone => 0
  end.

Definition waiter_weight (w : waiter) : nat :=
  match w with WTimed => 2 | WWait | WError => 1 | _ => 0 end.

Definition token_weight (s : tokens) : nat :=
  completer_weight (cp_pc s) + sum_list (waiter_weight <$> waiters s).

Lemma exec_completer_weight s s' :
  exec_completer s = Some s' -> (token_weight s' < token_weight s)%nat.
Proof.
  unfold exec_completer, token_weight, close_complete. intros He.
  repeat case_match; try done; simplify_eq/=; lia.
Qed.

Lemma set_waiter_weight i w w' s :
  waiters s !! i = Some w -> (waiter_weight w' < waiter_weight w)%nat ->
  (token_weight (set_waiter i w' s) < token_weight s)%nat.
Proof.
  intros Hi Hw. unfold token_weight. cbn. apply Nat.add_lt_mono_l.
  revert i Hi. induction (waiters s) as [|x l IH]; intros [|i] Hi; simplify_eq/=; [lia|].
  specialize (IH i Hi). lia.
Qed.

Lemma own_token_step_weight s s' : own_token_step s s' -> (token_weight s' < token_weight s)%nat.
Proof.
  intros ([|i|i|] & Hl & He); cbn in He; [by apply exec_completer_weight| | |done].
  - destruct (waiters s !! i) as [w|] eqn:Hi; [|done].
    destruct (exec_waiter w s) as [w'|] eqn:Hw; [|done]. injection He as <-.
    apply (set_waiter_weight i w); [done|]. unfold exec_waiter in Hw.
    destruct w; try done; case_match; try done; simplify_eq; cbn; lia.
  - destruct (waiters s !! i) as [[]|] eqn:Hi; try done. injection He as <-.
    apply (set_waiter_weight i WTimed); [done|cbn; lia].
Qed.

Definition returned (w : waiter) : bool :=
  match w with WReturned | WTimedOut | WVerdict _ => true | _ => false end.

(** Nobody waits for a token in vain: the completing goroutine and the
    waiters make boundedly many moves, and when none can be made any more every
    waiter has returned and the token is complete, except when the completing
    goroutine is inside an error handler that reads the token's error. *)
Theorem token_waiters_return (s : tokens) :
  token_reachable s ->
  (forall m s', nsteps own_token_step m s s' -> (m <= token_weight s)%nat) /\
  (nf own_token_step s ->
     (complete (tok s) = true /\ Forall (fun w => returned w = true) (waiters s)) \/
     (cp_pc s = CpLocked /\ has_errHandler (tok s) && calls_back = true)).
Proof.
  intros Hr. destruct (token_inv_reachable s Hr) as (Hp & Hpc & Hws). split.
  - intros m s' Hs. clear -Hs. induction Hs as [|m x y z Hxy _ IH]; [lia|].
    apply own_token_step_weight in Hxy. lia.
  - intros Hnf.
    assert (Hst : forall l, l <> THandler -> exec_token l s = None).
    { intros l Hl. destruct (exec_token l s) eqn:He; [|done]. exfalso. apply Hnf. eexists. by exists l. }
    pose proof (Hst TComplete ltac:(done)) as Hc. cbn in Hc. unfold exec_completer in Hc.
    unfold pc_ok in Hpc.
    destruct (cp_pc s) eqn:Epc; destruct verdict as [e|] eqn:Hv; try done; destruct_and?;
      repeat case_match; try done; try congruence; [by right|left..].
    all: split; [done|]; apply Forall_lookup; intros i w Hi;
      pose proof (Hst (TWaiter i) ltac:(done)) as Hw; cbn in Hw; rewrite Hi in Hw;
      destruct w; try done; unfold exec_waiter in Hw; repeat case_match; congruence.
Qed.

(** ** A handler that reads the error *)

Lemma handler_deadlock ws s :
  verdict <> None -> calls_back = true -> rtc token_step (fresh_token true ws) s ->
  (cp_pc s = CpStart \/ cp_pc s = CpLocked) /\ has_errHandler (tok s) = true /\
  complete (tok s) = false.
Proof.
  intros Hv Hcb. revert s.
  apply (rtc_ind_r (fun s => (cp_pc s = CpStart \/ cp_pc s = CpLocked) /\
    has_errHandler (tok s) = true /\ complete (tok s) = false)); [by auto|].
  intros x y _ [l He] (Hpc & Hh & Hc). destruct l as [|i|i|]; cbn in He.
  - unfold exec_completer in He. rewrite Hh, Hcb in He. destruct verdict as [e|]; [|done].
    destruct Hpc as [Hpc|Hpc]; rewrite Hpc in He; [|done]. destruct (m_locked x); [done|].
    injection He as <-. auto.
  - destruct (waiters x !! i) as [w|]; [|done]. destruct (exec_waiter w x); [|done].
    by injection He as <-.
  - destruct (waiters x !! i) as [[]|]; try done. by injection He as <-.
  - injection He as <-. auto.
Qed.
End token.

(** A token whose error handler calls Error never completes when the
    operation fails: the completing goroutine holds the token's lock while it
    runs the handler and blocks in it, so no Wait ever returns and every
    WaitTokenTimeout ends with TimedOut. *)
Theorem error_handler_deadlock (e : error) (ws : list waiter) (s : tokens) :
  Forall (fun w => w = WWait \/ w = WTimed) ws ->
  rtc (token_step (Some e) true) (fresh_token true ws) s ->
  complete (tok s) = false /\
  Forall (fun w => w = WWait \/ w = WTimed \/ w = WTimedOut) (waiters s).
Proof.
  intros Hws Hs. destruct (handler_deadlock (Some e) true ws s ltac:(done) eq_refl Hs) as (_ & _ & Hc).
  split; [done|].
  destruct (token_inv_reachable (Some e) true s) as (_ & _ & Hok); [by exists true, ws|].
  eapply Forall_impl; [exact Hok|]. intros w Hw. destruct w; auto; exfalso; cbn in Hw; destruct_and?; congruence.
Qed.

(** ** Uninterrupted *)

(** Without a handler that calls back, the completer run on its own does what
    setError and flowComplete say. *)
Fixpoint run_completer (fuel : nat) (v : option error) (cb : bool) (s : tokens) : tokens :=
  match fuel with
  | O => s
  | S fuel =>
      match exec_completer v cb s with Some s' => run_completer fuel v cb s' | None => s end
  end.

Lemma completer_setError e b ws :
  tok (run_completer 6 (Some e) false (mkTokens b false CpStart ws false)) = setError e b.
Proof. destruct b as [[] er [] hd]; reflexivity. Qed.

Lemma completer_flowComplete b ws :
  tok (run_completer 6 None false (mkTokens b false CpStart ws false)) = flowComplete b.
Proof. destruct b as [[] er h hd]; reflexivity. Qed.

(** ** Witnesses *)

Fixpoint token_run (v : option error) (cb : bool) (ls : list token_label) (s : tokens) : option tokens :=
  match ls with
  | [] => Some s
  | l :: ls => match exec_token v cb l s with Some s' => token_run v cb ls s' | None => None end
  end.

Lemma token_run_steps v cb ls s s' : token_run v cb ls s = Some s' -> rtc (token_step v cb) s s'.
Proof.
  revert s. induction ls as [|l ls IH]; cbn; intros s Hs; [simplify_eq; apply rtc_refl|].
  destruct (exec_token v cb l s) as [t|] eqn:Ht; [|done]. eapply rtc_l; [by exists l|by apply IH].
Qed.

(** A failure with one goroutine in Wait, one that gives up and one that learns
    the error. *)
Definition token_demo : list token_label :=
  [TTimer 1; TComplete; TComplete; TComplete; TComplete; TComplete; TWaiter 2; TWaiter 0; TComplete;
   TWaiter 2].

Definition token_demo_end : tokens :=
  mkTokens (mkToken true (Some io_EOF) true [io_EOF]) false CpDone
    [WReturned; WTimedOut; WVerdict (Some io_EOF)] false.

Lemma token_demo_run :
  token_run (Some io_EOF) false token_demo (fresh_token true [WWait; WTimed; WTimed]) =
    Some token_demo_end.
Proof. reflexivity. Qed.

Lemma token_demo_reachable : token_reachable (Some io_EOF) false token_demo_end.
Proof.
  exists true, [WWait; WTimed; WTimed]. split.
  - repeat apply Forall_cons_2; auto; apply Forall_nil_2.
  - eapply token_run_steps, token_demo_run.
Qed.

Lemma token_verdict_witness :
  tok_panic token_demo_end = false /\
  (WReturned ∈ waiters token_demo_end -> complete (tok token_demo_end) = true) /\
  (forall r, WVerdict r ∈ waiters token_demo_end ->
     complete (tok token_demo_end) = true /\ r = Some io_EOF) /\
  (complete (tok token_demo_end) = true -> t_err (tok token_demo_end) = Some io_EOF).
Proof. refine (token_verdict (Some io_EOF) false token_demo_end token_demo_reachable). Defined.

Lemma token_waiters_return_witness :
  (forall m s', nsteps (own_token_step (Some io_EOF) false) m token_demo_end s' ->
     (m <= token_weight token_demo_end)%nat) /\
  (nf (own_token_step (Some io_EOF) false) token_demo_end ->
     (complete (tok token_demo_end) = true /\
      Forall (fun w => returned w = true) (waiters token_demo_end)) \/
     (cp_pc token_demo_end = CpLocked /\ has_errHandler (tok token_demo_end) && false = true)).
Proof. refine (token_waiters_return (Some io_EOF) false token_demo_end token_demo_reachable). Defined.

Lemma error_handler_deadlock_witness :
  let s := mkTokens (mkToken false None true []) true CpLocked [WWait; WTimedOut] false in
  complete (tok s) = false /\ Forall (fun w => w = WWait \/ w = WTimed \/ w = WTimedOut) (waiters s).
Proof.
  refine (error_handler_deadlock io_EOF [WWait; WTimed] _ _ _).
  - repeat apply Forall_cons_2; auto; apply Forall_nil_2.
  - eapply (token_run_steps _ _ [TComplete; TTimer 1]). reflexivity.
Defined.
