(* ===== verification/HandlerCalls.v ===== *)
(** * Client: the goroutines that call the handlers

    dispatch of client/client.go starts, for every message, one goroutine per
    handler; each calls its handler and tells the WaitGroup when the call returns.
    The goroutines are scheduled independently, so the calls come in any order: a
    message may be handed to a handler before one that dispatch took earlier. *)

From Stdlib Require Import ZArith Lia.
From stdpp Require Import base list numbers.
From S2P Require Import Prelude GoIO.

Local Open Scope nat_scope.

(** A call: which handler of the list, and the payload of the message. *)
Abbreviation handler_call := (nat * list Z)%type.

(** Goroutines that were started and have not called yet, calls that have not
    returned yet, and all calls in the order in which they were made. *)
Record handler_calls : Type := mkCalls {
  hc_ready : list handler_call;
  hc_inside : list handler_call;
  hc_called : list handler_call;
}.

Definition no_calls : handler_calls := mkCalls [] [] [].

(** The calls that a message is worth with [n] handlers. *)
Definition calls_of_message (n : nat) (payload : list Z) : list handler_call :=
  (fun i => (i, payload)) <$> seq 0 n.

Definition calls_of (n : nat) (payloads : list (list Z)) : list handler_call :=
  payloads ≫= calls_of_message n.

(** [for e := h.handlers.Front(); ...; e = e.Next() { wg.Add(1); go ... }] *)
Definition start_handlers (n : nat) (payload : list Z) (h : handler_calls) : handler_calls :=
  mkCalls (hc_ready h ++ calls_of_message n payload) (hc_inside h) (hc_called h).

(** [hd(client, m)], by the [i]-th goroutine that is ready. *)
Definition call_handler (i : nat) (h : handler_calls) : option handler_calls :=
  match hc_ready h !! i with
  | Some c => Some (mkCalls (delete i (hc_ready h)) (hc_inside h ++ [c]) (hc_called h ++ [c]))
  | None => None
  end.

(** The [i]-th call under way returns: [wg.Done()] *)
Definition handler_returns (i : nat) (h : handler_calls) : option handler_calls :=
  match hc_inside h !! i with
  | Some _ => Some (mkCalls (hc_ready h) (delete i (hc_inside h)) (hc_called h))
  | None => None
  end.

(** The WaitGroup of dispatch. *)
Definition running (h : handler_calls) : nat := length (hc_ready h) + length (hc_inside h).

(** What one handler was called with, in that order. *)
Definition heard_by (i : nat) (l : list handler_call) : list (list Z) :=
  (List.filter (fun c => c.1 =? i) l).*2.

(** ** Facts *)

#[global] Arguments calls_of : simpl never.
#[global] Arguments calls_of_message : simpl never.

Lemma calls_of_app n l1 l2 : calls_of n (l1 ++ l2) = calls_of n l1 ++ calls_of n l2.
Proof. apply bind_app. Qed.

Lemma calls_of_one n payload : calls_of n [payload] = calls_of_message n payload.
Proof. unfold calls_of. cbn. by rewrite app_nil_r. Qed.

Lemma calls_of_message_length n payload : length (calls_of_message n payload) = n.
Proof. unfold calls_of_message. by rewrite length_fmap, length_seq. Qed.

Lemma calls_of_message_imap {A} (l : list A) payload :
  calls_of_message (length l) payload = imap (fun i _ => (i, payload)) l.
Proof.
  symmetry. apply (imap_seq_0 l (fun i => (i, payload))).
Qed.

(** A call moves from the goroutines that are ready to the calls that were made. *)
Lemma call_handler_moves i h h' :
  call_handler i h = Some h' ->
  hc_called h' ++ hc_ready h' ≡ₚ hc_called h ++ hc_ready h /\ running h' = running h /\
  S (length (hc_ready h')) = length (hc_ready h).
Proof.
  unfold call_handler. destruct (hc_ready h !! i) as [c|] eqn:Hc; [|done]. intros Hh. simplify_eq.
  pose proof (delete_Permutation _ _ _ Hc) as Hp. pose proof (Permutation_length Hp) as Hl.
  unfold running. cbn in *. rewrite length_app. cbn. split; [|lia].
  rewrite <- app_assoc. cbn. by rewrite <- Hp.
Qed.

Lemma handler_returns_keeps i h h' :
  handler_returns i h = Some h' ->
  hc_called h' = hc_called h /\ hc_ready h' = hc_ready h /\ S (running h') = running h.
Proof.
  unfold handler_returns. destruct (hc_inside h !! i) as [c|] eqn:Hc; [|done]. intros Hh. simplify_eq.
  pose proof (Permutation_length (delete_Permutation _ _ _ Hc)) as Hl. unfold running. cbn in *.
  split; [done|]. split; [done|]. lia.
Qed.

(** As long as a goroutine is ready, one can call. *)
Lemma call_handler_stuck h : call_handler 0 h = None -> hc_ready h = [].
Proof. unfold call_handler. by destruct (hc_ready h). Qed.

Lemma call_handler_none h i : hc_ready h = [] -> call_handler i h = None.
Proof. unfold call_handler. by intros ->. Qed.

Lemma heard_by_app i l1 l2 : heard_by i (l1 ++ l2) = heard_by i l1 ++ heard_by i l2.
Proof. unfold heard_by. by rewrite List.filter_app, fmap_app. Qed.

#[global] Instance heard_by_proper i : Proper ((≡ₚ) ==> (≡ₚ)) (heard_by i).
Proof.
  intros l1 l2 Hl. unfold heard_by. apply fmap_Permutation.
  induction Hl as [|x l1 l2 _ IH|x y l|l1 l2 l3 _ IH1 _ IH2]; cbn.
  - done.
  - case_match; by rewrite IH.
  - repeat case_match; done || constructor.
  - by rewrite IH1.
Qed.

(** Every message is worth one call of each handler. *)
Lemma heard_by_message i n payload : i < n -> heard_by i (calls_of_message n payload) = [payload].
Proof.
  intros Hi. unfold calls_of_message. replace n with (i + S (n - S i)) by lia.
  rewrite seq_app, fmap_app, heard_by_app. cbn [seq fmap list_fmap].
  assert (Hout : forall a m, (forall k, a <= k -> k < a + m -> k <> i) ->
    heard_by i ((fun k => (k, payload)) <$> seq a m) = []).
  { intros a m. revert a. induction m as [|m IH]; intros a Hk; [done|].
    unfold heard_by in *. cbn. rewrite (proj2 (Nat.eqb_neq a i)) by (apply Hk; lia).
    apply IH. intros k ? ?. apply Hk; lia. }
  rewrite Hout by lia. cbn [app Nat.add]. change ((i, payload) :: ?l) with ([(i, payload)] ++ l).
  rewrite heard_by_app, (Hout (S i)) by lia. unfold heard_by. cbn. by rewrite Nat.eqb_refl.
Qed.

Lemma heard_by_calls i n payloads : i < n -> heard_by i (calls_of n payloads) = payloads.
Proof.
  intros Hi. induction payloads as [|payload l IH]; [done|]. change (payload :: l) with ([payload] ++ l).
  by rewrite calls_of_app, heard_by_app, calls_of_one, heard_by_message, IH.
Qed.
