(* ===== verification/ClientComms.v ===== *)
(** * Client: the goroutines behind one connection

    Once a connection is established, client/client.go (startWorkers,
    stopCommsWorkers, dispatch) and client/net.go (startComms and the loops it
    starts) run a network of goroutines connected by unbuffered channels.  The
    state [comms] has one program counter per goroutine, the closed channels,
    the WaitGroup and the connection; [exec l] is the action named [l]: a
    goroutine's own step, or a send together with the receive that takes it.
    Closing a channel twice, sending on a closed one and taking the WaitGroup
    below zero panic, as in Go.

    The goroutines and where they are started:
    - [reader]: startIncoming; [incoming_pc]: startIncomingComms;
    - [demux], [forwarder] and the goroutine that closes outError: startComms;
    - [outgoing_pc]: startOutgoingComms;
    - [redirector] and [dispatcher]: the two goroutines of startWorkers;
    - [handler_pc] and [ackcopy]: the two goroutines of dispatch; [handler_calls] of
      [HandlerCalls]: those it starts for every message, one per handler;
    - the keepalive goroutine, of which only the end matters here; Connect (or
      reconnect), which closes inboundFromStore after startWorkers; and
      [stopper]: stopCommsWorkers with the goroutine it starts. *)

From Stdlib Require Import ZArith Lia String.
From stdpp Require Import base list strings gmap numbers relations.
From S2P Require Import Prelude GoIO Codec CodecFacts GoTime Store Server ServerFacts ServerDrain.
From S2P Require Import ServerProps ServerSpec ClientOptions ClientNet HandlerCalls.

Local Open Scope Z_scope.

(** ** Channels and messages *)

Inductive chan : Type :=
| ChIbound            (* startIncoming to startIncomingComms *)
| ChOutput            (* startIncomingComms to startComms *)
| ChFromIncoming      (* outboundFromIncoming *)
| ChPublish           (* outPublish, commsIncomingPub in startWorkers *)
| ChOboundErr         (* startOutgoingComms to startComms *)
| ChOutError          (* outError, commsErrors in startWorkers *)
| ChIncomingPub       (* startWorkers to dispatch *)
| ChObound            (* commsobound *)
| ChOboundP           (* commsoboundP *)
| ChAckOut            (* dispatch to startWorkers *)
| ChStopAck           (* stopAckCopy *)
| ChAckStopped        (* ackCopyStopped *)
| ChStore             (* inboundFromStore *)
| ChStop              (* c.stop *)
| ChCommsStopped.     (* c.commsStopped *)

#[global] Instance chan_eq_dec : EqDecision chan.
Proof. solve_decision. Defined.

(** net.go: inbound, incomingComms; token.go: PacketAndToken (the token of a
    PUSH is identified by its position among the accepted messages). *)
Inductive inbound : Type := InErr (err : error) | InPacket (cp : ControlPacket).

Record incomingComms : Type := mkIncoming {
  ic_err : option error;
  ic_outbound : option ControlPacket;
  ic_pub : option (list Z);
}.

(** ** Where each goroutine stands *)

Inductive reader : Type := RdReading | RdSending (m : inbound) | RdClosing | RdDone.

(** The flags are whether inboundFromStore and ibound are still non-nil. *)
Inductive incoming_pc : Type :=
| InWaiting (store ib : bool)
| InCalling (reason : Z) (store ib : bool)      (* c.CloseConnect *)
| InSending (m : incomingComms) (store ib : bool)
| InDone.

Inductive demux : Type :=
| MxReceiving
| MxError (err : error)
| MxOutbound (p : ControlPacket)
| MxPublish (payload : list Z)
| MxClosing
| MxClosing2
| MxDone.

Inductive forwarder : Type := FeReceiving | FeSending (err : error) | FeDone.

(** The flags are whether oboundp, obound and oboundFromIncoming are non-nil. *)
Inductive outgoing_pc : Type :=
| OuWaiting (p o i : bool)
| OuPush (payload : list Z) (p o i : bool)
| OuPriority (cp : ControlPacket) (p o i : bool)
| OuIncoming (cp : ControlPacket) (p o i : bool)
| OuError (err : error) (p o i : bool)
| OuDone.

(** The flag is whether ackOut is non-nil. *)
Inductive redirector : Type :=
| RtSelect (ack : bool)
| RtPriority (cp : ControlPacket) (ack : bool)
| RtPush (payload : list Z) (ack : bool)
| RtDrain                                       (* range ackOut *)
| RtClosing
| RtClosing2
| RtDone.

(** The flags are whether commsIncomingPub and commsErrors are non-nil. *)
Inductive dispatcher : Type :=
| DiWaiting (pub err : bool)
| DiPublish (payload : list Z) (err : bool)
| DiDone.

Inductive handler_pc : Type := HpReceiving | HpStopping | HpWaiting | HpClosing | HpDone.

Inductive ackcopy : Type := AkLoop | AkDropping | AkDone.

Inductive stopper : Type := SpIdle | SpClosing | SpWorkers | SpComms | SpDone.

(** ** The state

    [g_cl], [g_kp] and [g_cn] are whether the goroutine that closes outError,
    the keepalive goroutine and Connect are still there.  The last fields
    record: the payloads of the PUSH packets read so far, the messages for which
    dispatch has started the goroutines of the handlers (the calls themselves are in
    [hcalls]), the messages taken from c.obound, the outcome of each of their
    tokens, and the errors reported to internalConnLost. *)

Record comms : Type := mkComms {
  g_rd : reader;
  g_in : incoming_pc;
  g_mx : demux;
  g_fe : forwarder;
  g_cl : bool;
  g_ou : outgoing_pc;
  g_rt : redirector;
  g_di : dispatcher;
  g_hp : handler_pc;
  g_ak : ackcopy;
  g_kp : bool;
  g_cn : bool;
  g_sp : stopper;
  conn : netconn;
  ch_closed : chan -> bool;
  workers : nat;
  hcalls : handler_calls;
  panicked : bool;
  received_pushes : list (list Z);
  dispatched : list (list Z);
  accepted : list (list Z);
  results : list (list Z * option error);
  lost : list error;
}.

Definition set_g_rd (v : reader) (s : comms) : comms :=
  mkComms v (g_in s) (g_mx s) (g_fe s) (g_cl s) (g_ou s) (g_rt s) (g_di s) (g_hp s) (g_ak s)
    (g_kp s) (g_cn s) (g_sp s) (conn s) (ch_closed s) (workers s) (hcalls s)
    (panicked s) (received_pushes s) (dispatched s) (accepted s) (results s) (lost s).
Definition set_g_in (v : incoming_pc) (s : comms) : comms :=
  mkComms (g_rd s) v (g_mx s) (g_fe s) (g_cl s) (g_ou s) (g_rt s) (g_di s) (g_hp s) (g_ak s)
    (g_kp s) (g_cn s) (g_sp s) (conn s) (ch_closed s) (workers s) (hcalls s)
    (panicked s) (received_pushes s) (dispatched s) (accepted s) (results s) (lost s).
Definition set_g_mx (v : demux) (s : comms) : comms :=
  mkComms (g_rd s) (g_in s) v (g_fe s) (g_cl s) (g_ou s) (g_rt s) (g_di s) (g_hp s) (g_ak s)
    (g_kp s) (g_cn s) (g_sp s) (conn s) (ch_closed s) (workers s) (hcalls s)
    (panicked s) (received_pushes s) (dispatched s) (accepted s) (results s) (lost s).
Definition set_g_fe (v : forwarder) (s : comms) : comms :=
  mkComms (g_rd s) (g_in s) (g_mx s) v (g_cl s) (g_ou s) (g_rt s) (g_di s) (g_hp s) (g_ak s)
    (g_kp s) (g_cn s) (g_sp s) (conn s) (ch_closed s) (workers s) (hcalls s)
    (panicked s) (received_pushes s) (dispatched s) (accepted s) (results s) (lost s).
Definition set_g_cl (v : bool) (s : comms) : comms :=
  mkComms (g_rd s) (g_in s) (g_mx s) (g_fe s) v (g_ou s) (g_rt s) (g_di s) (g_hp s) (g_ak s)
    (g_kp s) (g_cn s) (g_sp s) (conn s) (ch_closed s) (workers s) (hcalls s)
    (panicked s) (received_pushes s) (dispatched s) (accepted s) (results s) (lost s).
Definition set_g_ou (v : outgoing_pc) (s : comms) : comms :=
  mkComms (g_rd s) (g_in s) (g_mx s) (g_fe s) (g_cl s) v (g_rt s) (g_di s) (g_hp s) (g_ak s)
    (g_kp s) (g_cn s) (g_sp s) (conn s) (ch_closed s) (workers s) (hcalls s)
    (panicked s) (received_pushes s) (dispatched s) (accepted s) (results s) (lost s).
Definition set_g_rt (v : redirector) (s : comms) : comms :=
  mkComms (g_rd s) (g_in s) (g_mx s) (g_fe s) (g_cl s) (g_ou s) v (g_di s) (g_hp s) (g_ak s)
    (g_kp s) (g_cn s) (g_sp s) (conn s) (ch_closed s) (workers s) (hcalls s)
    (panicked s) (received_pushes s) (dispatched s) (accepted s) (results s) (lost s).
Definition set_g_di (v : dispatcher) (s : comms) : comms :=
  mkComms (g_rd s) (g_in s) (g_mx s) (g_fe s) (g_cl s) (g_ou s) (g_rt s) v (g_hp s) (g_ak s)
    (g_kp s) (g_cn s) (g_sp s) (conn s) (ch_closed s) (workers s) (hcalls s)
    (panicked s) (received_pushes s) (dispatched s) (accepted s) (results s) (lost s).
Definition set_g_hp (v : handler_pc) (s : comms) : comms :=
  mkComms (g_rd s) (g_in s) (g_mx s) (g_fe s) (g_cl s) (g_ou s) (g_rt s) (g_di s) v (g_ak s)
    (g_kp s) (g_cn s) (g_sp s) (conn s) (ch_closed s) (workers s) (hcalls s)
    (panicked s) (received_pushes s) (dispatched s) (accepted s) (results s) (lost s).
Definition set_g_ak (v : ackcopy) (s : comms) : comms :=
  mkComms (g_rd s) (g_in s) (g_mx s) (g_fe s) (g_cl s) (g_ou s) (g_rt s) (g_di s) (g_hp s) v
    (g_kp s) (g_cn s) (g_sp s) (conn s) (ch_closed s) (workers s) (hcalls s)
    (panicked s) (received_pushes s) (dispatched s) (accepted s) (results s) (lost s).
Definition set_g_kp (v : bool) (s : comms) : comms :=
  mkComms (g_rd s) (g_in s) (g_mx s) (g_fe s) (g_cl s) (g_ou s) (g_rt s) (g_di s) (g_hp s)
    (g_ak s) v (g_cn s) (g_sp s) (conn s) (ch_closed s) (workers s) (hcalls s)
    (panicked s) (received_pushes s) (dispatched s) (accepted s) (results s) (lost s).
Definition set_g_cn (v : bool) (s : comms) : comms :=
  mkComms (g_rd s) (g_in s) (g_mx s) (g_fe s) (g_cl s) (g_ou s) (g_rt s) (g_di s) (g_hp s)
    (g_ak s) (g_kp s) v (g_sp s) (conn s) (ch_closed s) (workers s) (hcalls s)
    (panicked s) (received_pushes s) (dispatched s) (accepted s) (results s) (lost s).
Definition set_g_sp (v : stopper) (s : comms) : comms :=
  mkComms (g_rd s) (g_in s) (g_mx s) (g_fe s) (g_cl s) (g_ou s) (g_rt s) (g_di s) (g_hp s)
    (g_ak s) (g_kp s) (g_cn s) v (conn s) (ch_closed s) (workers s) (hcalls s)
    (panicked s) (received_pushes s) (dispatched s) (accepted s) (results s) (lost s).
Definition set_conn (v : netconn) (s : comms) : comms :=
  mkComms (g_rd s) (g_in s) (g_mx s) (g_fe s) (g_cl s) (g_ou s) (g_rt s) (g_di s) (g_hp s)
    (g_ak s) (g_kp s) (g_cn s) (g_sp s) v (ch_closed s) (workers s) (hcalls s)
    (panicked s) (received_pushes s) (dispatched s) (accepted s) (results s) (lost s).
Definition set_ch_closed (v : chan -> bool) (s : comms) : comms :=
  mkComms (g_rd s) (g_in s) (g_mx s) (g_fe s) (g_cl s) (g_ou s) (g_rt s) (g_di s) (g_hp s)
    (g_ak s) (g_kp s) (g_cn s) (g_sp s) (conn s) v (workers s) (hcalls s)
    (panicked s) (received_pushes s) (dispatched s) (accepted s) (results s) (lost s).
Definition set_workers (v : nat) (s : comms) : comms :=
  mkComms (g_rd s) (g_in s) (g_mx s) (g_fe s) (g_cl s) (g_ou s) (g_rt s) (g_di s) (g_hp s)
    (g_ak s) (g_kp s) (g_cn s) (g_sp s) (conn s) (ch_closed s) v (hcalls s)
    (panicked s) (received_pushes s) (dispatched s) (accepted s) (results s) (lost s).
Definition set_hcalls (v : handler_calls) (s : comms) : comms :=
  mkComms (g_rd s) (g_in s) (g_mx s) (g_fe s) (g_cl s) (g_ou s) (g_rt s) (g_di s) (g_hp s)
    (g_ak s) (g_kp s) (g_cn s) (g_sp s) (conn s) (ch_closed s) (workers s) v (panicked s)
    (received_pushes s) (dispatched s) (accepted s) (results s) (lost s).
Definition set_panicked (v : bool) (s : comms) : comms :=
  mkComms (g_rd s) (g_in s) (g_mx s) (g_fe s) (g_cl s) (g_ou s) (g_rt s) (g_di s) (g_hp s)
    (g_ak s) (g_kp s) (g_cn s) (g_sp s) (conn s) (ch_closed s) (workers s) (hcalls s) v (received_pushes s) (dispatched s) (accepted s) (results s) (lost s).
Definition set_received_pushes (v : list (list Z)) (s : comms) : comms :=
  mkComms (g_rd s) (g_in s) (g_mx s) (g_fe s) (g_cl s) (g_ou s) (g_rt s) (g_di s) (g_hp s)
    (g_ak s) (g_kp s) (g_cn s) (g_sp s) (conn s) (ch_closed s) (workers s) (hcalls s) (panicked s) v (dispatched s) (accepted s) (results s) (lost s).
Definition set_dispatched (v : list (list Z)) (s : comms) : comms :=
  mkComms (g_rd s) (g_in s) (g_mx s) (g_fe s) (g_cl s) (g_ou s) (g_rt s) (g_di s) (g_hp s)
    (g_ak s) (g_kp s) (g_cn s) (g_sp s) (conn s) (ch_closed s) (workers s) (hcalls s) (panicked s) (received_pushes s) v (accepted s) (results s) (lost s).
Definition set_accepted (v : list (list Z)) (s : comms) : comms :=
  mkComms (g_rd s) (g_in s) (g_mx s) (g_fe s) (g_cl s) (g_ou s) (g_rt s) (g_di s) (g_hp s)
    (g_ak s) (g_kp s) (g_cn s) (g_sp s) (conn s) (ch_closed s) (workers s) (hcalls s) (panicked s) (received_pushes s) (dispatched s) v (results s) (lost s).
Definition set_results (v : list (list Z * option error)) (s : comms) : comms :=
  mkComms (g_rd s) (g_in s) (g_mx s) (g_fe s) (g_cl s) (g_ou s) (g_rt s) (g_di s) (g_hp s)
    (g_ak s) (g_kp s) (g_cn s) (g_sp s) (conn s) (ch_closed s) (workers s) (hcalls s) (panicked s) (received_pushes s) (dispatched s) (accepted s) v (lost s).
Definition set_lost (v : list error) (s : comms) : comms :=
  mkComms (g_rd s) (g_in s) (g_mx s) (g_fe s) (g_cl s) (g_ou s) (g_rt s) (g_di s) (g_hp s)
    (g_ak s) (g_kp s) (g_cn s) (g_sp s) (conn s) (ch_closed s) (workers s) (hcalls s) (panicked s) (received_pushes s) (dispatched s) (accepted s) (results s) v.


(** ** Channels and the WaitGroup *)

(** [close(ch)] *)
Definition close_chan (ch : chan) (s : comms) : comms :=
  if ch_closed s ch then set_panicked true s
  else set_ch_closed (fun c => if decide (c = ch) then true else ch_closed s c) s.

(** A send on [ch] that a receiver takes: [s'] is the state after it. *)
Definition send (ch : chan) (s s' : comms) : comms :=
  if ch_closed s ch then set_panicked true s else s'.

(** [c.workers.Done()] *)
Definition worker_done (s : comms) : comms :=
  match workers s with
  | O => set_panicked true s
  | S n => set_workers n s
  end.

(** ** The actions *)

Inductive label : Type :=
(* startIncoming *)
| LRead | LIbound | LReadEnd
(* startIncomingComms *)
| LStoreClosed | LIboundClosed | LCloseConnect | LIncomingEnd
(* startComms *)
| LOutput | LOutputClosed | LPublish | LMxError | LFromIncoming | LMxClose | LMxEnd
| LOboundErr | LFeError | LOboundErrClosed | LCloseOutError
(* startOutgoingComms *)
| LWrite | LOboundPClosed | LOboundClosed | LFromIncomingClosed | LOutgoingEnd
(* startWorkers *)
| LSendOboundP | LSendObound | LAckClosed | LStop | LDrained | LRtClose | LRtEnd
| LIncomingPub | LPublishClosed | LOutErrorClosed | LCommsStopped
(* dispatch *)
| LIncomingPubClosed | LStopAck | LAckStopped | LCloseAckOut | LAckCopyStop | LAckCopyEnd
| LHandlerCall (i : nat)
(* Connect, keepalive, stopCommsWorkers *)
| LConnectEnd | LKeepaliveStop | LCloseConn | LWorkersWait | LCommsWait
(* the environment *)
| EPush (payload : list Z) | EDisconnect | EStop | EPing | EKeepaliveLost
| EHandlerDone (i : nat) | EFault (fault : option (nat * error)).

#[global] Instance label_LRead_dec (l : label) : Decision (l = LRead).
Proof. destruct l; (by left) || by right. Defined.

#[global] Instance label_LWrite_dec (l : label) : Decision (l = LWrite).
Proof. destruct l; (by left) || by right. Defined.

#[global] Instance label_EPing_dec (l : label) : Decision (l = EPing).
Proof. destruct l; (by left) || by right. Defined.

(** What startIncomingComms does with a message from ibound. *)
Definition incoming_next (m : inbound) (store ib : bool) : incoming_pc :=
  match m with
  | InErr err => InSending (mkIncoming (Some err) None None) store ib
  | InPacket (PPush p) => InSending (mkIncoming None None (Some (Payload p))) store ib
  | InPacket (PDisconnect p) => InCalling (GetReturnCode p) store ib
  | InPacket _ => InWaiting store ib
  end.

(** What startComms does with a message from startIncomingComms. *)
Definition demux_next (m : incomingComms) : demux :=
  match ic_err m, ic_outbound m, ic_pub m with
  | Some err, _, _ => MxError err
  | None, Some p, _ => MxOutbound p
  | None, None, Some payload => MxPublish payload
  | None, None, None => MxReceiving
  end.

(** The flag of commsErrors, if the dispatcher is at a place where it receives
    from it. *)
Definition takes_errors (d : dispatcher) : bool :=
  match d with
  | DiWaiting _ true | DiPublish _ true => true
  | _ => false
  end.

(** The steps of startIncoming and startIncomingComms. *)
Definition exec_incoming (l : label) (s : comms) : option comms :=
  match l, g_rd s, g_in s with
  | LRead, RdReading, _ =>
      match ReadPacket (conn s) with
      | (Ret cp, nc) =>
          let got := match cp with PPush p => [Payload p] | _ => [] end in
          Some (set_g_rd (RdSending (InPacket cp))
                 (set_received_pushes (received_pushes s ++ got) (set_conn nc s)))
      | (Throw err, nc) =>
          let nc := if Contains (Error err) "unsupported packet type"
                    then snd (Packet_Write (new_disconnect DiscProtocolViolation) nc) else nc in
          Some (set_g_rd (if Contains (Error err) closedNetConnErrorText then RdClosing
                          else RdSending (InErr err)) (set_conn nc s))
      | (Diverge, _) => None
      end
  | LIbound, RdSending m, InWaiting store true =>
      Some (send ChIbound s (set_g_in (incoming_next m store true)
             (set_g_rd (match m with InErr _ => RdClosing | InPacket _ => RdReading end) s)))
  | LReadEnd, RdClosing, _ => Some (set_g_rd RdDone (close_chan ChIbound s))
  | LStoreClosed, _, InWaiting true ib =>
      if ch_closed s ChStore then Some (set_g_in (InWaiting false ib) s) else None
  | LIboundClosed, _, InWaiting store true =>
      if ch_closed s ChIbound then Some (set_g_in (InWaiting store false) s) else None
  | LCloseConnect, _, InCalling _ store ib => Some (set_g_in (InWaiting store ib) s)
  | LIncomingEnd, _, InWaiting false false => Some (set_g_in InDone (close_chan ChOutput s))
  | _, _, _ => None
  end.

(** The goroutines of startComms. *)
Definition exec_startComms (l : label) (s : comms) : option comms :=
  match l, g_mx s, g_fe s with
  | LOutput, MxReceiving, _ =>
      match g_in s with
      | InSending m store ib =>
          Some (send ChOutput s (set_g_mx (demux_next m) (set_g_in (InWaiting store ib) s)))
      | _ => None
      end
  | LOutputClosed, MxReceiving, _ =>
      if ch_closed s ChOutput then Some (set_g_mx MxClosing s) else None
  | LMxError, MxError err, _ =>
      if takes_errors (g_di s)
      then Some (send ChOutError s (set_lost (lost s ++ [err]) (set_g_mx MxReceiving s))) else None
  | LFromIncoming, MxOutbound cp, _ =>
      match g_ou s with
      | OuWaiting p o true =>
          Some (send ChFromIncoming s (set_g_ou (OuIncoming cp p o true) (set_g_mx MxReceiving s)))
      | _ => None
      end
  | LPublish, MxPublish payload, _ =>
      match g_di s with
      | DiWaiting true err =>
          Some (send ChPublish s (set_g_di (DiPublish payload err) (set_g_mx MxReceiving s)))
      | _ => None
      end
  | LMxClose, MxClosing, _ => Some (set_g_mx MxClosing2 (close_chan ChFromIncoming s))
  | LMxEnd, MxClosing2, _ => Some (set_g_mx MxDone (close_chan ChPublish s))
  | LOboundErr, _, FeReceiving =>
      match g_ou s with
      | OuError err p o i =>
          Some (send ChOboundErr s (set_g_fe (FeSending err) (set_g_ou (OuWaiting p o i) s)))
      | _ => None
      end
  | LFeError, _, FeSending err =>
      if takes_errors (g_di s)
      then Some (send ChOutError s (set_lost (lost s ++ [err]) (set_g_fe FeReceiving s))) else None
  | LOboundErrClosed, _, FeReceiving =>
      if ch_closed s ChOboundErr then Some (set_g_fe FeDone s) else None
  | LCloseOutError, MxDone, FeDone =>
      if g_cl s then Some (set_g_cl false (close_chan ChOutError s)) else None
  | _, _, _ => None
  end.

Definition after_write (err : option error) (p o i : bool) : outgoing_pc :=
  match err with
  | Some err => OuError err p o i
  | None => OuWaiting p o i
  end.

(** startOutgoingComms.  The case of oboundFromIncoming writes like the others
    and reports every error. *)
Definition exec_outgoing (l : label) (s : comms) : option comms :=
  match l, g_ou s with
  | LWrite, OuPush payload p o i =>
      let r := outgoing_push payload (conn s) in
      let err := match token r with Some err => err | None => None end in
      Some (set_g_ou (after_write (reported r) p o i)
             (set_results (results s ++ [(payload, err)]) (set_conn (out_conn r) s)))
  | LWrite, OuPriority cp p o i =>
      let r := outgoing_priority cp (conn s) in
      Some (set_g_ou (after_write (reported r) p o i) (set_conn (out_conn r) s))
  | LWrite, OuIncoming cp p o i =>
      let '((_, err), nc) := Packet_Write cp (conn s) in
      Some (set_g_ou (after_write err p o i) (set_conn nc s))
  | LOboundPClosed, OuWaiting true o i =>
      if ch_closed s ChOboundP then Some (set_g_ou (OuWaiting false o i) s) else None
  | LOboundClosed, OuWaiting p true i =>
      if ch_closed s ChObound then Some (set_g_ou (OuWaiting p false i) s) else None
  | LFromIncomingClosed, OuWaiting p o true =>
      if ch_closed s ChFromIncoming then Some (set_g_ou (OuWaiting p o false) s) else None
  | LOutgoingEnd, OuWaiting false false false => Some (set_g_ou OuDone (close_chan ChOboundErr s))
  | _, _ => None
  end.

(** The output redirector of startWorkers.  Its last step is the deferred
    [c.workers.Done()]; the one for ackOut is where that channel is found
    closed. *)
Definition exec_redirector (l : label) (s : comms) : option comms :=
  match l, g_rt s with
  | EPush payload, RtSelect ack =>
      Some (set_g_rt (RtPush payload ack) (set_accepted (accepted s ++ [payload]) s))
  | EDisconnect, RtSelect ack => Some (set_g_rt (RtPriority (new_disconnect 0) ack) s)
  | LSendObound, RtPush payload ack =>
      match g_ou s with
      | OuWaiting p true i =>
          Some (send ChObound s (set_g_ou (OuPush payload p true i) (set_g_rt (RtSelect ack) s)))
      | _ => None
      end
  | LSendOboundP, RtPriority cp ack =>
      match g_ou s with
      | OuWaiting true o i =>
          Some (send ChOboundP s (set_g_ou (OuPriority cp true o i) (set_g_rt (RtSelect ack) s)))
      | _ => None
      end
  | LAckClosed, RtSelect true =>
      if ch_closed s ChAckOut then Some (worker_done (set_g_rt (RtSelect false) s)) else None
  | LStop, RtSelect ack =>
      if ch_closed s ChStop then Some (set_g_rt (if ack then RtDrain else RtClosing) s) else None
  | LDrained, RtDrain =>
      if ch_closed s ChAckOut then Some (worker_done (set_g_rt RtClosing s)) else None
  | LRtClose, RtClosing => Some (set_g_rt RtClosing2 (close_chan ChOboundP s))
  | LRtEnd, RtClosing2 => Some (worker_done (set_g_rt RtDone (close_chan ChObound s)))
  | _, _ => None
  end.

(** The second goroutine of startWorkers; a message that dispatch receives starts
    one goroutine per handler. *)
Definition exec_delivery (handlers : nat) (l : label) (s : comms) : option comms :=
  match l, g_di s, g_hp s with
  | LIncomingPub, DiPublish payload err, HpReceiving =>
      Some (send ChIncomingPub s (set_g_di (DiWaiting true err)
             (set_hcalls (start_handlers handlers payload (hcalls s))
               (set_dispatched (dispatched s ++ [payload]) s))))
  | LPublishClosed, DiWaiting true err, _ =>
      if ch_closed s ChPublish
      then Some (set_g_di (DiWaiting false err) (close_chan ChIncomingPub s)) else None
  | LOutErrorClosed, DiWaiting pub true, _ =>
      if ch_closed s ChOutError then Some (set_g_di (DiWaiting pub false) s) else None
  | LOutErrorClosed, DiPublish payload true, _ =>
      if ch_closed s ChOutError then Some (set_g_di (DiPublish payload false) s) else None
  | LCommsStopped, DiWaiting false false, _ => Some (set_g_di DiDone (close_chan ChCommsStopped s))
  | _, _, _ => None
  end.

(** The two goroutines of dispatch, and those of the handlers.  When the last of these
    has ended, goRoutinesDone is closed, which lets the other one end. *)
Definition exec_dispatch (l : label) (s : comms) : option comms :=
  match l, g_hp s, g_ak s with
  | LIncomingPubClosed, HpReceiving, _ =>
      if ch_closed s ChIncomingPub then Some (set_g_hp HpStopping s) else None
  | LStopAck, HpStopping, _ => Some (set_g_hp HpWaiting (close_chan ChStopAck s))
  | LAckStopped, HpWaiting, _ =>
      if ch_closed s ChAckStopped then Some (set_g_hp HpClosing s) else None
  | LCloseAckOut, HpClosing, _ => Some (set_g_hp HpDone (close_chan ChAckOut s))
  | LAckCopyStop, _, AkLoop =>
      if ch_closed s ChStopAck then Some (set_g_ak AkDropping (close_chan ChAckStopped s)) else None
  | LAckCopyEnd, HpDone, AkDropping =>
      if (running (hcalls s) =? 0)%nat then Some (set_g_ak AkDone s) else None
  | LHandlerCall i, _, _ =>
      match call_handler i (hcalls s) with Some h => Some (set_hcalls h s) | None => None end
  | EHandlerDone i, _, _ =>
      match handler_returns i (hcalls s) with Some h => Some (set_hcalls h s) | None => None end
  | _, _, _ => None
  end.

(** Connect after startWorkers, keepalive's PINGREQ (under connWriteMu, like the
    writes of startOutgoingComms) and its end, and stopCommsWorkers, which
    [c.conn] keeps from running twice. *)
Definition exec_lifetime (l : label) (s : comms) : option comms :=
  match l, g_sp s with
  | LConnectEnd, _ => if g_cn s then Some (set_g_cn false (close_chan ChStore s)) else None
  | LKeepaliveStop, _ =>
      if g_kp s && ch_closed s ChStop then Some (worker_done (set_g_kp false s)) else None
  | EPing, _ =>
      if g_kp s then Some (set_conn (snd (Packet_Write new_pingreq (conn s))) s) else None
  | EKeepaliveLost, _ => if g_kp s then Some (worker_done (set_g_kp false s)) else None
  | EStop, SpIdle => Some (set_g_sp SpClosing (close_chan ChStop s))
  | LCloseConn, SpClosing => Some (set_g_sp SpWorkers (set_conn (net_close (conn s)) s))
  | LWorkersWait, SpWorkers =>
      if (workers s =? 0)%nat then Some (set_g_sp SpComms s) else None
  | LCommsWait, SpComms => if ch_closed s ChCommsStopped then Some (set_g_sp SpDone s) else None
  | EFault fault, _ => Some (set_conn (set_fault fault (conn s)) s)
  | _, _ => None
  end.

Definition exec (handlers : nat) (l : label) (s : comms) : option comms :=
  match l with
  | LRead | LIbound | LReadEnd | LStoreClosed | LIboundClosed | LCloseConnect | LIncomingEnd =>
      exec_incoming l s
  | LOutput | LOutputClosed | LPublish | LMxError | LFromIncoming | LMxClose | LMxEnd
  | LOboundErr | LFeError | LOboundErrClosed | LCloseOutError => exec_startComms l s
  | LWrite | LOboundPClosed | LOboundClosed | LFromIncomingClosed | LOutgoingEnd => exec_outgoing l s
  | LSendOboundP | LSendObound | LAckClosed | LStop | LDrained | LRtClose | LRtEnd
  | EPush _ | EDisconnect => exec_redirector l s
  | LIncomingPub | LPublishClosed | LOutErrorClosed | LCommsStopped => exec_delivery handlers l s
  | LIncomingPubClosed | LStopAck | LAckStopped | LCloseAckOut | LAckCopyStop | LAckCopyEnd
  | LHandlerCall _ | EHandlerDone _ => exec_dispatch l s
  | LConnectEnd | LKeepaliveStop | LCloseConn | LWorkersWait | LCommsWait | EStop | EPing | EKeepaliveLost
  | EFault _ => exec_lifetime l s
  end.

(** Moves of the client's own goroutines; the others are the application's, the
    timers' and the network's. *)
Definition is_own (l : label) : bool :=
  match l with
  | EPush _ | EDisconnect | EStop | EPing | EKeepaliveLost | EHandlerDone _ | EFault _ => false
  | _ => true
  end.

Definition own_step (n : nat) (s s' : comms) : Prop :=
  exists l, is_own l = true /\ exec n l s = Some s'.

Definition comms_step (n : nat) (s s' : comms) : Prop := exists l, exec n l s = Some s'.

(** What the [i]-th handler was called with, in the order of the calls. *)
Definition heard (i : nat) (s : comms) : list (list Z) := heard_by i (hc_called (hcalls s)).

(** startWorkers: [keepalive] is whether a heartbeat is configured. *)
Definition start (keepalive : bool) (nc : netconn) : comms :=
  mkComms RdReading (InWaiting true true) MxReceiving FeReceiving true (OuWaiting true true true)
    (RtSelect true) (DiWaiting true true) HpReceiving AkLoop keepalive true SpIdle nc
    (fun _ => false) (if keepalive then 3 else 2) no_calls false [] [] [] [] [].

Definition comms_reachable (n : nat) (keepalive : bool) (nc : netconn) (s : comms) : Prop :=
  rtc (comms_step n) (start keepalive nc) s.

Fixpoint comms_run (n : nat) (ls : list label) (s : comms) : option comms :=
  match ls with
  | [] => Some s
  | l :: ls => match exec n l s with Some s' => comms_run n ls s' | None => None end
  end.

Lemma comms_run_steps n ls s s' : comms_run n ls s = Some s' -> rtc (comms_step n) s s'.
Proof.
  revert s. induction ls as [|l ls IH]; cbn; intros s Hs; [simplify_eq; apply rtc_refl|].
  destruct (exec n l s) as [t|] eqn:Ht; [|done]. eapply rtc_l; [by exists l|by apply IH].
Qed.
