(* ===== verification/ClientCommsFacts.v ===== *)
(** * The client's goroutines: no panic, no deadlock, no lost message

    The invariant of the network of [ClientComms], and what follows from it:
    no channel is closed twice or sent on after it was closed, the WaitGroup
    never goes below zero, and once stopCommsWorkers has run every goroutine
    ends. *)

From Stdlib Require Import ZArith Lia String Wf_nat Inverse_Image.
From stdpp Require Import base list strings gmap numbers relations.
From S2P Require Import Prelude GoIO Codec CodecFacts GoTime Store Server ServerFacts ServerDrain.
From S2P Require Import ServerProps ServerSpec Wire ClientOptions ClientNet HandlerCalls ClientComms.

Local Open Scope nat_scope.

(** ** Reading the program counters *)

Definition rd_done (r : reader) : bool := match r with RdDone => true | _ => false end.

(** Whether inboundFromStore and ibound are still non-nil. *)
Definition in_store (i : incoming_pc) : bool :=
  match i with InWaiting b _ | InCalling _ b _ | InSending _ b _ => b | InDone => false end.

Definition in_ib (i : incoming_pc) : bool :=
  match i with InWaiting _ b | InCalling _ _ b | InSending _ _ b => b | InDone => false end.

Definition in_done (i : incoming_pc) : bool := match i with InDone => true | _ => false end.

Definition mx_live (m : demux) : bool :=
  match m with MxClosing | MxClosing2 | MxDone => false | _ => true end.

Definition mx_done (m : demux) : bool := match m with MxDone => true | _ => false end.

Definition fe_done (f : forwarder) : bool := match f with FeDone => true | _ => false end.

Definition ou_p (u : outgoing_pc) : bool :=
  match u with
  | OuWaiting b _ _ | OuPush _ b _ _ | OuPriority _ b _ _ | OuIncoming _ b _ _ | OuError _ b _ _ => b
  | OuDone => false
  end.

Definition ou_o (u : outgoing_pc) : bool :=
  match u with
  | OuWaiting _ b _ | OuPush _ _ b _ | OuPriority _ _ b _ | OuIncoming _ _ b _ | OuError _ _ b _ => b
  | OuDone => false
  end.

Definition ou_i (u : outgoing_pc) : bool :=
  match u with
  | OuWaiting _ _ b | OuPush _ _ _ b | OuPriority _ _ _ b | OuIncoming _ _ _ b | OuError _ _ _ b => b
  | OuDone => false
  end.

Definition ou_done (u : outgoing_pc) : bool := match u with OuDone => true | _ => false end.

(** Whether the redirector still waits for ackOut, whether it was told to stop,
    and whether commsoboundP and commsobound are closed. *)
Definition rt_ack (r : redirector) : bool :=
  match r with RtSelect b | RtPriority _ b | RtPush _ b => b | RtDrain => true | _ => false end.

Definition rt_stopping (r : redirector) : bool :=
  match r with RtDrain | RtClosing | RtClosing2 | RtDone => true | _ => false end.

Definition rt_closed_p (r : redirector) : bool :=
  match r with RtClosing2 | RtDone => true | _ => false end.

Definition rt_done (r : redirector) : bool := match r with RtDone => true | _ => false end.

Definition di_pub (d : dispatcher) : bool :=
  match d with DiWaiting b _ => b | DiPublish _ _ => true | DiDone => false end.

Definition di_err (d : dispatcher) : bool :=
  match d with DiWaiting _ b | DiPublish _ b => b | DiDone => false end.

Definition di_done (d : dispatcher) : bool := match d with DiDone => true | _ => false end.

Definition hp_receiving (h : handler_pc) : bool := match h with HpReceiving => true | _ => false end.

(** stopAckCopy is closed; ackCopyStopped was seen closed; ackOut is closed. *)
Definition hp_stopped (h : handler_pc) : bool :=
  match h with HpWaiting | HpClosing | HpDone => true | _ => false end.

Definition hp_closing (h : handler_pc) : bool :=
  match h with HpClosing | HpDone => true | _ => false end.

Definition hp_done (h : handler_pc) : bool := match h with HpDone => true | _ => false end.

Definition ak_loop (a : ackcopy) : bool := match a with AkLoop => true | _ => false end.

Definition sp_idle (p : stopper) : bool := match p with SpIdle => true | _ => false end.

Definition sp_closed (p : stopper) : bool :=
  match p with SpWorkers | SpComms | SpDone => true | _ => false end.

Definition sp_waited (p : stopper) : bool :=
  match p with SpComms | SpDone => true | _ => false end.

Definition sp_done (p : stopper) : bool := match p with SpDone => true | _ => false end.

(** Which channels are closed, by whom. *)
Definition closed_by (s : comms) (ch : chan) : bool :=
  match ch with
  | ChIbound => rd_done (g_rd s)
  | ChOutput => in_done (g_in s)
  | ChFromIncoming => match g_mx s with MxClosing2 | MxDone => true | _ => false end
  | ChPublish => mx_done (g_mx s)
  | ChOboundErr => ou_done (g_ou s)
  | ChOutError => negb (g_cl s)
  | ChIncomingPub => negb (di_pub (g_di s))
  | ChObound => rt_done (g_rt s)
  | ChOboundP => rt_closed_p (g_rt s)
  | ChAckOut => hp_done (g_hp s)
  | ChStopAck => hp_stopped (g_hp s)
  | ChAckStopped => negb (ak_loop (g_ak s))
  | ChStore => negb (g_cn s)
  | ChStop => negb (sp_idle (g_sp s))
  | ChCommsStopped => di_done (g_di s)
  end.

(** ** The invariant *)

(** Each implication is between booleans, so that it can be evaluated. *)
Notation "b1 ==>> b2" := (implb b1 b2 = true) (at level 80, only parsing).

Record wf (s : comms) : Prop := mkWf {
  wf_panic : panicked s = false;
  wf_closed : forall ch, ch_closed s ch = closed_by s ch;
  wf_workers : workers s = Nat.b2n (g_kp s) + Nat.b2n (rt_ack (g_rt s)) + Nat.b2n (negb (rt_done (g_rt s)));
  wf_store : negb (in_store (g_in s)) ==>> negb (g_cn s);
  wf_ib : negb (in_ib (g_in s)) ==>> rd_done (g_rd s);
  wf_mx : negb (mx_live (g_mx s)) ==>> in_done (g_in s);
  wf_fe : fe_done (g_fe s) ==>> ou_done (g_ou s);
  wf_cl : negb (g_cl s) ==>> mx_done (g_mx s) && fe_done (g_fe s);
  wf_ou_p : negb (ou_p (g_ou s)) ==>> rt_closed_p (g_rt s);
  wf_ou_o : negb (ou_o (g_ou s)) ==>> rt_done (g_rt s);
  wf_ou_i : negb (ou_i (g_ou s)) ==>> negb (mx_live (g_mx s));
  wf_di_pub : negb (di_pub (g_di s)) ==>> mx_done (g_mx s);
  wf_di_err : negb (di_err (g_di s)) ==>> negb (g_cl s);
  wf_hp : negb (hp_receiving (g_hp s)) ==>> negb (di_pub (g_di s));
  wf_hp_ak : hp_closing (g_hp s) ==>> negb (ak_loop (g_ak s));
  wf_ak : negb (ak_loop (g_ak s)) ==>> hp_stopped (g_hp s);
  wf_ack : negb (rt_ack (g_rt s)) ==>> hp_done (g_hp s);
  wf_rt : rt_stopping (g_rt s) ==>> negb (sp_idle (g_sp s));
  wf_conn : sp_closed (g_sp s) ==>> nc_closed (conn s);
  wf_sp_workers : sp_waited (g_sp s) ==>> (workers s =? 0);
  wf_sp_comms : sp_done (g_sp s) ==>> di_done (g_di s);
}.

Lemma start_wf k nc : wf (start k nc).
Proof. split; try done; [by intros []|by destruct k]. Qed.

(** A send under the invariant never panics, nor does a close by the goroutine
    that has to do it. *)
Lemma send_ok s ch s' : wf s -> closed_by s ch = false -> send ch s s' = s'.
Proof. intros Hw Hc. unfold send. by rewrite (wf_closed _ Hw), Hc. Qed.

Lemma close_ok s ch : wf s -> closed_by s ch = false ->
  close_chan ch s = set_ch_closed (fun c => if decide (c = ch) then true else ch_closed s c) s.
Proof. intros Hw Hc. unfold close_chan. by rewrite (wf_closed _ Hw), Hc. Qed.

(** ** Preservation *)

(** Case analysis on the guard of an action. *)
Ltac action_cases He :=
  repeat (case_match; try discriminate He); try discriminate He; simplify_eq/=.

(** What a receive from a closed channel says about its sender. *)
Ltac use_closed Hw :=
  repeat match goal with
  | H : ?f ?ch = true |- _ =>
      lazymatch type of f with chan -> bool =>
        let E := fresh "E" in
        pose proof (wf_closed _ Hw ch) as E; cbn in E; rewrite E in H; clear E
      end
  end.

(** The fields that talk about other goroutines are carried over; the others
    follow by evaluation. *)
Ltac wf_fields Hw :=
  use_closed Hw; destruct Hw; split; cbn in *;
  try assumption; try done;
  try (let ch := fresh "ch" in intros ch; try case_decide; destruct ch; cbn in *;
       repeat match goal with H : forall ch : chan, _ |- _ => rewrite H; clear H end; cbn;
       try done; try congruence);
  try (match goal with m : demux |- _ => destruct m; done end);
  try (match goal with p : stopper |- _ => destruct p; done end);
  repeat match goal with b : bool |- _ => destruct b end; cbn in *; try done; try lia.

(** Connections stay closed. *)
Lemma ReadPacket_closed nc : nc_closed (snd (ReadPacket nc)) = nc_closed nc.
Proof. by rewrite (proj1 (keeps_ReadPacket nc)). Qed.

Lemma Packet_Write_closed cp nc : nc_closed (snd (Packet_Write cp nc)) = nc_closed nc.
Proof.
  destruct (Packet_Write_net cp nc) as [cp' ->].
  destruct (nc_closed nc) eqn:Hc; [done|]. by destruct (nc_fault nc) as [[k e]|].
Qed.

Lemma outgoing_push_closed p nc : nc_closed (out_conn (outgoing_push p nc)) = nc_closed nc.
Proof.
  unfold outgoing_push. rewrite <- (Packet_Write_closed (new_push p) nc).
  by destruct (Packet_Write (new_push p) nc) as [[? [e|]] nc'].
Qed.

Lemma outgoing_priority_closed cp nc :
  nc_closed nc = true -> nc_closed (out_conn (outgoing_priority cp nc)) = true.
Proof.
  unfold outgoing_priority. rewrite <- (Packet_Write_closed cp nc).
  destruct (Packet_Write cp nc) as [[? [e|]] nc']; [done|]. by destruct cp.
Qed.

(** Only the reader, the connection and the records move. *)
Lemma wf_read s rd nc got :
  wf s -> rd_done (g_rd s) = false -> rd_done rd = false ->
  (nc_closed (conn s) = true -> nc_closed nc = true) ->
  wf (set_g_rd rd (set_received_pushes got (set_conn nc s))).
Proof.
  intros Hw H1 H2 Hc. destruct Hw; split; cbn; try done.
  - intros ch. rewrite wf_closed0. destruct ch; try done. cbn. congruence.
  - rewrite H1 in wf_ib0. by rewrite H2.
  - destruct (sp_closed (g_sp s)); [|done]. cbn in *. auto.
Qed.

Lemma exec_read_wf s s' : wf s -> exec_incoming LRead s = Some s' -> wf s'.
Proof.
  intros Hw He. unfold exec_incoming in He. destruct (g_rd s) eqn:Hr; try done. cbv beta iota in He.
  pose proof (ReadPacket_closed (conn s)) as Hc. destruct (ReadPacket (conn s)) as [[cp|e|] nc]; [| |done].
  - simplify_eq. apply wf_read; [done|by rewrite Hr|done|]. cbn in Hc. congruence.
  - injection He as <-.
    assert (Hsame : forall nc2, set_conn nc2 s = set_received_pushes (received_pushes s) (set_conn nc2 s))
      by (intros; by destruct s).
    rewrite Hsame. apply wf_read; [done|by rewrite Hr|by destruct (Contains _ _)|].
    pose proof (Packet_Write_closed (new_disconnect DiscProtocolViolation) nc) as Hwr.
    cbn in Hc, Hwr. destruct (Contains (Error e) "unsupported packet type"); [|congruence]. rewrite <- Hc, <- Hwr. done.
Qed.

Lemma exec_incoming_wf l s s' : wf s -> exec_incoming l s = Some s' -> wf s'.
Proof.
  destruct (decide (l = LRead)) as [->|Hl]; [apply exec_read_wf|].
  intros Hw He. destruct s. unfold exec_incoming in He. cbn in He.
  destruct l; try discriminate He; action_cases He.
  all: try (rewrite send_ok by done).
  all: try (rewrite close_ok by done).
  2: destruct cp; cbn.
  all: by wf_fields Hw.
Qed.

(** The channel an action needs open is open, by the invariant. *)
Ltac chan_open Hw :=
  first [done
        |let E := fresh in pose proof (wf_cl _ Hw) as E; cbn in E |- *;
         rewrite ?andb_false_r in E;
         match goal with |- negb ?b = false => destruct b; done end].

Ltac wf_action Hw :=
  repeat (rewrite send_ok by chan_open Hw); repeat (rewrite close_ok by chan_open Hw);
  unfold worker_done; cbn.

Lemma exec_startComms_wf l s s' : wf s -> exec_startComms l s = Some s' -> wf s'.
Proof.
  intros Hw He. destruct s. unfold exec_startComms in He. cbn in He.
  destruct l; try discriminate He; action_cases He; wf_action Hw.
  1: destruct m as [[e|] [cp|] [pl|]]; cbn.
  all: by wf_fields Hw.
Qed.

(** The connection after a write of startOutgoingComms. *)
Lemma wf_write s ou nc res :
  wf s -> ou_p ou = ou_p (g_ou s) -> ou_o ou = ou_o (g_ou s) -> ou_i ou = ou_i (g_ou s) ->
  ou_done ou = false -> ou_done (g_ou s) = false ->
  (nc_closed (conn s) = true -> nc_closed nc = true) ->
  wf (set_g_ou ou (set_results res (set_conn nc s))).
Proof.
  intros Hw H1 H2 H3 H4 H5 Hc. destruct Hw; split; cbn; rewrite ?H1, ?H2, ?H3; try done.
  - intros ch. rewrite wf_closed0. destruct ch; try done. cbn. congruence.
  - rewrite H5 in wf_fe0. by rewrite H4.
  - destruct (sp_closed (g_sp s)); [|done]. cbn in *. auto.
Qed.

Lemma after_write_flags err p o i :
  ou_p (after_write err p o i) = p /\ ou_o (after_write err p o i) = o /\
  ou_i (after_write err p o i) = i /\ ou_done (after_write err p o i) = false.
Proof. by destruct err. Qed.

Lemma exec_write_wf s s' : wf s -> exec_outgoing LWrite s = Some s' -> wf s'.
Proof.
  intros Hw He.
  assert (Hsame : forall nc, set_conn nc s = set_results (results s) (set_conn nc s)) by (by destruct s).
  unfold exec_outgoing in He. destruct (g_ou s) as [| pl p o i|cp p o i|cp p o i| |] eqn:Hu; try done.
  - simplify_eq. destruct (after_write_flags (reported (outgoing_push pl (conn s))) p o i) as (?&?&?&?).
    apply wf_write; rewrite ?Hu; try done. by rewrite outgoing_push_closed.
  - simplify_eq. destruct (after_write_flags (reported (outgoing_priority cp (conn s))) p o i) as (?&?&?&?).
    rewrite Hsame. apply wf_write; rewrite ?Hu; try done. apply outgoing_priority_closed.
  - pose proof (Packet_Write_closed cp (conn s)) as Hc.
    destruct (Packet_Write cp (conn s)) as [[? err] nc]. simplify_eq.
    destruct (after_write_flags err p o i) as (?&?&?&?).
    rewrite Hsame. apply wf_write; rewrite ?Hu; try done. cbn in Hc. congruence.
Qed.

Lemma exec_outgoing_wf l s s' : wf s -> exec_outgoing l s = Some s' -> wf s'.
Proof.
  intros Hw He. destruct l; try (unfold exec_outgoing in He; by destruct (g_ou s));
    [by apply (exec_write_wf s)|..]; destruct s; unfold exec_outgoing in He; cbn in He;
    action_cases He; wf_action Hw; by wf_fields Hw.
Qed.

Lemma exec_redirector_wf l s s' : wf s -> exec_redirector l s = Some s' -> wf s'.
Proof.
  intros Hw He. destruct s. unfold exec_redirector in He. cbn in He.
  destruct l; try discriminate He; action_cases He;
    pose proof (wf_workers _ Hw) as Hn; cbn in Hn; wf_action Hw;
    try (destruct workers; [lia|]); by wf_fields Hw.
Qed.

Lemma exec_delivery_wf n l s s' : wf s -> exec_delivery n l s = Some s' -> wf s'.
Proof.
  intros Hw He. destruct s. unfold exec_delivery in He. cbn in He.
  destruct l; try discriminate He; action_cases He; wf_action Hw; by wf_fields Hw.
Qed.

Lemma exec_dispatch_wf l s s' : wf s -> exec_dispatch l s = Some s' -> wf s'.
Proof.
  intros Hw He. destruct s. unfold exec_dispatch in He. cbn in He.
  destruct l; try discriminate He; action_cases He; wf_action Hw; by wf_fields Hw.
Qed.

Lemma exec_ping_wf s s' : wf s -> exec_lifetime EPing s = Some s' -> wf s'.
Proof.
  intros Hw He. unfold exec_lifetime in He. destruct (g_kp s); [|done]. injection He as <-.
  pose proof (Packet_Write_closed new_pingreq (conn s)) as Hc.
  destruct Hw; split; cbn in *; try done. by rewrite Hc.
Qed.

Lemma exec_lifetime_wf l s s' : wf s -> exec_lifetime l s = Some s' -> wf s'.
Proof.
  destruct (decide (l = EPing)) as [->|Hl]; [apply exec_ping_wf|].
  intros Hw He. destruct s. unfold exec_lifetime in He. cbn in He.
  destruct l; try discriminate He; action_cases He;
    pose proof (wf_workers _ Hw) as Hn; cbn in Hn; wf_action Hw;
    try (destruct g_kp; [|done]); cbn in Hn; try (destruct workers; [lia|]); cbn.
  all: by wf_fields Hw.
Qed.

Lemma exec_wf n l s s' : wf s -> exec n l s = Some s' -> wf s'.
Proof.
  intros Hw He. destruct l; cbn [exec] in He;
    first [by eapply exec_incoming_wf|by eapply exec_startComms_wf|by eapply exec_outgoing_wf
          |by eapply exec_redirector_wf|by eapply exec_delivery_wf|by eapply exec_dispatch_wf|by eapply exec_lifetime_wf].
Qed.

Lemma wf_reachable n k nc s : comms_reachable n k nc s -> wf s.
Proof.
  unfold comms_reachable. apply (rtc_ind_r wf); [apply start_wf|].
  intros x y _ [l He] Hw. by eapply exec_wf.
Qed.

(** ** The messages in flight *)

(** The downlink message a goroutine holds. *)
Definition rd_holds (r : reader) : list (list Z) :=
  match r with RdSending (InPacket (PPush p)) => [Payload p] | _ => [] end.

Definition mx_holds (m : demux) : list (list Z) :=
  match m with MxPublish payload => [payload] | _ => [] end.

Definition in_holds (i : incoming_pc) : list (list Z) :=
  match i with InSending m _ _ => mx_holds (demux_next m) | _ => [] end.

Definition di_holds (d : dispatcher) : list (list Z) :=
  match d with DiPublish payload _ => [payload] | _ => [] end.

Definition downlink (s : comms) : list (list Z) :=
  dispatched s ++ di_holds (g_di s) ++ mx_holds (g_mx s) ++ in_holds (g_in s) ++ rd_holds (g_rd s).

(** The uplink message a goroutine holds. *)
Definition ou_holds (u : outgoing_pc) : list (list Z) :=
  match u with OuPush payload _ _ _ => [payload] | _ => [] end.

Definition rt_holds (r : redirector) : list (list Z) :=
  match r with RtPush payload _ => [payload] | _ => [] end.

Definition uplink (s : comms) : list (list Z) :=
  (results s).*1 ++ ou_holds (g_ou s) ++ rt_holds (g_rt s).

(** Whether the reader will read again. *)
Definition rd_reads (r : reader) : bool :=
  match r with RdReading | RdSending (InPacket _) => true | _ => false end.

(** The PUSH frames whose tokens completed without error. *)
Definition sent_frames (l : list (list Z * option error)) : list (list Z) :=
  concat ((fun r => match r with (p, None) => [frame (new_push p)] | _ => [] end) <$> l).

(** [f] is what was left of the byte stream when the goroutines started. *)
Record flow (f : flat) (s : comms) : Prop := mkFlow {
  flow_down : downlink s = received_pushes s;
  flow_up : uplink s = accepted s;
  flow_read : rd_reads (g_rd s) = true ->
    push_payloads (packets f) = received_pushes s ++ push_payloads (packets (nc_in (conn s)));
  flow_prefix : received_pushes s `prefix_of` push_payloads (packets f);
  flow_end : rd_reads (g_rd s) = false -> nc_closed (conn s) = false ->
    received_pushes s = push_payloads (packets f);
  flow_sent : sent_frames (results s) `sublist_of` nc_out (conn s);
}.

Lemma start_flow k nc : flow (nc_in nc) (start k nc).
Proof. split; try done; [apply prefix_nil|apply sublist_nil_l]. Qed.

Lemma Packet_Write_in cp nc : nc_in (snd (Packet_Write cp nc)) = nc_in nc.
Proof.
  destruct (Packet_Write_net cp nc) as [cp' ->].
  destruct (nc_closed nc); [done|]. by destruct (nc_fault nc) as [[k e]|].
Qed.

(** A write that succeeds appends the frame; the others append at most a part
    of it. *)
Lemma Packet_Write_out cp nc : exists l,
  nc_out (snd (Packet_Write cp nc)) = nc_out nc ++ l /\
  (snd (fst (Packet_Write cp nc)) = None -> l = [frame cp]).
Proof.
  destruct (Packet_Write_net cp nc) as [cp' ->].
  destruct (nc_closed nc); [by exists []; rewrite app_nil_r|].
  destruct (nc_fault nc) as [[k e]|]; eexists; by split.
Qed.

(** Moves that neither read nor write: the same messages are in flight, in the
    same order. *)
Record calm (s s' : comms) : Prop := mkCalm {
  calm_received : received_pushes s' = received_pushes s;
  calm_down : downlink s' = downlink s;
  calm_up : accepted s' = accepted s /\ uplink s' = uplink s \/
    exists p, accepted s' = accepted s ++ [p] /\ uplink s' = uplink s ++ [p];
  calm_reads : rd_reads (g_rd s') = rd_reads (g_rd s);
  calm_in : nc_in (conn s') = nc_in (conn s);
  calm_out : nc_out (conn s') = nc_out (conn s);
  calm_results : results s' = results s;
  calm_conn : nc_closed (conn s') = false -> nc_closed (conn s) = false;
}.

Lemma flow_calm f s s' : flow f s -> calm s s' -> flow f s'.
Proof.
  intros [] [Hr Hd Ha Hg Hi Ho Hs Hc]. split; rewrite ?Hr, ?Hd, ?Hg, ?Hi, ?Ho, ?Hs; auto.
  destruct Ha as [[-> ->]|(p & -> & ->)]; congruence.
Qed.

Ltac calm_action He :=
  action_cases He; unfold send, close_chan, worker_done; cbn; repeat case_match; cbn;
  split; cbn; try done; unfold downlink, uplink; cbn;
  rewrite ?app_nil_r, <- ?app_assoc; auto.

Lemma exec_incoming_calm l s s' : l <> LRead -> exec_incoming l s = Some s' -> calm s s'.
Proof.
  intros Hl He. destruct s. unfold exec_incoming in He. cbn in He.
  destruct l; try discriminate He; try done.
  2-6: by calm_action He.
  destruct g_rd as [|[e|[]]| |]; by calm_action He.
Qed.

Lemma exec_startComms_calm l s s' : exec_startComms l s = Some s' -> calm s s'.
Proof.
  intros He. destruct s. unfold exec_startComms in He. cbn in He.
  destruct l; try discriminate He; by calm_action He.
Qed.

Lemma exec_outgoing_calm l s s' : l <> LWrite -> exec_outgoing l s = Some s' -> calm s s'.
Proof.
  intros Hl He. destruct s. unfold exec_outgoing in He. cbn in He.
  destruct l; try discriminate He; try done; by calm_action He.
Qed.

Lemma exec_redirector_calm l s s' : exec_redirector l s = Some s' -> calm s s'.
Proof.
  intros He. destruct s. unfold exec_redirector in He. cbn in He.
  destruct l; try discriminate He; calm_action He.
  right. eexists. split; [reflexivity|]. by rewrite <- app_assoc.
Qed.

Lemma exec_delivery_calm n l s s' : exec_delivery n l s = Some s' -> calm s s'.
Proof.
  intros He. destruct s. unfold exec_delivery in He. cbn in He.
  destruct l; try discriminate He; by calm_action He.
Qed.

Lemma exec_dispatch_calm l s s' : exec_dispatch l s = Some s' -> calm s s'.
Proof.
  intros He. destruct s. unfold exec_dispatch in He. cbn in He.
  destruct l; try discriminate He; by calm_action He.
Qed.

Lemma exec_lifetime_calm l s s' : l <> EPing -> exec_lifetime l s = Some s' -> calm s s'.
Proof.
  intros Hl He. destruct s. unfold exec_lifetime in He. cbn in He.
  destruct l; try discriminate He; by calm_action He.
Qed.

(** Only reading, writing a message and the heartbeat touch the connection. *)
Lemma exec_calm n l s s' :
  l <> LRead -> l <> LWrite -> l <> EPing -> exec n l s = Some s' -> calm s s'.
Proof.
  intros Hr Hl Hp He. destruct l; cbn [exec] in He;
    first [by eapply exec_incoming_calm|by eapply exec_startComms_calm|by eapply exec_outgoing_calm
          |by eapply exec_redirector_calm|by eapply exec_delivery_calm|by eapply exec_dispatch_calm|by eapply exec_lifetime_calm].
Qed.

Lemma read_flow f s s' : flow f s -> exec_incoming LRead s = Some s' -> flow f s'.
Proof.
  intros Hf He. destruct Hf as [Hd Hu Hr Hp Hend]. unfold exec_incoming in He.
  destruct (g_rd s) eqn:Hg; try done. specialize (Hr eq_refl).
  rewrite ReadPacket_net in He. destruct (nc_closed (conn s)) eqn:Hc; cbn in He.
  { injection He as <-. split; cbn; try done. 2: congruence.
    unfold downlink in *. cbn. by rewrite Hg in Hd. }
  destruct (ReadPacket (nc_in (conn s))) as [o fl] eqn:Ho. cbn in He. destruct o as [cp|e|]; [| |done].
  - injection He as <-. apply packets_read in Ho. rewrite Ho, push_payloads_cons in Hr.
    assert (Hcp : rd_holds (RdSending (InPacket cp)) = match cp with PPush p => [Payload p] | _ => [] end)
      by done. rewrite <- Hcp. split; cbn -[rd_holds]; try done.
    + unfold downlink in *. rewrite Hg in Hd. cbn in Hd |- *. rewrite app_nil_r in Hd.
      rewrite <- Hd. by rewrite <- !app_assoc.
    + intros _. by rewrite Hr, <- app_assoc.
    + rewrite Hr. rewrite app_assoc. by apply prefix_app_r.
  - assert (Hnil : packets (nc_in (conn s)) = []) by (apply packets_end; by rewrite Ho).
    rewrite Hnil in Hr. cbn in Hr. rewrite app_nil_r in Hr.
    set (rd := if Contains _ _ then _ else _) in He.
    assert (Hrd : rd_reads rd = false /\ rd_holds rd = []) by (subst rd; by case_match).
    destruct Hrd as [Hrd Hh]. injection He as <-. split; cbn; try done.
    + unfold downlink in *. cbn. rewrite Hg in Hd. by rewrite Hh.
    + by rewrite Hrd.
    + destruct (Contains (Error e) "unsupported packet type"); [|done].
      destruct (Packet_Write_out (new_disconnect DiscProtocolViolation)
        (mkNet (nc_all (conn s)) fl (nc_out (conn s)) false (nc_fault (conn s)) (nc_torn (conn s))))
        as (l & Hout & _).
      cbn in Hout |- *. rewrite Hout. by apply sublist_inserts_r.
Qed.

(** After a write of startOutgoingComms. *)
Lemma flow_write f s ou nc res l :
  flow f s -> res.*1 ++ ou_holds ou = (results s).*1 ++ ou_holds (g_ou s) ->
  nc_in nc = nc_in (conn s) -> (nc_closed nc = false -> nc_closed (conn s) = false) ->
  nc_out nc = nc_out (conn s) ++ l -> sent_frames res `sublist_of` sent_frames (results s) ++ l ->
  flow f (set_g_ou ou (set_results res (set_conn nc s))).
Proof.
  intros [Hd Hu Hr Hp Hend Hs] Hh Hi Hc Ho Hl. split; cbn; rewrite ?Hi; auto.
  - unfold uplink in *. cbn. by rewrite app_assoc, Hh, <- app_assoc.
  - rewrite Ho. etransitivity; [exact Hl|]. by apply sublist_app.
Qed.

Lemma write_flow f s s' : flow f s -> exec_outgoing LWrite s = Some s' -> flow f s'.
Proof.
  intros Hf He. unfold exec_outgoing in He.
  assert (Hsame : forall nc, set_conn nc s = set_results (results s) (set_conn nc s)) by (by destruct s).
  assert (Hstay : forall l, sent_frames (results s) `sublist_of` sent_frames (results s) ++ l)
    by (intros l; by apply sublist_inserts_r).
  destruct (g_ou s) as [| pl p o i|cp p o i|cp p o i| |] eqn:Hu; try done.
  - unfold outgoing_push in He. pose proof (Packet_Write_in (new_push pl) (conn s)) as Hi.
    pose proof (Packet_Write_closed (new_push pl) (conn s)) as Hc.
    destruct (Packet_Write_out (new_push pl) (conn s)) as (l & Ho & Hl).
    destruct (Packet_Write (new_push pl) (conn s)) as [[? err] nc]. cbn in Hi, Hc, Ho, Hl.
    assert (exists ou, s' = set_g_ou ou (set_results (results s ++ [(pl, err)]) (set_conn nc s))
              /\ ou_holds ou = []) as (ou & -> & Hh).
    { destruct err as [e|]; cbn in He; [destruct (Contains _ _)|]; simplify_eq;
        eexists; (split; [reflexivity|done]). }
    apply (flow_write f s _ _ _ l); [done|..]; try done; [|congruence|].
    + by rewrite Hh, Hu, fmap_app, app_nil_r.
    + unfold sent_frames. rewrite fmap_app, concat_app. cbn. apply sublist_app; [done|].
      destruct err; [apply sublist_nil_l|by rewrite Hl].
  - unfold outgoing_priority in He. pose proof (Packet_Write_in cp (conn s)) as Hi.
    pose proof (Packet_Write_closed cp (conn s)) as Hc.
    destruct (Packet_Write_out cp (conn s)) as (l & Ho & _).
    destruct (Packet_Write cp (conn s)) as [[? err] nc]. cbn in Hi, Hc, Ho.
    assert (exists ou nc', s' = set_g_ou ou (set_conn nc' s) /\ ou_holds ou = []
              /\ (nc' = nc \/ nc' = net_close nc)) as (ou & nc' & -> & Hh & Hn).
    { destruct err as [e|]; [|destruct cp]; cbn in He; simplify_eq; eexists _, _;
        (split; [reflexivity|]); eauto. }
    rewrite Hsame. apply (flow_write f s _ _ _ l); [done|..]; try done.
    + by rewrite Hh, Hu.
    + by destruct Hn as [-> | ->].
    + destruct Hn as [-> | ->]; [congruence|done].
    + by destruct Hn as [-> | ->].
  - pose proof (Packet_Write_in cp (conn s)) as Hi. pose proof (Packet_Write_closed cp (conn s)) as Hc.
    destruct (Packet_Write_out cp (conn s)) as (l & Ho & _).
    destruct (Packet_Write cp (conn s)) as [[? err] nc]. cbn in Hi, Hc, Ho.
    assert (Hh : ou_holds (after_write err p o i) = []) by (by destruct err).
    simplify_eq. rewrite Hsame. apply (flow_write f s _ _ _ l); [done|..]; try done; [|congruence].
    by rewrite Hh, Hu.
Qed.

Lemma ping_flow f s s' : flow f s -> exec_lifetime EPing s = Some s' -> flow f s'.
Proof.
  intros Hf He. unfold exec_lifetime in He. destruct (g_kp s); [|done]. injection He as <-.
  assert (Hsame : forall nc, set_conn nc s = set_g_ou (g_ou s) (set_results (results s) (set_conn nc s)))
    by (by destruct s).
  destruct (Packet_Write_out new_pingreq (conn s)) as (l & Ho & _).
  rewrite Hsame. apply (flow_write f s _ _ _ l); try done.
  - exact (Packet_Write_in new_pingreq (conn s)).
  - intros Hc. by rewrite <- (Packet_Write_closed new_pingreq (conn s)).
  - by apply sublist_inserts_r.
Qed.

Lemma exec_flow n f l s s' : flow f s -> exec n l s = Some s' -> flow f s'.
Proof.
  intros Hf He.
  destruct (decide (l = LRead)) as [->|Hr]; [by eapply read_flow|].
  destruct (decide (l = LWrite)) as [->|Hl]; [by eapply write_flow|].
  destruct (decide (l = EPing)) as [->|Hp]; [by eapply ping_flow|].
  apply (flow_calm f s); [done|]. by apply (exec_calm n l).
Qed.

Lemma flow_reachable n k nc s : comms_reachable n k nc s -> flow (nc_in nc) s.
Proof.
  unfold comms_reachable. apply (rtc_ind_r (flow (nc_in nc))); [apply start_flow|].
  intros x y _ [l He] Hw. by eapply exec_flow.
Qed.

(** ** The calls of the handlers *)

(** With [n] handlers, a message that dispatch took is worth one call of each, made or
    still to be made; and the goroutine that drops acknowledgements goes last. *)
Record calls_inv (n : nat) (s : comms) : Prop := mkCallsInv {
  ci_calls : hc_called (hcalls s) ++ hc_ready (hcalls s) ≡ₚ calls_of n (dispatched s);
  ci_over : g_ak s = AkDone -> g_hp s = HpDone /\ running (hcalls s) = 0;
}.

(** The actions that concern the handlers. *)
Definition handles (l : label) : bool :=
  match l with LIncomingPub | LHandlerCall _ | EHandlerDone _ | LAckCopyEnd => true | _ => false end.

(** All cases of an action. *)
Ltac exec_cases He :=
  unfold exec, exec_incoming, exec_startComms, exec_outgoing, exec_redirector, exec_delivery,
    exec_dispatch, exec_lifetime in He; cbn in He; repeat (case_match; simplify_eq/=; try done);
  simplify_eq/=.

Ltac step_cases :=
  unfold close_chan, send, worker_done; repeat (case_match; cbn in *; try done); try done.

(** The others leave the calls alone. *)
Lemma exec_handles_not n l s s' :
  handles l = false -> exec n l s = Some s' ->
  hcalls s' = hcalls s /\ dispatched s' = dispatched s /\
  (g_hp s = HpDone -> g_hp s' = HpDone) /\ (g_ak s' = AkDone -> g_ak s = AkDone).
Proof. intros Hl He. destruct s, l; try done; exec_cases He; step_cases. Qed.

Lemma exec_calls_inv n l s s' : calls_inv n s -> exec n l s = Some s' -> calls_inv n s'.
Proof.
  intros [Hc Ho] He. destruct (handles l) eqn:Hl.
  2: { destruct (exec_handles_not n l s s' Hl He) as (Hh & Hd & Hp & Hk). split; rewrite Hh, ?Hd; [done|].
       intros Ha. destruct (Ho (Hk Ha)). auto. }
  destruct l; try done; cbn [exec] in He.
  - unfold exec_delivery in He. destruct (g_di s) as [|payload err|]; try done.
    destruct (g_hp s) eqn:Hp; try done. simplify_eq. unfold send.
    assert (Hno : g_ak s <> AkDone) by (intros Ha; by destruct (Ho Ha)).
    destruct (ch_closed s ChIncomingPub); split; cbn; try done.
    rewrite calls_of_app, calls_of_one, app_assoc. by rewrite Hc.
  - unfold exec_dispatch in He. destruct (g_hp s) eqn:Hp, (g_ak s) eqn:Ha; try done.
    destruct (Nat.eqb_spec (running (hcalls s)) 0); [|done]. simplify_eq. by split.
  - unfold exec_dispatch in He. destruct (call_handler i (hcalls s)) as [h|] eqn:Hh; [|by destruct (g_hp s), (g_ak s)].
    destruct (call_handler_moves _ _ _ Hh) as (Hp & Hr & _).
    assert (s' = set_hcalls h s) as -> by (destruct (g_hp s), (g_ak s); by simplify_eq).
    split; cbn; [by rewrite Hp|]. by rewrite Hr.
  - unfold exec_dispatch in He. destruct (handler_returns i (hcalls s)) as [h|] eqn:Hh; [|by destruct (g_hp s), (g_ak s)].
    destruct (handler_returns_keeps _ _ _ Hh) as (H1 & H2 & Hr).
    assert (s' = set_hcalls h s) as -> by (destruct (g_hp s), (g_ak s); by simplify_eq).
    split; cbn; [by rewrite H1, H2|]. intros Ha. destruct (Ho Ha). lia.
Qed.

Lemma calls_inv_reachable n k nc s : comms_reachable n k nc s -> calls_inv n s.
Proof.
  unfold comms_reachable. apply (rtc_ind_r (calls_inv n)); [by split|].
  intros x y _ [l He] Hw. by eapply exec_calls_inv.
Qed.

(** No handler is called for a message dispatch did not take, or twice for one. *)
Lemma called_once n s : calls_inv n s -> hc_called (hcalls s) ⊆+ calls_of n (dispatched s).
Proof. intros [Hc _]. rewrite <- Hc. by apply submseteq_inserts_r. Qed.

Lemma heard_all n s i :
  calls_inv n s -> hc_ready (hcalls s) = [] -> i < n -> heard i s ≡ₚ dispatched s.
Proof.
  intros [Hc _] Hr Hi. rewrite Hr, app_nil_r in Hc. unfold heard. rewrite Hc. by rewrite heard_by_calls.
Qed.

(** A handler hears no more than dispatch took. *)
Lemma heard_part n s i : calls_inv n s -> i < n -> heard i s ⊆+ dispatched s.
Proof.
  intros [Hc _] Hi. rewrite <- (heard_by_calls i n (dispatched s)) by done. unfold heard.
  rewrite <- Hc, heard_by_app. by apply submseteq_inserts_r.
Qed.
