(* ===== verification/ClientCommsProps.v ===== *)
(** * The client's goroutines: the theorems

    The goroutines behind one connection come to rest, what is left when they
    do, and that stopCommsWorkers returns only when all of them are gone. *)

From Stdlib Require Import ZArith Lia String Wf_nat.
From stdpp Require Import base list strings gmap numbers relations.
From S2P Require Import Prelude GoIO Codec CodecFacts GoTime Store Server ServerFacts ServerDrain.
From S2P Require Import ServerProps ServerSpec Wire ClientOptions ClientNet HandlerCalls.
From S2P Require Import ClientComms ClientCommsFacts.

Local Open Scope nat_scope.

(** ** A measure that every move of the client's goroutines decreases

    A message weighs less the further it has come, and carries the weight of the
    calls of the [n] handlers it will start; a byte that was not read yet weighs more
    than any message. *)

Definition reader_weight (n : nat) (r : reader) (unread : nat) : nat :=
  match r with
  | RdReading => 12 + (8 + n) * unread
  | RdSending (InPacket _) => 19 + (8 + n) * unread
  | RdSending (InErr _) => 9
  | RdClosing => 1
  | RdDone => 0
  end.

Definition incoming_weight (i : incoming_pc) : nat :=
  match i with
  | InWaiting a b => 1 + Nat.b2n a + Nat.b2n b
  | InCalling _ a b => 2 + Nat.b2n a + Nat.b2n b
  | InSending _ a b => 7 + Nat.b2n a + Nat.b2n b
  | InDone => 0
  end.

Definition demux_weight (m : demux) : nat :=
  match m with
  | MxReceiving => 3 | MxError _ | MxOutbound _ | MxPublish _ => 8
  | MxClosing => 2 | MxClosing2 => 1 | MxDone => 0
  end.

Definition forwarder_weight (f : forwarder) : nat :=
  match f with FeReceiving => 1 | FeSending _ => 2 | FeDone => 0 end.

Definition outgoing_weight (u : outgoing_pc) : nat :=
  let flags p o i := 1 + Nat.b2n p + Nat.b2n o + Nat.b2n i in
  match u with
  | OuWaiting p o i => flags p o i
  | OuPush _ p o i | OuPriority _ p o i | OuIncoming _ p o i => 3 + flags p o i
  | OuError _ p o i => 2 + flags p o i
  | OuDone => 0
  end.

Definition redirector_weight (r : redirector) : nat :=
  match r with
  | RtSelect a => 5 + Nat.b2n a
  | RtPriority _ a | RtPush _ a => 9 + Nat.b2n a
  | RtDrain => 4 | RtClosing => 3 | RtClosing2 => 2 | RtDone => 0
  end.

Definition dispatcher_weight (d : dispatcher) : nat :=
  match d with
  | DiWaiting a b => 1 + Nat.b2n a + Nat.b2n b
  | DiPublish _ b => 5 + Nat.b2n b
  | DiDone => 0
  end.

Definition handler_weight (h : handler_pc) : nat :=
  match h with
  | HpReceiving => 4 | HpStopping => 3 | HpWaiting => 2 | HpClosing => 1 | HpDone => 0
  end.

Definition ackcopy_weight (a : ackcopy) : nat :=
  match a with AkLoop => 2 | AkDropping => 1 | AkDone => 0 end.

Definition stopper_weight (p : stopper) : nat :=
  match p with SpIdle | SpClosing => 3 | SpWorkers => 2 | SpComms => 1 | SpDone => 0 end.

(** The calls of handlers that are still to come. *)
Definition calls_weight (n : nat) (s : comms) : nat :=
  n * length (rd_holds (g_rd s)) + n * length (in_holds (g_in s)) + n * length (mx_holds (g_mx s)) +
  n * length (di_holds (g_di s)) + length (hc_ready (hcalls s)).

Definition weight (n : nat) (s : comms) : nat :=
  calls_weight n s + reader_weight n (g_rd s) (length (fl_bytes (nc_in (conn s)))) + incoming_weight (g_in s) +
  demux_weight (g_mx s) + forwarder_weight (g_fe s) + Nat.b2n (g_cl s) + outgoing_weight (g_ou s) +
  redirector_weight (g_rt s) + dispatcher_weight (g_di s) + handler_weight (g_hp s) +
  ackcopy_weight (g_ak s) + Nat.b2n (g_kp s) + Nat.b2n (g_cn s) + stopper_weight (g_sp s).

(** Of a move, after the sends and closes are known not to panic. *)
Ltac weigh :=
  unfold weight, calls_weight; cbn;
  repeat match goal with b : bool |- _ => destruct b end; cbn;
  rewrite ?length_app, ?calls_of_message_length; lia.

Ltac action_weight Hw He := action_cases He; wf_action Hw; try weigh.

Lemma read_weight n s s' : exec_incoming LRead s = Some s' -> weight n s' < weight n s.
Proof.
  intros He. unfold exec_incoming in He. destruct (g_rd s) eqn:Hg; try done.
  pose proof (ReadPacket_unread (conn s)) as Hu.
  destruct (ReadPacket (conn s)) as [[cp|e|] nc]; [| |done].
  - injection He as <-. specialize (Hu cp nc eq_refl).
    assert (Hh : length (rd_holds (RdSending (InPacket cp))) <= 1) by (destruct cp; cbn; lia).
    unfold weight, calls_weight. cbn -[rd_holds Nat.mul]. rewrite Hg. cbn -[rd_holds Nat.mul]. nia.
  - injection He as <-. unfold weight, calls_weight. cbn. rewrite Hg.
    destruct (Contains _ closedNetConnErrorText); cbn; lia.
Qed.

Lemma exec_incoming_weight n l s s' : wf s -> exec_incoming l s = Some s' -> weight n s' < weight n s.
Proof.
  intros Hw. destruct (decide (l = LRead)) as [->|Hl]; [apply read_weight|].
  intros He. destruct s. unfold exec_incoming in He. cbn in He.
  destruct l; try discriminate He; try done; action_weight Hw He.
  destruct cp; weigh.
Qed.

Lemma exec_startComms_weight n l s s' : wf s -> exec_startComms l s = Some s' -> weight n s' < weight n s.
Proof.
  intros Hw He. destruct s. unfold exec_startComms in He. cbn in He.
  destruct l; try discriminate He; action_weight Hw He.
  destruct m as [[e|] [cp|] [pl|]]; weigh.
Qed.

Lemma after_write_weight err p o i :
  outgoing_weight (after_write err p o i) < 4 + Nat.b2n p + Nat.b2n o + Nat.b2n i.
Proof. destruct err; cbn; lia. Qed.

Lemma outgoing_priority_in cp nc : nc_in (out_conn (outgoing_priority cp nc)) = nc_in nc.
Proof.
  unfold outgoing_priority. rewrite <- (Packet_Write_in cp nc).
  destruct (Packet_Write cp nc) as [[? [e|]] nc']; [done|]. by destruct cp.
Qed.

Lemma outgoing_push_in p nc : nc_in (out_conn (outgoing_push p nc)) = nc_in nc.
Proof.
  unfold outgoing_push. rewrite <- (Packet_Write_in (new_push p) nc).
  by destruct (Packet_Write (new_push p) nc) as [[? [e|]] nc'].
Qed.

Lemma write_weight n s s' : exec_outgoing LWrite s = Some s' -> weight n s' < weight n s.
Proof.
  intros He. unfold exec_outgoing in He.
  destruct (g_ou s) as [| pl p o i|cp p o i|cp p o i| |] eqn:Hu; try done.
  - simplify_eq. pose proof (after_write_weight (reported (outgoing_push pl (conn s))) p o i).
    unfold weight, calls_weight. cbn -[outgoing_push]. rewrite outgoing_push_in, Hu. cbn. lia.
  - simplify_eq. pose proof (after_write_weight (reported (outgoing_priority cp (conn s))) p o i).
    unfold weight, calls_weight. cbn -[outgoing_priority]. rewrite outgoing_priority_in, Hu. cbn. lia.
  - pose proof (Packet_Write_in cp (conn s)) as Hi.
    destruct (Packet_Write cp (conn s)) as [[? err] nc]. cbn in Hi. simplify_eq.
    pose proof (after_write_weight err p o i). unfold weight, calls_weight. cbn. rewrite Hi, Hu. cbn. lia.
Qed.

Lemma exec_outgoing_weight n l s s' : wf s -> exec_outgoing l s = Some s' -> weight n s' < weight n s.
Proof.
  intros Hw He. destruct (decide (l = LWrite)) as [->|Hl]; [by apply write_weight|].
  destruct s. unfold exec_outgoing in He. cbn in He.
  destruct l; try discriminate He; try done; action_weight Hw He.
Qed.

Lemma exec_redirector_weight n l s s' :
  wf s -> is_own l = true -> exec_redirector l s = Some s' -> weight n s' < weight n s.
Proof.
  intros Hw Hl He. destruct s. unfold exec_redirector in He. cbn in He.
  destruct l; try discriminate He; try discriminate Hl; action_cases He;
    pose proof (wf_workers _ Hw) as Hn; cbn in Hn; wf_action Hw;
    try (destruct workers; [lia|]); weigh.
Qed.

Lemma exec_delivery_weight n l s s' : wf s -> exec_delivery n l s = Some s' -> weight n s' < weight n s.
Proof.
  intros Hw He. destruct s. unfold exec_delivery in He. cbn in He.
  destruct l; try discriminate He; action_weight Hw He.
Qed.

Lemma exec_call i s :
  exec_dispatch (LHandlerCall i) s =
  match call_handler i (hcalls s) with Some h => Some (set_hcalls h s) | None => None end.
Proof. unfold exec_dispatch. by destruct (g_hp s), (g_ak s). Qed.

Lemma call_weight n i s s' : exec_dispatch (LHandlerCall i) s = Some s' -> weight n s' < weight n s.
Proof.
  rewrite exec_call. destruct (call_handler i (hcalls s)) as [h|] eqn:Hh; [|done]. intros He. simplify_eq.
  destruct (call_handler_moves _ _ _ Hh) as (_ & _ & Hl). unfold weight, calls_weight. cbn. lia.
Qed.

Lemma call_action l : (exists i, l = LHandlerCall i) \/ forall i, l <> LHandlerCall i.
Proof. destruct l; eauto; by right. Qed.

Lemma exec_dispatch_weight n l s s' :
  wf s -> is_own l = true -> exec_dispatch l s = Some s' -> weight n s' < weight n s.
Proof.
  intros Hw Hl He. destruct (call_action l) as [[i ->]|Hno]; [by eapply call_weight|].
  destruct s. unfold exec_dispatch in He. cbn in He.
  destruct l; try discriminate He; try discriminate Hl; try (by destruct (Hno i)); action_weight Hw He.
Qed.

Lemma exec_lifetime_weight n l s s' :
  wf s -> is_own l = true -> exec_lifetime l s = Some s' -> weight n s' < weight n s.
Proof.
  intros Hw Hl He. destruct s. unfold exec_lifetime in He. cbn in He.
  destruct l; try discriminate He; try discriminate Hl; action_cases He;
    pose proof (wf_workers _ Hw) as Hn; cbn in Hn; wf_action Hw;
    try (destruct g_kp; [|done]; cbn in Hn; destruct workers; [lia|]); weigh.
Qed.

Lemma own_step_weight n s s' : wf s -> own_step n s s' -> weight n s' < weight n s.
Proof.
  intros Hw (l & Hl & He). destruct l; cbn [exec] in He; try discriminate Hl;
    first [by eapply exec_incoming_weight|by eapply exec_startComms_weight
          |by eapply exec_outgoing_weight|by eapply exec_redirector_weight
          |by eapply exec_delivery_weight|by eapply exec_dispatch_weight|by eapply exec_lifetime_weight].
Qed.

Lemma own_step_wf n s s' : wf s -> own_step n s s' -> wf s'.
Proof. intros Hw (l & _ & He). by eapply exec_wf. Qed.

Lemma own_steps_bounded n k s s' : wf s -> nsteps (own_step n) k s s' -> k + weight n s' <= weight n s.
Proof.
  intros Hw Hs. induction Hs as [|k x y z Hxy Hyz IH]; [done|].
  specialize (IH (own_step_wf _ _ _ Hw Hxy)). apply (own_step_weight _ _ _ Hw) in Hxy. lia.
Qed.

(** ** What is left when no goroutine of the client can move *)

Section stuck.
Context (n : nat) (s : comms) (Hw : wf s).
Context (Hst : forall l, is_own l = true -> exec n l s = None).

(** Action [l] is possible, by the program counters known so far. *)
Local Ltac fires l :=
  exfalso; let H := fresh "H" in
  pose proof (Hst l eq_refl) as H; cbn [exec] in H;
  unfold exec_incoming, exec_startComms, exec_outgoing, exec_redirector, exec_delivery,
    exec_dispatch, exec_lifetime in H; cbv beta iota in H;
  rewrite ?(wf_closed _ Hw) in H; cbn [closed_by] in H;
  repeat match goal with E : _ s = _ |- _ => rewrite E in H end;
  cbn in H; try discriminate H.

(** The field [p] of the invariant, at the program counters known so far. *)
Local Ltac field p :=
  let H := fresh "H" in pose proof (p _ Hw) as H;
  repeat match goal with E : _ s = _ |- _ => rewrite E in H end; cbn in H.

Lemma stuck_cn : g_cn s = false.
Proof. destruct (g_cn s) eqn:E; [|done]. fires LConnectEnd. Qed.

Lemma stuck_di : exists a b, g_di s = DiWaiting a b \/ g_di s = DiDone.
Proof.
  destruct (g_di s) eqn:E; [by exists pub, err; left| |by exists true, true; right].
  field wf_hp. destruct (g_hp s) eqn:Eh; [|done..]. fires LIncomingPub.
Qed.

(** The errors have a taker as long as somebody can report one. *)
Lemma stuck_takes : g_cl s = true -> takes_errors (g_di s) = true.
Proof.
  intros Hc. field wf_di_err. destruct stuck_di as (a & b & [E|E]); rewrite E in *; by destruct b.
Qed.

Lemma stuck_fe : g_fe s = FeReceiving \/ g_fe s = FeDone.
Proof.
  destruct (g_fe s) eqn:E; auto. field wf_cl. destruct (g_cl s) eqn:Ec.
  - pose proof (stuck_takes Ec) as Ht. fires LFeError. by rewrite Ht in H0.
  - by rewrite andb_false_r in H.
Qed.

Lemma stuck_ou : (exists p o i, g_ou s = OuWaiting p o i) \/ g_ou s = OuDone.
Proof.
  destruct (g_ou s) eqn:E; eauto; [fires LWrite..|].
  - destruct (Packet_Write cp (conn s)) as [[? ?] ?]. done.
  - destruct stuck_fe as [Ef|Ef]; [fires LOboundErr|]. field wf_fe. done.
Qed.

Lemma stuck_mx : g_mx s = MxReceiving \/ g_mx s = MxDone.
Proof.
  destruct (g_mx s) eqn:E; auto.
  - field wf_cl. destruct (g_cl s) eqn:Ec; [|done].
    pose proof (stuck_takes Ec) as Ht. fires LMxError. by rewrite Ht in H0.
  - field wf_ou_i. destruct stuck_ou as [(x & y & z & Eu)|Eu]; rewrite Eu in H; [|done].
    destruct z; [|done]. fires LFromIncoming.
  - field wf_di_pub. destruct stuck_di as (a & b & [Ed|Ed]); rewrite Ed in H; [|done].
    destruct a; [|done]. fires LPublish.
  - fires LMxClose.
  - fires LMxEnd.
Qed.

Lemma stuck_in : (exists b, g_in s = InWaiting false b) \/ g_in s = InDone.
Proof.
  destruct (g_in s) eqn:E; eauto.
  - left. destruct store; [|eauto]. pose proof stuck_cn as Ec. fires LStoreClosed.
  - fires LCloseConnect.
  - destruct stuck_mx as [Em|Em]; [fires LOutput|]. field wf_mx. done.
Qed.

Lemma stuck_rd : g_rd s = RdDone.
Proof.
  destruct (g_rd s) eqn:E; [| | |done].
  - pose proof (ReadPacket_net_total (conn s)) as Ht. fires LRead.
    by destruct (ReadPacket (conn s)) as [[| |] ?].
  - field wf_ib. destruct stuck_in as [[b Ei]|Ei]; rewrite Ei in H; [|done].
    destruct b; [|done]. fires LIbound.
  - fires LReadEnd.
Qed.

Lemma stuck_in_done : g_in s = InDone.
Proof.
  pose proof stuck_rd as Er. destruct stuck_in as [[[] Ei]|Ei]; [fires LIboundClosed| |done].
  fires LIncomingEnd.
Qed.

Lemma stuck_mx_done : g_mx s = MxDone.
Proof.
  pose proof stuck_in_done as Ei. destruct stuck_mx as [Em|Em]; [|done]. fires LOutputClosed.
Qed.

Lemma stuck_di_pub : (exists b, g_di s = DiWaiting false b) \/ g_di s = DiDone.
Proof.
  pose proof stuck_mx_done as Em. destruct stuck_di as ([] & b & [Ed|Ed]); eauto.
  fires LPublishClosed.
Qed.

Lemma stuck_hp : g_hp s = HpDone.
Proof.
  pose proof stuck_di_pub as Hd. destruct (g_hp s) eqn:E; [| | | |done].
  - destruct Hd as [[b Ed]|Ed]; fires LIncomingPubClosed.
  - fires LStopAck.
  - destruct (g_ak s) eqn:Ea; [fires LAckCopyStop|fires LAckStopped..].
  - fires LCloseAckOut.
Qed.

Lemma stuck_ak : g_ak s <> AkLoop.
Proof. pose proof stuck_hp as Eh. intros E. fires LAckCopyStop. Qed.

(** Every handler has been called; when the calls have returned, nothing of dispatch
    is left. *)
Lemma stuck_calls : hc_ready (hcalls s) = [].
Proof.
  apply call_handler_stuck. pose proof (Hst (LHandlerCall 0) eq_refl) as H. cbn [exec] in H.
  rewrite exec_call in H. by destruct (call_handler 0 (hcalls s)).
Qed.

Lemma stuck_ak_done : hc_inside (hcalls s) = [] -> g_ak s = AkDone.
Proof.
  intros Hi. pose proof stuck_hp as Eh. pose proof stuck_ak as Ea. destruct (g_ak s) eqn:E; try done.
  assert (Hrun : running (hcalls s) = 0) by (unfold running; by rewrite stuck_calls, Hi).
  fires LAckCopyEnd. by rewrite Hrun in H.
Qed.

Lemma stuck_rt : g_rt s = RtSelect false \/ g_rt s = RtDone.
Proof.
  pose proof stuck_hp as Eh. destruct (g_rt s) as [[]|cp a|pl a| | | |] eqn:E; auto.
  - fires LAckClosed.
  - field wf_ou_p. destruct stuck_ou as [(x & y & z & Eu)|Eu]; rewrite Eu in H; [|done].
    destruct x; [|done]. fires LSendOboundP.
  - field wf_ou_o. destruct stuck_ou as [(x & y & z & Eu)|Eu]; rewrite Eu in H; [|done].
    destruct y; [|done]. fires LSendObound.
  - fires LDrained.
  - fires LRtClose.
  - fires LRtEnd.
Qed.

(** Nothing is in flight. *)
Lemma stuck_empty : downlink s = dispatched s /\ uplink s = (results s).*1.
Proof.
  unfold downlink, uplink. rewrite stuck_rd, stuck_in_done, stuck_mx_done.
  destruct stuck_di_pub as [[b ->]| ->], stuck_ou as [(x & y & z & ->)| ->], stuck_rt as [-> | ->];
    cbn; by rewrite ?app_nil_r.
Qed.

(** Once stopCommsWorkers was called, it has returned. *)
Lemma stuck_stopped : g_sp s <> SpIdle -> g_sp s = SpDone.
Proof.
  intros Hs. assert (Hrt : g_rt s = RtDone).
  { destruct stuck_rt as [E|E]; [|done]. destruct (g_sp s) eqn:Es; [done|fires LStop..]. }
  assert (Hkp : g_kp s = false).
  { destruct (g_kp s) eqn:Ek; [|done]. destruct (g_sp s) eqn:Es; [done|fires LKeepaliveStop..]. }
  assert (Hou : g_ou s = OuDone).
  { destruct stuck_ou as [([] & o & i & E)|E]; [fires LOboundPClosed| |done].
    destruct o; [fires LOboundClosed|]. pose proof stuck_mx_done as Em.
    destruct i; [fires LFromIncomingClosed|fires LOutgoingEnd]. }
  assert (Hfe : g_fe s = FeDone).
  { destruct stuck_fe as [E|E]; [|done]. fires LOboundErrClosed. }
  pose proof stuck_mx_done as Em.
  assert (Hcl : g_cl s = false).
  { destruct (g_cl s) eqn:Ec; [|done]. fires LCloseOutError. }
  assert (Hdi : g_di s = DiDone).
  { destruct stuck_di_pub as [[[] E]|E]; [fires LOutErrorClosed|fires LCommsStopped|done]. }
  assert (Hn : workers s = 0) by (rewrite (wf_workers _ Hw), Hrt, Hkp; done).
  destruct (g_sp s) eqn:Es; [done|fires LCloseConn|fires LWorkersWait|fires LCommsWait|done].
Qed.

End stuck.

(** ** The theorems *)

(** What startWorkers and startComms started has ended and the connection is closed.
    Of what dispatch started, only the calls of handlers that have not returned may be
    left, and the goroutine that drops acknowledgements, which waits for them. *)
Definition wound_down (s : comms) : Prop :=
  g_rd s = RdDone /\ g_in s = InDone /\ g_mx s = MxDone /\ g_fe s = FeDone /\ g_cl s = false /\
  g_ou s = OuDone /\ g_rt s = RtDone /\ g_di s = DiDone /\ g_hp s = HpDone /\
  (g_ak s = AkDropping \/ g_ak s = AkDone /\ running (hcalls s) = 0) /\
  g_kp s = false /\ g_cn s = false /\ workers s = 0 /\ nc_closed (conn s) = true.

(** The program counters that the invariant determines once c.commsStopped is closed
    and no worker is left. *)
Lemma workers_gone_wound_down n s :
  wf s -> calls_inv n s -> sp_closed (g_sp s) = true -> workers s = 0 -> g_di s = DiDone -> wound_down s.
Proof.
  intros [] [_ Ho] Hs Hn Hd. rewrite Hs, Hn, Hd in *. cbn in *. unfold wound_down. rewrite Hn, Hd.
  destruct (g_cl s); [done|]. destruct (g_mx s); try done. destruct (g_fe s); try done. cbn in *.
  destruct (g_in s) as [[] []|? [] []|? [] []|]; try done. destruct (g_rd s); try done. cbn in *.
  destruct (g_cn s); [done|]. destruct (g_ou s); try done. destruct (g_rt s); cbn in *; try lia.
  destruct (g_hp s); try done. cbn in *.
  assert (Hk : g_ak s = AkDropping \/ g_ak s = AkDone /\ running (hcalls s) = 0).
  { destruct (g_ak s); try done; [by left|right]. split; [done|]. by apply Ho. }
  destruct (g_kp s); cbn in *; try lia; done.
Qed.

Lemma done_wound_down n s : wf s -> calls_inv n s -> g_sp s = SpDone -> wound_down s.
Proof.
  intros Hw Hc Hs. apply (workers_gone_wound_down n); [done|done|by rewrite Hs| |].
  - apply Nat.eqb_eq. pose proof (wf_sp_workers _ Hw) as Hn. rewrite Hs in Hn. exact Hn.
  - pose proof (wf_sp_comms _ Hw) as Hn. rewrite Hs in Hn. cbn in Hn. by destruct (g_di s).
Qed.

(** C16: whatever the interleaving of the client's goroutines with the server,
    the application and the network, no channel is closed twice or sent on after
    it was closed and the WaitGroup never goes below zero, so the client does
    not panic; and when stopCommsWorkers reports completion, the connection is
    closed and the goroutines of startWorkers, startComms and its loops, keepalive and
    the receiving goroutine of dispatch have ended: what may be left is calls of
    handlers that have not returned or are about to be made, and, until they have
    returned, the goroutine of dispatch that drops acknowledgements. *)
Theorem comms_safe (n : nat) (k : bool) (nc : netconn) (s : comms) :
  comms_reachable n k nc s -> panicked s = false /\ (g_sp s = SpDone -> wound_down s).
Proof.
  intros Hr. pose proof (calls_inv_reachable _ _ _ _ Hr) as Hc. apply wf_reachable in Hr.
  split; [apply (wf_panic _ Hr)|by apply (done_wound_down n)].
Qed.

(** C21: along the whole client, messages are neither duplicated nor invented and
    keep their order up to dispatch: the messages for which dispatch has started the
    goroutines of the handlers are a prefix of the payloads of the PUSH packets in the
    server's byte stream, and the calls these goroutines have made, in whatever order,
    are some of one call per handler and message; the tokens completed so far belong to
    a prefix of the messages accepted from Push, and the messages whose tokens report
    success were written to the connection as complete frames, in the same order. *)
Theorem comms_in_order (n : nat) (k : bool) (nc : netconn) (s : comms) :
  comms_reachable n k nc s ->
  dispatched s `prefix_of` push_payloads (packets (nc_in nc)) /\
  hc_called (hcalls s) ⊆+ calls_of n (dispatched s) /\
  (results s).*1 `prefix_of` accepted s /\
  sent_frames (results s) `sublist_of` nc_out (conn s).
Proof.
  intros Hr. pose proof (called_once _ _ (calls_inv_reachable _ _ _ _ Hr)) as Hc.
  apply flow_reachable in Hr. destruct Hr as [Hd Hu _ Hp _ Hs]. split; [|split; [done|split; [|done]]].
  - etransitivity; [|exact Hp]. rewrite <- Hd. by apply prefix_app_r.
  - rewrite <- Hu. by apply prefix_app_r.
Qed.

(** C11: the client's goroutines cannot deadlock or spin: from every reachable
    state they make boundedly many moves, and when none of them can move any
    more, every PUSH that was read has been handed to every handler, once (all that the
    server sent, unless the connection was closed), every accepted message has
    its token completed, stopCommsWorkers, if it was called, has returned, and the
    last goroutine of dispatch has ended unless a handler has not returned. *)
Theorem comms_come_to_rest (n : nat) (k : bool) (nc : netconn) (s : comms) :
  comms_reachable n k nc s ->
  (forall m s', nsteps (own_step n) m s s' -> m <= weight n s) /\
  (forall s', rtc (own_step n) s s' -> nf (own_step n) s' ->
    dispatched s' = received_pushes s' /\
    hc_called (hcalls s') ≡ₚ calls_of n (received_pushes s') /\
    (nc_closed (conn s') = false -> dispatched s' = push_payloads (packets (nc_in nc))) /\
    (results s').*1 = accepted s' /\
    (g_sp s' <> SpIdle -> wound_down s') /\
    (hc_inside (hcalls s') = [] -> g_ak s' = AkDone)).
Proof.
  intros Hr. pose proof (wf_reachable _ _ _ _ Hr) as Hw. split.
  - intros m s' Hs. apply (own_steps_bounded _ _ _ _ Hw) in Hs. lia.
  - intros s' Hs Hnf.
    assert (Hr' : comms_reachable n k nc s').
    { unfold comms_reachable in *. etransitivity; [exact Hr|].
      eapply rtc_subrel; [|exact Hs]. intros x y (l & _ & He). by exists l. }
    assert (Hst : forall l, is_own l = true -> exec n l s' = None).
    { intros l Hl. destruct (exec n l s') eqn:He; [|done]. exfalso. apply Hnf. eexists. by exists l. }
    pose proof (calls_inv_reachable _ _ _ _ Hr') as Hci.
    apply wf_reachable in Hr' as Hw'. apply flow_reachable in Hr'.
    destruct (stuck_empty n s' Hw' Hst) as [Hd Hu]. destruct Hr' as [Hd' Hu' _ _ Hend _].
    assert (Hdis : dispatched s' = received_pushes s') by congruence. split; [done|].
    rewrite <- Hu', Hu, <- Hdis. split; [|split; [|split; [done|split]]].
    + destruct Hci as [Hc _]. by rewrite (stuck_calls n s' Hst), app_nil_r in Hc.
    + intros Hc. rewrite Hdis. apply Hend; [|done]. by rewrite (stuck_rd n s' Hw' Hst).
    + intros Hsp. apply (done_wound_down n); [done..|]. by apply (stuck_stopped n s').
    + by apply (stuck_ak_done n s').
Qed.

(** ** Witnesses *)

Definition demo_conn : netconn := peer_sends (frame (PPush sample_push) ++ frame new_pingresp).

(** One message down, one up, an error from the reader, and a shutdown; the handler
    returns when everything else has ended. *)
Definition demo_traffic : list label :=
  [LConnectEnd; LRead; LIbound; LRead; LOutput; LPublish; LIncomingPub; EPush [1%Z; 2%Z];
   LSendObound; LWrite; LHandlerCall 0; LIbound; LRead; LIbound; LOutput; LMxError].

Definition demo_shutdown : list label :=
  [EStop; LCloseConn; LReadEnd; LStoreClosed; LIboundClosed; LIncomingEnd; LOutputClosed; LMxClose;
   LMxEnd; LPublishClosed; LIncomingPubClosed; LStop; LStopAck; LAckCopyStop; LAckStopped;
   LCloseAckOut; LDrained; LRtClose; LRtEnd; LOboundPClosed; LOboundClosed; LFromIncomingClosed;
   LOutgoingEnd; LOboundErrClosed; LCloseOutError; LOutErrorClosed; LCommsStopped; LKeepaliveStop;
   LWorkersWait; LCommsWait; EHandlerDone 0; LAckCopyEnd].

Definition demo_end (ls : list label) : comms := default (start true demo_conn)
  (comms_run 1 ls (start true demo_conn)).

Lemma comms_demo_reachable ls : is_Some (comms_run 1 ls (start true demo_conn)) ->
  comms_reachable 1 true demo_conn (demo_end ls).
Proof.
  intros [s Hs]. unfold demo_end, comms_reachable. rewrite Hs. by apply comms_run_steps in Hs.
Qed.

Lemma comms_safe_witness :
  panicked (demo_end (demo_traffic ++ demo_shutdown)) = false /\
  g_sp (demo_end (demo_traffic ++ demo_shutdown)) = SpDone /\
  wound_down (demo_end (demo_traffic ++ demo_shutdown)).
Proof.
  assert (Hr : comms_reachable 1 true demo_conn (demo_end (demo_traffic ++ demo_shutdown))).
  { apply comms_demo_reachable. vm_compute. eexists. reflexivity. }
  destruct (comms_safe 1 true demo_conn _ Hr) as [Hp Hf].
  assert (Hs : g_sp (demo_end (demo_traffic ++ demo_shutdown)) = SpDone) by (vm_compute; reflexivity).
  split; [exact Hp|split; [exact Hs|exact (Hf Hs)]].
Defined.

Lemma comms_in_order_witness :
  heard 0 (demo_end demo_traffic) = [Payload sample_push] /\
  dispatched (demo_end demo_traffic) `prefix_of` push_payloads (packets (nc_in demo_conn)) /\
  hc_called (hcalls (demo_end demo_traffic)) ⊆+ calls_of 1 (dispatched (demo_end demo_traffic)) /\
  (results (demo_end demo_traffic)).*1 `prefix_of` accepted (demo_end demo_traffic) /\
  sent_frames (results (demo_end demo_traffic)) `sublist_of` nc_out (conn (demo_end demo_traffic)).
Proof.
  split; [vm_compute; reflexivity|].
  refine (comms_in_order 1 true demo_conn (demo_end demo_traffic) _).
  apply comms_demo_reachable. vm_compute. eexists. reflexivity.
Defined.

Lemma comms_come_to_rest_witness :
  nf (own_step 1) (demo_end (demo_traffic ++ demo_shutdown)) /\
  dispatched (demo_end (demo_traffic ++ demo_shutdown)) = [Payload sample_push] /\
  hc_called (hcalls (demo_end (demo_traffic ++ demo_shutdown))) ≡ₚ
    calls_of 1 (received_pushes (demo_end (demo_traffic ++ demo_shutdown))) /\
  (results (demo_end (demo_traffic ++ demo_shutdown))).*1 =
    accepted (demo_end (demo_traffic ++ demo_shutdown)) /\
  wound_down (demo_end (demo_traffic ++ demo_shutdown)).
Proof.
  assert (Hr : comms_reachable 1 true demo_conn (demo_end (demo_traffic ++ demo_shutdown))).
  { apply comms_demo_reachable. vm_compute. eexists. reflexivity. }
  assert (Hnf : nf (own_step 1) (demo_end (demo_traffic ++ demo_shutdown))).
  { intros [s (l & Hl & He)]. destruct l; try discriminate Hl; vm_compute in He; discriminate He. }
  destruct (comms_come_to_rest 1 true demo_conn _ Hr) as [_ H].
  specialize (H _ (rtc_refl _ _) Hnf). destruct H as (Hd & Hc & _ & Hres & Hf & _).
  split; [exact Hnf|]. split; [vm_compute; reflexivity|]. split; [exact Hc|]. split; [exact Hres|].
  apply Hf. vm_compute. discriminate.
Defined.

(** ** Handlers hear messages in any order

    Two messages arrive; both goroutines are ready before either calls, and the
    second one calls first. *)

Definition two_messages : netconn := peer_sends (frame (new_push [1%Z]) ++ frame (new_push [2%Z])).

Definition one_down : list label := [LRead; LIbound; LOutput; LPublish; LIncomingPub].

Theorem handlers_out_of_order : exists s,
  comms_reachable 1 false two_messages s /\
  dispatched s = [[1%Z]; [2%Z]] /\ heard 0 s = [[2%Z]; [1%Z]].
Proof.
  destruct (comms_run 1 (one_down ++ one_down ++ [LHandlerCall 1; LHandlerCall 0])
    (start false two_messages)) as [s|] eqn:Hs; [|by vm_compute in Hs].
  exists s. split; [by eapply comms_run_steps|]. vm_compute in Hs. by injection Hs as <-.
Qed.
