(* ===== verification/ClientMessages.v ===== *)
(** * Client: messages and their handlers

    client/message.go, and of client/client.go and client/net.go the list of
    payload handlers and what dispatch makes of one message.  The goroutines of
    dispatch are in [ClientComms], those of the handlers in [HandlerCalls]. *)

From Stdlib Require Import ZArith Lia String.
From stdpp Require Import base list numbers.
From S2P Require Import Prelude GoIO Codec GoTime Store Server ServerFacts ServerProps ServerSpec.
From S2P Require Import Wire ClientOptions ClientNet HandlerCalls ClientComms ClientCommsFacts.

Record message : Type := mkMessage { msg_payload : list Z }.

(** [m.Payload()] *)
Definition message_Payload (m : message) : list Z := msg_payload m.

(** The acknowledgement a handler could trigger: a function that does nothing. *)
Definition ackFunc (packet : PushPacket) : unit -> unit := fun _ => tt.

Definition messageFromPush (p : PushPacket) (ack : unit -> unit) : message :=
  mkMessage (Payload p).

Section handlers.
Context {H : Type}.

(** The list of handlers, first to last. *)
Record handler : Type := mkHandler { handlers_list : list H }.

Definition newHandler : handler := mkHandler [].

Definition AddLast (h : H) (l : handler) : handler := mkHandler (handlers_list l ++ [h]).

(** The goroutines dispatch starts for one message: each calls one handler. *)
Definition dispatch_message (p : PushPacket) (l : handler) : list (H * message) :=
  let m := messageFromPush p (ackFunc p) in (fun h => (h, m)) <$> handlers_list l.

(** For each message a goroutine is started per handler that was added, in the order of
    addition, to call it with the payload of the packet; and these are the goroutines
    that are ready in [ClientComms] when dispatch has taken the message. *)
Theorem handlers_called (hs : list H) (p : PushPacket) (payload : list Z) (err : bool) (s : comms) :
  let l := fold_left (fun l h => AddLast h l) hs newHandler in
  (dispatch_message p l).*1 = hs /\
  Forall (fun c => message_Payload c.2 = Payload p) (dispatch_message p l) /\
  (g_di s = DiPublish (Payload p) err -> g_hp s = HpReceiving -> ch_closed s ChIncomingPub = false ->
   exists s', exec (length (handlers_list l)) LIncomingPub s = Some s' /\
     hc_ready (hcalls s') = hc_ready (hcalls s) ++
       imap (fun i c => (i, message_Payload (snd c))) (dispatch_message p l) /\
     dispatched s' = dispatched s ++ [Payload p]).
Proof.
  cbn zeta. assert (Hl : handlers_list (fold_left (fun l h => AddLast h l) hs newHandler) = hs).
  { assert (Hg : forall l, handlers_list (fold_left (fun l h => AddLast h l) hs l) = handlers_list l ++ hs).
    { induction hs as [|h hs IH]; intros l; cbn; [by rewrite app_nil_r|]. rewrite IH. cbn. by rewrite <- app_assoc. }
    by rewrite Hg. }
  unfold dispatch_message. rewrite Hl. split; [|split].
  - rewrite <- list_fmap_compose. apply (list_fmap_id hs).
  - by apply Forall_fmap, Forall_true.
  - intros Hd Hh Hc. cbn. rewrite Hd, Hh. unfold send. rewrite Hc. eexists. split; [reflexivity|].
    cbn. split; [|done]. f_equal. rewrite imap_fmap, calls_of_message_imap. by apply imap_ext.
Qed.

End handlers.
