(* ===== verification/ClientWire.v ===== *)
(** * Client: what the goroutines write on their connection

    Everything the client of [ClientComms] hands to its connection is the frame of
    a packet, cut short only by a failed write; the PUSH packets among them are the
    messages accepted from Push, in order, and include every message whose token
    reported success. *)

From Stdlib Require Import ZArith Lia String.
From stdpp Require Import base list strings gmap numbers relations.
From S2P Require Import Prelude GoIO Codec CodecFacts GoTime Store Server ServerFacts ServerDrain.
From S2P Require Import ServerProps ServerSpec Wire ClientOptions ClientNet ClientComms ClientCommsFacts.

Local Open Scope Z_scope.

(** ** Packets the goroutines hold *)

(** Besides messages from Push, startOutgoingComms only ever gets the DISCONNECT
    of [Disconnect]: startIncomingComms sends no packet on. *)
Definition in_plain (i : incoming_pc) : Prop :=
  match i with InSending m _ _ => ic_outbound m = None | _ => True end.

Definition mx_plain (m : demux) : Prop := match m with MxOutbound _ => False | _ => True end.

Definition rt_plain (r : redirector) : Prop :=
  match r with RtPriority cp _ => cp = new_disconnect 0 | _ => True end.

Definition ou_plain (u : outgoing_pc) : Prop :=
  match u with
  | OuPriority cp _ _ _ => cp = new_disconnect 0
  | OuIncoming _ _ _ _ => False
  | _ => True
  end.

Definition plain (s : comms) : Prop :=
  in_plain (g_in s) /\ mx_plain (g_mx s) /\ rt_plain (g_rt s) /\ ou_plain (g_ou s).

Lemma incoming_next_plain m a b : in_plain (incoming_next m a b).
Proof. by destruct m as [e|[]]. Qed.

Lemma demux_next_plain m : ic_outbound m = None -> mx_plain (demux_next m).
Proof. destruct m as [[e|] [cp|] [pl|]]; done. Qed.

Lemma after_write_plain err p o i : ou_plain (after_write err p o i).
Proof. by destruct err. Qed.

Lemma exec_plain n l s s' : plain s -> exec n l s = Some s' -> plain s'.
Proof.
  unfold plain. intros (Hi & Hm & Hr & Ho) He. destruct s.
  destruct l; cbn [exec] in He;
    unfold exec_incoming, exec_startComms, exec_outgoing, exec_redirector, exec_delivery,
      exec_dispatch, exec_lifetime in He; cbn in *; action_cases He;
    unfold send, close_chan, worker_done; repeat case_match; simplify_eq/=;
    auto using incoming_next_plain, demux_next_plain, after_write_plain.
Qed.

(** ** Outcomes *)

(** The payloads of the messages whose tokens completed without error. *)
Definition succeeded (l : list (list Z * option error)) : list (list Z) :=
  concat ((fun r => match r with (p, None) => [p] | _ => [] end) <$> l).

(** A message a frame can carry. *)
Definition fits (payload : list Z) : Prop := Z.of_nat (length payload) < 2 ^ 28 - 1.

#[global] Instance fits_dec payload : Decision (fits payload).
Proof. unfold fits. apply _. Defined.

Lemma succeeded_app l1 l2 : succeeded (l1 ++ l2) = succeeded l1 ++ succeeded l2.
Proof. unfold succeeded. by rewrite fmap_app, concat_app. Qed.

(** ** The invariant *)

(** [out] is what was written before the goroutines started. *)
Definition spoken (out : list (list Z)) (s : comms) : Prop :=
  exists l, nc_out (conn s) = out ++ l /\ Forall chunk_ok l /\
    succeeded (results s) `sublist_of` pushed l /\ pushed l `sublist_of` (results s).*1.

Lemma spoken_grows out s s' l r :
  spoken out s -> nc_out (conn s') = nc_out (conn s) ++ l -> results s' = results s ++ r ->
  Forall chunk_ok l -> succeeded r `sublist_of` pushed l -> pushed l `sublist_of` r.*1 ->
  spoken out s'.
Proof.
  intros (l0 & Ho & Hc & Hs & Hp) Hl Hr Hcl Hsr Hpr. exists (l0 ++ l).
  rewrite Hl, Ho, Hr, pushed_app, succeeded_app, fmap_app, <- app_assoc.
  split; [done|]. split; [by apply Forall_app|]. by split; apply sublist_app.
Qed.

Lemma spoken_same out s s' :
  spoken out s -> nc_out (conn s') = nc_out (conn s) -> results s' = results s -> spoken out s'.
Proof.
  intros Hs Ho Hr. apply (spoken_grows out s s' [] []); rewrite ?app_nil_r; try done; constructor.
Qed.

(** A packet without a message, whatever becomes of the write. *)
Lemma spoken_control out s s' cp :
  spoken out s -> packet_ok cp -> message_of (received cp) = [] ->
  nc_out (conn s') = nc_out (snd (Packet_Write cp (conn s))) -> results s' = results s ->
  spoken out s'.
Proof.
  intros Hs Hok Hm Ho Hr. destruct (Packet_Write_chunks cp (conn s) Hok) as (l & Hl & Hc & Hp & _).
  assert (Hn : pushed l = []) by (destruct Hp; congruence).
  apply (spoken_grows out s s' l []); rewrite ?app_nil_r, ?Hn; try done; congruence.
Qed.

(** ** Every move preserves it *)

Lemma calm_spoken out s s' : spoken out s -> calm s s' -> spoken out s'.
Proof. intros Hs [_ _ _ _ _ Ho Hr _]. by apply (spoken_same out s). Qed.

Lemma read_spoken out s s' : spoken out s -> exec_incoming LRead s = Some s' -> spoken out s'.
Proof.
  intros Hs He. unfold exec_incoming in He. destruct (g_rd s); try done.
  destruct (keeps_ReadPacket (conn s)) as [Hk _].
  destruct (ReadPacket (conn s)) as [[cp|e|] nc]; [| |done]; cbn in Hk; injection He as <-.
  - apply (spoken_same out s); [done|cbn; by rewrite Hk|done].
  - set (s1 := set_conn nc s). assert (Hs1 : spoken out s1).
    { apply (spoken_same out s); [done|cbn; by rewrite Hk|done]. }
    destruct (Contains (Error e) "unsupported packet type"); [|by apply (spoken_same out s1)].
    by apply (spoken_control out s1 _ (new_disconnect DiscProtocolViolation)).
Qed.

(** Messages in flight were accepted. *)
Lemma holds_fit f s payload p o i :
  flow f s -> Forall fits (accepted s) -> g_ou s = OuPush payload p o i -> fits payload.
Proof.
  intros Hf Ha Hu. rewrite <- (flow_up _ _ Hf), Forall_forall in Ha. apply Ha.
  unfold uplink. rewrite Hu, !elem_of_app. cbn. set_solver.
Qed.

Lemma new_push_ok payload : fits payload -> packet_ok (new_push payload).
Proof. by split. Qed.

Lemma write_spoken f out s s' :
  flow f s -> plain s -> Forall fits (accepted s) ->
  spoken out s -> exec_outgoing LWrite s = Some s' -> spoken out s'.
Proof.
  intros Hf (_ & _ & _ & Hpl) Ha Hs He. unfold exec_outgoing in He.
  destruct (g_ou s) as [|payload p o i|cp p o i|cp p o i| |] eqn:Hu; try done; cbn in Hpl.
  - pose proof (new_push_ok _ (holds_fit _ _ _ _ _ _ Hf Ha Hu)) as Hok.
    destruct (Packet_Write_chunks (new_push payload) (conn s) Hok) as (l & Hl & Hc & Hp & Hn).
    unfold outgoing_push in He. destruct (Packet_Write (new_push payload) (conn s)) as [[? err] nc].
    cbn in Hl, Hn. injection He as <-.
    apply (spoken_grows out s _ l [(payload, err)]); [done|by destruct err..|done| |].
    + destruct err; [apply sublist_nil_l|]. by rewrite Hn.
    + destruct Hp as [-> | ->]; [apply sublist_nil_l|done].
  - subst cp. unfold outgoing_priority in He.
    destruct (Packet_Write (new_disconnect 0) (conn s)) as [[? err] nc] eqn:Hw. injection He as <-.
    apply (spoken_control out s _ (new_disconnect 0)); try done; rewrite Hw; by destruct err.
Qed.

Lemma ping_spoken out s s' : spoken out s -> exec_lifetime EPing s = Some s' -> spoken out s'.
Proof.
  intros Hs He. unfold exec_lifetime in He. destruct (g_kp s); [|done]. injection He as <-.
  by apply (spoken_control out s _ new_pingreq).
Qed.

Lemma exec_spoken n f out l s s' :
  flow f s -> plain s -> Forall fits (accepted s) ->
  spoken out s -> exec n l s = Some s' -> spoken out s'.
Proof.
  intros Hf Hpl Ha Hs He.
  destruct (decide (l = LRead)) as [->|Hr]; [by eapply read_spoken|].
  destruct (decide (l = LWrite)) as [->|Hl]; [by eapply write_spoken|].
  destruct (decide (l = EPing)) as [->|Hp]; [by eapply ping_spoken|].
  apply (calm_spoken out s); [done|]. by apply (exec_calm n l).
Qed.

Lemma exec_accepted n l s s' : exec n l s = Some s' -> accepted s `prefix_of` accepted s'.
Proof.
  intros He.
  destruct (decide (l = LRead)) as [->|Hr].
  { cbn in He. unfold exec_incoming in He. by repeat case_match; simplify_eq. }
  destruct (decide (l = LWrite)) as [->|Hl].
  { cbn in He. unfold exec_outgoing in He. by repeat case_match; simplify_eq. }
  destruct (decide (l = EPing)) as [->|Hp].
  { cbn in He. by repeat case_match; simplify_eq. }
  destruct (exec_calm _ _ _ _ Hr Hl Hp He) as [_ _ Ha _ _ _ _ _].
  destruct Ha as [[-> _]|(p & -> & _)]; [done|by apply prefix_app_r].
Qed.

Lemma client_spoken n k nc s :
  comms_reachable n k nc s -> Forall fits (accepted s) -> spoken (nc_out nc) s.
Proof.
  intros Hr. enough (plain s /\ (Forall fits (accepted s) -> spoken (nc_out nc) s)) by tauto.
  unfold comms_reachable in Hr. revert s Hr.
  apply (rtc_ind_r (fun s => plain s /\ (Forall fits (accepted s) -> spoken (nc_out nc) s))).
  - split; [done|]. intros _. exists []. by rewrite app_nil_r.
  - intros x y Hx [l He] [Hpl Hs]. split; [by eapply exec_plain|]. intros Ha.
    assert (Hax : Forall fits (accepted x)).
    { destruct (exec_accepted _ _ _ _ He) as [t Ht]. rewrite Ht in Ha. by apply Forall_app in Ha as [? _]. }
    eapply exec_spoken; [exact (flow_reachable n k nc x Hx)|done|exact Hax|by apply Hs|exact He].
Qed.
