(* ===== verification/EndToEnd.v ===== *)
(** * Client and server over one network

    The client of [ClientComms], after the handshake of [ClientNet], at one end of a
    connection and the server of [Server] at the other: the bytes each of them is
    sent are carried from what the other one wrote.  Then the messages the server's
    application is handed are messages the client's Push accepted, and the messages
    the client's dispatch takes are messages the server's application pushed, in
    order, none invented and none twice; its handlers are called for them in any order,
    each at most once per message. *)

From Stdlib Require Import ZArith Lia String.
From stdpp Require Import base list strings gmap numbers relations.
From S2P Require Import Prelude GoIO Codec CodecFacts GoTime Store Server ServerFacts ServerDrain.
From S2P Require Import ServerProps ServerSpec ServerRefine Wire ServerCalls ClientOptions ClientNet.
From S2P Require Import HandlerCalls ClientComms ClientCommsFacts ClientCommsProps ClientWire.

Local Open Scope Z_scope.

(** ** The two ends of a connection *)

Section ends.
Context {URL : Type}.

(** A client with options [o] and [n] handlers that dialed a connection on which
    it is sent [f], shook hands, and then ran its goroutines up to [s]. *)
Definition client_on (o : ClientOptions URL) (n : nat) (f : flat) (s : comms) : Prop :=
  exists fresh kp nc keepalive,
    nc_in fresh = f /\ nc_out fresh = [] /\
    connectServer fresh (newConnectMsgFromOptions (NewClient o)) = (Some ((Accepted, kp), None), nc) /\
    comms_reachable n keepalive nc s.

(** The server's end [nc] and the client are connected. *)
Definition joined (o : ClientOptions URL) (n : nat) (nc : netconn) (s : comms) : Prop :=
  exists f, client_on o n f s /\ carried nc f /\ carried (conn s) (nc_all nc).

(** Connected by a network that has lost nothing. *)
Definition joined_whole (o : ClientOptions URL) (n : nat) (nc : netconn) (s : comms) : Prop :=
  exists f, client_on o n f s /\ carried_whole nc f /\ carried_whole (conn s) (nc_all nc).

Lemma joined_whole_joined o n nc s : joined_whole o n nc s -> joined o n nc s.
Proof. intros (f & ? & ? & ?). exists f. auto using carried_whole_carried. Qed.

(** What a frame can carry. *)
Definition sendable (o : ClientOptions URL) (s : comms) : Prop :=
  Z.of_nat (length (opt_Credential o)) < 65536 /\ Forall fits (accepted s).

(** ** One connection *)

Lemma connectServer_accepted fresh cm kp nc :
  connectServer fresh cm = (Some ((Accepted, kp), None), nc) ->
  nc_out nc = nc_out fresh ++ [frame (PConnect cm)] /\
  exists m, ReadPacket (nc_in fresh) = (Ret (PConnack m), nc_in nc).
Proof.
  unfold connectServer. destruct (Packet_Write_net (PConnect cm) fresh) as [cp' Hw].
  unfold Packet_Write in Hw. destruct (ConnectPacket_Write cm fresh) as [[cm' e] nc1].
  destruct e as [e|]; [done|].
  destruct (nc_closed fresh); [done|]. destruct (nc_fault fresh) as [[j e]|] eqn:Hf; [done|].
  simplify_eq. unfold verifyCONNACK. rewrite ReadPacket_net. cbn [nc_closed wrote nc_in nc_out].
  destruct (ReadPacket (nc_in fresh)) as [[[]|x|] rest]; cbn; intros; simplify_eq. eauto.
Qed.

Lemma uplink_order o n nc s :
  joined o n nc s -> sendable o s ->
  exists sent, push_payloads (packets (nc_all nc)) `prefix_of` sent /\
    succeeded (results s) `sublist_of` sent /\ sent `sublist_of` accepted s.
Proof.
  intros (f & (fresh & kp & nc0 & k & Hin & Hout & Hcs & Hr) & _ & Hcar) [Hl Hfit].
  destruct (connectServer_accepted _ _ _ _ Hcs) as [Ho _]. rewrite Hout in Ho. cbn [app] in Ho.
  destruct (client_spoken _ _ _ _ Hr Hfit) as (l & Hl0 & Hc & Hs & Hp). rewrite Ho in Hl0.
  assert (Hok : packet_ok (PConnect (newConnectMsgFromOptions (NewClient o)))) by by apply connect_packet_ok.
  exists (pushed l). split; [|split; [done|]].
  - assert (Hall : Forall chunk_ok (nc_out (conn s))).
    { rewrite Hl0. constructor; [|done]. apply frame_chunk. by eexists. }
    pose proof (carried_outbox _ _ Hall Hcar) as Hpre. unfold outbox in Hpre.
    apply push_payloads_prefix in Hpre. rewrite Hl0 in Hpre. cbn [app] in Hpre.
    rewrite fmap_cons in Hpre. cbn [concat] in Hpre. by rewrite (sent_frame _ Hok) in Hpre.
  - etransitivity; [exact Hp|]. apply flow_reachable in Hr. rewrite <- (flow_up _ _ Hr).
    unfold uplink. by apply sublist_inserts_r.
Qed.

Lemma downlink_order o n nc s :
  Forall chunk_ok (nc_out nc) -> joined o n nc s -> dispatched s `prefix_of` pushed (nc_out nc).
Proof.
  intros Hall (f & (fresh & kp & nc0 & k & Hin & Hout & Hcs & Hr) & Hcar & _).
  destruct (connectServer_accepted _ _ _ _ Hcs) as [_ [m Hm]]. rewrite Hin in Hm.
  pose proof (carried_outbox _ _ Hall Hcar) as Hpre%push_payloads_prefix.
  rewrite (packets_read _ _ _ Hm) in Hpre. change (push_payloads (PConnack m :: packets (nc_in nc0)))
    with (push_payloads (packets (nc_in nc0))) in Hpre.
  etransitivity; [|exact Hpre]. apply flow_reachable in Hr.
  etransitivity; [|apply (flow_prefix _ _ Hr)]. rewrite <- (flow_down _ _ Hr).
  unfold downlink. by apply prefix_app_r.
Qed.

Lemma client_on_calls o n f s : client_on o n f s -> calls_inv n s.
Proof. intros (fresh & kp & nc & k & _ & _ & _ & Hr). by eapply calls_inv_reachable. Qed.

Lemma joined_calls o n nc s : joined o n nc s -> calls_inv n s.
Proof. intros (f & Hon & _). by eapply client_on_calls. Qed.

(** ** A connection that has lost nothing *)

Lemma all_succeeded l :
  Forall (fun r : list Z * option error => snd r = None) l -> succeeded l = l.*1.
Proof. induction 1 as [|[bs e] l He _ IH]; [done|]. cbn in He. subst e. cbn. by f_equal. Qed.

Lemma uplink_whole o n nc s :
  joined_whole o n nc s -> sendable o s -> (results s).*1 = accepted s ->
  Forall (fun r => snd r = None) (results s) -> push_payloads (packets (nc_all nc)) = accepted s.
Proof.
  intros (f & (fresh & kp & nc0 & k & Hin & Hout & Hcs & Hr) & _ & Hcar) [Hl Hfit] Hres Hall.
  destruct (connectServer_accepted _ _ _ _ Hcs) as [Ho _]. rewrite Hout in Ho. cbn [app] in Ho.
  destruct (client_spoken _ _ _ _ Hr Hfit) as (l & Hl0 & _ & Hs & Hp). rewrite Ho in Hl0.
  assert (Hok : packet_ok (PConnect (newConnectMsgFromOptions (NewClient o)))) by by apply connect_packet_ok.
  rewrite (carried_whole_outbox _ _ Hcar). unfold outbox. rewrite Hl0. cbn [app].
  rewrite fmap_cons. cbn [concat]. rewrite (sent_frame _ Hok), <- Hres.
  change (push_payloads _) with (pushed l). rewrite (all_succeeded _ Hall) in Hs.
  by apply (anti_symm sublist).
Qed.

Lemma downlink_whole o n nc s :
  joined_whole o n nc s -> dispatched s = received_pushes s -> g_rd s = RdDone -> nc_closed (conn s) = false ->
  dispatched s = push_payloads (outbox nc).
Proof.
  intros (f & (fresh & kp & nc0 & k & Hin & Hout & Hcs & Hr) & Hcar & _) Hd Hrd Hc.
  destruct (connectServer_accepted _ _ _ _ Hcs) as [_ [m Hm]]. rewrite Hin in Hm.
  rewrite <- (carried_whole_outbox _ _ Hcar), (packets_read _ _ _ Hm), Hd.
  change (push_payloads (PConnack m :: packets (nc_in nc0))) with (push_payloads (packets (nc_in nc0))).
  apply flow_reachable in Hr. apply (flow_end _ _ Hr); [by rewrite Hrd|done].
Qed.

(** A client at rest has nothing in flight. *)
Lemma rested o n f s :
  client_on o n f s -> nf (own_step n) s ->
  g_rd s = RdDone /\ dispatched s = received_pushes s /\ (results s).*1 = accepted s /\
  forall h, (h < n)%nat -> heard h s ≡ₚ dispatched s.
Proof.
  intros Hon. pose proof (client_on_calls _ _ _ _ Hon) as Hci. revert Hon.
  intros (fresh & kp & nc0 & k & _ & _ & _ & Hr) Hnf.
  assert (Hst : forall l, is_own l = true -> exec n l s = None).
  { intros l Hl. destruct (exec n l s) eqn:He; [|done]. exfalso. apply Hnf. eexists. by exists l. }
  apply wf_reachable in Hr as Hw. apply flow_reachable in Hr.
  destruct (stuck_empty n s Hw Hst) as [Hd Hu].
  split; [by apply (stuck_rd n s)|]. rewrite <- (flow_down _ _ Hr), <- (flow_up _ _ Hr).
  split; [done|]. split; [done|]. intros h Hh. apply (heard_all n); [done| |done]. by apply (stuck_calls n).
Qed.

End ends.

(** ** All connections of a device *)

Lemma occurrences_sublist payload l1 l2 :
  l1 `sublist_of` l2 -> (occurrences payload l1 <= occurrences payload l2)%nat.
Proof.
  unfold occurrences. induction 1 as [|x l1 l2 _ IH|x l1 l2 _ IH]; cbn; [done|..];
    case_bool_decide; cbn; lia.
Qed.

Lemma occurrences_prefix payload l1 l2 :
  l1 `prefix_of` l2 -> (occurrences payload l1 <= occurrences payload l2)%nat.
Proof. intros [k ->]. rewrite occurrences_app. lia. Qed.

Lemma occurrences_submseteq payload l1 l2 :
  l1 ⊆+ l2 -> (occurrences payload l1 <= occurrences payload l2)%nat.
Proof.
  unfold occurrences. induction 1 as [|x l1 l2 _ IH|x y l|x l1 l2 _ IH|l1 l2 l3 _ IH1 _ IH2]; cbn; [done|..];
    repeat case_bool_decide; cbn; lia.
Qed.

Lemma occurrences_permutation payload l1 l2 :
  l1 ≡ₚ l2 -> occurrences payload l1 = occurrences payload l2.
Proof.
  intros Hl. pose proof (Permutation_submseteq _ _ Hl). symmetry in Hl.
  apply Permutation_submseteq in Hl. apply Nat.le_antisymm; by apply occurrences_submseteq.
Qed.

Lemma pushes_occurrences payload l : pushes payload l = occurrences payload (push_payloads l).
Proof.
  induction l as [|cp l IH]; [done|]. rewrite push_payloads_cons, occurrences_app, <- IH.
  destruct cp; try done. rewrite pushes_cons. unfold occurrences. cbn. case_bool_decide; by case_decide.
Qed.

Section device.
Context {URL : Type} (o : ClientOptions URL) (n : nat) (clients : connid -> comms) (d : gostring).

(** Every connection that authenticated as the device has a client at its other
    end. *)
Definition all_joined (s : server) : Prop :=
  forall c y nc, dcs s !! c = Some y -> deviceID y = d -> nets s !! c = Some nc ->
    joined o n nc (clients c) /\ sendable o (clients c).

(** A number added up over the clients of the device. *)
Definition over_clients (s : server) (g : comms -> nat) : nat :=
  map_sum (fun c y => of_device d (deviceID y) (g (clients c))) (dcs s).

Lemma pushed_by_clients so x payload :
  inv so x -> all_joined (srv x) ->
  (pushed_by d payload (srv x) <= over_clients (srv x) (fun s => occurrences payload (accepted s)))%nat.
Proof.
  intros Hi Hj. apply map_sum_le. intros c y Hy.
  destruct (inv_dc _ _ Hi c y Hy) as (nc & Hnc & _). rewrite Hnc. unfold of_device.
  case_decide as Hd; [|done]. destruct (Hj c y nc Hy Hd Hnc) as [Hjc Hs].
  destruct (uplink_order _ _ _ _ Hjc Hs) as (sent & Hp & _ & Ha). rewrite pushes_occurrences.
  apply occurrences_prefix with (payload := payload) in Hp.
  apply occurrences_sublist with (payload := payload) in Ha. lia.
Qed.

Lemma delivered_to_clients so x h payload :
  (h < n)%nat -> inv so x -> all_joined (srv x) ->
  (over_clients (srv x) (fun s => occurrences payload (heard h s)) <= sent_to d payload (srv x))%nat.
Proof.
  intros Hh Hi Hj. apply map_sum_le. intros c y Hy. unfold sent_conn, of_device.
  case_decide as Hd; [|lia]. destruct (inv_dc _ _ Hi c y Hy) as (nc & Hnc & _). rewrite Hnc.
  destruct (Hj c y nc Hy Hd Hnc) as [Hjc Hs]. destruct (inv_out _ _ Hi c nc Hnc) as [Hall _].
  etransitivity; [|by apply occurrences_prefix, (downlink_order o n)].
  apply occurrences_submseteq, (heard_part n); [by eapply joined_calls|done].
Qed.

End device.

(** ** The theorems *)

(** C4: end to end, messages keep their order and none is invented: on a connection
    of the server with a client at its other end, whatever both do and wherever the
    network cuts either byte stream, the PUSH packets the server can read are the
    first of a sequence that the client's Push accepted in that order and that
    contains every message whose token reported success; and the messages for which the
    client's dispatch has started the goroutines of the handlers are the first of the
    PUSH packets the server sent, in that order.  The handlers themselves are called by
    these goroutines in any order: the calls made are some of one per handler and
    message. *)
Theorem messages_in_order_end_to_end {URL : Type} (so : ServerOptions) (o : ClientOptions URL) (n : nat)
    (x : config) (c : connid) (nc : netconn) (s : comms) :
  reachable so x -> nets (srv x) !! c = Some nc -> joined o n nc s -> sendable o s ->
  (exists sent, push_payloads (packets (nc_all nc)) `prefix_of` sent /\
     succeeded (results s) `sublist_of` sent /\ sent `sublist_of` accepted s) /\
  dispatched s `prefix_of` push_payloads (outbox nc) /\
  hc_called (hcalls s) ⊆+ calls_of n (dispatched s).
Proof.
  intros Hi%inv_reachable Hnc Hj Hs. split; [by eapply uplink_order|]. split.
  - apply (downlink_order o n); [|done]. apply (inv_out _ _ Hi c nc Hnc).
  - by eapply called_once, joined_calls.
Qed.

(** Client and server together hand over only what was sent, and as often: if
    every connection that authenticated as a device has a client at its other end,
    then for every payload the server's application is handed the payload from the
    device at most as often as the clients' Push accepted it, and each handler of
    the clients is called with it at most as often as the application called Push with it
    for the device. *)
Theorem messages_accounted_end_to_end {URL : Type} (so : ServerOptions) (o : ClientOptions URL) (n : nat)
    (clients : connid -> comms) (hist : list (gostring * list Z)) (x : config) (d : gostring)
    (payload : list Z) (h : nat) :
  (h < n)%nat -> calls so hist x -> all_joined o n clients d (srv x) ->
  (count (is_delivery d payload) (events (srv x)) <=
     over_clients clients d (srv x) (fun s => occurrences payload (accepted s)))%nat /\
  (over_clients clients d (srv x) (fun s => occurrences payload (heard h s)) <=
     in_mailbox d payload hist)%nat.
Proof.
  intros Hh Hc Hj. pose proof (calls_reachable _ _ _ Hc) as Hr. pose proof (inv_reachable _ _ Hr) as Hi.
  pose proof (deliveries_bounded so x d payload Hr). pose proof (pushed_by_clients o n clients d so x payload Hi Hj).
  pose proof (delivered_to_clients o n clients d so x h payload Hh Hi Hj).
  pose proof (calls_covered d payload so hist x Hc) as Hcov. unfold covered in Hcov. lia.
Qed.

(** C19: end to end, nothing is lost on a connection that stays whole: when the client's
    goroutines have come to rest on a connection that nobody has closed, all tokens
    report success and the network has carried every byte both ways, the PUSH
    packets the server can read are exactly the messages the client's Push accepted,
    in that order, the client's dispatch took exactly the PUSH packets the server sent,
    in theirs, and each handler was called with exactly these, in some order. *)
Theorem nothing_lost_end_to_end {URL : Type} (o : ClientOptions URL) (n : nat) (nc : netconn) (s : comms) :
  joined_whole o n nc s -> sendable o s -> nf (own_step n) s -> nc_closed (conn s) = false ->
  Forall (fun r => snd r = None) (results s) ->
  push_payloads (packets (nc_all nc)) = accepted s /\ dispatched s = push_payloads (outbox nc) /\
  forall h, (h < n)%nat -> heard h s ≡ₚ push_payloads (outbox nc).
Proof.
  intros Hj Hs Hnf Hc Hall. pose proof Hj as (f & Hon & _).
  destruct (rested o n f s Hon Hnf) as (Hrd & Hd & Hres & Hh).
  split; [by apply (uplink_whole o n nc s)|]. rewrite <- (downlink_whole o n nc s) by done. done.
Qed.
