(* ===== verification/Programs.v ===== *)
(** * The programs around the library

    The end-to-end harness (src/e2e/go-server, src/e2e/go-client) and the sample
    programs (src/cmd/server, src/cmd/client): what they configure and what they do
    with the library.  The harness is put together with [EndToEnd]: when the
    client program reports success, the server program was handed every message. *)

From Stdlib Require Import ZArith Lia Ascii String.
From stdpp Require Import base list strings gmap numbers relations pretty.
From S2P Require Import Prelude GoIO Codec CodecFacts GoTime Store Server ServerFacts ServerDrain.
From S2P Require Import ServerProps ServerSpec ServerRefine Wire ServerCalls ServerListen ClientOptions.
From S2P Require Import ClientNet HandlerCalls ClientComms ClientCommsFacts ClientCommsProps ClientWire EndToEnd.

Local Open Scope Z_scope.

(** ** The sample programs *)

(** simpleAuth of cmd/server: the credential is the device ID. *)
Definition simpleAuth (credential : gostring) : gostring * bool := (credential, true).

Definition sample_server_options : Options :=
  SetConnectionListener (Some true)
    (SetMessageHandler true (SetAuthenticator (Some simpleAuth) (SetPort 18883 NewServerOptions))).

(** The field [AutoReconnect] is assigned. *)
Definition assign_AutoReconnect {URL} (b : bool) (o : ClientOptions URL) : ClientOptions URL :=
  mkOptions (Servers o) (opt_Credential o) (Heartbeat o) (opt_ProtocolVersion o) (ConnectRetry o)
    (ConnectRetryInterval o) (ConnectTimeout o) (WriteTimeout o) b (OnConnectionLost o)
    (MaxReconnectInterval o) (OnReconnecting o) (TLSConfig o) (OnConnectAttempt o) (ReconnectBase o)
    (ReconnectJitter o) (AdaptiveHeartbeat o) (AdaptiveShort o) (AdaptiveMax o) (ProbeCount o)
    (ResponseWindow o) (FineStep o) (quicConfig o).

Section programs.
Context {URL : Type} (Parse : gostring -> error + URL).

(** cmd/client: buildOptions. *)
Definition buildOptions (addr credential : gostring) : ClientOptions URL :=
  assign_AutoReconnect true
    (SetWriteTimeout (5 * Second) (SetConnectTimeout (5 * Second)
      (SetCredential credential (AddServer Parse addr NewClientOptions)))).

(** ** The end-to-end client *)

Definition go_client_options (port : gostring) : ClientOptions URL :=
  assign_AutoReconnect false
    (SetConnectTimeout (3 * Second) (SetCredential (go_bytes "go-e2e")
      (AddServer Parse (go_bytes "tcp://127.0.0.1:" ++ port) NewClientOptions))).

End programs.

Definition n_pings : nat := 5.

Definition ping (i : nat) : list Z := go_bytes ("ping-" +:+ pretty i).

(** What the server program answers to a payload. *)
Definition echo (payload : list Z) : list Z := go_bytes "echo:" ++ payload.

(** The map [want] of the client program. *)
Definition want : gset (list Z) := list_to_set ((fun i => echo (ping i)) <$> seq 0 n_pings).

(** The loop that receives [n] echoes; [None] when one does not come in time.
    [echoes] is what arrives on the channel, in order. *)
Fixpoint await_echoes (n : nat) (echoes : list (list Z)) (want : gset (list Z)) : option (gset (list Z)) :=
  match n, echoes with
  | O, _ => Some want
  | S n, p :: echoes => await_echoes n echoes (want ∖ {[p]})
  | S _, [] => None
  end.

(** The exit code of go-client: [args] are its arguments, [connect] the error of
    Connect's token, [pushes] for every token of Push the error it completed with,
    if it did in time. *)
Definition go_client_main (args : list gostring) (connect : option error)
    (pushes : list (option (option error))) (echoes : list (list Z)) : Z :=
  match args with
  | [] | [_] => 2
  | _ =>
      match connect with
      | Some _ => 1
      | None =>
          if existsb (fun p => match p with Some (Some _) => true | _ => false end) pushes then 1
          else match await_echoes n_pings echoes want with
               | None => 1
               | Some missing => if decide (missing = ∅) then 0 else 1
               end
      end
  end.

(** ** The sample client *)

(** What main of cmd/client does that others can see. *)
Inductive sample_action : Type :=
| Prints (line : string)
| Pushes (text : gostring)
| Fatal (line : string).

Definition hello (i : nat) : string := "hello #" +:+ pretty i.

(** Its endless loop, as far as it has come: [tokens] are the errors of the tokens
    it has waited for. *)
Fixpoint sample_client_loop (i : nat) (tokens : list (option error)) : list sample_action :=
  match tokens with
  | [] => []
  | e :: tokens =>
      [Prints ("sending: " +:+ hello i); Pushes (go_bytes (hello i))] ++
      match e with Some err => [Prints ("push error: " +:+ Error err)] | None => [] end ++
      sample_client_loop (S i) tokens
  end.

(** [connect] is the error of Connect's token. *)
Definition sample_client_main (connect : option error) (tokens : list (option error)) : list sample_action :=
  match connect with
  | Some err => [Fatal ("connect failed: " +:+ Error err)]
  | None => Prints "connected" :: sample_client_loop 0 tokens
  end.

Definition texts (l : list sample_action) : list gostring :=
  omap (fun a => match a with Pushes t => Some t | _ => None end) l.

Lemma go_bytes_inj s1 s2 : go_bytes s1 = go_bytes s2 -> s1 = s2.
Proof.
  revert s2. induction s1 as [|c1 s1 IH]; intros [|c2 s2]; cbn; try done. intros [= Hc Hs].
  rewrite (IH s2 Hs). apply Nat2Z.inj in Hc. by rewrite <- (ascii_nat_embedding c1), Hc, ascii_nat_embedding.
Qed.

(** Whatever becomes of its tokens, the sample client goes on and numbers its texts;
    no two of them are the same. *)
Theorem sample_client_pushes (tokens : list (option error)) :
  texts (sample_client_main None tokens) = (fun i => go_bytes (hello i)) <$> seq 0 (length tokens) /\
  NoDup (texts (sample_client_main None tokens)).
Proof.
  assert (Ht : forall i, texts (sample_client_loop i tokens) =
    (fun i => go_bytes (hello i)) <$> seq i (length tokens)).
  { induction tokens as [|e tokens IH]; intros i; [done|]. cbn. unfold texts in *.
    destruct e; cbn; by rewrite IH. }
  change (texts (sample_client_main None tokens)) with (texts (sample_client_loop 0 tokens)).
  rewrite Ht. split; [done|]. apply NoDup_fmap_2; [|apply NoDup_seq].
  intros i j Hij%go_bytes_inj. unfold hello in Hij. apply (inj (String.append "hello #")) in Hij.
  by apply (inj pretty).
Qed.

(** ** The end-to-end server *)

Definition allowAll (credential : gostring) : gostring * bool := (credential, true).

Definition go_server_port (args : list gostring) : gostring :=
  match args with
  | _ :: port :: _ => port
  | _ => go_bytes "19990"
  end.

Definition go_server_options (args : list gostring) : Options :=
  SetMessageHandler true (SetAuthenticator (Some allowAll)
    (AddListener (NewTCPListener (go_bytes ":" ++ go_server_port args)) NewServerOptions)).

(** What handleConnection reads of the options of a server. *)
Definition serving_options (o : Options) : ServerOptions :=
  mkServerOptions (opt_Authenticator o) (opt_MessageHandler o)
    (default DefaultKeepalivePolicy (opt_KeepalivePolicy o)).

Definition go_server (args : list gostring) : ServerOptions :=
  serving_options (NewServer (Some (go_server_options args))).

(** Runs of the server program: its message handler calls Push once for every
    message it is handed, with the echo of the payload. *)
Inductive echo_run (o : ServerOptions) : list (gostring * list Z) -> config -> Prop :=
| echo_init : echo_run o [] init
| echo_push hist s h ts d payload :
    echo_run o hist (mkConfig s h ts) ->
    (in_mailbox d (echo payload) hist < count (is_delivery d payload) (events s))%nat ->
    Z.of_nat (length (echo payload)) < 2 ^ 28 - 1 ->
    echo_run o ((d, echo payload) :: hist) (mkConfig s h (TPush d (echo payload) :: ts))
| echo_moves hist x y : echo_run o hist x -> run_step o x y -> echo_run o hist y
| echo_env hist x y : echo_run o hist x -> no_call x y -> echo_run o hist y.

Lemma echo_run_calls o hist x : echo_run o hist x -> calls o hist x.
Proof.
  induction 1 as [|hist s h ts d p _ IH _ Hl|hist x y _ IH Hs|hist x y _ IH Hs];
    [constructor|by constructor|by eapply calls_run|by eapply calls_env].
Qed.

(** ** What the server program has been handed *)

Lemma step_events o x y :
  reachable o x -> sys_step o x y -> exists l, events (srv y) = l ++ events (srv x).
Proof.
  intros Hr Hs. destruct (refines o x Hr) as (a & _ & Ha).
  destruct (explained_step o x y (inv_reachable _ _ Hr) (ext_reachable _ _ Hr) Hs) as [He _].
  destruct (He a Ha) as (b & seen & _ & _ & Hev). eauto.
Qed.

Lemma step_deliveries o x y d payload :
  reachable o x -> sys_step o x y ->
  (count (is_delivery d payload) (events (srv x)) <= count (is_delivery d payload) (events (srv y)))%nat.
Proof. intros Hr Hs. destruct (step_events o x y Hr Hs) as [l ->]. rewrite count_app. lia. Qed.

Lemma echo_inj p q : echo p = echo q -> p = q.
Proof. apply app_inv_head. Qed.

(** Every echo answers a message. *)
Lemma echo_answers o hist x d payload :
  echo_run o hist x ->
  (in_mailbox d (echo payload) hist <= count (is_delivery d payload) (events (srv x)))%nat.
Proof.
  induction 1 as [|hist s h ts d' p Hr IH Hlt Hl|hist x y Hr IH Hs|hist x y Hr IH [Hs _]].
  - done.
  - rewrite in_mailbox_cons. unfold of_device. cbn [srv] in *.
    case_decide as Hd; [|lia]. case_decide as Hp; [|lia]. apply echo_inj in Hp. subst. lia.
  - apply echo_run_calls, calls_reachable in Hr.
    pose proof (step_deliveries o x y d payload Hr (or_introl Hs)). lia.
  - apply echo_run_calls, calls_reachable in Hr.
    pose proof (step_deliveries o x y d payload Hr (or_intror Hs)). lia.
Qed.

(** ** What success of the client program means *)

Lemma await_echoes_missing n echoes w w' p :
  await_echoes n echoes w = Some w' -> p ∈ w -> p ∉ w' -> p ∈ echoes.
Proof.
  revert echoes w. induction n as [|n IH]; intros [|q echoes] w Ha Hw Hw'; cbn in Ha; simplify_eq; try done.
  destruct (decide (p = q)) as [->|Hne]; [by left|right].
  apply (IH echoes (w ∖ {[q]})); [done|set_solver|done].
Qed.

Lemma want_pings i : (i < n_pings)%nat -> echo (ping i) ∈ want.
Proof.
  intros Hi. apply elem_of_list_to_set, list_elem_of_fmap. exists i. split; [done|].
  apply elem_of_seq. lia.
Qed.

Lemma go_client_passes args connect pushes echoes i :
  go_client_main args connect pushes echoes = 0 -> (i < n_pings)%nat -> echo (ping i) ∈ echoes.
Proof.
  intros Hm Hi. unfold go_client_main in Hm. destruct args as [|a [|b args]]; try done.
  destruct connect; [done|]. destruct (existsb _ pushes); [done|].
  destruct (await_echoes n_pings echoes want) as [w|] eqn:Ha; [|done]. case_decide as Hw; [|done].
  apply (await_echoes_missing _ _ _ _ _ Ha); [by apply want_pings|set_solver].
Qed.

Lemma occurrences_in payload l : payload ∈ l -> (1 <= occurrences payload l)%nat.
Proof.
  intros (l1 & l2 & ->)%list_elem_of_split. rewrite occurrences_app. unfold occurrences. cbn.
  rewrite bool_decide_eq_true_2 by done. cbn. lia.
Qed.

Lemma in_over_clients clients d s c y g :
  dcs s !! c = Some y -> deviceID y = d -> (g (clients c) <= over_clients clients d s g)%nat.
Proof.
  intros Hy Hd. unfold over_clients. rewrite (map_sum_lookup _ _ c y Hy). unfold of_device.
  rewrite decide_True by done. lia.
Qed.

(** C20: the end-to-end harness proves what it is meant to: when go-client exits with
    0, the echoes it counted having come through its message handler on a connection
    to go-server, then the server program's message handler was handed each of the
    five messages by that device: success cannot come about without every message
    having made the way to the application and back. *)
Theorem harness_pass_sound {URL : Type} (Parse : gostring -> error + URL) (args sargs : list gostring)
    (port : gostring) (connect : option error) (pushes : list (option (option error)))
    (echoes : list (list Z)) (n h : nat) (clients : connid -> comms)
    (hist : list (gostring * list Z)) (x : config) (c : connid) (y : deviceConnection) :
  go_client_main args connect pushes echoes = 0 ->
  echo_run (go_server sargs) hist x ->
  all_joined (go_client_options Parse port) n clients (go_bytes "go-e2e") (srv x) ->
  dcs (srv x) !! c = Some y -> deviceID y = go_bytes "go-e2e" ->
  (h < n)%nat -> (forall p, p ∈ echoes -> p ∈ heard h (clients c)) ->
  forall i, (i < n_pings)%nat ->
    (1 <= count (is_delivery (go_bytes "go-e2e") (ping i)) (events (srv x)))%nat.
Proof.
  intros Hm Hr Hj Hy Hd Hh He i Hi. set (d := go_bytes "go-e2e") in *.
  pose proof (occurrences_in _ _ (He _ (go_client_passes _ _ _ _ i Hm Hi))) as Hocc.
  pose proof (echo_run_calls _ _ _ Hr) as Hc. pose proof (inv_reachable _ _ (calls_reachable _ _ _ Hc)) as Hinv.
  pose proof (in_over_clients clients d (srv x) c y (fun s => occurrences (echo (ping i)) (heard h s)) Hy Hd).
  pose proof (delivered_to_clients _ _ clients d _ x h (echo (ping i)) Hh Hinv Hj).
  pose proof (calls_covered d (echo (ping i)) _ _ _ Hc) as Hcov. unfold covered in Hcov.
  pose proof (echo_answers _ _ _ d (ping i) Hr). cbn beta in *. lia.
Qed.

(** ** Concrete runs *)

Lemma echo_schedule o acts hist x y :
  echo_run o hist x -> schedule o acts x = Some y -> Forall (fun a => asked a = []) acts ->
  echo_run o hist y.
Proof.
  revert x. induction acts as [|a acts IH]; cbn [schedule]; intros x Hr Hy Hn; [by simplify_eq|].
  apply Forall_cons_1 in Hn as [Ha Hn]. destruct (act o a x) as [z|] eqn:Hz; [|done].
  apply (IH z); [|done..].
  destruct (act_moves o a x z Hz Ha); [by eapply echo_moves|by eapply echo_env].
Qed.

Definition call_echo (d : gostring) (payload : list Z) (x : config) : config :=
  mkConfig (srv x) (handlers x) (TPush d (echo payload) :: tasks x).

Lemma echo_call o hist x d payload :
  echo_run o hist x ->
  (in_mailbox d (echo payload) hist < count (is_delivery d payload) (events (srv x)))%nat ->
  Z.of_nat (length (echo payload)) < 2 ^ 28 - 1 ->
  echo_run o ((d, echo payload) :: hist) (call_echo d payload x).
Proof. destruct x. apply echo_push. Qed.

Lemma call_echo_srv d ps x : srv (foldr (call_echo d) x ps) = srv x.
Proof. by induction ps. Qed.

Lemma no_echo_yet d p ps : p ∉ ps -> in_mailbox d (echo p) ((fun q => (d, echo q)) <$> ps) = 0%nat.
Proof.
  induction ps as [|q ps IH]; [done|]. rewrite not_elem_of_cons. intros [Hq Hps]. cbn [fmap list_fmap].
  rewrite in_mailbox_cons, decide_False, IH by (done || by intros ->%echo_inj). unfold of_device.
  by case_decide.
Qed.

(** The handler has been called for different messages, and answers them. *)
Lemma echo_calls o d ps x :
  echo_run o [] x -> NoDup ps ->
  (forall p, p ∈ ps -> (0 < count (is_delivery d p) (events (srv x)))%nat /\
     Z.of_nat (length (echo p)) < 2 ^ 28 - 1) ->
  echo_run o ((fun p => (d, echo p)) <$> ps) (foldr (call_echo d) x ps).
Proof.
  intros Hr Hnd Hp. induction Hnd as [|p ps Hin _ IH]; [done|]. cbn [foldr fmap list_fmap].
  destruct (Hp p) as [Hc Hl]; [by left|]. apply echo_call; [|by rewrite no_echo_yet, call_echo_srv|done].
  apply IH. intros q Hq. apply Hp. by right.
Qed.

Definition e2e : gostring := go_bytes "go-e2e".

Definition e2e_options : ClientOptions gostring := go_client_options inr (go_bytes "19990").

Definition e2e_pings : list (list Z) := ping <$> seq 0 n_pings.

(** The client connects and pushes five messages; the server hands them over, its
    handler echoes each, and the client hears the echoes. *)
Definition e2e_upstream : flat :=
  Flat (frame (PConnect (newConnectMsgFromOptions (NewClient e2e_options))) ++
        concat ((fun p => frame (new_push p)) <$> e2e_pings)) io_EOF.

Definition e2e_server_upto (acts : list action) (x : config) : config :=
  default x (schedule (go_server []) acts x).

Definition e2e_handed : config :=
  e2e_server_upto (Accept 0 e2e_upstream :: replicate 11 (Handler 0) ++ replicate 5 (Task 0)) init.

Definition e2e_called : config := foldr (call_echo e2e) e2e_handed e2e_pings.

Definition e2e_history : list (gostring * list Z) := (fun p => (e2e, echo p)) <$> e2e_pings.

Definition e2e_served : config := e2e_server_upto (replicate 10 (Task 0)) e2e_called.

Definition e2e_net : netconn := default (peer_sends []) (nets (srv e2e_served) !! 0%nat).

Definition e2e_downstream : flat := Flat (concat (nc_out e2e_net)) io_EOF.

Definition e2e_fresh : netconn := mkNet e2e_downstream e2e_downstream [] false None false.

Definition e2e_conn : netconn :=
  snd (connectServer e2e_fresh (newConnectMsgFromOptions (NewClient e2e_options))).

Definition e2e_labels : list label :=
  LConnectEnd :: concat ((fun p => [EPush p; LSendObound; LWrite]) <$> e2e_pings) ++
  concat (replicate 5 [LRead; LIbound; LOutput; LPublish; LIncomingPub; LHandlerCall 0]).

Definition e2e_client : comms :=
  default (start true e2e_conn) (comms_run 1 e2e_labels (start true e2e_conn)).

Lemma e2e_upto hist acts x :
  echo_run (go_server []) hist x -> Forall (fun a => asked a = []) acts ->
  echo_run (go_server []) hist (e2e_server_upto acts x).
Proof.
  intros Hr Ha. unfold e2e_server_upto. destruct (schedule _ acts x) as [y|] eqn:Hy; [|done].
  by apply (echo_schedule _ acts hist x).
Qed.

Lemma e2e_echo_run : echo_run (go_server []) e2e_history e2e_served.
Proof.
  apply e2e_upto; [|repeat constructor]. apply echo_calls.
  - apply e2e_upto; [apply echo_init|repeat constructor].
  - apply (bool_decide_unpack _). vm_compute. exact I.
  - apply Forall_forall. apply (bool_decide_unpack _). vm_compute. exact I.
Qed.

Lemma e2e_client_runs : comms_reachable 1 true e2e_conn e2e_client.
Proof.
  unfold e2e_client. destruct (comms_run 1 e2e_labels (start true e2e_conn)) as [s|] eqn:Hs;
    [by apply comms_run_steps in Hs|apply rtc_refl].
Qed.

Lemma e2e_joined : joined e2e_options 1 e2e_net e2e_client /\ sendable e2e_options e2e_client.
Proof.
  split.
  - exists e2e_downstream. split; [|split].
    + exists e2e_fresh, 30, e2e_conn, true. split; [reflexivity|]. split; [reflexivity|].
      split; [vm_compute; reflexivity|apply e2e_client_runs].
    + exists []. vm_compute. reflexivity.
    + exists []. vm_compute. reflexivity.
  - split; [vm_compute; reflexivity|]. apply (bool_decide_unpack _). vm_compute. exact I.
Qed.

Lemma e2e_devices : dcs (srv e2e_served) = {[0%nat := mkDC e2e true]}.
Proof. vm_compute. reflexivity. Qed.

Lemma e2e_all_joined : all_joined e2e_options 1 (fun _ => e2e_client) e2e (srv e2e_served).
Proof.
  intros c y nc Hy _ Hnc. rewrite e2e_devices in Hy. apply lookup_singleton_Some in Hy as [<- _].
  assert (Hnet : e2e_net = nc) by (unfold e2e_net; rewrite Hnc; reflexivity).
  rewrite <- Hnet. exact e2e_joined.
Qed.

Lemma harness_pass_sound_witness :
  go_client_main [go_bytes "go-client"; go_bytes "19990"] None (replicate 5 (Some None))
    (heard 0 e2e_client) = 0 /\
  forall i, (i < n_pings)%nat ->
    (1 <= count (is_delivery (go_bytes "go-e2e") (ping i)) (events (srv e2e_served)))%nat.
Proof.
  assert (Hm : go_client_main [go_bytes "go-client"; go_bytes "19990"] None (replicate 5 (Some None))
    (heard 0 e2e_client) = 0) by (vm_compute; reflexivity).
  split; [exact Hm|].
  refine (harness_pass_sound inr _ [] (go_bytes "19990") _ _ _ 1 0 (fun _ => e2e_client) e2e_history
    e2e_served 0%nat (mkDC e2e true) Hm e2e_echo_run e2e_all_joined _ eq_refl Nat.lt_0_1 (fun p Hp => Hp)).
  vm_compute. reflexivity.
Defined.

Lemma messages_accounted_end_to_end_witness :
  count (is_delivery e2e (ping 0)) (events (srv e2e_served)) = 1%nat /\
  (count (is_delivery e2e (ping 0)) (events (srv e2e_served)) <=
     over_clients (fun _ => e2e_client) e2e (srv e2e_served) (fun s => occurrences (ping 0) (accepted s)))%nat /\
  (over_clients (fun _ => e2e_client) e2e (srv e2e_served) (fun s => occurrences (ping 0) (heard 0 s)) <=
     in_mailbox e2e (ping 0) e2e_history)%nat.
Proof.
  split; [vm_compute; reflexivity|].
  exact (messages_accounted_end_to_end (go_server []) e2e_options 1 (fun _ => e2e_client) e2e_history
    e2e_served e2e (ping 0) 0 Nat.lt_0_1 (echo_run_calls _ _ _ e2e_echo_run) e2e_all_joined).
Defined.

Lemma messages_in_order_end_to_end_witness :
  dispatched e2e_client = echo <$> e2e_pings /\
  (exists sent, push_payloads (packets (nc_all e2e_net)) `prefix_of` sent /\
     succeeded (results e2e_client) `sublist_of` sent /\ sent `sublist_of` accepted e2e_client) /\
  dispatched e2e_client `prefix_of` push_payloads (outbox e2e_net) /\
  hc_called (hcalls e2e_client) ⊆+ calls_of 1 (dispatched e2e_client).
Proof.
  split; [vm_compute; reflexivity|].
  refine (messages_in_order_end_to_end (go_server []) e2e_options 1 e2e_served 0%nat e2e_net e2e_client
    _ _ (proj1 e2e_joined) (proj2 e2e_joined)).
  - exact (calls_reachable _ _ _ (echo_run_calls _ _ _ e2e_echo_run)).
  - vm_compute. reflexivity.
Defined.
