(* ===== verification/Client.v ===== *)
(** * Client: API calls and connection lifecycle

    The control flow of client/client.go: Connect, Push,
    IsConnected, the reaction to a DISCONNECT, loss of the connection and
    reconnection.  Goroutines are followed through the calls they make, in
    order ([effect]); what they learn from the network and from other goroutines
    (results of attempts, the status after a pause) is an argument. *)

From Stdlib Require Import ZArith Lia String SpecFloat.
From stdpp Require Import base list strings gmap numbers.
From S2P Require Import Prelude Codec GoTime Status Backoff ClientOptions ClientNet ClientToken.

Local Open Scope Z_scope.

(** ** client.go: IsConnected and Push *)

Definition IsConnected {URL} (o : ClientOptions URL) (c : connectionStatus) : bool :=
  let '(s, r) := ConnectionStatusRetry c in
  if bool_decide (s = connected) then true
  else if ConnectRetry o && bool_decide (s = connecting) then true
  else if AutoReconnect o then
    bool_decide (s = reconnecting) || (bool_decide (s = disconnecting) && r)
  else false.

Definition ErrNotConnected : error := Sentinel "ErrNotConnected" "not Connected".
Definition errUnknownPayload : error := Errorf "unknown payload type".
Definition errPushTimeout : error := Errorf "push was broken by timeout".

(** The dynamic type of Push's argument. *)
Inductive payload : Type :=
| StringPayload (s : gostring)
| BytesPayload (bs : list Z)
| BufferPayload (bs : list Z)
| OtherPayload.

Definition payload_bytes (p : payload) : option (list Z) :=
  match p with
  | StringPayload bs | BytesPayload bs | BufferPayload bs => Some bs
  | OtherPayload => None
  end.

(** The token Push returns, and the message it put on the outbound channel.
    [c1] and [c2] are the status at the two places it is read; [taken] is
    whether the channel accepts the message before the timeout. *)
Definition client_Push {URL} (o : ClientOptions URL) (c1 c2 : connectionStatus) (p : payload)
    (taken : bool) : baseToken * option (list Z) :=
  if negb (IsConnected o c1) then (setError ErrNotConnected open_token, None)
  else if bool_decide (ConnectionStatus c2 = reconnecting) then (flowComplete open_token, None)
  else match payload_bytes p with
       | None => (setError errUnknownPayload open_token, None)
       | Some bs => if taken then (open_token, Some bs)
                    else (setError errPushTimeout open_token, None)
       end.

(** ** client.go: the connection's lifecycle *)

(** The calls a lifecycle goroutine makes that others can see. *)
Inductive effect : Type :=
| ConnectionUp (success : bool)      (* the connCompletedFn *)
| LostHandled (proceed : bool)       (* the connectionLostHandledFn *)
| DisconnectionDone                  (* the disconnectCompletedFn *)
| TokenError (err : error) (rc : Z)
| TokenComplete
| CloseConn                          (* of the connection just made *)
| QueueDisconnect                    (* DISCONNECT taken by the outgoing loop *)
| StartKeepalive
| StartWorkers                       (* c.conn is set and the comms goroutines started *)
| StopWorkers
| SpawnReconnect
| CallOnConnectionLost
| CallOnReconnecting
| Sleep (d : Z).

(** [running] is c.conn != nil: the new connection is closed and given up. *)
Definition startWorkers {URL} (o : ClientOptions URL) (running : bool) : list effect :=
  if running then [CloseConn; ConnectionUp false]
  else (if negb (Heartbeat o =? 0) || AdaptiveHeartbeat o then [StartKeepalive] else []) ++
       [ConnectionUp true; StartWorkers].

(** An attempt's return code and error, and whether the status is still the one
    the loop expects after the pause that follows a failure. *)
Record attempted : Type := mkAttempted { at_rc : Z; at_err : option error; at_still : bool }.

Definition errNoServer : error := Errorf "no server to connect to".

(** The goroutine Connect starts once the status is connecting; [None] while the
    attempts given are not enough to end it. *)
Fixpoint connect_loop {URL} (o : ClientOptions URL) (running : bool) (attempts : list attempted)
  : option (list effect) :=
  match attempts with
  | [] => None
  | a :: attempts =>
      match at_err a with
      | Some err =>
          if connect_retries o err (at_still a) then connect_loop o running attempts
          else Some [TokenError err (at_rc a); ConnectionUp false]
      | None => Some (startWorkers o running ++ [TokenComplete])
      end
  end.

Definition connect_goroutine {URL} (o : ClientOptions URL) (running : bool)
    (attempts : list attempted) : option (list effect) :=
  match Servers o with
  | [] => Some [TokenError errNoServer 0; ConnectionUp false]
  | _ => connect_loop o running attempts
  end.

(** Connect itself: the token, and whether the goroutine is started. *)
Definition client_Connect {URL} (o : ClientOptions URL) (c : connectionStatus)
  : baseToken * option connectionStatus :=
  match Connecting c with
  | Goes _ c' => (open_token, Some c')
  | Returns (Some err) _ =>
      if bool_decide (err = errAlreadyConnectedOrReconnecting) && AutoReconnect o
      then (flowComplete open_token, None) else (setError err open_token, None)
  | _ => (open_token, None)
  end.

Definition pauses (pause : option Z) : list effect :=
  match pause with Some d => [Sleep d] | None => [] end.

(** The reconnect goroutine: the pause after a lost connection, then attempts
    with backoff.  With a pause comes the time at which the backoff is asked and
    what rand.Float64 returns.  The result is what the goroutine does and the
    controller it leaves in c.backoff for the next one. *)
Fixpoint reconnect_loop {URL} (o : ClientOptions URL) (running : bool)
    (attempts : list (attempted * (Z * spec_float))) (b : gmap string backoffStatus)
  : option (list effect * gmap string backoffStatus) :=
  let told := if OnReconnecting o then [CallOnReconnecting] else [] in
  match attempts with
  | [] => None
  | (a, (now, r)) :: attempts =>
      match at_err a with
      | None => Some (told ++ startWorkers o running, b)
      | Some _ =>
          let '((_, pause), b) := sleepWithBackoff "attemptReconnection" (ReconnectBase o)
            (MaxReconnectInterval o) (ConnectTimeout o) false now r b in
          if at_still a then
            match reconnect_loop o running attempts b with
            | Some (effs, b) => Some (told ++ pauses pause ++ effs, b)
            | None => None
            end
          else Some (told ++ pauses pause ++ [ConnectionUp false], b)
      end
  end.

Definition reconnect {URL} (o : ClientOptions URL) (running : bool) (now : Z) (r : spec_float)
    (attempts : list (attempted * (Z * spec_float))) (b : gmap string backoffStatus)
  : option (list effect * gmap string backoffStatus) :=
  let '((_, pause), b) := sleepWithBackoff "connectionLost" (ReconnectBase o)
    (MaxReconnectInterval o) (3 * Second) true now r b in
  match reconnect_loop o running attempts b with
  | Some (effs, b) => Some (pauses pause ++ effs, b)
  | None => None
  end.

(** The arguments of one reconnect goroutine. *)
Record reconnection : Type := mkReconnection {
  rc_running : bool;
  rc_now : Z;
  rc_rand : spec_float;
  rc_attempts : list (attempted * (Z * spec_float));
}.

(** The reconnect goroutines of one client, one for each connection lost: they
    share c.backoff, which is made once, with the client. *)
Fixpoint reconnections {URL} (o : ClientOptions URL) (rs : list reconnection) (b : gmap string backoffStatus)
  : option (list effect * gmap string backoffStatus) :=
  match rs with
  | [] => Some ([], b)
  | r :: rs =>
      match reconnect o (rc_running r) (rc_now r) (rc_rand r) (rc_attempts r) b with
      | Some (effs, b) =>
          match reconnections o rs b with
          | Some (effs', b) => Some (effs ++ effs', b)
          | None => None
          end
      | None => None
      end
  end.

(** What internalConnLost passes to ConnectionLost: reconnect only what was
    connected (or being reconnected), by the status read first. *)
Definition lost_will_reconnect {URL} (o : ClientOptions URL) (c : connectionStatus) : bool :=
  AutoReconnect o && match st c with reconnecting | connected => true | _ => false end.

(** [now] is the status when it was read, [c] when ConnectionLost takes the
    lock; on an error of ConnectionLost internalConnLost only logs. *)
Definition internalConnLost {URL} (o : ClientOptions URL) (now c : connectionStatus) : result :=
  ConnectionLost (lost_will_reconnect o now) c.

(** internalConnLost once ConnectionLost has handed out its function:
    [reconnecting] is whether that function, called with true, returned a
    connCompletedFn; [handler] whether OnConnectionLost is set. *)
Definition conn_lost (running reconnect handler : bool) : list effect :=
  if running then
    [StopWorkers; LostHandled true] ++ (if reconnect then [SpawnReconnect] else []) ++
    (if handler then [CallOnConnectionLost] else [])
  else [LostHandled false].

(** Disconnect's goroutine: nothing when Disconnecting fails; otherwise the
    DISCONNECT, if the outgoing loop takes it before the quiesce time is over
    ([taken]), then the teardown. *)
Definition disconnect_goroutine (granted taken running : bool) : list effect :=
  if granted then
    (if taken then [QueueDisconnect] else []) ++ (if running then [StopWorkers] else []) ++
    [DisconnectionDone]
  else [].

(** The reaction to a DISCONNECT from the server. *)
Inductive reaction : Type := CallDisconnect (quiesce : Z) | CallConnLost.

Definition client_CloseConnect (reason : Z) : reaction :=
  if reason =? DiscNormalDisconnect then CallDisconnect 100
  else if (reason =? DiscSessionTakenOver) || (reason =? DiscKickedByAdmin) then CallDisconnect 100
  else CallConnLost.

(** ** Completion functions are called once *)

Definition calls (p : effect -> bool) (effs : list effect) : nat := length (List.filter p effs).

Definition is_ConnectionUp (e : effect) : bool := match e with ConnectionUp _ => true | _ => false end.
Lemma calls_app p l k : calls p (l ++ k) = (calls p l + calls p k)%nat.
Proof. unfold calls. by rewrite List.filter_app, length_app. Qed.

Definition is_LostHandled (e : effect) : bool := match e with LostHandled _ => true | _ => false end.
Definition is_DisconnectionDone (e : effect) : bool :=
  match e with DisconnectionDone => true | _ => false end.
Definition is_token (e : effect) : bool :=
  match e with TokenError _ _ | TokenComplete => true | _ => false end.

Lemma connect_loop_once {URL} (o : ClientOptions URL) running attempts effs :
  connect_loop o running attempts = Some effs ->
  calls is_ConnectionUp effs = 1%nat /\ calls is_token effs = 1%nat.
Proof.
  induction attempts as [|a attempts IH]; cbn; [done|].
  destruct (at_err a) as [err|].
  - destruct (connect_retries o err (at_still a)); [done|]. by intros [= <-].
  - intros [= <-]. unfold startWorkers. destruct running; [done|].
    by destruct (negb _ || _).
Qed.

Lemma reconnect_loop_once {URL} (o : ClientOptions URL) running attempts b effs b' :
  reconnect_loop o running attempts b = Some (effs, b') -> calls is_ConnectionUp effs = 1%nat.
Proof.
  revert b effs. induction attempts as [|[a [now r]] attempts IH]; intros b effs; cbn; [done|].
  destruct (at_err a) as [err|].
  - destruct (sleepWithBackoff _ _ _ _ _ _ _ _) as [[res pause] b1].
    destruct (at_still a).
    2: { intros [= <- _]. by destruct (OnReconnecting o), pause. }
    destruct (reconnect_loop o running attempts b1) as [[effs' b2]|] eqn:Hr; [|done].
    intros [= <- ->]. rewrite !calls_app, (IH b1 effs' Hr). by destruct (OnReconnecting o), pause.
  - intros [= <- _]. unfold startWorkers.
    by destruct (OnReconnecting o), running, (negb (Heartbeat o =? 0) || AdaptiveHeartbeat o).
Qed.

(** Every goroutine that was handed a completion function of the status
    machine calls it exactly once on every path, which is what the safety of
    the status machine relies on: Connect's goroutine and reconnect call the
    connCompletedFn once (and Connect completes its token once), the handling
    of a lost connection calls its handler once, Disconnect its completion
    once when it was granted one and not at all otherwise. *)
Theorem completion_called_once {URL : Type} (o : ClientOptions URL) (running : bool)
    (attempts : list attempted) (timed : list (attempted * (Z * spec_float))) (now : Z) (r : spec_float)
    (b b' : gmap string backoffStatus) (reconn handler taken : bool) (effs effs' : list effect) :
  connect_goroutine o running attempts = Some effs ->
  reconnect o running now r timed b = Some (effs', b') ->
  calls is_ConnectionUp effs = 1%nat /\ calls is_token effs = 1%nat /\
  calls is_ConnectionUp effs' = 1%nat /\
  calls is_LostHandled (conn_lost running reconn handler) = 1%nat /\
  calls is_DisconnectionDone (disconnect_goroutine true taken running) = 1%nat /\
  calls is_DisconnectionDone (disconnect_goroutine false taken running) = 0%nat.
Proof.
  unfold connect_goroutine, reconnect. intros Hc Hr.
  assert (calls is_ConnectionUp effs = 1%nat /\ calls is_token effs = 1%nat) as [H1 H2].
  { destruct (Servers o); [by simplify_eq|by apply connect_loop_once in Hc]. }
  repeat split; [done|done| |by destruct running, reconn, handler|by destruct running, taken].
  destruct (sleepWithBackoff _ _ _ _ _ _ _ _) as [[res pause] b1].
  destruct (reconnect_loop o running timed b1) as [[l b2]|] eqn:Hl; [|done].
  injection Hr as <- ->. apply reconnect_loop_once in Hl. rewrite calls_app, Hl. by destruct pause.
Qed.

(** ** Push *)

(** What a Push promises: the message is queued exactly when the client
    counts as connected, is not reconnecting, the payload has a supported type
    and the queue takes it in time, and then the token is still open; in every
    other case nothing is queued and the token is complete, with an error
    unless the client is reconnecting: then the token reports success although
    nothing is ever sent. *)
Theorem push_accounting {URL : Type} (o : ClientOptions URL) (c1 c2 : connectionStatus)
    (p : payload) (taken : bool) :
  let '(tok, queued) := client_Push o c1 c2 p taken in
  (forall bs, queued = Some bs <->
     IsConnected o c1 = true /\ st c2 <> reconnecting /\ payload_bytes p = Some bs /\ taken = true) /\
  (complete tok = false <-> queued <> None) /\
  (complete tok = true /\ t_err tok = None <-> IsConnected o c1 = true /\ st c2 = reconnecting).
Proof.
  unfold client_Push. destruct (IsConnected o c1); cbn [negb].
  2: { cbn. repeat split; naive_solver. }
  case_bool_decide as Hs; [cbn; repeat split; naive_solver|].
  destruct (payload_bytes p) as [bs|]; [destruct taken|]; cbn; repeat split; naive_solver.
Qed.

(** ** Retrying *)

(** Connect never retries a refusal, whatever the options say. *)
Lemma connect_retry_policy {URL : Type} (o : ClientOptions URL) (err : error) (still : bool) :
  connect_retries o err still = true <->
  ConnectRetry o = true /\ still = true /\
  err ∉ [ProtocolViolationErr; RefusedNotAuthorisedErr; RefusedBadProtocolVersionErr].
Proof.
  unfold connect_retries. rewrite !andb_true_iff, !negb_true_iff, !bool_decide_eq_false.
  rewrite !not_elem_of_cons. split; [|naive_solver].
  intros ((((? & ?) & ?) & ?) & ?). repeat split; try done. apply not_elem_of_nil.
Qed.

(** An attempt that failed for a reason Connect retries. *)
Definition retried {URL} (o : ClientOptions URL) (a : attempted) : Prop :=
  exists err, at_err a = Some err /\ ConnectRetry o = true /\ at_still a = true /\
    err ∉ [ProtocolViolationErr; RefusedNotAuthorisedErr; RefusedBadProtocolVersionErr].

(** Connect's goroutine ends with the first attempt that is not retried:
    all attempts before it failed for a reason other than a refusal (credential,
    version, protocol violation), with ConnectRetry set and the status still
    connecting after the pause; if it succeeded, the workers are started and the
    token completes, and otherwise the token carries its error and return code
    and the attempt is reported as failed. *)
Theorem connect_outcome {URL : Type} (o : ClientOptions URL) (running : bool)
    (attempts : list attempted) (effs : list effect) :
  Servers o <> [] -> connect_goroutine o running attempts = Some effs ->
  exists pre a post, attempts = pre ++ a :: post /\ Forall (retried o) pre /\ ~ retried o a /\
    effs = match at_err a with
           | None => startWorkers o running ++ [TokenComplete]
           | Some err => [TokenError err (at_rc a); ConnectionUp false]
           end.
Proof.
  unfold connect_goroutine. intros Hs. destruct (Servers o) as [|u us]; [done|]. clear Hs.
  induction attempts as [|a attempts IH]; cbn; [done|].
  destruct (at_err a) as [err|] eqn:He.
  - destruct (connect_retries o err (at_still a)) eqn:Hr.
    + intros (pre & a' & post & -> & Hpre & Hp)%IH. exists (a :: pre), a', post.
      repeat split; [|apply Hp..]. constructor; [|done]. exists err.
      by apply connect_retry_policy in Hr.
    + intros [= <-]. exists [], a, attempts. rewrite He. repeat split; [constructor|].
      intros (err' & He' & Hretry). rewrite He in He'. injection He' as <-.
      apply connect_retry_policy in Hretry. congruence.
  - intros [= <-]. exists [], a, attempts. rewrite He. repeat split; [constructor|].
    intros (err' & He' & _). congruence.
Qed.

(** The pauses of a reconnection are within the bound. *)
Definition paused_within (max : Z) (e : effect) : Prop :=
  match e with Sleep d => pause_within max d | _ => True end.

(** What a call of rand.Float64 can return. *)
Definition random (r : spec_float) : Prop := exists k, 0 <= k < 2 ^ 53 /\ r = rand_Float64 k.

Lemma told_within {URL} (o : ClientOptions URL) max :
  Forall (paused_within max) (if OnReconnecting o then [CallOnReconnecting] else []).
Proof. destruct (OnReconnecting o); by repeat constructor. Qed.

Lemma pauses_within max pause :
  (forall d, pause = Some d -> pause_within max d) -> Forall (paused_within max) (pauses pause).
Proof. intros Hp. destruct pause; [constructor; [by apply Hp|]|]; constructor. Qed.

(** Every period the controller remembers, of either situation. *)
Definition stored_within (max : Z) (b : gmap string backoffStatus) : Prop :=
  map_Forall (fun _ s => 0 <= lastSleepPeriod s <= max) b.

(** One call of sleepWithBackoff keeps that, whatever was stored. *)
Lemma sleep_within situation init max process skip now r b res pause b' :
  0 <= init -> 0 <= max < 2 ^ 62 -> random r -> stored_within max b ->
  sleepWithBackoff situation init max process skip now r b = ((res, pause), b') ->
  stored_within max b' /\ Forall (paused_within max) (pauses pause).
Proof.
  intros Hinit Hmax (k & Hk & ->) Hb Hs.
  destruct (sleep_pause _ _ _ _ _ _ k _ _ _ _ Hinit Hmax Hk Hs) as (-> & Hres & Hp); [intros st; apply Hb|].
  split; [by apply map_Forall_insert_2|by apply pauses_within].
Qed.

Lemma startWorkers_within {URL} (o : ClientOptions URL) running max :
  Forall (paused_within max) (startWorkers o running).
Proof.
  unfold startWorkers. destruct running; [|destruct (negb _ || _)]; cbn; by repeat (apply Forall_cons; [done|]).
Qed.

Section sleeps.
Context {URL : Type} (o : ClientOptions URL).
Context (Hbase : 0 <= ReconnectBase o) (Hmax : 0 <= MaxReconnectInterval o < 2 ^ 62).

#[local] Notation max := (MaxReconnectInterval o).

(** Every number the goroutine draws is one. *)
Definition draws (r : reconnection) : Prop :=
  random (rc_rand r) /\ Forall (fun a => random (snd (snd a))) (rc_attempts r).

Lemma reconnect_loop_sleeps running attempts b effs b' :
  Forall (fun a => random (snd (snd a))) attempts -> stored_within max b ->
  reconnect_loop o running attempts b = Some (effs, b') ->
  stored_within max b' /\ Forall (paused_within max) effs.
Proof.
  revert b effs. induction attempts as [|[a [now r]] attempts IH]; intros b effs Hr Hb; cbn [reconnect_loop]; [done|].
  apply Forall_cons_1 in Hr as [Hrk Hr]. pose proof (told_within o max). destruct (at_err a) as [err|].
  - destruct (sleepWithBackoff _ _ _ _ _ _ _ _) as [[res pause] b1] eqn:Hs.
    destruct (sleep_within _ _ _ _ _ _ _ _ _ _ _ Hbase Hmax Hrk Hb Hs) as [Hb1 Hp].
    destruct (at_still a).
    + destruct (reconnect_loop o running attempts b1) as [[effs' b2]|] eqn:Hl; [|done].
      intros [= <- ->]. destruct (IH b1 effs' Hr Hb1 Hl). split; [done|]. by repeat apply Forall_app_2.
    + intros [= <- <-]. split; [done|]. by repeat apply Forall_app_2; [..|repeat constructor].
  - intros [= <- <-]. split; [done|]. apply Forall_app_2; [done|apply startWorkers_within].
Qed.

Lemma reconnect_sleeps r b effs b' :
  draws r -> stored_within max b ->
  reconnect o (rc_running r) (rc_now r) (rc_rand r) (rc_attempts r) b = Some (effs, b') ->
  stored_within max b' /\ Forall (paused_within max) effs.
Proof.
  intros [Hr Hrs] Hb. unfold reconnect.
  destruct (sleepWithBackoff _ _ _ _ _ _ _ _) as [[res pause] b1] eqn:Hs.
  destruct (sleep_within _ _ _ _ _ _ _ _ _ _ _ Hbase Hmax Hr Hb Hs) as [Hb1 Hp].
  destruct (reconnect_loop o _ _ b1) as [[l b2]|] eqn:Hl; [|done]. intros [= <- ->].
  destruct (reconnect_loop_sleeps _ _ _ _ _ Hrs Hb1 Hl). split; [done|]. by apply Forall_app_2.
Qed.

Lemma reconnections_sleep rs b effs b' :
  Forall draws rs -> stored_within max b -> reconnections o rs b = Some (effs, b') ->
  stored_within max b' /\ Forall (paused_within max) effs.
Proof.
  revert b effs. induction rs as [|r rs IH]; intros b effs Hd Hb; cbn [reconnections]; [by intros [= <- <-]|].
  apply Forall_cons_1 in Hd as [Hr Hrs].
  destruct (reconnect o _ _ _ _ b) as [[l b1]|] eqn:Hl; [|done].
  destruct (reconnect_sleeps _ _ _ _ Hr Hb Hl) as [Hb1 Hp].
  destruct (reconnections o rs b1) as [[l' b2]|] eqn:Hl'; [|done]. intros [= <- ->].
  destruct (IH _ _ Hrs Hb1 Hl'). split; [done|]. by apply Forall_app_2.
Qed.

End sleeps.

(** C40: every pause of every reconnection of a client, the one before the first attempt
    of a connection lost again included, is at most MaxReconnectInterval and the quarter
    that the jitter may add, however many connections are lost one after another (they
    share one backoff controller, made with the client), whatever the attempts, the
    times and the random numbers, and no pause is negative; as long as the options,
    which stay as they are, have a ReconnectBase that is not negative and a
    MaxReconnectInterval between 0 and 146 years (2^62 nanoseconds). *)
Theorem reconnect_sleeps_bounded {URL : Type} (o : ClientOptions URL) (rs : list reconnection)
    (effs : list effect) (b : gmap string backoffStatus) :
  0 <= ReconnectBase o -> 0 <= MaxReconnectInterval o < 2 ^ 62 -> Forall draws rs ->
  reconnections o rs newBackoffController = Some (effs, b) ->
  Forall (paused_within (MaxReconnectInterval o)) effs.
Proof.
  intros Hbase Hmax Hd Hr. apply (reconnections_sleep o Hbase Hmax rs newBackoffController effs b Hd); [|done].
  apply map_Forall_empty.
Qed.

(** ** Witnesses *)

Definition failing : attempted := mkAttempted ErrNetworkError (Some io_EOF) true.

Definition succeeding : attempted := mkAttempted Accepted None true.

(** The random number one half: no jitter. *)
Definition half : spec_float := rand_Float64 (2 ^ 52).

Lemma completion_called_once_witness :
  calls is_ConnectionUp [StartKeepalive; ConnectionUp true; StartWorkers; TokenComplete] = 1%nat /\
  calls is_token [StartKeepalive; ConnectionUp true; StartWorkers; TokenComplete] = 1%nat /\
  calls is_ConnectionUp [StartKeepalive; ConnectionUp true; StartWorkers] = 1%nat /\
  calls is_LostHandled (conn_lost false true true) = 1%nat /\
  calls is_DisconnectionDone (disconnect_goroutine true true false) = 1%nat /\
  calls is_DisconnectionDone (disconnect_goroutine false true false) = 0%nat.
Proof.
  refine (completion_called_once client_options false [failing; succeeding]
    [(failing, (5, half)); (succeeding, (9, half))] 0 half newBackoffController _ true true true _ _ _ _);
    vm_compute; reflexivity.
Defined.

Lemma half_random : random half.
Proof. exists (2 ^ 52). split; [lia|done]. Qed.

(** Two connections lost, the second one 5.5 seconds after the first: its first pause comes
    before any attempt. *)
Definition two_losses : list reconnection :=
  [mkReconnection false 0 half
     [(failing, (1 * Second, half)); (failing, (3 * Second, half)); (succeeding, (6 * Second, half))];
   mkReconnection false 5500000000 half
     [(failing, (8 * Second, half)); (succeeding, (20 * Second, half))]].

Lemma reconnect_sleeps_bounded_witness :
  Forall (paused_within (600 * Second))
    [Sleep (1 * Second); Sleep (2 * Second); StartKeepalive; ConnectionUp true; StartWorkers;
     Sleep (1 * Second); Sleep (4 * Second); StartKeepalive; ConnectionUp true; StartWorkers].
Proof.
  refine (reconnect_sleeps_bounded (NewClientOptions (URL := nat)) two_losses _ _ _ _ _ _).
  - vm_compute. discriminate.
  - vm_compute. intuition congruence.
  - repeat (constructor; [split; [exact half_random|repeat (constructor; [exact half_random|]); constructor]|]).
    constructor.
  - vm_compute. reflexivity.
Defined.

Lemma connect_outcome_witness : exists pre a post,
  [failing; succeeding; failing] = pre ++ a :: post /\ Forall (retried client_options) pre /\
  ~ retried client_options a /\
  [StartKeepalive; ConnectionUp true; StartWorkers; TokenComplete] =
    match at_err a with
    | None => startWorkers client_options false ++ [TokenComplete]
    | Some err => [TokenError err (at_rc a); ConnectionUp false]
    end.
Proof.
  refine (connect_outcome client_options false [failing; succeeding; failing] _ _ _).
  - discriminate.
  - vm_compute. reflexivity.
Defined.
