(* ===== verification/ClientDisconnect.v ===== *)
(** * Client: how long Disconnect takes

    Disconnect of src/client/client.go in time.  It starts a goroutine that asks the
    status machine, offers a DISCONNECT to the outgoing loop, waits for it to be
    written and stops the workers; the caller waits for that goroutine or for its own
    timer.  What the goroutine does is [Client.disconnect_goroutine]; here are the
    timers, whose duration is computed from the application's number. *)

From Stdlib Require Import ZArith Lia.
From stdpp Require Import base list numbers.
From S2P Require Import Prelude GoTime.

Local Open Scope Z_scope.

(** [time.Duration(quiesce) * time.Millisecond], for a uint of 64 bits. *)
Definition quiesce_time (quiesce : Z) : Z := i64 (i64 quiesce * Millisecond).

(** A timer with that duration; one that is not positive fires at once. *)
Definition timer_after (quiesce : Z) : Z := Z.max 0 (quiesce_time quiesce).

(** What happens to the goroutine, as durations: of Disconnecting, and whether it was
    granted; of the select, if the outgoing loop takes the packet; of the wait for
    the packet's token, if it completes; of stopping the workers. *)
Record disconnect_run : Type := mkDisconnectRun {
  d_status : Z;
  d_granted : bool;
  d_taken : option Z;
  d_written : option Z;
  d_stop : Z;
}.

(** Neither wait outlasts its timer. *)
Definition run_ok (quiesce : Z) (r : disconnect_run) : Prop :=
  0 <= d_status r /\ 0 <= d_stop r /\
  match d_taken r with Some t => 0 <= t <= timer_after quiesce | None => True end /\
  match d_written r with Some t => 0 <= t <= timer_after quiesce | None => True end.

(** From the start of the goroutine to the call of c.disconnect, when it is granted. *)
Definition before_stop (quiesce : Z) (r : disconnect_run) : Z :=
  d_status r +
  match d_taken r with
  | Some t => t + default (timer_after quiesce) (d_written r)
  | None => timer_after quiesce
  end.

(** Until the goroutine closes [done]. *)
Definition disconnect_done (quiesce : Z) (r : disconnect_run) : Z :=
  if d_granted r then before_stop quiesce r + d_stop r else d_status r.

(** The select of the caller. *)
Definition Disconnect_returns (quiesce : Z) (r : disconnect_run) : Z :=
  Z.min (disconnect_done quiesce r) (timer_after quiesce).

Lemma quiesce_exact quiesce : 0 <= quiesce < 9223372036854 -> quiesce_time quiesce = quiesce * Millisecond.
Proof. intros Hq. unfold quiesce_time, Millisecond. rewrite (i64_small quiesce), i64_small; lia. Qed.

(** Disconnect returns within the given number of milliseconds, whatever its
    goroutine does; the goroutine itself starts to stop the workers within twice that
    once the status machine has answered; and when Disconnect returns before its
    timer, the workers have been stopped or the status machine has refused. *)
Theorem disconnect_in_time (quiesce : Z) (r : disconnect_run) :
  0 <= quiesce < 9223372036854 -> run_ok quiesce r ->
  0 <= Disconnect_returns quiesce r <= quiesce * Millisecond /\
  before_stop quiesce r <= d_status r + 2 * (quiesce * Millisecond) /\
  (Disconnect_returns quiesce r < quiesce * Millisecond ->
     Disconnect_returns quiesce r = disconnect_done quiesce r).
Proof.
  intros Hq (Hs & Hp & Ht & Hw).
  assert (Hd : timer_after quiesce = quiesce * Millisecond).
  { unfold timer_after. rewrite quiesce_exact by done. unfold Millisecond. lia. }
  assert (Hm : 0 <= quiesce * Millisecond) by (unfold Millisecond; lia).
  unfold Disconnect_returns, disconnect_done, before_stop. rewrite Hd in *.
  destruct (d_granted r), (d_taken r) as [t|], (d_written r) as [w|]; cbn; lia.
Qed.

(** A number that the conversion to nanoseconds takes out of range makes every timer
    fire at once: Disconnect returns without waiting, where it was asked to wait for
    centuries. *)
Theorem huge_quiesce_does_not_wait (r : disconnect_run) :
  run_ok 9223372036855 r -> Disconnect_returns 9223372036855 r = 0.
Proof.
  intros (Hs & Hp & Ht & Hw). assert (Hd : timer_after 9223372036855 = 0) by (vm_compute; reflexivity).
  unfold Disconnect_returns, disconnect_done, before_stop. rewrite Hd in *.
  destruct (d_granted r), (d_taken r) as [t|], (d_written r) as [w|]; cbn; lia.
Qed.

(** A DISCONNECT that is taken at once and written after 3 ms, with workers that take
    2 ms to stop, inside a quiesce of 250 ms. *)
Lemma disconnect_in_time_witness :
  Disconnect_returns 250 (mkDisconnectRun 0 true (Some 0) (Some (3 * Millisecond)) (2 * Millisecond)) =
    5 * Millisecond /\
  0 <= 5 * Millisecond <= 250 * Millisecond.
Proof.
  split; [vm_compute; reflexivity|].
  refine (proj1 (disconnect_in_time 250
    (mkDisconnectRun 0 true (Some 0) (Some (3 * Millisecond)) (2 * Millisecond)) _ _));
    vm_compute; intuition congruence.
Defined.
