(* ===== verification/ClientLife.v ===== *)
(** * Client: connecting, losing, reconnecting and disconnecting as one system

    Connect, startWorkers, Disconnect, internalConnLost, reconnect and
    stopCommsWorkers of client/client.go as goroutines that share the status
    machine ([Status]), [c.conn], [c.connMu] and the goroutines behind each
    connection.  The latter are behind the interface [Workers]: what a client
    needs to know of them to start, stop and await them ([ClientLifeProps]
    discharges it with [ClientComms]).  Each successful attempt starts a new
    generation of them.

    A goroutine stands at one point of [goroutine]; [go] is the code from there
    to the next point at which others can interfere.  Attempts to connect end
    with any error or connection (attemptConnection itself, with the connections it
    leaks, is in [ClientNet]); pauses between attempts are part of the attempt.  A generation
    is a connection handed to startWorkers. *)

From Stdlib Require Import ZArith Lia String.
From stdpp Require Import base list strings gmap numbers relations.
From S2P Require Import Prelude Codec GoTime Server Status ClientOptions ClientNet ClientToken Client.

Local Open Scope nat_scope.

(** ** The interface of the goroutines behind a connection *)

(** Calls they make into the client: internalConnLost, by the keepalive goroutine
    or by one that commsStopped waits for, and Disconnect (from CloseConnect). *)
Inductive call : Type := CallsLost (keepalive : bool) | CallsDisconnect.

(** [w_start keepalive nc] are the goroutines startWorkers leaves behind;
    [w_exec l] is one of their actions, with the call it makes, if any, and
    [w_own] those actions that are their own and not the environment's;
    [w_take] is the redirector taking a DISCONNECT from c.oboundP; [w_stop] is
    [close(c.stop); c.conn.Close()], [None] if that panics; [w_count] is what they
    add to c.workers, and [w_stopped] whether c.commsStopped is closed. *)
Class Workers (W L : Type) : Type := {
  w_start : bool -> netconn -> W;
  w_exec : L -> W -> option (W * option call);
  w_own : L -> bool;
  w_take : L;
  w_stop : W -> option W;
  w_count : W -> nat;
  w_comms_stopped : W -> bool;
}.

(** [w_good] is an invariant, [w_stopping] whether they have been told to stop and
    [w_weight] bounds the actions left to them. *)
Class WorkersLaws (W L : Type) `{Workers W L} : Type := {
  w_good : W -> Prop;
  w_stopping : W -> bool;
  w_weight : W -> nat;
  start_good k nc : w_good (w_start k nc);
  start_running k nc : w_stopping (w_start k nc) = false;
  exec_good l w w' c : w_good w -> w_exec l w = Some (w', c) -> w_good w';
  exec_stopping l w w' c : w_good w -> w_exec l w = Some (w', c) -> w_stopping w' = w_stopping w;
  exec_count l w w' c : w_good w -> w_exec l w = Some (w', c) ->
    w_count w' <= w_count w /\ (c = Some (CallsLost true) -> 0 < w_count w);
  exec_stopped l w w' c : w_good w -> w_exec l w = Some (w', c) -> w_comms_stopped w = true ->
    w_comms_stopped w' = true /\ c <> Some (CallsLost false);
  exec_weight l w w' c : w_good w -> w_exec l w = Some (w', c) -> w_own l = true ->
    w_weight w' < w_weight w;
  stop_good w : w_good w -> w_stopping w = false -> exists w', w_stop w = Some w' /\
    w_good w' /\ w_stopping w' = true /\ w_weight w' <= w_weight w;
  stop_rests w : w_good w -> w_stopping w = true ->
    (forall l, w_own l = true -> w_exec l w = None) -> w_count w = 0 /\ w_comms_stopped w = true;
}.

(** ** Goroutines *)

(** Who runs attempts: Connect's goroutine or reconnect. *)
Inductive role : Type := FromConnect | FromReconnect.

(** The worker that called internalConnLost: its generation, and whether it is the
    keepalive goroutine. *)
Definition origin : Type := nat * bool.

Inductive goroutine : Type :=
(* Connect and reconnect *)
| GConnect                                    (* about to call c.status.Connecting *)
| GAttempt (r : role)                         (* in attemptConnection *)
| GPause (r : role) (err : error)             (* the attempt failed; about to read the status *)
| GGiveUp                                     (* about to call connectionUp(false) *)
| GStartWorkers (r : role) (nc : netconn)     (* about to lock c.connMu *)
| GRunning (r : role)                         (* "already running"; holds c.connMu *)
| GUp (r : role) (g : nat)                    (* keepalive started; holds c.connMu *)
| GComms (r : role) (g : nat)                 (* after connectionUp(true); holds c.connMu *)
(* Disconnect *)
| GDisconnect                                 (* about to call c.status.Disconnecting *)
| GDisWait (ch : option chan)                 (* inside Disconnecting *)
| GDisJoin (prev : status) (ch : option chan) (* inside Disconnecting *)
| GDisSend                                    (* the select that offers the DISCONNECT *)
| GDisStop                                    (* about to call stopCommsWorkers *)
| GDisWorkers                                 (* c.workers.Wait *)
| GDisComms                                   (* <-c.commsStopped *)
| GDisDone                                    (* about to call disDone *)
(* internalConnLost; the first five block the worker that called it *)
| GLost (og : origin)                         (* about to read the status *)
| GLostCall (og : origin) (will : bool)       (* about to call c.status.ConnectionLost *)
| GLostJoin (og : origin) (will : bool) (ch : option chan)  (* inside ConnectionLost *)
| GLostStop (og : origin) (will : bool)       (* about to call stopCommsWorkers *)
| GLostNil (og : origin) (will : bool)        (* "stopDone unexpectedly nil" *)
| GLostWorkers (will : bool)                  (* c.workers.Wait *)
| GLostComms (will : bool)                    (* <-c.commsStopped *)
| GLostDone (will : bool).                    (* about to call disDone(true) *)

(** The point of the status machine a goroutine stands at, if any. *)
Definition status_of (t : goroutine) : option thread :=
  match t with
  | GConnect => Some CallConnecting
  | GAttempt _ | GPause _ _ | GGiveUp | GStartWorkers _ _ | GRunning _ | GUp _ _ => Some ConnectedFn
  | GComms _ _ => None
  | GDisconnect => Some CallDisconnecting
  | GDisWait ch => Some (DisconnectingWait ch)
  | GDisJoin prev ch => Some (DisconnectingJoin prev ch)
  | GDisSend | GDisStop | GDisWorkers | GDisComms | GDisDone => Some DisconnectedFn
  | GLost _ => None
  | GLostCall _ will => Some (CallConnectionLost will)
  | GLostJoin _ will ch => Some (ConnectionLostJoin will ch)
  | GLostStop _ will | GLostNil _ will | GLostWorkers will | GLostComms will | GLostDone will =>
      Some (LostHandledFn will)
  end.

(** The worker that waits for this goroutine's call to return. *)
Definition caller (t : goroutine) : option origin :=
  match t with
  | GLost og | GLostCall og _ | GLostJoin og _ _ | GLostStop og _ | GLostNil og _ => Some og
  | _ => None
  end.

(** ** The shared state *)

(** The goroutines of one connection: while startWorkers has only started the
    keepalive goroutine ([kp]: it is still there), and afterwards. *)
Inductive generation (W : Type) : Type :=
| Starting (kp : bool) (nc : netconn)
| Running (w : W).
Arguments Starting {W}.
Arguments Running {W}.

(** [c_conn] is the generation whose connection c.conn is; [l_connects] counts the
    calls of Connect and [l_tokens] are the outcomes of their tokens so far. *)
Record life (W : Type) : Type := mkLife {
  cs : connectionStatus;
  gos : list goroutine;
  c_conn : option nat;
  conn_mu : bool;
  gens : list (generation W);
  l_panicked : bool;
  l_connects : nat;
  l_tokens : list (option error);
}.
Arguments mkLife {W}.
Arguments cs {W}.
Arguments gos {W}.
Arguments c_conn {W}.
Arguments conn_mu {W}.
Arguments gens {W}.
Arguments l_panicked {W}.
Arguments l_connects {W}.
Arguments l_tokens {W}.

Section life.
Context {W L URL : Type} `{Workers W L} (o : ClientOptions URL).

Abbreviation client := (life W).

Definition set_cs (v : connectionStatus) (s : client) : client :=
  mkLife v (gos s) (c_conn s) (conn_mu s) (gens s) (l_panicked s) (l_connects s) (l_tokens s).
Definition set_gos (v : list goroutine) (s : client) : client :=
  mkLife (cs s) v (c_conn s) (conn_mu s) (gens s) (l_panicked s) (l_connects s) (l_tokens s).
Definition set_c_conn (v : option nat) (s : client) : client :=
  mkLife (cs s) (gos s) v (conn_mu s) (gens s) (l_panicked s) (l_connects s) (l_tokens s).
Definition set_conn_mu (v : bool) (s : client) : client :=
  mkLife (cs s) (gos s) (c_conn s) v (gens s) (l_panicked s) (l_connects s) (l_tokens s).
Definition set_gens (v : list (generation W)) (s : client) : client :=
  mkLife (cs s) (gos s) (c_conn s) (conn_mu s) v (l_panicked s) (l_connects s) (l_tokens s).
Definition panic (s : client) : client :=
  mkLife (cs s) (gos s) (c_conn s) (conn_mu s) (gens s) true (l_connects s) (l_tokens s).
Definition count_connect (s : client) : client :=
  mkLife (cs s) (gos s) (c_conn s) (conn_mu s) (gens s) (l_panicked s) (S (l_connects s)) (l_tokens s).

(** Connect's token completes, with the error if there is one; reconnect has none. *)
Definition finish_token (r : role) (err : option error) (s : client) : client :=
  match r with
  | FromConnect => mkLife (cs s) (gos s) (c_conn s) (conn_mu s) (gens s) (l_panicked s)
                     (l_connects s) (l_tokens s ++ [err])
  | FromReconnect => s
  end.

(** [go(c, conn)] in startWorkers is conditional on a heartbeat. *)
Definition has_keepalive : bool := negb (Heartbeat o =? 0)%Z || AdaptiveHeartbeat o.

(** What a generation adds to c.workers; in startWorkers, the keepalive goroutine
    and the one for ackOut. *)
Definition gen_count (x : generation W) : nat :=
  match x with
  | Starting kp _ => S (if kp then 1 else 0)
  | Running w => w_count w
  end.

(** ** The code between two points *)

(** A stretch of the status machine: how the goroutine goes on is [goes]. *)
Definition on_status (r : result) (goes : thread -> list goroutine) (s : client)
  : option (list goroutine * client) :=
  match r with
  | Goes t c => Some (goes t, set_cs c s)
  | Returns _ c => Some ([], set_cs c s)
  | Blocks => None
  | Panics => Some ([], panic s)
  end.

Definition dis_goes (t : thread) : list goroutine :=
  match t with
  | DisconnectingWait ch => [GDisWait ch]
  | DisconnectingJoin prev ch => [GDisJoin prev ch]
  | DisconnectedFn => [GDisSend]
  | _ => []
  end.

Definition lost_goes (og : origin) (t : thread) : list goroutine :=
  match t with
  | ConnectionLostJoin will ch => [GLostJoin og will ch]
  | LostHandledFn will => [GLostStop og will]
  | _ => []
  end.

Definition reconnect_goes (t : thread) : list goroutine :=
  match t with
  | ConnectedFn => [GAttempt FromReconnect]
  | _ => []
  end.

(** Connect, up to the start of its goroutine; without a server the goroutine
    fails at once. *)
Definition life_Connect (s : client) : list goroutine * client :=
  match client_Connect o (cs s) with
  | (_, Some c) =>
      match Servers o with
      | [] => ([GGiveUp], finish_token FromConnect (Some errNoServer) (set_cs c s))
      | _ => ([GAttempt FromConnect], set_cs c s)
      end
  | (tok, None) => ([], finish_token FromConnect (t_err tok) s)
  end.

(** After a failed attempt. *)
Definition after_failure (r : role) (err : error) (s : client) : list goroutine * client :=
  match r with
  | FromConnect =>
      if connect_retries o err (bool_decide (st (cs s) = connecting))
      then ([GAttempt FromConnect], s)
      else ([GGiveUp], finish_token FromConnect (Some err) s)
  | FromReconnect =>
      if bool_decide (st (cs s) = reconnecting) then ([GAttempt FromReconnect], s)
      else ([GGiveUp], s)
  end.

(** startWorkers up to connectionUp, which it calls holding c.connMu. *)
Definition begin_workers (r : role) (nc : netconn) (s : client)
  : option (list goroutine * client) :=
  if conn_mu s then None
  else match c_conn s with
       | Some _ => Some ([GRunning r], set_conn_mu true s)
       | None =>
           let g := length (gens s) in
           Some ([GUp r g], set_gens (gens s ++ [Starting has_keepalive nc])
                              (set_c_conn (Some g) (set_conn_mu true s)))
       end.

(** The rest of startWorkers, and the end of its caller. *)
Definition end_workers (r : role) (g : nat) (s : client) : option (list goroutine * client) :=
  match gens s !! g with
  | Some (Starting kp nc) =>
      Some ([], finish_token r None
                  (set_conn_mu false (set_gens (<[g := Running (w_start kp nc)]> (gens s)) s)))
  | _ => None
  end.

(** stopCommsWorkers up to the start of its goroutine; [found] is how the caller
    goes on when there was a connection. *)
Definition stopCommsWorkers (found none : goroutine) (s : client)
  : option (list goroutine * client) :=
  if conn_mu s then None
  else match c_conn s with
       | None => Some ([none], s)
       | Some g =>
           match gens s !! g with
           | Some (Running w) =>
               match w_stop w with
               | Some w' => Some ([found], set_c_conn None (set_gens (<[g := Running w']> (gens s)) s))
               | None => Some ([], panic s)
               end
           | _ => None
           end
       end.

(** [c.workers.Wait()]: every generation counts in the same WaitGroup, and so does
    a keepalive goroutine that is inside internalConnLost. *)
Definition keepalive_calls (s : client) : nat :=
  length (List.filter (fun t => match caller t with Some (_, true) => true | _ => false end) (gos s)).

Definition workers_gone (s : client) : bool :=
  forallb (fun x => gen_count x =? 0) (gens s) && (keepalive_calls s =? 0).

(** [<-c.commsStopped]: the field is the one of the last generation. *)
Definition pending_calls (g : nat) (s : client) : nat :=
  length (List.filter (fun t => match caller t with
                                | Some (g', false) => g' =? g | _ => false end) (gos s)).

Definition comms_gone (s : client) : bool :=
  match last (gens s) with
  | Some (Running w) => w_comms_stopped w && (pending_calls (pred (length (gens s))) s =? 0)
  | _ => false
  end.

Definition go (t : goroutine) (s : client) : option (list goroutine * client) :=
  match t with
  | GConnect => Some (life_Connect s)
  | GAttempt _ => None
  | GPause r err => Some (after_failure r err s)
  | GGiveUp => on_status (connected_fn false (cs s)) (fun _ => []) s
  | GStartWorkers r nc => begin_workers r nc s
  | GRunning r =>
      on_status (connected_fn false (cs s)) (fun _ => []) (finish_token r None (set_conn_mu false s))
  | GUp r g =>
      match connected_fn true (cs s) with
      | Returns _ c => Some ([GComms r g], set_cs c s)
      | Panics => Some ([], panic s)
      | _ => None
      end
  | GComms r g => end_workers r g s
  | GDisconnect => on_status (Disconnecting (cs s)) dis_goes s
  | GDisWait ch => on_status (advance true (DisconnectingWait ch) (cs s)) dis_goes s
  | GDisJoin prev ch => on_status (advance true (DisconnectingJoin prev ch) (cs s)) dis_goes s
  | GDisSend => Some ([GDisStop], s)
  | GDisStop => stopCommsWorkers GDisWorkers GDisDone s
  | GDisWorkers => if workers_gone s then Some ([GDisComms], s) else None
  | GDisComms => if comms_gone s then Some ([GDisDone], s) else None
  | GDisDone => on_status (disconnectionCompleted (cs s)) (fun _ => []) s
  | GLost og => Some ([GLostCall og (lost_will_reconnect o (cs s))], s)
  | GLostCall og will => on_status (ConnectionLost will (cs s)) (lost_goes og) s
  | GLostJoin og will ch => on_status (advance true (ConnectionLostJoin will ch) (cs s)) (lost_goes og) s
  | GLostStop og will => stopCommsWorkers (GLostWorkers will) (GLostNil og will) s
  | GLostNil og will => on_status (connectionLostHandler will false (cs s)) reconnect_goes s
  | GLostWorkers will => if workers_gone s then Some ([GLostComms will], s) else None
  | GLostComms will => if comms_gone s then Some ([GLostDone will], s) else None
  | GLostDone will => on_status (connectionLostHandler will true (cs s)) reconnect_goes s
  end.

(** ** The transition system *)

(** Own moves: goroutine [i] goes on (at [GDisSend], the quiesce timer fires);
    generation [g] acts.  The others: generation [g] takes the DISCONNECT that
    goroutine [i] offers; the attempt of goroutine [i] ends; the keepalive goroutine
    that startWorkers has just started finds the peer dead or has nothing to do;
    the application calls Connect or Disconnect. *)
Inductive life_label : Type :=
| GoOn (i : nat)
| Inside (g : nat) (l : L)
| TakeDisconnect (i g : nat)
| AttemptEnds (i : nat) (res : error + netconn)
| EarlyLoss (g : nat)
| EarlyEnd (g : nat)
| AppConnect
| AppDisconnect.

(** Goroutine [i] is replaced by what it becomes and starts. *)
Definition replace (i : nat) (new : list goroutine) (ts : list goroutine) : list goroutine :=
  take i ts ++ new ++ drop (S i) ts.

Definition spawn (ts : list goroutine) (s : client) : client := set_gos (gos s ++ ts) s.

(** The goroutines a call from generation [g] starts. *)
Definition calls_start (g : nat) (c : option call) : list goroutine :=
  match c with
  | Some (CallsLost kp) => [GLost (g, kp)]
  | Some CallsDisconnect => [GDisconnect]
  | None => []
  end.

Definition inside (g : nat) (l : L) (s : client) : option client :=
  match gens s !! g with
  | Some (Running w) =>
      match w_exec l w with
      | Some (w', c) => Some (spawn (calls_start g c) (set_gens (<[g := Running w']> (gens s)) s))
      | None => None
      end
  | _ => None
  end.

Definition exec_life (l : life_label) (s : client) : option client :=
  match l with
  | GoOn i =>
      match gos s !! i with
      | Some t =>
          match go t s with
          | Some (new, s') => Some (set_gos (replace i new (gos s)) s')
          | None => None
          end
      | None => None
      end
  | Inside g l => inside g l s
  | TakeDisconnect i g =>
      match gos s !! i with
      | Some GDisSend =>
          match inside g w_take s with
          | Some s' => Some (set_gos (replace i [GDisStop] (gos s')) s')
          | None => None
          end
      | _ => None
      end
  | AttemptEnds i res =>
      match gos s !! i with
      | Some (GAttempt r) =>
          Some (set_gos (replace i [match res with
                                    | inl err => GPause r err
                                    | inr nc => GStartWorkers r nc
                                    end] (gos s)) s)
      | _ => None
      end
  | EarlyLoss g =>
      match gens s !! g with
      | Some (Starting true nc) =>
          Some (spawn [GLost (g, true)] (set_gens (<[g := Starting false nc]> (gens s)) s))
      | _ => None
      end
  | EarlyEnd g =>
      match gens s !! g with
      | Some (Starting true nc) => Some (set_gens (<[g := Starting false nc]> (gens s)) s)
      | _ => None
      end
  | AppConnect => Some (spawn [GConnect] (count_connect s))
  | AppDisconnect => Some (spawn [GDisconnect] s)
  end.

(** What there is to tell of an action: calls of the callbacks OnConnectionLost (by
    the goroutine of internalConnLost) and OnReconnecting (by reconnect, before the
    attempt that now ends), and that Disconnect closed c.conn. *)
Inductive event : Type := TellsLost | TellsReconnecting | DisconnectCloses.

Definition observes (l : life_label) (s : client) : list event :=
  match l with
  | GoOn i =>
      match gos s !! i with
      | Some (GLostDone _) => if OnConnectionLost o then [TellsLost] else []
      | Some GDisStop => match c_conn s with Some _ => [DisconnectCloses] | None => [] end
      | _ => []
      end
  | AttemptEnds i _ =>
      match gos s !! i with
      | Some (GAttempt FromReconnect) => if OnReconnecting o then [TellsReconnecting] else []
      | _ => []
      end
  | _ => []
  end.

Definition own_life (l : life_label) : bool :=
  match l with
  | GoOn _ => true
  | Inside _ l => w_own l
  | _ => false
  end.

Definition life_step (s s' : client) : Prop := exists l, exec_life l s = Some s'.

Definition own_life_step (s s' : client) : Prop :=
  exists l, own_life l = true /\ exec_life l s = Some s'.

Definition new_client : client := mkLife fresh [] None false [] false 0 [].

Definition life_reachable (s : client) : Prop := rtc life_step new_client s.

(** Runs with what there was to tell of them, the last first. *)
Inductive observed : list event -> client -> Prop :=
| observed_start : observed [] new_client
| observed_step evs s l s' :
    observed evs s -> exec_life l s = Some s' -> observed (observes l s ++ evs) s'.

Lemma observed_reachable evs s : observed evs s -> life_reachable s.
Proof.
  induction 1 as [|evs s l s' _ IH He]; [apply rtc_refl|]. eapply rtc_r; [exact IH|by exists l].
Qed.

Fixpoint life_run (ls : list life_label) (s : client) : option client :=
  match ls with
  | [] => Some s
  | l :: ls => match exec_life l s with Some s' => life_run ls s' | None => None end
  end.

Lemma life_run_reachable ls s s' : life_reachable s -> life_run ls s = Some s' -> life_reachable s'.
Proof.
  revert s. induction ls as [|l ls IH]; cbn; intros s Hr Hs; [by simplify_eq|].
  destruct (exec_life l s) as [t|] eqn:Ht; [|done].
  apply (IH t); [|done]. eapply rtc_r; [exact Hr|by exists l].
Qed.

Lemma life_run_cons l ls s s1 s2 :
  exec_life l s = Some s1 -> life_run ls s1 = Some s2 -> life_run (l :: ls) s = Some s2.
Proof. intros Hl Hs. cbn. by rewrite Hl. Qed.

End life.

Arguments life_label : clear implicits.
