(* ===== verification/ClientLifeFacts.v ===== *)
(** * Client lifecycle: the invariant

    What holds in every reachable state of [ClientLife], for any implementation of
    [Workers] that obeys its laws: the completion protocol of the status machine,
    the mutex c.connMu, and how c.conn and the generations of workers follow from
    who holds which completion function. *)

From Stdlib Require Import ZArith Lia String.
From stdpp Require Import base list strings gmap numbers relations.
From S2P Require Import Prelude Codec GoTime Server Status ClientOptions ClientNet ClientToken Client.
From S2P Require Import ClientLife.

Local Open Scope nat_scope.

(** ** Kinds of goroutines *)

(** Inside startWorkers, holding c.connMu. *)
Definition in_mu (t : goroutine) : bool :=
  match t with GRunning _ | GUp _ _ | GComms _ _ => true | _ => false end.

(** The generation it is starting. *)
Definition up_gen (t : goroutine) : option nat :=
  match t with GUp _ g | GComms _ g => Some g | _ => None end.

(** At a branch for something that should not happen: startWorkers that finds workers
    running, and internalConnLost that finds no connection to stop ("stopDone
    unexpectedly nil - BUG BUG"). *)
Definition confused (t : goroutine) : bool :=
  match t with GRunning _ | GLostNil _ _ => true | _ => false end.

(** About to take the third branch of that kind, "BUG BUG BUG reconnection function is
    nil": disDone(true) will return neither an error nor a function. *)
Definition no_reconnect_function (c : connectionStatus) (t : goroutine) : bool :=
  match t with
  | GLostDone will =>
      match connectionLostHandler will true c with Returns None _ => true | _ => false end
  | _ => false
  end.

(** Waiting for the workers it has stopped. *)
Definition awaits (t : goroutine) : bool :=
  match t with
  | GDisWorkers | GDisComms | GLostWorkers _ | GLostComms _ => true
  | _ => false
  end.

Definition awaits_comms (t : goroutine) : bool :=
  match t with GDisComms | GLostComms _ => true | _ => false end.

(** Places where c.conn is nil: an attempt that has not reached startWorkers, and
    everything after stopCommsWorkers. *)
Definition unconnected (t : goroutine) : bool :=
  match t with
  | GAttempt _ | GPause _ _ | GGiveUp | GStartWorkers _ _
  | GDisWorkers | GDisComms | GDisDone | GLostWorkers _ | GLostComms _ | GLostDone _ => true
  | _ => false
  end.

(** A call of Connect whose token is not complete. *)
Definition pending (t : goroutine) : bool :=
  match t with
  | GConnect | GAttempt FromConnect | GPause FromConnect _ | GStartWorkers FromConnect _
  | GRunning FromConnect | GUp FromConnect _ | GComms FromConnect _ => true
  | _ => false
  end.

Definition count (p : goroutine -> bool) (ts : list goroutine) : nat := length (List.filter p ts).

Arguments count : simpl never.
Arguments keepalive_calls : simpl never.

Lemma count_nil p : count p [] = 0.
Proof. done. Qed.

Lemma gcount_app p l k : count p (l ++ k) = count p l + count p k.
Proof. unfold count. by rewrite List.filter_app, length_app. Qed.

Lemma count_cons p t l : count p (t :: l) = (if p t then 1 else 0) + count p l.
Proof. unfold count. cbn. by destruct (p t). Qed.

Lemma count_zero p l t : count p l = 0 -> t ∈ l -> p t = false.
Proof.
  intros Hc Ht. destruct (p t) eqn:Hp; [|done]. exfalso. unfold count in Hc.
  apply length_zero_iff_nil in Hc. assert (In t (List.filter p l)) as Hin.
  { apply filter_In. by rewrite <- list_elem_of_In. }
  by rewrite Hc in Hin.
Qed.

Lemma count_pos p l t : t ∈ l -> p t = true -> 0 < count p l.
Proof. intros Ht Hp. destruct (count p l) eqn:Hc; [|lia]. apply (count_zero p l t) in Hc; congruence. Qed.

Lemma count_none p l : (forall t, t ∈ l -> p t = false) -> count p l = 0.
Proof.
  induction l as [|t l IH]; [done|]. intros Hl. rewrite count_cons, (Hl t) by set_solver.
  apply IH. set_solver.
Qed.

Lemma count_one p l t u : count p l <= 1 -> t ∈ l -> p t = true -> u ∈ l -> p u = true -> u = t.
Proof.
  intros Hc (l1 & l2 & ->)%list_elem_of_split Ht Hu Hpu.
  rewrite gcount_app, count_cons, Ht in Hc.
  apply elem_of_app in Hu as [Hu|[->|Hu]%elem_of_cons]; [|done|].
  - pose proof (count_pos _ _ _ Hu Hpu). lia.
  - pose proof (count_pos _ _ _ Hu Hpu). lia.
Qed.

(** ** The invariant *)

Section facts.
Context {W L URL : Type} `{WorkersLaws W L} (o : ClientOptions URL).

Abbreviation client := (life W).

(** Nothing of the generation is left. *)
Definition over (g : nat) (s : client) : Prop :=
  exists w, gens s !! g = Some (Running w) /\ w_stopping w = true /\ w_count w = 0 /\
    w_comms_stopped w = true /\ forall t k, t ∈ gos s -> caller t <> Some (g, k).

Record life_inv (s : client) : Prop := mkLifeInv {
  li_panic : l_panicked s = false;
  li_status : status_inv (cs s) (omap status_of (gos s));
  li_mu : count in_mu (gos s) = if conn_mu s then 1 else 0;
  li_up : forall t g, t ∈ gos s -> up_gen t = Some g ->
    c_conn s = Some g /\ exists kp nc, gens s !! g = Some (Starting kp nc);
  li_starting : forall g kp nc, gens s !! g = Some (Starting kp nc) ->
    exists t, t ∈ gos s /\ up_gen t = Some g;
  li_sane : forall t, t ∈ gos s -> confused t = false;
  li_conn : forall g, c_conn s = Some g -> S g = length (gens s) /\ st (cs s) <> disconnected /\
    forall t, t ∈ gos s -> unconnected t = false;
  li_none : c_conn s = None -> st (cs s) <> connected /\
    ((exists t, t ∈ gos s /\ awaits t = true) \/ forall g, g < length (gens s) -> over g s);
  li_old : forall g, S g < length (gens s) -> over g s;
  li_good : forall g w, gens s !! g = Some (Running w) ->
    w_good w /\ (w_stopping w = false <-> c_conn s = Some g);
  li_await : forall t, t ∈ gos s -> awaits_comms t = true ->
    (forall x, x ∈ gens s -> gen_count x = 0) /\ keepalive_calls s = 0;
  li_caller : forall t g k, t ∈ gos s -> caller t = Some (g, k) -> g < length (gens s);
  li_some : forall t, t ∈ gos s -> awaits t = true -> gens s <> [];
  li_tokens : l_connects s = length (l_tokens s) + count pending (gos s);
}.

(** ** What the status machine says about the goroutines *)

Lemma status_split (s : client) pre t post th :
  status_inv (cs s) (omap status_of (gos s)) -> gos s = pre ++ t :: post -> status_of t = Some th ->
  status_inv (cs s) (th :: omap status_of (pre ++ post)).
Proof.
  intros Hi Hg Ht. rewrite Hg in Hi. eapply status_inv_perm; [|exact Hi].
  rewrite !omap_app. cbn. rewrite Ht. by rewrite Permutation_middle.
Qed.

Lemma status_join c pre post new th :
  omap status_of new = [th] -> status_inv c (th :: omap status_of (pre ++ post)) ->
  status_inv c (omap status_of (pre ++ new ++ post)).
Proof.
  intros Hn Hi. eapply status_inv_perm; [|exact Hi]. rewrite !omap_app, Hn. apply Permutation_middle.
Qed.

(** A goroutine about to call the status machine. *)
Lemma call_inv c th ts : is_call th = true -> status_inv c ts -> status_inv c (th :: ts).
Proof.
  intros Ht [Hsh Hw Hc]. split; [by destruct th| |done]. constructor; [by destruct th|done].
Qed.

Lemma owns_elem t th l : t ∈ l -> status_of t = Some th -> owns_disconnect th = true ->
  th ∈ List.filter owns_disconnect (omap status_of l).
Proof.
  intros Ht Hs Ho. apply list_elem_of_In, filter_In. split; [|done].
  apply list_elem_of_In, list_elem_of_omap. by exists t.
Qed.

Lemma holds_elem t l : t ∈ l -> status_of t = Some ConnectedFn ->
  ConnectedFn ∈ List.filter holds_connected (omap status_of l).
Proof.
  intros Ht Hs. apply list_elem_of_In, filter_In. split; [|done].
  apply list_elem_of_In, list_elem_of_omap. by exists t.
Qed.

(** A goroutine that holds the function that ends a disconnect excludes any
    attempt, and every other that has disconnected. *)
Lemma owner_alone (s : client) pre t post th :
  status_inv (cs s) (omap status_of (gos s)) -> gos s = pre ++ t :: post -> status_of t = Some th ->
  owns_disconnect th = true -> joins th = None ->
  st (cs s) = disconnecting /\
  forall u th', u ∈ pre ++ post -> status_of u = Some th' ->
    owns_disconnect th' = false /\ holds_connected th' = false.
Proof.
  intros Hi Hg Ht Ho Hj. pose proof (status_split _ _ _ _ _ Hi Hg Ht) as Hs.
  assert (Hh : holds_connected th = false) by by destruct th.
  destruct (owner_facts _ _ _ Hs Ho Hh) as (Hst & Howns & Hf). rewrite Hj in Hf.
  destruct Hf as (ch & _ & _ & Hconns). split; [done|]. intros u th' Hu Hth'. split.
  - destruct (owns_disconnect th') eqn:Ho'; [|done].
    pose proof (owns_elem _ _ _ Hu Hth' Ho') as Hin. rewrite Howns in Hin. by apply not_elem_of_nil in Hin.
  - destruct (holds_connected th') eqn:Hh'; [|done].
    assert (th' = ConnectedFn) as -> by by destruct th'.
    pose proof (holds_elem _ _ Hu Hth') as Hin. rewrite Hconns in Hin. by apply not_elem_of_nil in Hin.
Qed.

(** An attempt excludes any other, and everybody that has disconnected. *)
Lemma attempt_alone (s : client) pre t post :
  status_inv (cs s) (omap status_of (gos s)) -> gos s = pre ++ t :: post ->
  status_of t = Some ConnectedFn ->
  st (cs s) <> disconnected /\ st (cs s) <> connected /\
  forall u th', u ∈ pre ++ post -> status_of u = Some th' ->
    holds_connected th' = false /\ (owns_disconnect th' = true -> joins th' <> None).
Proof.
  intros Hi Hg Ht. pose proof (status_split _ _ _ _ _ Hi Hg Ht) as Hs.
  destruct Hs as [Hsh _ _]. cbn in Hsh. unfold shape in Hsh.
  assert (Hone : List.filter holds_connected (omap status_of (pre ++ post)) = [] /\
    (List.filter owns_disconnect (omap status_of (pre ++ post)) = [] \/
     exists x, List.filter owns_disconnect (omap status_of (pre ++ post)) = [x] /\ joins x <> None) /\
    st (cs s) <> disconnected /\ st (cs s) <> connected).
  { destruct (st (cs s)); [by destruct Hsh| | | |by destruct Hsh].
    - destruct Hsh as [[? _]|[(x & ch & Hn & Ho & Hj & _)|[(x & ch & ? & _)|(x & ch & ? & _)]]];
        try done. injection Hn as ->. rewrite Ho. split; [done|]. split; [|done]. right. exists x.
      by rewrite Hj.
    - destruct Hsh as (Hn & Ho & _). injection Hn as ->. rewrite Ho. auto.
    - destruct Hsh as (Hn & Ho & _). injection Hn as ->. rewrite Ho. auto. }
  destruct Hone as (Hn & Ho & Hd & Hc). split; [done|]. split; [done|]. intros u th' Hu Hth'. split.
  - destruct (holds_connected th') eqn:Hh; [|done].
    assert (th' = ConnectedFn) as -> by by destruct th'.
    pose proof (holds_elem _ _ Hu Hth') as Hin. rewrite Hn in Hin. by apply not_elem_of_nil in Hin.
  - intros Hown. pose proof (owns_elem _ _ _ Hu Hth' Hown) as Hin.
    destruct Ho as [Ho|(x & Ho & Hj)]; rewrite Ho in Hin; [by apply not_elem_of_nil in Hin|].
    apply list_elem_of_singleton in Hin as ->. done.
Qed.

Lemma awaits_status t : awaits t = true ->
  exists th, status_of t = Some th /\ owns_disconnect th = true /\ joins th = None.
Proof. destruct t; try done; intros _; eexists; eauto. Qed.

(** ** Steps that change one goroutine *)

Lemma over_mono (s s' : client) g :
  gens s' !! g = gens s !! g ->
  (forall t og, t ∈ gos s' -> caller t = Some og -> exists t', t' ∈ gos s /\ caller t' = Some og) ->
  over g s -> over g s'.
Proof.
  intros Hg Hc (w & Hw & Hs & Hn & Hcs & Hcall). exists w. rewrite Hg.
  split; [done|]. split; [done|]. split; [done|]. split; [done|].
  intros t k Ht Hk. destruct (Hc t _ Ht Hk) as (t' & Ht' & Hk'). by apply (Hcall t' k).
Qed.

Definition calls_keepalive (t : goroutine) : bool :=
  match caller t with Some (_, true) => true | _ => false end.

Lemma keepalive_calls_count (s : client) : keepalive_calls s = count calls_keepalive (gos s).
Proof. done. Qed.

Lemma replace_keepalive pre t post new :
  length new <= 1 -> (forall u og, u ∈ new -> caller u = Some og -> caller t = Some og) ->
  count calls_keepalive (pre ++ new ++ post) <= count calls_keepalive (pre ++ t :: post).
Proof.
  intros Hlen Hcall. rewrite !gcount_app, count_cons.
  assert (count calls_keepalive new <= if calls_keepalive t then 1 else 0); [|lia].
  destruct new as [|u [|]]; cbn in Hlen; [rewrite count_nil; lia| |lia].
  rewrite count_cons, count_nil. unfold calls_keepalive at 1.
  destruct (caller u) as [[g [|]]|] eqn:Hu; [|lia..].
  assert (caller t = Some (g, true)) as Hct by (apply (Hcall u); [set_solver|done]).
  unfold calls_keepalive. rewrite Hct. cbn. lia.
Qed.

(** Goroutine [t] goes on as [new], at most one, which holds the mutex and starts a
    generation if [t] did; c.conn and the generations stay. *)
Lemma replace_inv (s : client) pre t post new c' toks :
  life_inv s -> gos s = pre ++ t :: post ->
  status_inv c' (omap status_of (pre ++ new ++ post)) ->
  count in_mu new = (if in_mu t then 1 else 0) -> omap up_gen new = omap up_gen [t] ->
  (forall u, u ∈ new -> confused u = false) ->
  (forall u og, u ∈ new -> caller u = Some og -> caller t = Some og) -> length new <= 1 ->
  (forall g, c_conn s = Some g -> st c' <> disconnected /\ forall u, u ∈ new -> unconnected u = false) ->
  (c_conn s = None -> st c' <> connected) ->
  (c_conn s = None -> awaits t = true ->
     (exists u, u ∈ new /\ awaits u = true) \/ forall g, g < length (gens s) -> over g s) ->
  (forall u, u ∈ new -> awaits_comms u = true -> awaits_comms t = true \/
     (forall x, x ∈ gens s -> gen_count x = 0) /\ keepalive_calls s = 0) ->
  (forall u, u ∈ new -> awaits u = true -> awaits t = true) ->
  length (l_tokens s) + (if pending t then 1 else 0) = length toks + count pending new ->
  life_inv (mkLife c' (pre ++ new ++ post) (c_conn s) (conn_mu s) (gens s) (l_panicked s)
              (l_connects s) toks).
Proof.
  intros Hi Hg Hst Hmu Hup Hsane Hcall Hlen Hconn Hnone Haw Hawc Hold Htok. destruct Hi.
  assert (Hin : forall u, u ∈ pre ++ new ++ post -> u ∈ new \/ u ∈ gos s).
  { intros u. rewrite Hg, !elem_of_app, elem_of_cons. tauto. }
  assert (Hout : forall u, u ∈ gos s -> u = t \/ u ∈ pre ++ new ++ post).
  { intros u. rewrite Hg, !elem_of_app, elem_of_cons. tauto. }
  assert (Ht : t ∈ gos s) by (rewrite Hg, elem_of_app, elem_of_cons; tauto).
  assert (Hcallers : forall u og, u ∈ pre ++ new ++ post -> caller u = Some og ->
    exists u', u' ∈ gos s /\ caller u' = Some og).
  { intros u og [Hu|Hu]%Hin Ho; [exists t|exists u]; eauto. }
  assert (Hupin : forall u g, u ∈ new -> up_gen u = Some g -> up_gen t = Some g).
  { intros u g Hu Hug. assert (g ∈ omap up_gen [t]) as Hx.
    { rewrite <- Hup. apply list_elem_of_omap. by exists u. }
    apply list_elem_of_omap in Hx as (t' & ->%list_elem_of_singleton & ?). done. }
  assert (Hover : forall g, over g s -> over g (mkLife c' (pre ++ new ++ post) (c_conn s)
    (conn_mu s) (gens s) (l_panicked s) (l_connects s) toks)).
  { intros g. apply over_mono; [done|exact Hcallers]. }
  split; cbn.
  - done.
  - done.
  - revert li_mu0. by rewrite Hg, !gcount_app, count_cons, Hmu.
  - intros u g [Hu|Hu]%Hin Hug; [|by eauto]. apply (li_up0 t g Ht). by eapply Hupin.
  - intros g kp nc Hs. destruct (li_starting0 g kp nc Hs) as (u & [->|Hu]%Hout & Hug); [|by eauto].
    assert (g ∈ omap up_gen new) as Hx.
    { rewrite Hup. apply list_elem_of_omap. exists t. by rewrite list_elem_of_singleton. }
    apply list_elem_of_omap in Hx as (u & Hu & Hug'). exists u. rewrite !elem_of_app. auto.
  - intros u [Hu|Hu]%Hin; eauto.
  - intros g Hc. destruct (li_conn0 g Hc) as (Hs & _ & Hun). destruct (Hconn g Hc) as [Hd Hn].
    split; [done|]. split; [done|]. intros u [Hu|Hu]%Hin; eauto.
  - intros Hc. split; [by apply Hnone|]. destruct (li_none0 Hc) as [_ [(u & [->|Hu]%Hout & Ha)|Ho]].
    + destruct (Haw Hc Ha) as [(v & Hv & Hav)|Hov]; [left|right; eauto].
      exists v. rewrite !elem_of_app. auto.
    + left. by exists u.
    + right. eauto.
  - eauto.
  - done.
  - assert (Hk : keepalive_calls (mkLife c' (pre ++ new ++ post) (c_conn s) (conn_mu s) (gens s)
      (l_panicked s) (l_connects s) toks) <= keepalive_calls s).
    { rewrite !keepalive_calls_count, Hg. by apply replace_keepalive. }
    intros u Hu Ha. destruct (Hin u Hu) as [Hn|Hs].
    + destruct (Hawc u Hn Ha) as [Hat|[Hz Hk0]]; [|split; [done|lia]].
      destruct (li_await0 t Ht Hat). split; [done|lia].
    + destruct (li_await0 u Hs Ha). split; [done|lia].
  - intros u g k Hu Hc. destruct (Hcallers u _ Hu Hc) as (u' & Hu' & Hc'). eauto.
  - intros u [Hu|Hu]%Hin Ha; [|by eauto]. apply (li_some0 t Ht). by apply (Hold u).
  - rewrite li_tokens0, Hg, !gcount_app, count_cons. lia.
Qed.

(** ** The points of one goroutine *)

Lemma unconnected_none (s : client) t :
  life_inv s -> t ∈ gos s -> unconnected t = true -> c_conn s = None.
Proof.
  intros Hi Ht Hu. destruct (c_conn s) as [g|] eqn:Hc; [|done].
  destruct (li_conn _ Hi g Hc) as (_ & _ & Hn). apply Hn in Ht. congruence.
Qed.

Section one.
Context (s : client) (pre : list goroutine) (t : goroutine) (post : list goroutine).
Context (Hi : life_inv s) (Hg : gos s = pre ++ t :: post).

Lemma here : t ∈ gos s.
Proof. rewrite Hg, elem_of_app, elem_of_cons. auto. Qed.

Lemma status_same new : omap status_of new = omap status_of [t] ->
  status_inv (cs s) (omap status_of (pre ++ new ++ post)).
Proof.
  intros Hn. pose proof (li_status _ Hi) as Hs. rewrite Hg in Hs.
  change (t :: post) with ([t] ++ post) in Hs. rewrite !omap_app in Hs.
  by rewrite !omap_app, Hn.
Qed.

Context (th : thread) (Hth : status_of t = Some th).

Lemma status_ok b : result_ok (omap status_of (pre ++ post)) (advance b th (cs s)).
Proof. apply advance_ok. eapply status_split; [apply Hi|exact Hg|done]. Qed.

Lemma status_goes b th' c' new : advance b th (cs s) = Goes th' c' -> omap status_of new = [th'] ->
  status_inv c' (omap status_of (pre ++ new ++ post)).
Proof.
  intros Ha Hn. pose proof (status_ok b) as Hok. rewrite Ha in Hok. by eapply status_join.
Qed.

Lemma status_returns b err c' new : advance b th (cs s) = Returns err c' -> omap status_of new = [] ->
  status_inv c' (omap status_of (pre ++ new ++ post)).
Proof.
  intros Ha Hn. pose proof (status_ok b) as Hok. rewrite Ha in Hok.
  rewrite !omap_app, Hn. by rewrite omap_app in Hok.
Qed.

Lemma status_fine b : advance b th (cs s) <> Panics.
Proof. intros Ha. pose proof (status_ok b) as Hok. by rewrite Ha in Hok. Qed.

Lemma status_changes b c' : result_state (advance b th (cs s)) = Some c' -> change_ok (cs s) c'.
Proof. intros Hr. eapply advance_change; [|exact Hr]. eapply status_split; [apply Hi|exact Hg|done]. Qed.

End one.

(** ** Stretches of the status machine *)

(** They leave the status at connected or disconnected only where the program
    knows about c.conn. *)
Lemma advance_not_connected b th c c' :
  th <> ConnectedFn \/ b = false -> st c <> connected -> result_state (advance b th c) = Some c' ->
  st c' <> connected.
Proof.
  intros Hb Hc. destruct th; cbn; unfold Connecting, connected_fn, Disconnecting, Disconnecting_join,
    disconnectionCompleted, ConnectionLost, ConnectionLost_join, connectionLostHandler, close_action;
    repeat case_match; intros; simplify_eq/=; try congruence; naive_solver.
Qed.

Lemma advance_not_disconnected b th c c' :
  holds_connected th = false -> th <> DisconnectedFn -> (forall w, th <> LostHandledFn w) ->
  st c <> disconnected -> result_state (advance b th c) = Some c' -> st c' <> disconnected.
Proof.
  intros Hh Hd Hl Hc. destruct th; try done; cbn; unfold Connecting, Disconnecting, Disconnecting_join,
    ConnectionLost, ConnectionLost_join; repeat case_match; intros; simplify_eq/=; try congruence;
    by destruct (Hl will).
Qed.

(** What a goroutine may become after a stretch of the status machine. *)
Definition plain (t u : goroutine) : Prop :=
  in_mu u = false /\ up_gen u = None /\ confused u = false /\ awaits u = false /\
  (unconnected t = false -> unconnected u = false) /\ pending u = pending t /\
  forall og, caller u = Some og -> caller t = Some og.

Lemma moves_inv (s s' : client) pre t post th b goes new :
  life_inv s -> gos s = pre ++ t :: post -> status_of t = Some th ->
  in_mu t = false -> up_gen t = None -> awaits t = false -> pending t = false ->
  (forall th', match advance b th (cs s) with Goes x _ => x = th' | _ => False end ->
     exists u, goes th' = [u] /\ status_of u = Some th' /\ plain t u) ->
  (unconnected t = true \/
     holds_connected th = false /\ th <> DisconnectedFn /\ forall w, th <> LostHandledFn w) ->
  th <> ConnectedFn \/ b = false ->
  on_status (advance b th (cs s)) goes s = Some (new, s') ->
  life_inv (set_gos (pre ++ new ++ post) s').
Proof.
  intros Hi Hg Hth Hmu Hup Haw Hpe Hgoes Hun Hb Hon.
  assert (Hst : forall c', result_state (advance b th (cs s)) = Some c' ->
    (forall g, c_conn s = Some g -> st c' <> disconnected) /\ (c_conn s = None -> st c' <> connected)).
  { intros c' Hr. split.
    - intros g Hc. destruct (li_conn _ Hi g Hc) as (_ & Hd & Hu).
      destruct Hun as [Hun|(Hh & Hdd & Hl)].
      + specialize (Hu t (here _ _ _ _ Hg)). congruence.
      + by eapply advance_not_disconnected.
    - intros Hc. destruct (li_none _ Hi Hc) as [Hn _]. by eapply advance_not_connected. }
  assert (Hcn : forall g, c_conn s = Some g -> unconnected t = false).
  { intros g Hc. destruct (li_conn _ Hi g Hc) as (_ & _ & Hu). apply Hu. by eapply here. }
  destruct (advance b th (cs s)) as [th' c'|err c'| |] eqn:Ha; cbn in Hon; [| |done|].
  - injection Hon as <- <-. destruct (Hgoes th' eq_refl) as (u & -> & Hu & Hmu' & Hup' & Hco & Haw' & Hunc & Hpe' & Hca).
    destruct (Hst c' eq_refl) as [Hd Hn].
    refine (replace_inv s pre t post [u] c' (l_tokens s) Hi Hg _ _ _ _ _ _ _ _ _ _ _ _).
    + by eapply status_goes; [..|cbn; rewrite Hu].
    + by rewrite count_cons, count_nil, Hmu, Hmu'.
    + cbn. by rewrite Hup, Hup'.
    + by intros v ->%list_elem_of_singleton.
    + intros v og ->%list_elem_of_singleton. apply Hca.
    + done.
    + intros g Hc. split; [by eapply Hd|]. intros v ->%list_elem_of_singleton. eauto.
    + done.
    + congruence.
    + intros v ->%list_elem_of_singleton. by destruct u.
    + intros v ->%list_elem_of_singleton. congruence.
    + by rewrite count_cons, count_nil, Hpe', Hpe.
  - injection Hon as <- <-. destruct (Hst c' eq_refl) as [Hd Hn].
    refine (replace_inv s pre t post [] c' (l_tokens s) Hi Hg _ _ _ _ _ _ _ _ _ _ _ _).
    + by eapply status_returns.
    + by rewrite count_nil, Hmu.
    + cbn. by rewrite Hup.
    + by intros v ?%not_elem_of_nil.
    + by intros v og ?%not_elem_of_nil.
    + cbn. lia.
    + intros g Hc. split; [by eapply Hd|]. by intros v ?%not_elem_of_nil.
    + done.
    + congruence.
    + by intros v ?%not_elem_of_nil.
    + by intros v ?%not_elem_of_nil.
    + by rewrite count_nil, Hpe.
  - destruct (status_fine s pre t post Hi Hg th Hth b Ha).
Qed.

(** A step that leaves the status alone. *)
Lemma stay_inv (s : client) pre t post u :
  life_inv s -> gos s = pre ++ t :: post -> status_of u = status_of t ->
  in_mu t = false -> in_mu u = false -> confused u = false -> pending u = pending t ->
  (forall og, caller u = Some og -> caller t = Some og) ->
  (unconnected t = false -> unconnected u = true -> c_conn s = None) ->
  (awaits t = true -> awaits u = true \/ forall g, g < length (gens s) -> over g s) ->
  (awaits_comms u = true -> awaits_comms t = true \/
     (forall x, x ∈ gens s -> gen_count x = 0) /\ keepalive_calls s = 0) ->
  (awaits u = true -> awaits t = true) ->
  life_inv (set_gos (pre ++ [u] ++ post) s).
Proof.
  intros Hi Hg Hst Hmt Hmu Hco Hpe Hca Hun Haw Hac Hau.
  assert (Hup : forall v, in_mu v = false -> up_gen v = None) by (by intros []).
  refine (replace_inv s pre t post [u] (cs s) (l_tokens s) Hi Hg _ _ _ _ _ _ _ _ _ _ _ _).
  - eapply status_same; [done..|]. cbn. by rewrite Hst.
  - by rewrite count_cons, count_nil, Hmt, Hmu.
  - cbn. by rewrite !Hup.
  - by intros v ->%list_elem_of_singleton.
  - intros v og ->%list_elem_of_singleton. apply Hca.
  - done.
  - intros g Hc. destruct (li_conn _ Hi g Hc) as (_ & Hd & Hu). split; [done|].
    intros v ->%list_elem_of_singleton. destruct (unconnected u) eqn:Huu; [|done].
    specialize (Hu t (here _ _ _ _ Hg)). by rewrite Hun in Hc.
  - intros Hc. apply (li_none _ Hi Hc).
  - intros _ Ha. destruct (Haw Ha) as [?|?]; [left; exists u|by right].
    by rewrite list_elem_of_singleton.
  - intros v ->%list_elem_of_singleton. apply Hac.
  - by intros v ->%list_elem_of_singleton.
  - rewrite count_cons, count_nil, Hpe. lia.
Qed.

Lemma attempt_disconnected (s : client) t :
  life_inv s -> t ∈ gos s -> status_of t = Some ConnectedFn -> c_conn s = None ->
  forall g, g < length (gens s) -> over g s.
Proof.
  intros Hi Ht Hs Hc. destruct (li_none _ Hi Hc) as [_ [(u & Hu & Ha)|Ho]]; [|done]. exfalso.
  apply list_elem_of_split in Hu as (pre & post & Hg).
  destruct (awaits_status u Ha) as (th & Hth & Hown & Hj).
  destruct (owner_alone s pre u post th (li_status _ Hi) Hg Hth Hown Hj) as [_ Hal].
  rewrite Hg, elem_of_app, elem_of_cons in Ht.
  assert (t = u \/ t ∈ pre ++ post) as [->|Hin] by (rewrite elem_of_app; tauto).
  - rewrite Hs in Hth. by injection Hth as <-.
  - by destruct (Hal t ConnectedFn Hin Hs).
Qed.

Lemma attempt_frees (s : client) pre t post u :
  life_inv s -> gos s = pre ++ t :: post -> status_of t = Some ConnectedFn ->
  u ∈ pre ++ post -> unconnected u = false.
Proof.
  intros Hi Hg Ht Hu. destruct (unconnected u) eqn:Huu; [|done]. exfalso.
  destruct (attempt_alone s pre t post (li_status _ Hi) Hg Ht) as (_ & _ & Hal).
  destruct (status_of u) as [th|] eqn:Hth; [|by destruct u].
  destruct (Hal u th Hu Hth) as [Hh Ho]. destruct u; simplify_eq/=; by apply Ho.
Qed.

Lemma go_status_inv (s s' : client) pre t post new :
  life_inv s -> gos s = pre ++ t :: post ->
  match t with
  | GGiveUp | GDisconnect | GDisWait _ | GDisJoin _ _ | GDisDone | GLostCall _ _
  | GLostJoin _ _ _ | GLostDone _ => True
  | _ => False
  end ->
  go o t s = Some (new, s') -> life_inv (set_gos (pre ++ new ++ post) s').
Proof.
  intros Hi Hg Ht Hgo. destruct t; try done; cbn [go] in Hgo.
  - refine (moves_inv s s' pre _ post ConnectedFn false (fun _ => []) new Hi Hg eq_refl eq_refl eq_refl
      eq_refl eq_refl _ (or_introl eq_refl) (or_intror eq_refl) Hgo).
    intros th'. cbn. unfold connected_fn. by repeat case_match.
  - refine (moves_inv s s' pre _ post CallDisconnecting true dis_goes new Hi Hg eq_refl eq_refl eq_refl
      eq_refl eq_refl _ (or_intror _) (or_introl _) Hgo); [|done|done].
    intros th'. cbn. unfold Disconnecting. repeat case_match; intros; simplify_eq; try done; eexists; done.
  - refine (moves_inv s s' pre _ post (DisconnectingWait ch) true dis_goes new Hi Hg eq_refl eq_refl
      eq_refl eq_refl eq_refl _ (or_intror _) (or_introl _) Hgo); [|done|done].
    intros th'. cbn. by repeat case_match.
  - refine (moves_inv s s' pre _ post (DisconnectingJoin prev ch) true dis_goes new Hi Hg eq_refl eq_refl
      eq_refl eq_refl eq_refl _ (or_intror _) (or_introl _) Hgo); [|done|done].
    intros th'. cbn. unfold Disconnecting_join. repeat case_match; intros; simplify_eq; try done; eexists; done.
  - refine (moves_inv s s' pre _ post DisconnectedFn true (fun _ => []) new Hi Hg eq_refl eq_refl eq_refl
      eq_refl eq_refl _ (or_introl eq_refl) (or_introl _) Hgo); [|done].
    intros th'. cbn. unfold disconnectionCompleted. by repeat case_match.
  - refine (moves_inv s s' pre _ post (CallConnectionLost will) true (lost_goes og) new Hi Hg eq_refl
      eq_refl eq_refl eq_refl eq_refl _ (or_intror _) (or_introl _) Hgo); [|done|done].
    intros th'. cbn. unfold ConnectionLost. repeat case_match; intros; simplify_eq; try done; eexists; done.
  - refine (moves_inv s s' pre _ post (ConnectionLostJoin will ch) true (lost_goes og) new Hi Hg eq_refl
      eq_refl eq_refl eq_refl eq_refl _ (or_intror _) (or_introl _) Hgo); [|done|done].
    intros th'. cbn. unfold ConnectionLost_join. repeat case_match; intros; simplify_eq; try done; eexists; done.
  - refine (moves_inv s s' pre _ post (LostHandledFn will) true reconnect_goes new Hi Hg eq_refl eq_refl
      eq_refl eq_refl eq_refl _ (or_introl eq_refl) (or_introl _) Hgo); [|done].
    intros th'. cbn. unfold connectionLostHandler. repeat case_match; intros; simplify_eq; try done; eexists; done.
Qed.

(** ** Connect, pauses and waiting *)

(** What is said of all elements of a list with at most one. *)
Ltac singles :=
  let u := fresh "u" in
  intros u;
  first [intros ->%list_elem_of_singleton | intros ? ->%list_elem_of_singleton
        | intros ?%not_elem_of_nil | intros ? ?%not_elem_of_nil].

Lemma Connecting_cases c :
  (st c = disconnected /\ exists c', Connecting c = Goes ConnectedFn c' /\ st c' = connecting) \/
  exists err, Connecting c = Returns (Some err) c.
Proof.
  unfold Connecting. destruct (decide _); [right; eauto|].
  case_bool_decide; cbn; [left|right]; eauto.
Qed.

Lemma go_connect_inv (s s' : client) pre post new :
  life_inv s -> gos s = pre ++ GConnect :: post -> go o GConnect s = Some (new, s') ->
  life_inv (set_gos (pre ++ new ++ post) s').
Proof.
  intros Hi Hg Hgo. cbn [go] in Hgo. unfold life_Connect, client_Connect in Hgo.
  destruct (Connecting_cases (cs s)) as [(Hst & c' & Hc & Hst')|[err Hc]]; rewrite Hc in Hgo.
  - assert (Hnone : c_conn s = None).
    { destruct (c_conn s) eqn:Hcc; [|done]. by destruct (li_conn _ Hi _ Hcc) as (_ & ? & _). }
    destruct (Servers o); injection Hgo as <- <-;
      (eapply (replace_inv s pre GConnect post _ c'); [exact Hi|exact Hg|..];
       [by eapply (status_goes s pre GConnect post Hi Hg CallConnecting eq_refl true)|done|done|..]).
    all: try done; try (by singles); try congruence.
    all: try (intros; congruence).
    all: cbn; rewrite ?length_app, count_cons, count_nil; cbn; lia.
  - assert (Hall : forall e, life_inv (set_gos (pre ++ [] ++ post) (finish_token FromConnect e s))).
    { intros e. eapply (replace_inv s pre GConnect post [] (cs s)); [exact Hi|exact Hg|..];
        [by eapply (status_returns s pre GConnect post Hi Hg CallConnecting eq_refl true)|done|done|..].
      all: try (by singles); try done.
      - cbn. lia.
      - intros g Hcc. destruct (li_conn _ Hi g Hcc) as (_ & ? & _). split; [done|].
        by intros u ?%not_elem_of_nil.
      - intros Hcc. by destruct (li_none _ Hi Hcc).
      - cbn. rewrite length_app, count_nil. cbn. lia. }
    destruct (_ && _); injection Hgo as <- <-; eauto.
Qed.

Lemma go_pause_inv (s s' : client) pre post r err new :
  life_inv s -> gos s = pre ++ GPause r err :: post -> go o (GPause r err) s = Some (new, s') ->
  life_inv (set_gos (pre ++ new ++ post) s').
Proof.
  intros Hi Hg Hgo. cbn [go] in Hgo. unfold after_failure in Hgo.
  destruct r.
  - destruct (connect_retries _ _ _); injection Hgo as <- <-; [by eapply stay_inv|].
    eapply (replace_inv s pre (GPause FromConnect err) post [GGiveUp] (cs s)); [exact Hi|exact Hg|..].
    all: try (by singles); try done.
    + by eapply status_same.
    + intros g Hc. by rewrite (unconnected_none s _ Hi (here _ _ _ _ Hg)) in Hc.
    + intros Hc. by destruct (li_none _ Hi Hc).
    + cbn. rewrite length_app, count_cons, count_nil. cbn. lia.
  - case_bool_decide; injection Hgo as <- <-; by eapply stay_inv.
Qed.

Lemma workers_gone_spec (s : client) : workers_gone s = true ->
  (forall x, x ∈ gens s -> gen_count x = 0) /\ keepalive_calls s = 0.
Proof.
  unfold workers_gone. intros [Hw Hk]%andb_true_iff. split; [|by apply Nat.eqb_eq].
  intros x Hx%list_elem_of_In. rewrite forallb_forall in Hw. by apply Nat.eqb_eq, Hw.
Qed.

Lemma comms_gone_over (s : client) t :
  life_inv s -> t ∈ gos s -> awaits_comms t = true -> comms_gone s = true ->
  forall g, g < length (gens s) -> over g s.
Proof.
  intros Hi Ht Ha Hgone g Hlt. destruct (decide (S g < length (gens s))) as [Ho|Hl]; [by apply Hi|].
  assert (g = pred (length (gens s))) as -> by lia. unfold comms_gone in Hgone.
  rewrite last_lookup in Hgone. destruct (gens s !! _) as [[|w]|] eqn:Hw; [done| |done].
  apply andb_true_iff in Hgone as [Hcs Hpc%Nat.eqb_eq].
  destruct (li_await _ Hi t Ht Ha) as [Hz Hk]. destruct (li_good _ Hi _ _ Hw) as [_ Hs].
  rewrite (unconnected_none s t Hi Ht) in Hs by by destruct t.
  exists w. split; [done|]. split; [destruct (w_stopping w); [done|by pose proof (proj1 Hs eq_refl)]|].
  split; [by apply (Hz (Running w)), list_elem_of_lookup_2 with (i := pred (length (gens s)))|].
  split; [done|]. intros u k Hu Hcu. destruct k.
  - pose proof (count_zero _ _ u Hk Hu) as Hf. cbn in Hf. by rewrite Hcu in Hf.
  - pose proof (count_zero _ _ u Hpc Hu) as Hf. cbn in Hf. by rewrite Hcu, Nat.eqb_refl in Hf.
Qed.

Lemma go_wait_inv (s s' : client) pre t post new :
  life_inv s -> gos s = pre ++ t :: post ->
  match t with
  | GDisSend | GDisWorkers | GDisComms | GLost _ | GLostWorkers _ | GLostComms _ => True
  | _ => False
  end ->
  go o t s = Some (new, s') -> life_inv (set_gos (pre ++ new ++ post) s').
Proof.
  intros Hi Hg Ht Hgo. pose proof (here _ _ _ _ Hg) as Hin.
  destruct t; try done; cbn [go] in Hgo.
  - injection Hgo as <- <-. by eapply stay_inv.
  - destruct (workers_gone s) eqn:Hw; [|done]. injection Hgo as <- <-.
    eapply stay_inv; try done; [by left|right; by apply workers_gone_spec].
  - destruct (comms_gone s) eqn:Hw; [|done]. injection Hgo as <- <-.
    eapply stay_inv; try done. right. by eapply comms_gone_over.
  - injection Hgo as <- <-. 
    eapply (replace_inv s pre (GLost og) post _ (cs s)); [exact Hi|exact Hg|..].
    all: try (by singles); try done.
    + eapply status_join; [done|]. apply call_inv; [done|].
      pose proof (li_status _ Hi) as Hs. by rewrite Hg, !omap_app in *.
    + intros g Hc. destruct (li_conn _ Hi g Hc) as (_ & ? & _). split; [done|].
      by intros u ->%list_elem_of_singleton.
    + intros Hc. by destruct (li_none _ Hi Hc).
  - destruct (workers_gone s) eqn:Hw; [|done]. injection Hgo as <- <-.
    eapply stay_inv; try done; [by left|right; by apply workers_gone_spec].
  - destruct (comms_gone s) eqn:Hw; [|done]. injection Hgo as <- <-.
    eapply stay_inv; try done. right. by eapply comms_gone_over.
Qed.

(** ** startWorkers and stopCommsWorkers *)

(** A worker inside internalConnLost keeps c.conn from being nil, unless its
    generation has been stopped. *)
Lemma caller_connected (s : client) t g k :
  life_inv s -> t ∈ gos s -> caller t = Some (g, k) -> c_conn s = None ->
  exists u, u ∈ gos s /\ awaits u = true.
Proof.
  intros Hi Ht Hc Hn. destruct (li_none _ Hi Hn) as [_ [?|Ho]]; [done|]. exfalso.
  destruct (Ho g) as (w & _ & _ & _ & _ & Hcall); [by eapply Hi|]. by apply (Hcall t k).
Qed.

(** Whoever is about to stop the workers is the only one that disconnects. *)
Lemma stopper_alone (s : client) pre t post th u :
  life_inv s -> gos s = pre ++ t :: post -> status_of t = Some th -> owns_disconnect th = true ->
  joins th = None -> awaits t = false -> u ∈ gos s -> awaits u = false.
Proof.
  intros Hi Hg Ht Ho Hj Ha Hu. destruct (awaits u) eqn:Hau; [|done]. exfalso.
  destruct (owner_alone s pre t post th (li_status _ Hi) Hg Ht Ho Hj) as [_ Hal].
  destruct (awaits_status u Hau) as (th' & Hth' & Ho' & _).
  rewrite Hg, elem_of_app, elem_of_cons in Hu.
  assert (u = t \/ u ∈ pre ++ post) as [->|Hin] by (rewrite elem_of_app; tauto); [congruence|].
  destruct (Hal u th' Hin Hth'). congruence.
Qed.

Lemma awaits_comms_awaits t : awaits_comms t = true -> awaits t = true.
Proof. by destruct t. Qed.

Lemma no_mutex (s : client) t : life_inv s -> conn_mu s = false -> t ∈ gos s -> in_mu t = false.
Proof. intros Hi Hm. apply count_zero. by rewrite (li_mu _ Hi), Hm. Qed.

Lemma mutex_alone (s : client) pre t post u :
  life_inv s -> gos s = pre ++ t :: post -> in_mu t = true -> u ∈ pre ++ post -> in_mu u = false.
Proof.
  intros Hi Hg Ht Hu. pose proof (li_mu _ Hi) as Hm. rewrite Hg, gcount_app, count_cons, Ht in Hm.
  apply (count_zero in_mu (pre ++ post)); [|done]. rewrite gcount_app. destruct (conn_mu s); lia.
Qed.

Lemma up_in_mu t g : up_gen t = Some g -> in_mu t = true.
Proof. by destruct t. Qed.

Lemma stop_found_inv (s : client) pre t post th found g w w' :
  life_inv s -> gos s = pre ++ t :: post -> status_of t = Some th -> owns_disconnect th = true ->
  joins th = None -> awaits t = false -> in_mu t = false -> pending t = false ->
  status_of found = Some th -> awaits found = true -> awaits_comms found = false ->
  conn_mu s = false -> c_conn s = Some g -> gens s !! g = Some (Running w) ->
  w_good w' -> w_stopping w' = true ->
  life_inv (set_gos (pre ++ [found] ++ post)
    (set_c_conn None (set_gens (<[g := Running w']> (gens s)) s))).
Proof.
  intros Hi Hg Hth Ho Hj Hat Hmt Hpt Hf Haf Hacf Hmu Hc Hw Hgood Hstop.
  destruct (li_conn _ Hi g Hc) as (Hlast & Hd & Hun).
  assert (Hin : forall u, u ∈ pre ++ [found] ++ post -> u = found \/ u ∈ gos s).
  { rewrite Hg. set_solver. }
  assert (Hcf : caller found = None) by by destruct found.
  assert (Hmf : in_mu found = false) by by destruct found.
  assert (Hpf : pending found = false) by by destruct found.
  assert (Hst : st (cs s) = disconnecting).
  { by destruct (owner_alone s pre t post th (li_status _ Hi) Hg Hth Ho Hj). }
  assert (Hover : forall i, i <> g -> over i s -> over i (set_gos (pre ++ [found] ++ post)
    (set_c_conn None (set_gens (<[g := Running w']> (gens s)) s)))).
  { intros i Hne. apply over_mono; cbn; [by rewrite list_lookup_insert_ne|].
    intros u og [->|Hu]%Hin Hcu; [congruence|eauto]. }
  assert (Hnomu : forall u, u ∈ gos s -> in_mu u = false) by (intros u; by apply no_mutex).
  assert (Hss : status_inv (cs s) (omap status_of (pre ++ [found] ++ post))).
  { eapply status_same; [exact Hi|exact Hg|]. cbn. by rewrite Hth, Hf. }
  destruct Hi as [Hp Hs Hm Hup Hstart Hsane Hconn Hnone Hold Hgd Haw Hcall Hsome Htok]. split; cbn.
  - done.
  - done.
  - rewrite Hmu in *. revert Hm. by rewrite Hg, !gcount_app, !count_cons, ?count_nil, Hmt, Hmf.
  - intros u i [->|Hu]%Hin Hug; [by destruct found|].
    apply up_in_mu in Hug. by rewrite (Hnomu u Hu) in Hug.
  - intros i kp nc Hi'. destruct (decide (i = g)) as [->|Hne].
    + rewrite list_lookup_insert_eq in Hi' by lia. done.
    + rewrite list_lookup_insert_ne in Hi' by done.
      destruct (Hstart i kp nc Hi') as (u & Hu & Hug). apply up_in_mu in Hug.
      by rewrite (Hnomu u Hu) in Hug.
  - intros u [->|Hu]%Hin; [by destruct found|by apply Hsane].
  - done.
  - intros _. split; [by rewrite Hst|]. left. exists found. split; [set_solver|done].
  - intros i. rewrite length_insert. intros Hlt. apply Hover; [lia|]. by apply Hold.
  - intros i x Hx. destruct (decide (i = g)) as [->|Hne].
    + rewrite list_lookup_insert_eq in Hx by lia. injection Hx as <-. split; [done|]. by rewrite Hstop.
    + rewrite list_lookup_insert_ne in Hx by done. destruct (Hgd i x Hx) as [Hgx Hiff].
      split; [done|]. rewrite Hiff, Hc. split; congruence.
  - intros u [->|Hu]%Hin Ha; [congruence|]. specialize (Hun u Hu). by destruct u.
  - intros u i k [->|Hu]%Hin Hcu; [congruence|]. rewrite length_insert. by eapply Hcall.
  - intros u _ _ Hnil. apply (f_equal length) in Hnil. rewrite length_insert in Hnil. cbn in Hnil. lia.
  - rewrite Htok, Hg, !gcount_app, !count_cons, ?count_nil, Hpt, Hpf. lia.
Qed.

Lemma go_stop_inv (s s' : client) pre t post th found none new :
  life_inv s -> gos s = pre ++ t :: post ->
  (t = GDisStop /\ th = DisconnectedFn /\ found = GDisWorkers /\ none = GDisDone) \/
  (exists og will, t = GLostStop og will /\ th = LostHandledFn will /\ found = GLostWorkers will /\
     none = GLostNil og will) ->
  stopCommsWorkers found none s = Some (new, s') -> life_inv (set_gos (pre ++ new ++ post) s').
Proof.
  intros Hi Hg Ht Hstop. pose proof (here _ _ _ _ Hg) as Hin. unfold stopCommsWorkers in Hstop.
  destruct (conn_mu s) eqn:Hmu; [done|]. destruct (c_conn s) as [g|] eqn:Hc.
  - destruct (gens s !! g) as [[|w]|] eqn:Hw; [done| |done].
    destruct (li_good _ Hi g w Hw) as [Hgood Hrun].
    destruct (stop_good w Hgood) as (w' & Hw' & Hgood' & Hst & _); [by apply Hrun|].
    rewrite Hw' in Hstop. injection Hstop as <- <-.
    destruct Ht as [(-> & -> & -> & ->)|(og & will & -> & -> & -> & ->)];
      by eapply stop_found_inv.
  - injection Hstop as <- <-.
    destruct Ht as [(-> & -> & -> & ->)|([g k] & will & -> & -> & -> & ->)]; [by eapply stay_inv|].
    exfalso. destruct (caller_connected s _ g k Hi Hin eq_refl Hc) as (u & Hu & Ha).
    by rewrite (stopper_alone s pre _ post _ u Hi Hg eq_refl) in Ha.
Qed.

Lemma go_begin_inv (s s' : client) pre r nc post new :
  life_inv s -> gos s = pre ++ GStartWorkers r nc :: post -> begin_workers o r nc s = Some (new, s') ->
  life_inv (set_gos (pre ++ new ++ post) s').
Proof.
  intros Hi Hg Hb. pose proof (here _ _ _ _ Hg) as Hin. unfold begin_workers in Hb.
  destruct (conn_mu s) eqn:Hmu; [done|].
  pose proof (unconnected_none s _ Hi Hin eq_refl) as Hc. rewrite Hc in Hb. injection Hb as <- <-.
  set (g := length (gens s)).
  pose proof (attempt_disconnected s _ Hi Hin eq_refl Hc) as Hover.
  destruct (attempt_alone s pre _ post (li_status _ Hi) Hg eq_refl) as (Hd & _).
  assert (Hout : forall u, u ∈ pre ++ [GUp r g] ++ post -> u = GUp r g \/ u ∈ gos s /\ u ∈ pre ++ post).
  { rewrite Hg. set_solver. }
  assert (Hnomu : forall u, u ∈ gos s -> in_mu u = false) by (intros u; by apply no_mutex).
  assert (Hss : status_inv (cs s) (omap status_of (pre ++ [GUp r g] ++ post))) by by eapply status_same.
  pose proof (fun u => attempt_frees s pre _ post u Hi Hg eq_refl) as Hfree.
  assert (Hov : forall i, over i s -> over i (set_gos (pre ++ [GUp r g] ++ post)
    (set_gens (gens s ++ [Starting (has_keepalive o) nc]) (set_c_conn (Some g) (set_conn_mu true s))))).
  { intros i Hoi. pose proof Hoi as (w & Hw & _). apply lookup_lt_Some in Hw.
    revert Hoi. apply over_mono; cbn; [by rewrite lookup_app_l|].
    intros u og [->|[Hu _]]%Hout; [done|eauto]. }
  destruct Hi as [Hp Hs Hm Hup Hstart Hsane Hconn Hnone Hold Hgd Haw Hcall Hsome Htok]. split; cbn.
  - done.
  - done.
  - rewrite Hmu in Hm. revert Hm. rewrite Hg, !gcount_app, !count_cons. cbn. lia.
  - intros u i [->|[Hu _]]%Hout Hug.
    + injection Hug as <-. split; [done|]. exists (has_keepalive o), nc. by apply list_lookup_middle.
    + apply up_in_mu in Hug. by rewrite (Hnomu u Hu) in Hug.
  - intros i kp nc' [Hl|[Hl Hx]]%lookup_app_Some.
    + destruct (Hstart i kp nc' Hl) as (u & Hu & Hug). apply up_in_mu in Hug.
      by rewrite (Hnomu u Hu) in Hug.
    + exists (GUp r g). split; [set_solver|]. cbn. f_equal.
      apply list_lookup_singleton_Some in Hx as [Hx _]. unfold g. lia.
  - intros u [->|[Hu _]]%Hout; [done|by apply Hsane].
  - intros i [= <-]. rewrite length_app. cbn. split; [unfold g; lia|]. split; [done|].
    intros u [->|[_ Hu]]%Hout; [done|by apply Hfree].
  - done.
  - intros i. rewrite length_app. cbn. intros Hlt. apply Hov, Hover. lia.
  - intros i w [Hl|[Hl Hx]]%lookup_app_Some.
    + destruct (Hgd i w Hl) as [Hgw Hiff]. split; [done|]. rewrite Hiff, Hc.
      apply lookup_lt_Some in Hl. unfold g. split; [done|]. intros [= <-]. lia.
    + by apply list_lookup_singleton_Some in Hx as [_ [=]].
  - intros u [->|[_ Hu]]%Hout Ha; [done|]. apply Hfree in Hu. by destruct u.
  - intros u i k [->|[Hu _]]%Hout Hcu; [done|]. rewrite length_app. cbn.
    specialize (Hcall u i k Hu Hcu). lia.
  - intros u _ _ Hnil. by apply app_nil in Hnil as [_ ?].
  - rewrite Htok, Hg, !gcount_app, !count_cons. by destruct r.
Qed.

Lemma go_up_inv (s s' : client) pre r g post new :
  life_inv s -> gos s = pre ++ GUp r g :: post -> go o (GUp r g) s = Some (new, s') ->
  life_inv (set_gos (pre ++ new ++ post) s').
Proof.
  intros Hi Hg Hgo. pose proof (here _ _ _ _ Hg) as Hin. cbn [go] in Hgo.
  destruct (li_up _ Hi _ g Hin eq_refl) as [Hc _].
  destruct (connected_fn true (cs s)) as [|err c'| |] eqn:Hr; [done| |done|].
  - injection Hgo as <- <-.
    assert (Hd : st c' <> disconnected).
    { destruct (attempt_alone s pre _ post (li_status _ Hi) Hg eq_refl) as (Hd & _).
      unfold connected_fn in Hr. destruct (decide (st (cs s) = disconnecting)).
      - destruct (close_action _) eqn:Hcl; [|done]. injection Hr as _ <-.
        apply close_action_st in Hcl as [-> _]. done.
      - destruct (close_action _) eqn:Hcl; [|done]. injection Hr as _ <-.
        apply close_action_st in Hcl as [-> _]. done. }
    eapply (replace_inv s pre (GUp r g) post [GComms r g] c'); [exact Hi|exact Hg|..].
    all: try (by singles); try done.
    + by eapply (status_returns s pre (GUp r g) post Hi Hg ConnectedFn eq_refl true).
    + intros g' Hg'. split; [done|]. by intros u ->%list_elem_of_singleton.
    + intros Hn. congruence.
    + rewrite count_cons, count_nil. by destruct r.
  - destruct (status_fine s pre _ post Hi Hg ConnectedFn eq_refl true Hr).
Qed.

Lemma go_end_inv (s s' : client) pre r g post new :
  life_inv s -> gos s = pre ++ GComms r g :: post -> end_workers r g s = Some (new, s') ->
  life_inv (set_gos (pre ++ new ++ post) s').
Proof.
  intros Hi Hg He. pose proof (here _ _ _ _ Hg) as Hin. unfold end_workers in He.
  destruct (li_up _ Hi _ g Hin eq_refl) as (Hc & kp & nc & Hst). rewrite Hst in He. injection He as <- <-.
  destruct (li_conn _ Hi g Hc) as (Hlast & Hd & Hun).
  assert (Hsub : forall u, u ∈ pre ++ [] ++ post -> u ∈ gos s).
  { rewrite Hg. set_solver. }
  pose proof (fun u => mutex_alone s pre _ post u Hi Hg eq_refl) as Hnomu.
  assert (Hss : status_inv (cs s) (omap status_of (pre ++ [] ++ post))) by by eapply status_same.
  set (gs := <[g := Running (w_start kp nc)]> (gens s)).
  assert (Hov : forall i (s2 : client), gos s2 = pre ++ [] ++ post -> gens s2 = gs -> over i s -> over i s2).
  { intros i s2 Hg2 Hgs Hoi. pose proof Hoi as (w & Hw & _). revert Hoi.
    apply over_mono; rewrite ?Hg2, ?Hgs.
    - unfold gs. rewrite list_lookup_insert_ne; [done|congruence].
    - intros u og Hu Hcu. exists u. auto. }
  assert (Htoks : l_connects s = length (l_tokens (finish_token r None s)) + count pending (pre ++ post)).
  { rewrite (li_tokens _ Hi), Hg, !gcount_app, count_cons. destruct r; cbn; rewrite ?length_app; cbn; lia. }
  assert (Hgoal : forall toks, l_connects s = length toks + count pending (pre ++ post) ->
    life_inv (mkLife (cs s) (pre ++ [] ++ post) (c_conn s) false gs (l_panicked s) (l_connects s) toks)).
  { intros toks Ht.
    destruct Hi as [Hp Hs Hm Hup Hstart Hsane Hconn Hnone Hold Hgd Haw Hcall Hsome Htok]. split; cbn.
    - done.
    - done.
    - apply count_none. intros u Hu. by apply Hnomu.
    - intros u i Hu Hug. apply up_in_mu in Hug. by rewrite (Hnomu u Hu) in Hug.
    - intros i kp' nc' Hl. unfold gs in Hl. destruct (decide (i = g)) as [->|Hne].
      + by rewrite list_lookup_insert_eq in Hl by lia.
      + rewrite list_lookup_insert_ne in Hl by done. destruct (Hstart i kp' nc' Hl) as (u & Hu & Hug).
        destruct (Hup u i Hu Hug) as [Hc' _]. congruence.
    - auto.
    - intros i Hc'. unfold gs. rewrite length_insert. destruct (Hconn i Hc') as (? & ? & Hu).
      split; [done|]. split; [done|]. auto.
    - congruence.
    - intros i. unfold gs at 1. rewrite length_insert. intros Hlt. by eapply Hov; [..|apply Hold].
    - intros i w Hl. unfold gs in Hl. destruct (decide (i = g)) as [->|Hne].
      + rewrite list_lookup_insert_eq in Hl by lia. injection Hl as <-. rewrite start_running.
        split; [apply start_good|done].
      + rewrite list_lookup_insert_ne in Hl by done. by apply Hgd.
    - intros u Hu Ha. specialize (Hun u (Hsub u Hu)). by destruct u.
    - intros u i k Hu Hcu. unfold gs. rewrite length_insert. eauto.
    - intros u Hu Ha. specialize (Hun u (Hsub u Hu)). by destruct u.
    - done. }
  destruct r; by apply Hgoal.
Qed.

(** Every step of a goroutine keeps the invariant. *)
Lemma go_inv (s s' : client) pre t post new :
  life_inv s -> gos s = pre ++ t :: post -> go o t s = Some (new, s') ->
  life_inv (set_gos (pre ++ new ++ post) s').
Proof.
  intros Hi Hg Hgo. pose proof (li_sane _ Hi t (here _ _ _ _ Hg)) as Hsane.
  destruct t; try done; try (by eapply go_status_inv); try (by eapply go_wait_inv).
  - by eapply go_connect_inv.
  - by eapply go_pause_inv.
  - by eapply go_begin_inv.
  - by eapply go_up_inv.
  - by eapply go_end_inv.
  - eapply go_stop_inv; [exact Hi|exact Hg|by left|exact Hgo].
  - eapply go_stop_inv; [exact Hi|exact Hg|right; by exists og, will|exact Hgo].
Qed.

(** ** The generations and the application *)

Lemma elem_spawn (s : client) ts u : u ∈ gos (spawn ts s) <-> u ∈ gos s \/ u ∈ ts.
Proof. unfold spawn. cbn. by rewrite elem_of_app. Qed.

(** New goroutines that have not called anything yet. *)
Lemma spawn_status (s : client) ts :
  life_inv s -> (forall u, u ∈ ts -> forall th, status_of u = Some th -> is_call th = true) ->
  status_inv (cs s) (omap status_of (gos s ++ ts)).
Proof.
  intros Hi Hts. apply (status_inv_perm _ (omap status_of ts ++ omap status_of (gos s))).
  { rewrite omap_app. apply Permutation_app_comm. }
  pose proof (li_status _ Hi) as Hs. induction ts as [|u ts IH]; [done|]. cbn.
  assert (Htl : status_inv (cs s) (omap status_of ts ++ omap status_of (gos s))).
  { apply IH. intros v Hv. apply Hts. set_solver. }
  destruct (status_of u) as [th|] eqn:Hu; [|done]. cbn. apply call_inv; [|done].
  apply (Hts u); [set_solver|done].
Qed.

(** A generation changes and calls into the client: [x] becomes [x'], and the
    goroutines [ts] are started. *)
Definition gen_change (g : nat) (x x' : generation W) (ts : list goroutine) : Prop :=
  match x, x' with
  | Starting _ _, Starting _ _ => True
  | Running w, Running w' => w_good w' /\ w_stopping w' = w_stopping w /\
      (w_comms_stopped w = true -> w_comms_stopped w' = true /\ GLost (g, false) ∉ ts)
  | _, _ => False
  end /\ gen_count x' <= gen_count x /\ (GLost (g, true) ∈ ts -> gen_count x <> 0) /\
  (forall u, u ∈ ts -> u = GDisconnect \/ exists k, u = GLost (g, k)).

Lemma gen_over (s : client) g x x' ts i :
  gens s !! g = Some x -> gen_change g x x' ts -> over i s ->
  over i (spawn ts (set_gens (<[g := x']> (gens s)) s)).
Proof.
  intros Hx (Hxx & Hle & Hka & Hts) (w & Hw & Hst & Hn & Hcs & Hcall).
  assert (Hin : forall u, u ∈ gos s ++ ts -> u ∈ gos s \/ u ∈ ts) by (intros u; by rewrite elem_of_app).
  destruct (decide (i = g)) as [->|Hne].
  - rewrite Hx in Hw. injection Hw as ->. destruct x' as [|w']; [done|]. cbn in Hle, Hka.
    destruct Hxx as (_ & Hst' & Hcs'). destruct (Hcs' Hcs) as [Hcs2 Hnf].
    exists w'. split; [apply list_lookup_insert_eq; by eapply lookup_lt_Some|].
    split; [congruence|]. split; [lia|]. split; [done|].
    intros u k [Hu|Hu]%Hin Hcu; [by apply (Hcall u k)|].
    destruct (Hts u Hu) as [->|[k' ->]]; [done|]. injection Hcu as ->.
    destruct k; [by apply (Hka Hu)|done].
  - exists w. split; [by rewrite <- Hw; apply list_lookup_insert_ne|]. do 3 (split; [done|]).
    intros u k [Hu|Hu]%Hin Hcu; [by apply (Hcall u k)|].
    destruct (Hts u Hu) as [->|[k' ->]]; [done|]. injection Hcu as Hgi _. congruence.
Qed.

Lemma gen_await (s : client) g x x' ts :
  gens s !! g = Some x -> gen_change g x x' ts ->
  (forall y, y ∈ gens s -> gen_count y = 0) /\ keepalive_calls s = 0 ->
  (forall y, y ∈ <[g := x']> (gens s) -> gen_count y = 0) /\
  keepalive_calls (spawn ts (set_gens (<[g := x']> (gens s)) s)) = 0.
Proof.
  intros Hx (_ & Hle & Hka & Hts) [Hz Hk].
  assert (Hx0 : gen_count x = 0) by (apply Hz; by eapply list_elem_of_lookup_2).
  split.
  - intros y (i & Hy)%list_elem_of_lookup. destruct (decide (i = g)) as [->|Hne].
    + rewrite list_lookup_insert_eq in Hy by (by eapply lookup_lt_Some). injection Hy as <-. lia.
    + rewrite list_lookup_insert_ne in Hy by done. apply Hz. by eapply list_elem_of_lookup_2.
  - rewrite keepalive_calls_count in *. unfold spawn. cbn. rewrite gcount_app, Hk. cbn.
    apply count_none. intros v Hv. destruct (Hts v Hv) as [->|[[|] ->]]; [done| |done].
    by destruct (Hka Hv).
Qed.

Lemma gen_inv (s : client) g x x' ts :
  life_inv s -> gens s !! g = Some x -> gen_change g x x' ts ->
  life_inv (spawn ts (set_gens (<[g := x']> (gens s)) s)).
Proof.
  intros Hi Hx Hch. pose proof (lookup_lt_Some _ _ _ Hx) as Hlt.
  pose proof Hch as (Hxx & _ & _ & Hts).
  set (s' := spawn ts (set_gens (<[g := x']> (gens s)) s)).
  assert (Hin : forall u, u ∈ gos s' <-> u ∈ gos s \/ u ∈ ts) by (intros u; exact (elem_spawn (set_gens _ s) ts u)).
  assert (Hlen : length (gens s') = length (gens s)) by apply length_insert.
  assert (Hget : gens s' !! g = Some x') by by apply list_lookup_insert_eq.
  assert (Hgo : forall i, i <> g -> gens s' !! i = gens s !! i).
  { intros i Hne. by apply list_lookup_insert_ne. }
  pose proof (fun i => gen_over s g x x' ts i Hx Hch) as Hov. fold s' in Hov.
  assert (Hss : status_inv (cs s) (omap status_of (gos s ++ ts))).
  { apply spawn_status; [done|]. intros u Hu th Hth.
    destruct (Hts u Hu) as [->|[k ->]]; by simplify_eq/=. }
  assert (Hno : forall p, p GDisconnect = false -> (forall k, p (GLost (g, k)) = false) -> count p ts = 0).
  { intros p H1 H2. apply count_none. intros u Hu. by destruct (Hts u Hu) as [->|[k ->]]. }
  destruct Hi as [Hp Hs Hm Hup Hstart Hsane Hconn Hnone Hold Hgd Haw Hcall Hsome Htok].
  split; change (cs s') with (cs s); change (c_conn s') with (c_conn s).
  - done.
  - done.
  - change (conn_mu s') with (conn_mu s). unfold s', spawn. cbn. by rewrite gcount_app, Hm, Hno, Nat.add_0_r.
  - intros u i [Hu|Hu]%Hin Hug; [|by destruct (Hts u Hu) as [->|[k ->]]].
    destruct (Hup u i Hu Hug) as (Hc & kp & nc & Hl). split; [done|].
    destruct (decide (i = g)) as [->|Hne]; [|rewrite Hgo by done; eauto].
    rewrite Hx in Hl. injection Hl as ->. destruct x' as [kp' nc'|]; [eauto|done].
  - intros i kp nc Hl. assert (exists kp' nc', gens s !! i = Some (Starting kp' nc')) as (kp' & nc' & Hl').
    { destruct (decide (i = g)) as [->|Hne]; [|rewrite Hgo in Hl by done; eauto].
      rewrite Hget in Hl. injection Hl as ->. destruct x; [eauto|done]. }
    destruct (Hstart i kp' nc' Hl') as (u & Hu & Hug). exists u. by rewrite Hin; auto.
  - intros u [Hu|Hu]%Hin; [by apply Hsane|]. by destruct (Hts u Hu) as [->|[k ->]].
  - intros i Hc. rewrite Hlen. destruct (Hconn i Hc) as (? & ? & Hun). split; [done|]. split; [done|].
    intros u [Hu|Hu]%Hin; [by apply Hun|]. by destruct (Hts u Hu) as [->|[k ->]].
  - intros Hc. rewrite Hlen. destruct (Hnone Hc) as [? [(u & Hu & Ha)|Ho]]; (split; [done|]).
    + left. exists u. rewrite Hin. auto.
    + right. auto.
  - intros i. rewrite Hlen. auto.
  - intros i w Hl. destruct (decide (i = g)) as [->|Hne]; [|rewrite Hgo in Hl by done; by apply Hgd].
    rewrite Hget in Hl. injection Hl as ->. destruct x as [|w0]; [done|].
    destruct Hxx as (Hgw & -> & _). split; [done|]. by apply (Hgd g).
  - intros u [Hu|Hu]%Hin Ha; [|by destruct (Hts u Hu) as [->|[k ->]]].
    apply (gen_await s g x x' ts Hx Hch). by apply (Haw u).
  - intros u i k [Hu|Hu]%Hin Hcu; rewrite Hlen; [by eapply Hcall|].
    destruct (Hts u Hu) as [->|[k' ->]]; [done|]. by injection Hcu as <- _.
  - intros u _ _ Hnil. rewrite Hnil in Hlen. cbn in Hlen. lia.
  - change (l_connects s') with (l_connects s). change (l_tokens s') with (l_tokens s).
    unfold s', spawn. cbn. by rewrite gcount_app, Hno, Nat.add_0_r.
Qed.

Lemma inside_inv (s s' : client) g l : life_inv s -> inside g l s = Some s' -> life_inv s'.
Proof.
  unfold inside. intros Hi Hin. destruct (gens s !! g) as [[|w]|] eqn:Hw; [done| |done].
  destruct (w_exec l w) as [[w' c]|] eqn:Hx; [|done]. injection Hin as <-.
  destruct (li_good _ Hi g w Hw) as [Hgood _].
  destruct (exec_count l w w' c Hgood Hx) as [Hle Hka].
  apply (gen_inv s g (Running w)); [done|done|]. split; [|split; [done|split]].
  - split; [by eapply exec_good|]. split; [by eapply exec_stopping|]. intros Hcs.
    destruct (exec_stopped l w w' c Hgood Hx Hcs) as [Hcs' Hnf]. split; [done|].
    destruct c as [[[]|]|]; cbn; try set_solver. 
  - intros Hk. cbn. destruct c as [[[]|]|]; cbn in Hk; try set_solver. specialize (Hka eq_refl). lia.
  - intros u. destruct c as [[k|]|]; cbn; set_solver.
Qed.

(** The application calls Connect or Disconnect. *)
Lemma app_inv (s : client) (b : bool) :
  life_inv s ->
  life_inv (if b then spawn [GConnect] (count_connect s) else spawn [GDisconnect] s).
Proof.
  intros Hi.
  assert (Hss : forall u, u = GConnect \/ u = GDisconnect ->
    status_inv (cs s) (omap status_of (gos s ++ [u]))).
  { intros u Hu. apply spawn_status; [done|]. intros v ->%list_elem_of_singleton th Hth.
    by destruct Hu as [->| ->]; simplify_eq/=. }
  assert (Hgoal : forall u n, (u = GConnect /\ n = S (l_connects s) \/ u = GDisconnect /\ n = l_connects s) ->
    life_inv (mkLife (cs s) (gos s ++ [u]) (c_conn s) (conn_mu s) (gens s) (l_panicked s) n (l_tokens s))).
  { intros u n Hu.
    assert (Hu' : u = GConnect \/ u = GDisconnect) by naive_solver.
    assert (Hin : forall v, v ∈ gos s ++ [u] -> v ∈ gos s \/ v = u) by set_solver.
    assert (Hov : forall i, over i s -> over i (mkLife (cs s) (gos s ++ [u]) (c_conn s) (conn_mu s)
      (gens s) (l_panicked s) n (l_tokens s))).
    { intros i. apply over_mono; cbn; [done|]. intros v og [Hv| ->]%Hin Hcv; [eauto|].
      by destruct Hu' as [->| ->]. }
    pose proof (Hss u Hu') as Hsu.
    destruct Hi as [Hp Hs Hm Hup Hstart Hsane Hconn Hnone Hold Hgd Haw Hcall Hsome Htok]. split; cbn.
    - done.
    - done.
    - rewrite gcount_app, Hm, count_cons, count_nil. destruct Hu' as [->| ->]; cbn; lia.
    - intros v i [Hv| ->]%Hin Hug; [by eapply Hup|]. by destruct Hu' as [->| ->].
    - intros i kp nc Hl. destruct (Hstart i kp nc Hl) as (v & Hv & Hug). exists v.
      by rewrite elem_of_app; auto.
    - intros v [Hv| ->]%Hin; [by apply Hsane|]. by destruct Hu' as [->| ->].
    - intros i Hc. destruct (Hconn i Hc) as (? & ? & Hun). split; [done|]. split; [done|].
      intros v [Hv| ->]%Hin; [by apply Hun|]. by destruct Hu' as [->| ->].
    - intros Hc. destruct (Hnone Hc) as [? [(v & Hv & Ha)|Ho]]; (split; [done|]).
      + left. exists v. rewrite elem_of_app. auto.
      + right. auto.
    - auto.
    - done.
    - intros v [Hv| ->]%Hin Ha; [|by destruct Hu' as [->| ->]]. destruct (Haw v Hv Ha) as [Hz Hk].
      split; [done|]. rewrite keepalive_calls_count in *. cbn. rewrite gcount_app, Hk.
      by destruct Hu' as [->| ->].
    - intros v i k [Hv| ->]%Hin Hcv; [by eapply Hcall|]. by destruct Hu' as [->| ->].
    - intros v [Hv| ->]%Hin Ha; [by apply (Hsome v)|]. by destruct Hu' as [->| ->].
    - rewrite gcount_app, count_cons, count_nil. destruct Hu as [[-> ->]|[-> ->]]; cbn; lia. }
  destruct b; apply Hgoal; auto.
Qed.

Lemma replace_split i (ts : list goroutine) t new : ts !! i = Some t ->
  exists pre post, ts = pre ++ t :: post /\ replace i new ts = pre ++ new ++ post.
Proof.
  intros Hi. exists (take i ts), (drop (S i) ts). split; [|done]. symmetry. by apply take_drop_middle.
Qed.

Lemma exec_life_inv l (s s' : client) : life_inv s -> exec_life o l s = Some s' -> life_inv s'.
Proof.
  intros Hi He. destruct l as [i|g l|i g|i res|g|g| |]; cbn in He.
  - destruct (gos s !! i) as [t|] eqn:Ht; [|done]. destruct (go o t s) as [[new s1]|] eqn:Hgo; [|done].
    injection He as <-. destruct (replace_split i (gos s) t new Ht) as (pre & post & Hg & ->).
    by eapply go_inv.
  - by eapply inside_inv.
  - destruct (gos s !! i) as [[]|] eqn:Ht; try done.
    destruct (inside g w_take s) as [s1|] eqn:Hin; [|done]. injection He as <-.
    pose proof (inside_inv s s1 g w_take Hi Hin) as Hi1.
    assert (Ht1 : gos s1 !! i = Some GDisSend).
    { unfold inside in Hin. destruct (gens s !! g) as [[|w]|]; [done| |done].
      destruct (w_exec w_take w) as [[w' c]|]; [|done]. injection Hin as <-. cbn.
      apply lookup_app_l_Some. done. }
    destruct (replace_split i (gos s1) GDisSend [GDisStop] Ht1) as (pre & post & Hg & ->).
    by eapply stay_inv.
  - destruct (gos s !! i) as [[]|] eqn:Ht; try done. injection He as <-.
    destruct (replace_split i (gos s) _ [match res with inl err => GPause r err
      | inr nc => GStartWorkers r nc end] Ht) as (pre & post & Hg & ->).
    destruct res; (eapply stay_inv; [exact Hi|exact Hg|..]); try done; by destruct r.
  - destruct (gens s !! g) as [[[] nc|]|] eqn:Hx; try done. injection He as <-.
    apply (gen_inv s g (Starting true nc)); [done|done|].
    split; [done|]. split; [cbn; lia|]. split; [cbn; lia|]. intros u ->%list_elem_of_singleton. eauto.
  - destruct (gens s !! g) as [[[] nc|]|] eqn:Hx; try done. injection He as <-.
    assert (Hnil : forall s2 : client, set_gos (gos s2 ++ []) s2 = s2).
    { intros []. unfold set_gos. cbn. by rewrite app_nil_r. }
    rewrite <- (Hnil (set_gens _ s)).
    apply (gen_inv s g (Starting true nc) _ []); [done|done|].
    split; [done|]. split; [cbn; lia|]. split; [cbn; lia|]. by intros u ?%not_elem_of_nil.
  - injection He as <-. by apply (app_inv s true).
  - injection He as <-. by apply (app_inv s false).
Qed.

Lemma new_client_inv : life_inv new_client.
Proof.
  split; cbn; try done.
  - by intros t g ?%not_elem_of_nil.
  - by intros t ?%not_elem_of_nil.
  - intros _. split; [done|]. right. lia.
  - intros g. lia.
  - by intros t ?%not_elem_of_nil.
  - by intros t g k ?%not_elem_of_nil.
  - by intros t ?%not_elem_of_nil.
Qed.

Lemma life_inv_reachable (s : client) : life_reachable o s -> life_inv s.
Proof.
  apply (rtc_ind_r life_inv); [apply new_client_inv|].
  intros x y _ [l Hl] Hi. by eapply exec_life_inv.
Qed.

End facts.
