(* ===== verification/ClientLifeRest.v ===== *)
(** * Client lifecycle: it comes to rest

    For any implementation of [Workers]: the client's own moves are bounded by a
    weight, and a state in which none is left is connected, or disconnected with
    nothing left behind, or waits for an attempt to connect, or is one of two
    known dead ends. *)

From Stdlib Require Import ZArith Lia String.
From stdpp Require Import base list strings gmap numbers relations.
From S2P Require Import Prelude Codec GoTime Server Status ClientOptions ClientNet ClientToken Client.
From S2P Require Import ClientLife ClientLifeFacts.

Local Open Scope nat_scope.

Section rest.
Context {W L URL : Type} `{WorkersLaws W L} (o : ClientOptions URL).

Abbreviation client := (life W).

(** ** The weight *)

(** More than any goroutine that a worker's call can start. *)
Definition unit_weight : nat := 21.

Definition goroutine_weight (t : goroutine) : nat :=
  match t with
  | GConnect => 8
  | GAttempt _ => 5
  | GPause _ _ => 6
  | GGiveUp => 4
  | GStartWorkers _ nc => 5 + unit_weight * w_weight (w_start (has_keepalive o) nc)
  | GRunning _ => 3
  | GUp _ _ => 4
  | GComms _ _ => 3
  | GDisconnect => 12
  | GDisWait _ => 1
  | GDisJoin _ _ => 11
  | GDisSend => 10
  | GDisStop => 9
  | GDisWorkers => 8
  | GDisComms => 7
  | GDisDone => 6
  | GLost _ => 20
  | GLostCall _ _ => 19
  | GLostJoin _ _ _ => 18
  | GLostStop _ _ => 17
  | GLostNil _ _ => 16
  | GLostWorkers _ => 16
  | GLostComms _ => 15
  | GLostDone _ => 14
  end.

Definition gen_weight (x : generation W) : nat :=
  match x with
  | Starting kp nc => w_weight (w_start kp nc)
  | Running w => w_weight w
  end.

Definition life_weight (s : client) : nat :=
  sum_list_with goroutine_weight (gos s) + unit_weight * sum_list_with gen_weight (gens s).

Lemma sum_insert {A} (f : A -> nat) l i x y : l !! i = Some x ->
  sum_list_with f (<[i := y]> l) + f x = sum_list_with f l + f y.
Proof.
  revert i. induction l as [|a l IH]; intros [|i] Hi; [done|done| |].
  - injection Hi as ->. cbn. lia.
  - specialize (IH i Hi). cbn. unfold insert in *. lia.
Qed.

(** What a goroutine becomes weighs less, whatever it does to the generations. *)
Definition lighter (t : goroutine) (s : client) (new : list goroutine) (s' : client) : Prop :=
  sum_list_with goroutine_weight new + unit_weight * sum_list_with gen_weight (gens s') <
    goroutine_weight t + unit_weight * sum_list_with gen_weight (gens s).

Lemma on_status_lighter r goes t (s s' : client) new :
  on_status r goes s = Some (new, s') -> r <> Panics ->
  (forall th, match r with Goes x _ => x = th | _ => False end ->
     sum_list_with goroutine_weight (goes th) < goroutine_weight t) ->
  0 < goroutine_weight t -> lighter t s new s'.
Proof.
  intros Hon Hp Hg Ht. unfold lighter, unit_weight. destruct r; cbn in Hon; try done; injection Hon as <- <-; cbn.
  - specialize (Hg _ eq_refl). lia.
  - lia.
Qed.

Lemma stop_lighter found none t (s s' : client) new :
  life_inv s -> stopCommsWorkers found none s = Some (new, s') ->
  goroutine_weight found < goroutine_weight t -> goroutine_weight none < goroutine_weight t ->
  lighter t s new s'.
Proof.
  intros Hi Hs Hf Hn. unfold stopCommsWorkers in Hs. unfold lighter, unit_weight.
  destruct (conn_mu s); [done|]. destruct (c_conn s) as [g|] eqn:Hc.
  - destruct (gens s !! g) as [[|w]|] eqn:Hw; [done| |done].
    destruct (li_good _ Hi g w Hw) as [Hgood Hrun].
    destruct (stop_good w Hgood) as (w' & Hw' & _ & _ & Hle); [by apply Hrun|].
    rewrite Hw' in Hs. injection Hs as <- <-. cbn [gens set_c_conn set_gens].
    pose proof (sum_insert gen_weight (gens s) g _ (Running w') Hw) as Hsum.
    cbn [sum_list_with gen_weight] in *. lia.
  - injection Hs as <- <-. cbn [sum_list_with]. lia.
Qed.

Lemma status_goes_lighter b th goes t (s s' : client) pre post new :
  life_inv s -> gos s = pre ++ t :: post -> status_of t = Some th ->
  on_status (advance b th (cs s)) goes s = Some (new, s') ->
  (forall th', match advance b th (cs s) with Goes x _ => x = th' | _ => False end ->
     sum_list_with goroutine_weight (goes th') < goroutine_weight t) ->
  0 < goroutine_weight t -> lighter t s new s'.
Proof.
  intros Hi Hg Hth Hon Hgo Hpos. eapply on_status_lighter; [exact Hon| |exact Hgo|exact Hpos].
  eapply status_fine; [exact Hi|exact Hg|exact Hth].
Qed.

Lemma go_lighter (s s' : client) pre t post new :
  life_inv s -> gos s = pre ++ t :: post -> go o t s = Some (new, s') -> lighter t s new s'.
Proof.
  intros Hi Hg Hgo. pose proof (li_sane _ Hi t (here _ _ _ _ Hg)) as Hsane.
  destruct t; try done; cbn [go] in Hgo.
  - unfold life_Connect in Hgo. destruct (client_Connect o (cs s)) as [tok [c|]]; [destruct (Servers o)|];
      injection Hgo as <- <-; unfold lighter, unit_weight; cbn; lia.
  - unfold after_failure in Hgo. destruct r; [destruct (connect_retries _ _ _)|case_bool_decide];
      injection Hgo as <- <-; unfold lighter, unit_weight; cbn; lia.
  - eapply (status_goes_lighter false ConnectedFn (fun _ => [])); [done..| |cbn; lia]. intros. cbn. lia.
  - unfold begin_workers in Hgo. destruct (conn_mu s); [done|]. destruct (c_conn s);
      injection Hgo as <- <-; unfold lighter, unit_weight; cbn [gens set_conn_mu set_gens set_c_conn sum_list_with
        goroutine_weight gen_weight]; rewrite ?sum_list_with_app; cbn [sum_list_with gen_weight];
      unfold unit_weight; lia.
  - pose proof (status_fine s pre _ post Hi Hg ConnectedFn eq_refl true) as Hf. cbn in Hf.
    destruct (connected_fn true (cs s)); try done. injection Hgo as <- <-. unfold lighter, unit_weight. cbn. lia.
  - unfold end_workers in Hgo. destruct (gens s !! g) as [[kp nc|]|] eqn:Hx; [|done..].
    pose proof (sum_insert gen_weight (gens s) g _ (Running (w_start kp nc)) Hx) as Hsum.
    injection Hgo as <- <-. unfold lighter, unit_weight. destruct r; cbn [gens finish_token set_conn_mu set_gens
      sum_list_with goroutine_weight gen_weight] in *; lia.
  - eapply (status_goes_lighter true CallDisconnecting dis_goes); [done..| |cbn; lia].
    intros th'. cbn. unfold Disconnecting. repeat case_match; intros; simplify_eq; cbn; lia.
  - eapply (status_goes_lighter true (DisconnectingWait ch) dis_goes); [done..| |cbn; lia].
    intros th'. cbn. by repeat case_match.
  - eapply (status_goes_lighter true (DisconnectingJoin prev ch) dis_goes); [done..| |cbn; lia].
    intros th'. cbn. unfold Disconnecting_join. repeat case_match; intros; simplify_eq; cbn; lia.
  - injection Hgo as <- <-. unfold lighter, unit_weight. cbn. lia.
  - eapply stop_lighter; [done|exact Hgo|cbn; lia..].
  - destruct (workers_gone s); [|done]. injection Hgo as <- <-. unfold lighter, unit_weight. cbn. lia.
  - destruct (comms_gone s); [|done]. injection Hgo as <- <-. unfold lighter, unit_weight. cbn. lia.
  - eapply (status_goes_lighter true DisconnectedFn (fun _ => [])); [done..| |cbn; lia]. intros. cbn. lia.
  - injection Hgo as <- <-. unfold lighter, unit_weight. cbn. lia.
  - eapply (status_goes_lighter true (CallConnectionLost will) (lost_goes og)); [done..| |cbn; lia].
    intros th'. cbn. unfold ConnectionLost. repeat case_match; intros; simplify_eq; cbn; lia.
  - eapply (status_goes_lighter true (ConnectionLostJoin will ch) (lost_goes og)); [done..| |cbn; lia].
    intros th'. cbn. unfold ConnectionLost_join. repeat case_match; intros; simplify_eq; cbn; lia.
  - eapply stop_lighter; [done|exact Hgo|cbn; lia..].
  - destruct (workers_gone s); [|done]. injection Hgo as <- <-. unfold lighter, unit_weight. cbn. lia.
  - destruct (comms_gone s); [|done]. injection Hgo as <- <-. unfold lighter, unit_weight. cbn. lia.
  - eapply (status_goes_lighter true (LostHandledFn will) reconnect_goes); [done..| |cbn; lia].
    intros th'. cbn. unfold connectionLostHandler. repeat case_match; intros; simplify_eq; cbn; lia.
Qed.

Lemma own_life_step_weight (s s' : client) :
  life_inv s -> own_life_step o s s' -> life_weight s' < life_weight s.
Proof.
  intros Hi (l & Hl & He). destruct l as [i|g l| | | | | |]; try done; cbn in He.
  - destruct (gos s !! i) as [t|] eqn:Ht; [|done]. destruct (go o t s) as [[new s1]|] eqn:Hgo; [|done].
    injection He as <-. destruct (replace_split i (gos s) t new Ht) as (pre & post & Hg & ->).
    pose proof (go_lighter _ _ _ _ _ _ Hi Hg Hgo) as Hlt. unfold lighter, life_weight, unit_weight in *.
    cbn [gos gens set_gos]. rewrite Hg, !sum_list_with_app. cbn [sum_list_with]. lia.
  - unfold inside in He. destruct (gens s !! g) as [[|w]|] eqn:Hw; [done| |done].
    destruct (w_exec l w) as [[w' c]|] eqn:Hx; [|done]. injection He as <-.
    destruct (li_good _ Hi g w Hw) as [Hgood _].
    pose proof (exec_weight l w w' c Hgood Hx Hl) as Hlt.
    pose proof (sum_insert gen_weight (gens s) g _ (Running w') Hw) as Hsum.
    unfold life_weight, spawn. cbn [gos gens set_gos set_gens].
    assert (Hc : sum_list_with goroutine_weight (calls_start g c) < unit_weight).
    { destruct c as [[]|]; cbn; unfold unit_weight; lia. }
    rewrite sum_list_with_app. cbn [gen_weight] in Hsum. unfold unit_weight in *. lia.
Qed.

Lemma own_life_steps_bounded k (s s' : client) :
  life_inv s -> nsteps (own_life_step o) k s s' -> k + life_weight s' <= life_weight s.
Proof.
  intros Hi Hn. revert Hi. induction Hn as [s|k s s1 s' Hs Hn IH]; intros Hi; [lia|].
  pose proof (own_life_step_weight s s1 Hi Hs) as Hlt. destruct Hs as (l & _ & He).
  specialize (IH (exec_life_inv o l s s1 Hi He)). lia.
Qed.

(** ** States without own moves *)

(** Waiting for the network, or for an attempt of another goroutine. *)
Definition resting (t : goroutine) : bool :=
  match t with GAttempt _ | GDisJoin _ _ | GDisWait _ => true | _ => false end.

Lemma on_status_some r goes (s : client) : r <> Blocks -> on_status r goes s <> None.
Proof. by destruct r. Qed.

Section stuck.
Context (s : client) (Hi : life_inv s).
Context (Hst : forall l, own_life l = true -> exec_life o l s = None).

Lemma stuck_go t : t ∈ gos s -> go o t s = None.
Proof.
  intros [i Ht]%list_elem_of_lookup. specialize (Hst (GoOn i) eq_refl). cbn in Hst. rewrite Ht in Hst.
  by destruct (go o t s) as [[]|].
Qed.

Lemma stuck_gen g w l : gens s !! g = Some (Running w) -> w_own l = true -> w_exec l w = None.
Proof.
  intros Hw Hl. specialize (Hst (Inside g l) Hl). cbn in Hst. unfold inside in Hst. rewrite Hw in Hst.
  by destruct (w_exec l w) as [[]|].
Qed.

Lemma connected_never_blocks b c : connected_fn b c <> Blocks.
Proof. unfold connected_fn. repeat case_match; done. Qed.

Lemma stuck_no_up u g : u ∈ gos s -> up_gen u = Some g -> False.
Proof.
  intros Hu Hg. pose proof (stuck_go u Hu) as Hgo. destruct u; try done; cbn in Hgo.
  - apply list_elem_of_split in Hu as (pre & post & Hgs).
    pose proof (connected_never_blocks true (cs s)) as Hb.
    pose proof (status_fine s pre _ post Hi Hgs ConnectedFn eq_refl true) as Hf. cbn in Hf.
    destruct (connected_fn true (cs s)) as [x c'|err c'| |] eqn:Hr; try done.
    unfold connected_fn in Hr. repeat case_match; simplify_eq.
  - destruct (li_up _ Hi _ g0 Hu eq_refl) as (_ & kp & nc & Hs). unfold end_workers in Hgo.
    by rewrite Hs in Hgo.
Qed.

Lemma stuck_mutex : conn_mu s = false.
Proof.
  destruct (conn_mu s) eqn:Hm; [|done]. exfalso. pose proof (li_mu _ Hi) as Hc. rewrite Hm in Hc.
  destruct (List.filter in_mu (gos s)) as [|u l] eqn:Hf; [by unfold count in Hc; rewrite Hf in Hc|].
  assert (In u (List.filter in_mu (gos s))) as [Hu Hmu]%filter_In by (rewrite Hf; by left).
  apply list_elem_of_In in Hu. pose proof (li_sane _ Hi u Hu) as Hs.
  destruct u; try done; by eapply stuck_no_up.
Qed.

Lemma stuck_no_starting g kp nc : gens s !! g <> Some (Starting kp nc).
Proof. intros Hg. destruct (li_starting _ Hi g kp nc Hg) as (u & Hu & Hug). by eapply stuck_no_up. Qed.

(** stopCommsWorkers never waits here. *)
Lemma stuck_stop found none : stopCommsWorkers found none s <> None.
Proof.
  unfold stopCommsWorkers. rewrite stuck_mutex. destruct (c_conn s) as [g|] eqn:Hc; [|done].
  destruct (li_conn _ Hi g Hc) as (Hl & _). destruct (lookup_lt_is_Some_2 (gens s) g) as [x Hx]; [lia|].
  rewrite Hx. destruct x as [kp nc|w]; [by eapply stuck_no_starting in Hx|].
  destruct (li_good _ Hi g w Hx) as [Hgood Hrun].
  destruct (stop_good w Hgood) as (w' & -> & _); [by apply Hrun|]. done.
Qed.

(** The workers that were stopped have ended. *)
Lemma stuck_gone g w : gens s !! g = Some (Running w) -> c_conn s = None ->
  w_count w = 0 /\ w_comms_stopped w = true.
Proof.
  intros Hw Hc. destruct (li_good _ Hi g w Hw) as [Hgood Hrun]. apply stop_rests; [done| |].
  - destruct (w_stopping w); [done|]. rewrite Hc in Hrun. by pose proof (proj1 Hrun eq_refl).
  - intros l. by apply (stuck_gen g).
Qed.

Lemma stuck_caller t og : t ∈ gos s -> caller t = Some og -> exists w ch, t = GLostJoin og w ch.
Proof.
  intros Ht Hc. pose proof (stuck_go t Ht) as Hgo. pose proof (li_sane _ Hi t Ht) as Hs.
  destruct t; try done; cbn in Hc; simplify_eq/=.
  - exfalso. revert Hgo. apply on_status_some. unfold ConnectionLost. by repeat case_match.
  - eauto.
  - by destruct (stuck_stop (GLostWorkers will) (GLostNil og will)).
Qed.

(** Nobody awaits workers here: they are gone. *)
Lemma stuck_no_awaits t : t ∈ gos s -> awaits t = false.
Proof.
  intros Ht. destruct (awaits t) eqn:Ha; [|done]. exfalso.
  assert (Hc : c_conn s = None).
  { apply (unconnected_none s t Hi Ht). by destruct t. }
  assert (Hcall : forall u og, u ∈ gos s -> caller u <> Some og).
  { intros u og Hu Hcu. destruct (stuck_caller u og Hu Hcu) as (w & ch & ->).
    apply list_elem_of_split in Ht as (pre & post & Hg).
    destruct (awaits_status t Ha) as (th & Hth & Ho & Hj).
    destruct (owner_alone s pre t post th (li_status _ Hi) Hg Hth Ho Hj) as [_ Hal].
    rewrite Hg, elem_of_app, elem_of_cons in Hu.
    assert (GLostJoin og w ch = t \/ GLostJoin og w ch ∈ pre ++ post) as [<-|Hin]
      by (rewrite elem_of_app; tauto); [done|].
    by destruct (Hal _ _ Hin eq_refl). }
  assert (Hw : workers_gone s = true).
  { unfold workers_gone. apply andb_true_iff. split.
    - apply forallb_forall. intros x (g & Hg)%list_elem_of_In%list_elem_of_lookup.
      destruct x as [kp nc|w]; [by eapply stuck_no_starting in Hg|].
      destruct (stuck_gone g w Hg Hc) as [Hz _]. by apply Nat.eqb_eq.
    - apply Nat.eqb_eq. rewrite keepalive_calls_count. apply count_none. intros u Hu.
      unfold calls_keepalive. destruct (caller u) eqn:Hcu; [|done]. by apply Hcall in Hcu. }
  assert (Hcs : comms_gone s = true).
  { unfold comms_gone. rewrite last_lookup. pose proof (li_some _ Hi t Ht Ha) as Hne.
    destruct (gens s !! pred (length (gens s))) as [x|] eqn:Hx.
    - destruct x as [kp nc|w]; [by eapply stuck_no_starting in Hx|].
      destruct (stuck_gone _ w Hx Hc) as [_ ->]. cbn. apply Nat.eqb_eq.
      apply (count_none (fun t => match caller t with
        | Some (g', false) => g' =? pred (length (gens s)) | _ => false end)).
      intros u Hu. destruct (caller u) eqn:Hcu; [|done]. by apply Hcall in Hcu.
    - apply lookup_ge_None in Hx. destruct (gens s); [done|]. cbn in Hx. lia. }
  pose proof (stuck_go t Ht) as Hgo. destruct t; try done; cbn in Hgo; by rewrite ?Hw, ?Hcs in Hgo.
Qed.

(** A worker inside internalConnLost is never left waiting. *)
Lemma stuck_no_lost_join og w ch : GLostJoin og w ch ∉ gos s.
Proof.
  intros Ht. pose proof (stuck_go _ Ht) as Hgo. cbn in Hgo.
  destruct (receivable ch (cs s)) eqn:Hr.
  { revert Hgo. apply on_status_some. unfold ConnectionLost_join. by destruct w. }
  destruct og as [g k]. destruct (c_conn s) as [g'|] eqn:Hc.
  - apply list_elem_of_split in Ht as Hsp. destruct Hsp as (pre & post & Hg).
    destruct (status_split s pre _ post _ (li_status _ Hi) Hg eq_refl) as [Hsh _ _].
    cbn in Hsh. unfold shape in Hsh. destruct (st (cs s)); try (by destruct Hsh as (_ & ? & _)).
    assert (Hconn : ConnectedFn ∈ List.filter holds_connected (omap status_of (pre ++ post))).
    { destruct Hsh as [(_ & ? & _)|[(x & ch' & Hn & _)|[(x & ch' & Hn & Ho & Hj & _ & Hcl)
        |(x & ch' & Hn & Ho & Hj & _)]]]; [done|rewrite Hn; by left| |].
      - injection Ho as <- _. injection Hj as ->. cbn in Hr. apply bool_decide_eq_false in Hr. done.
      - injection Ho as <- _. done. }
    apply list_elem_of_In, filter_In in Hconn as [Hin _].
    apply list_elem_of_In, list_elem_of_omap in Hin as (u & Hu & Hsu).
    assert (Hug : u ∈ gos s) by (rewrite Hg; set_solver).
    destruct (li_conn _ Hi g' Hc) as (_ & _ & Hun). specialize (Hun u Hug).
    pose proof (li_sane _ Hi u Hug). destruct u; try done. by eapply stuck_no_up.
  - destruct (caller_connected s _ g k Hi Ht eq_refl Hc) as (u & Hu & Ha).
    by rewrite (stuck_no_awaits u Hu) in Ha.
Qed.

Lemma stuck_resting t : t ∈ gos s -> resting t = true.
Proof.
  intros Ht. pose proof (stuck_go t Ht) as Hgo. pose proof (li_sane _ Hi t Ht) as Hs.
  pose proof (stuck_no_awaits t Ht) as Ha.
  destruct (caller t) as [og|] eqn:Hc.
  { destruct (stuck_caller t og Ht Hc) as (w & ch & ->). by apply stuck_no_lost_join in Ht. }
  destruct t; try done; cbn in Hgo; exfalso.
  - revert Hgo. apply on_status_some, connected_never_blocks.
  - unfold begin_workers in Hgo. rewrite stuck_mutex in Hgo. by destruct (c_conn s).
  - by eapply stuck_no_up.
  - by eapply stuck_no_up.
  - revert Hgo. apply on_status_some. unfold Disconnecting. by repeat case_match.
  - by destruct (stuck_stop GDisWorkers GDisDone).
  - revert Hgo. apply on_status_some. unfold disconnectionCompleted. by repeat case_match.
  - revert Hgo. apply on_status_some. unfold connectionLostHandler. by repeat case_match.
Qed.

(** Without an attempt under way. *)
Definition attempting (t : goroutine) : bool := match t with GAttempt _ => true | _ => false end.

Context (Hno : forall t, t ∈ gos s -> attempting t = false).

Lemma quiet_no_conns : List.filter holds_connected (omap status_of (gos s)) = [].
Proof.
  destruct (List.filter _ _) as [|th l] eqn:Hf; [done|]. exfalso.
  assert (In th (List.filter holds_connected (omap status_of (gos s)))) as [Hin Hh]%filter_In
    by (rewrite Hf; by left).
  apply list_elem_of_In, list_elem_of_omap in Hin as (u & Hu & Hsu).
  pose proof (stuck_resting u Hu). pose proof (Hno u Hu). by destruct u; simplify_eq/=.
Qed.

Lemma quiet_waits t : t ∈ gos s -> t = GDisWait None /\ actionCompleted (cs s) = None.
Proof.
  intros Ht. pose proof (stuck_resting t Ht) as Hr. pose proof (Hno t Ht) as Ha.
  pose proof (stuck_go t Ht) as Hgo. pose proof (li_status _ Hi) as Hs.
  assert (Hjoin : forall prev ch, t <> GDisJoin prev ch).
  { intros prev ch ->. apply list_elem_of_split in Ht as (pre & post & Hg).
    pose proof (status_split s pre _ post _ Hs Hg eq_refl) as Hsp.
    destruct (owner_facts _ _ _ Hsp eq_refl eq_refl) as (_ & _ & ch' & -> & [(_ & Hcl & _)|(Hac & Hl)]).
    - cbn in Hgo. rewrite bool_decide_eq_true_2 in Hgo by done. revert Hgo. apply on_status_some.
      unfold Disconnecting_join. by destruct (_ && _).
    - pose proof quiet_no_conns as Hnc. destruct Hs as [Hsh _ _]. rewrite Hnc in Hsh. unfold shape in Hsh.
      destruct (st (cs s)); try (by destruct Hsh as (? & _)); try (by destruct Hsh as (_ & _ & ?); congruence).
      destruct Hsh as [(_ & _ & ?)|[(x & c' & ? & _)|[(x & c' & _ & _ & _ & ? & _)
        |(x & c' & _ & Ho & Hj & _)]]]; try done; try congruence.
      assert (DisconnectingJoin prev (Some ch') ∈ List.filter owns_disconnect (omap status_of (gos s))) as Hin.
      { apply (owns_elem (GDisJoin prev (Some ch'))); [rewrite Hg; set_solver|done|done]. }
      rewrite Ho in Hin. apply list_elem_of_singleton in Hin as <-. done. }
  assert (Hac : actionCompleted (cs s) = None).
  { destruct (actionCompleted (cs s)) as [ch|] eqn:Hac; [|done]. exfalso.
    pose proof (completes_count _ _ Hs) as Hcc. rewrite Hac in Hcc.
    destruct (filter_elem completes (omap status_of (gos s))) as (th & Hth & Hcomp); [lia|].
    apply list_elem_of_omap in Hth as (u & Hu & Hsu).
    pose proof (stuck_resting u Hu). pose proof (Hno u Hu). by destruct u; simplify_eq/=. }
  split; [|done]. destruct t as [| | | | | | | | |ch|prev ch| | | | | | | | | | | | |]; try done;
    [|by destruct (Hjoin prev ch)].
  destruct ch as [ch|]; [|done]. exfalso.
  assert (Hw : waits_ok (cs s) (DisconnectingWait (Some ch))).
  { apply (proj1 (Forall_forall _ _) (si_waits _ _ Hs)). apply list_elem_of_omap. by exists (GDisWait (Some ch)). }
  cbn in Hgo. destruct Hw as [Hcl|?]; [|congruence]. by rewrite bool_decide_eq_true_2 in Hgo.
Qed.

Lemma quiet_state :
  match st (cs s) with
  | disconnected => c_conn s = None /\ forall g, g < length (gens s) -> over g s
  | connected => exists g w, c_conn s = Some g /\ S g = length (gens s) /\
      gens s !! g = Some (Running w) /\ w_stopping w = false /\ forall i, i < g -> over i s
  | disconnecting => actionCompleted (cs s) = None
  | connecting | reconnecting => False
  end.
Proof.
  pose proof quiet_no_conns as Hn. destruct (li_status _ Hi) as [Hsh _ _]. rewrite Hn in Hsh.
  unfold shape in Hsh. destruct (st (cs s)) eqn:Hs.
  - assert (Hc : c_conn s = None).
    { destruct (c_conn s) as [g|] eqn:Hc; [|done]. by destruct (li_conn _ Hi g Hc) as (_ & ? & _). }
    split; [done|]. destruct (li_none _ Hi Hc) as [_ [(u & Hu & Ha)|?]]; [|done].
    by rewrite (stuck_no_awaits u Hu) in Ha.
  - destruct Hsh as [(_ & _ & ?)|[(x & ch & ? & _)|[(x & ch & _ & _ & _ & ? & _)
      |(x & ch & _ & Ho & Hj & _)]]]; try done. exfalso.
    assert (x ∈ List.filter owns_disconnect (omap status_of (gos s))) as Hx by (rewrite Ho; by left).
    apply list_elem_of_In, filter_In in Hx as [Hx Hox].
    apply list_elem_of_In, list_elem_of_omap in Hx as (u & Hu & Hsu).
    destruct (quiet_waits u Hu) as [-> _]. by injection Hsu as <-.
  - by destruct Hsh as (? & _).
  - by destruct Hsh as (? & _).
  - destruct (c_conn s) as [g|] eqn:Hc; [|by destruct (li_none _ Hi Hc)].
    destruct (li_conn _ Hi g Hc) as (Hl & _).
    destruct (lookup_lt_is_Some_2 (gens s) g) as [x Hx]; [lia|].
    destruct x as [kp nc|w]; [by eapply stuck_no_starting in Hx|].
    exists g, w. split; [done|]. split; [done|]. split; [done|].
    split; [by apply (li_good _ Hi g w Hx)|]. intros i Hlt. apply (li_old _ Hi). lia.
Qed.

End stuck.

(** ** The two dead ends *)

(** A Disconnect that waited for a reconnection gives up because another one was
    called meanwhile; a loss that was reported during Connect gives up because it
    is not to be followed by a reconnection.  Neither ends the disconnect. *)
Definition abandons (l : life_label L) (s : client) : bool :=
  match l with
  | GoOn i =>
      match gos s !! i with
      | Some (GDisJoin prev _) => bool_decide (prev = reconnecting) && negb (willReconnect (cs s))
      | Some (GLostJoin _ will _) => negb will
      | _ => false
      end
  | _ => false
  end.

Definition clean_step (s s' : client) : Prop :=
  exists l, abandons l s = false /\ exec_life o l s = Some s'.

Definition owner (t : goroutine) : bool :=
  match status_of t with Some th => owns_disconnect th | None => false end.

Definition owned (s : client) : Prop :=
  st (cs s) = disconnecting -> exists t, t ∈ gos s /\ owner t = true.

Lemma stop_new found none (s s' : client) new :
  life_inv s -> stopCommsWorkers found none s = Some (new, s') -> new = [found] \/ new = [none].
Proof.
  intros Hi Hs. unfold stopCommsWorkers in Hs. destruct (conn_mu s); [done|].
  destruct (c_conn s) as [g|] eqn:Hc; [|injection Hs as <- _; auto].
  destruct (gens s !! g) as [[|w]|] eqn:Hw; [done| |done].
  destruct (li_good _ Hi g w Hw) as [Hgood Hrun].
  destruct (stop_good w Hgood) as (w' & Hw' & _); [by apply Hrun|].
  rewrite Hw' in Hs. injection Hs as <- _. auto.
Qed.

Lemma go_owner (s s' : client) pre t post new :
  life_inv s -> gos s = pre ++ t :: post -> go o t s = Some (new, s') ->
  match t with
  | GDisJoin prev _ => bool_decide (prev = reconnecting) && negb (willReconnect (cs s)) = false
  | GLostJoin _ will _ => will = true
  | _ => True
  end ->
  st (cs s') = disconnecting ->
  (exists u, u ∈ new /\ owner u = true) \/ st (cs s) = disconnecting /\ owner t = false.
Proof.
  intros Hi Hg Hgo Hab Hs.
  assert (Hone : forall u, owner u = true -> exists v, v ∈ [u] /\ owner v = true).
  { intros u Hu. exists u. by rewrite list_elem_of_singleton. }
  pose proof (li_sane _ Hi t (here _ _ _ _ Hg)) as Hsane.
  destruct t; try done; cbn in Hgo.
  - right. unfold life_Connect, client_Connect, Connecting in Hgo.
    repeat case_match; simplify_eq/=; done.
  - right. unfold after_failure in Hgo. repeat case_match; simplify_eq/=; done.
  - right. unfold connected_fn, close_action in Hgo. repeat case_match; simplify_eq/=; done.
  - right. unfold begin_workers in Hgo. repeat case_match; simplify_eq/=; done.
  - right. unfold connected_fn, close_action in Hgo. repeat case_match; simplify_eq/=; done.
  - right. unfold end_workers in Hgo. destruct r; repeat case_match; simplify_eq/=; done.
  - unfold Disconnecting in Hgo. destruct (st (cs s)) eqn:Hst; simplify_eq/=; try congruence; auto.
  - right. repeat case_match; simplify_eq/=; done.
  - left. destruct (receivable ch (cs s)); [|done]. unfold Disconnecting_join in Hgo. rewrite Hab in Hgo.
    injection Hgo as <- <-. by apply Hone.
  - injection Hgo as <- <-. auto.
  - left. apply stop_new in Hgo as [->| ->]; [by apply Hone..|done].
  - repeat case_match; simplify_eq/=; try congruence; auto.
  - repeat case_match; simplify_eq/=; try congruence; auto.
  - pose proof (status_fine s pre _ post Hi Hg DisconnectedFn eq_refl true) as Hf. cbn in Hf.
    unfold disconnectionCompleted, close_action in *. repeat case_match; simplify_eq/=; done.
  - injection Hgo as <- <-. auto.
  - unfold ConnectionLost in Hgo. destruct (st (cs s)) eqn:Hst; simplify_eq/=; try congruence; auto.
  - left. subst will. destruct (receivable ch (cs s)); [|done]. injection Hgo as <- <-. by apply Hone.
  - left. apply stop_new in Hgo as [->| ->]; [by apply Hone..|done].
  - repeat case_match; simplify_eq/=; try congruence; auto.
  - repeat case_match; simplify_eq/=; try congruence; auto.
  - pose proof (status_fine s pre _ post Hi Hg (LostHandledFn will) eq_refl true) as Hf. cbn in Hf.
    unfold connectionLostHandler, close_action in *. repeat case_match; simplify_eq/=; done.
Qed.

Lemma clean_owned (s s' : client) : life_inv s -> owned s -> clean_step s s' -> owned s'.
Proof.
  intros Hi Ho (l & Hab & He) Hs.
  assert (Hkeep : forall pre t post new, gos s = pre ++ t :: post -> owner t = false ->
    (exists u, u ∈ gos s /\ owner u = true) -> exists u, u ∈ pre ++ new ++ post /\ owner u = true).
  { intros pre t post new Hg Ht (u & Hu & Hou). exists u. split; [|done].
    rewrite Hg in Hu. assert (u <> t) by congruence. set_solver. }
  assert (Hspawn : forall ts, (exists u, u ∈ gos s /\ owner u = true) ->
    exists u, u ∈ gos s ++ ts /\ owner u = true).
  { intros ts (u & Hu & Hou). exists u. split; [set_solver|done]. }
  destruct l as [i|g l|i g|i res|g|g| |]; cbn in He.
  - cbn in Hab. destruct (gos s !! i) as [t|] eqn:Ht; [|done].
    destruct (go o t s) as [[new s1]|] eqn:Hgo; [|done]. injection He as <-.
    destruct (replace_split i (gos s) t new Ht) as (pre & post & Hg & Hr). cbn. rewrite Hr. cbn in Hs.
    destruct (go_owner s s1 pre t post new Hi Hg Hgo) as [(u & Hu & Hou)|[Hd Hot]].
    + destruct t; try done. by destruct will.
    + done.
    + exists u. split; [set_solver|done].
    + by eapply Hkeep; [exact Hg|exact Hot|apply Ho].
  - unfold inside in He. destruct (gens s !! g) as [[|w]|]; [done| |done].
    destruct (w_exec l w) as [[w' c]|]; [|done]. injection He as <-. by apply Hspawn, Ho.
  - destruct (gos s !! i) as [[]|] eqn:Ht; try done. unfold inside in He.
    destruct (gens s !! g) as [[|w]|]; [done| |done]. destruct (w_exec w_take w) as [[w' c]|]; [|done].
    injection He as <-. cbn. exists GDisStop. split; [|done]. unfold replace. set_solver.
  - destruct (gos s !! i) as [[]|] eqn:Ht; try done. injection He as <-. cbn.
    edestruct (replace_split i (gos s) _ [match res with inl err => GPause r err
      | inr nc => GStartWorkers r nc end] Ht) as (pre & post & Hg & ->).
    by eapply Hkeep; [exact Hg|done|apply Ho].
  - destruct (gens s !! g) as [[[] nc|]|]; try done. injection He as <-. by apply Hspawn, Ho.
  - destruct (gens s !! g) as [[[] nc|]|]; try done. injection He as <-. by apply Ho.
  - injection He as <-. by apply Hspawn, Ho.
  - injection He as <-. by apply Hspawn, Ho.
Qed.

Lemma clean_reachable (s : client) : rtc clean_step new_client s -> life_inv s /\ owned s.
Proof.
  apply (rtc_ind_r (fun s => life_inv s /\ owned s)).
  - split; [apply new_client_inv|done].
  - intros x y _ Hs [Hi Ho]. split; [|by eapply clean_owned].
    destruct Hs as (l & _ & He). by eapply exec_life_inv.
Qed.

(** Without an abandoned disconnect, a quiet client is not disconnecting. *)
Lemma clean_quiet (s : client) :
  life_inv s -> owned s -> (forall l, own_life l = true -> exec_life o l s = None) ->
  (forall t, t ∈ gos s -> attempting t = false) -> st (cs s) <> disconnecting.
Proof.
  intros Hi Ho Hst Hno Hs. destruct (Ho Hs) as (t & Ht & Hot).
  destruct (quiet_waits s Hi Hst Hno t Ht) as [-> _]. done.
Qed.

(** Executable clean runs. *)
Fixpoint clean_run (ls : list (life_label L)) (s : client) : option client :=
  match ls with
  | [] => Some s
  | l :: ls =>
      if abandons l s then None
      else match exec_life o l s with Some s' => clean_run ls s' | None => None end
  end.

Lemma clean_run_steps ls (s s' : client) : clean_run ls s = Some s' -> rtc clean_step s s'.
Proof.
  revert s. induction ls as [|l ls IH]; cbn; intros s Hs; [simplify_eq; apply rtc_refl|].
  destruct (abandons l s) eqn:Ha; [done|]. destruct (exec_life o l s) as [t|] eqn:Ht; [|done].
  eapply rtc_l; [by exists l|by apply IH].
Qed.

End rest.
