(* ===== verification/ClientLifeProps.v ===== *)
(** * Client lifecycle: the theorems

    The goroutines of [ClientComms] implement [Workers], so what [ClientLifeFacts]
    and [ClientLifeRest] show of every implementation holds of the client of the
    program. *)

From Stdlib Require Import ZArith Lia String.
From stdpp Require Import base list strings gmap numbers relations.
From S2P Require Import Prelude GoIO Codec GoTime Server ClientOptions ClientNet ClientToken.
From S2P Require Import HandlerCalls ClientComms ClientCommsFacts ClientCommsProps.
From S2P Require Import Status Client ClientLife ClientLifeFacts ClientLifeRest.

Local Open Scope nat_scope.

(** ** The goroutines of a connection as workers *)

(** An action of [ClientComms], or the return of a keepalive goroutine that has
    nothing to do. *)
Inductive worker_label : Type := CommsLabel (l : label) | KeepaliveReturns.

(** The calls into the client: outError is received by the goroutine that calls
    internalConnLost, keepalive calls it before it ends, and CloseConnect is called
    for a DISCONNECT. *)
Definition comms_call (l : label) (w : comms) : option call :=
  match l with
  | LMxError | LFeError => Some (CallsLost false)
  | EKeepaliveLost => Some (CallsLost true)
  | LCloseConnect =>
      match g_in w with
      | InCalling reason _ _ =>
          match client_CloseConnect reason with
          | CallDisconnect _ => Some CallsDisconnect
          | CallConnLost => Some (CallsLost false)
          end
      | _ => None
      end
  | _ => None
  end.

(** stopCommsWorkers belongs to the lifecycle. *)
Definition is_stopper (l : label) : bool :=
  match l with EStop | LCloseConn | LWorkersWait | LCommsWait => true | _ => false end.

Abbreviation client := (life comms).

Section workers.
Context (n : nat).

Definition comms_exec (l : worker_label) (w : comms) : option (comms * option call) :=
  match l with
  | CommsLabel l =>
      if is_stopper l then None
      else match exec n l w with Some w' => Some (w', comms_call l w) | None => None end
  | KeepaliveReturns =>
      match exec n EKeepaliveLost w with Some w' => Some (w', None) | None => None end
  end.

Definition comms_own (l : worker_label) : bool :=
  match l with CommsLabel l => is_own l && negb (is_stopper l) | KeepaliveReturns => false end.

(** [close(c.stop); c.conn.Close()]; closing it again panics. *)
Definition comms_stop (w : comms) : option comms :=
  match exec n EStop w with Some w' => exec n LCloseConn w' | None => None end.

#[local] Instance comms_workers : Workers comms worker_label := {
  w_start := start;
  w_exec := comms_exec;
  w_own := comms_own;
  w_take := CommsLabel EDisconnect;
  w_stop := comms_stop;
  w_count := workers;
  w_comms_stopped := fun w => ch_closed w ChCommsStopped;
}.

(** The behaviour of the two goroutines that stop the workers is the lifecycle's:
    here they are either not needed yet or waiting. *)
Definition comms_good (w : comms) : Prop :=
  (exists k nc, comms_reachable n k nc w) /\ (g_sp w = SpIdle \/ g_sp w = SpWorkers).

Lemma comms_good_wf w : comms_good w -> wf w.
Proof. intros [(k & nc & Hr) _]. by eapply wf_reachable. Qed.

Lemma exec_reachable k nc l w w' : comms_reachable n k nc w -> exec n l w = Some w' ->
  comms_reachable n k nc w'.
Proof. intros Hr He. eapply rtc_r; [exact Hr|by exists l]. Qed.

Lemma exec_sp l w w' : is_stopper l = false -> exec n l w = Some w' -> g_sp w' = g_sp w.
Proof. intros Hl He. destruct w, l; try done; exec_cases He; step_cases. Qed.

Lemma exec_workers l w w' : exec n l w = Some w' -> workers w' <= workers w.
Proof. intros He. destruct w, l; exec_cases He; step_cases; lia. Qed.

Lemma exec_closed l w w' ch : exec n l w = Some w' -> ch_closed w ch = true -> ch_closed w' ch = true.
Proof. intros He Hc. destruct w, l; exec_cases He; step_cases. Qed.

(** An action does not depend on where stopCommsWorkers stands. *)
Lemma exec_any_sp l w p : is_stopper l = false -> exec n l w = None -> exec n l (set_g_sp p w) = None.
Proof.
  intros Hl He. destruct w, l; try done; unfold exec, exec_incoming, exec_startComms, exec_outgoing,
    exec_redirector, exec_delivery, exec_dispatch, exec_lifetime in *; cbn in *; repeat (case_match; try done).
Qed.

(** ** The laws *)

Lemma comms_exec_cases l w w' c : comms_exec l w = Some (w', c) ->
  exists a, is_stopper a = false /\ exec n a w = Some w' /\
    (l = CommsLabel a /\ c = comms_call a w \/ a = EKeepaliveLost /\ c = None).
Proof.
  destruct l as [a|]; unfold comms_exec; intros He.
  - destruct (is_stopper a) eqn:Ha; [done|]. destruct (exec n a w) as [x|] eqn:Hx; [|done].
    simplify_eq. eauto 10.
  - destruct (exec n EKeepaliveLost w) as [x|] eqn:Hx; [|done]. simplify_eq. exists EKeepaliveLost. auto.
Qed.

Lemma comms_exec_good l w w' c : comms_good w -> comms_exec l w = Some (w', c) -> comms_good w'.
Proof.
  intros [(k & nc & Hr) Hsp] (a & Ha & Hx & _)%comms_exec_cases. split.
  - exists k, nc. by eapply exec_reachable.
  - by rewrite (exec_sp _ _ _ Ha Hx).
Qed.

(** A keepalive goroutine that calls is still counted. *)
Lemma keepalive_counted w : comms_good w -> g_kp w = true -> 0 < workers w.
Proof. intros Hg Hk. rewrite (wf_workers _ (comms_good_wf _ Hg)), Hk. cbn. lia. Qed.

(** When c.commsStopped is closed, the goroutines it stands for are done. *)
Lemma stopped_done w : comms_good w -> ch_closed w ChCommsStopped = true ->
  g_di w = DiDone /\ g_cl w = false /\ g_mx w = MxDone /\ g_fe w = FeDone /\ g_in w = InDone.
Proof.
  intros Hg%comms_good_wf Hc. rewrite (wf_closed _ Hg) in Hc. cbn in Hc. destruct Hg.
  destruct (g_di w); try done. cbn in *. destruct (g_cl w); [done|].
  destruct (g_mx w); try done. destruct (g_fe w); try done. cbn in *. by destruct (g_in w).
Qed.

Lemma comms_exec_count l w w' c : comms_good w -> comms_exec l w = Some (w', c) ->
  workers w' <= workers w /\ (c = Some (CallsLost true) -> 0 < workers w).
Proof.
  intros Hg (a & Ha & Hx & Hc)%comms_exec_cases. split; [by eapply exec_workers|]. intros ->.
  apply (keepalive_counted _ Hg). destruct Hc as [[_ Hc]|[_ ?]]; [|done].
  destruct a; try done; cbn in Hc.
  - by repeat case_match.
  - cbn in Hx. by destruct (g_kp w).
Qed.

Lemma comms_exec_stopped l w w' c : comms_good w -> comms_exec l w = Some (w', c) ->
  ch_closed w ChCommsStopped = true -> ch_closed w' ChCommsStopped = true /\ c <> Some (CallsLost false).
Proof.
  intros Hg (a & Ha & Hx & Hc)%comms_exec_cases Hs. split; [by eapply exec_closed|].
  destruct (stopped_done w Hg Hs) as (Hdi & Hcl & Hmx & Hfe & Hin).
  destruct Hc as [[_ ->]|[_ ->]]; [|done].
  destruct a; try done; cbn in *; unfold exec_incoming, exec_startComms in Hx;
    rewrite ?Hmx, ?Hfe, ?Hin in Hx; repeat case_match; congruence.
Qed.

Lemma comms_exec_weight l w w' c : comms_good w -> comms_exec l w = Some (w', c) ->
  comms_own l = true -> weight n w' < weight n w.
Proof.
  intros Hg He Hl. destruct l as [a|]; [|done]. cbn in *. destruct (is_stopper a); [done|].
  destruct (exec n a w) as [x|] eqn:Hx; [|done]. simplify_eq.
  apply (own_step_weight n); [by apply comms_good_wf|]. exists a. split; [|done].
  by apply andb_true_iff in Hl as [? _].
Qed.

Lemma comms_stop_good w : comms_good w -> negb (sp_idle (g_sp w)) = false ->
  exists w', comms_stop w = Some w' /\ comms_good w' /\ negb (sp_idle (g_sp w')) = true /\
    weight n w' <= weight n w.
Proof.
  intros Hg Hi. pose proof (comms_good_wf _ Hg) as Hw. destruct Hg as [(k & nc & Hr) _].
  assert (Hsp : g_sp w = SpIdle) by by destruct (g_sp w).
  assert (Hx : exec n EStop w = Some (set_g_sp SpClosing (close_chan ChStop w))) by (cbn; by rewrite Hsp).
  set (w1 := set_g_sp SpClosing (close_chan ChStop w)) in *.
  assert (Hx2 : exec n LCloseConn w1 = Some (set_g_sp SpWorkers (set_conn (net_close (conn w1)) w1))) by done.
  pose proof (exec_reachable k nc _ _ _ Hr Hx) as Hr1.
  pose proof (exec_reachable k nc _ _ _ Hr1 Hx2) as Hr2.
  exists (set_g_sp SpWorkers (set_conn (net_close (conn w1)) w1)). unfold comms_stop. rewrite Hx.
  split; [done|]. split; [split; [by exists k, nc|by right]|]. split; [done|].
  assert (weight n w1 <= weight n w).
  { unfold w1, close_chan. rewrite (wf_closed _ Hw). cbn. rewrite Hsp. cbn. unfold weight. cbn. rewrite Hsp. done. }
  assert (weight n (set_g_sp SpWorkers (set_conn (net_close (conn w1)) w1)) < weight n w1); [|lia].
  apply (own_step_weight n); [by eapply wf_reachable|]. by exists LCloseConn.
Qed.

Lemma comms_stop_rests w : comms_good w -> negb (sp_idle (g_sp w)) = true ->
  (forall l, comms_own l = true -> comms_exec l w = None) ->
  workers w = 0 /\ ch_closed w ChCommsStopped = true.
Proof.
  intros Hg Hs Hst. pose proof (comms_good_wf _ Hg) as Hw.
  assert (Hsp : g_sp w = SpWorkers) by (destruct Hg as [_ [E|E]]; by rewrite E in *).
  assert (Hoth : forall a, is_own a = true -> is_stopper a = false -> exec n a w = None).
  { intros a Ha Hsa. specialize (Hst (CommsLabel a)). cbn in Hst. rewrite Ha, Hsa in Hst.
    specialize (Hst eq_refl). by destruct (exec n a w). }
  destruct (workers w) as [|m] eqn:Hn.
  - split; [done|]. destruct (ch_closed w ChCommsStopped) eqn:Hc; [done|]. exfalso.
    set (w1 := set_g_sp SpComms w).
    assert (Hx : exec n LWorkersWait w = Some w1) by (cbn; by rewrite Hsp, Hn).
    pose proof (exec_wf n _ _ _ Hw Hx) as Hw1.
    assert (Hst1 : forall a, is_own a = true -> exec n a w1 = None).
    { intros a Ha. destruct (is_stopper a) eqn:Hsa; [|by apply exec_any_sp, Hoth].
      destruct a; try done. cbn. by rewrite Hc. }
    pose proof (stuck_stopped n w1 Hw1 Hst1) as Hd. by discriminate Hd.
  - exfalso. assert (Hst1 : forall a, is_own a = true -> exec n a w = None).
    { intros a Ha. destruct (is_stopper a) eqn:Hsa; [|by apply Hoth].
      destruct a; try done; cbn; rewrite Hsp; [done|by rewrite Hn|done]. }
    pose proof (stuck_stopped n w Hw Hst1) as Hd. rewrite Hsp in Hd. by discriminate Hd.
Qed.

#[local] Instance comms_laws : WorkersLaws comms worker_label.
Proof.
  refine {| w_good := comms_good; w_stopping := fun w => negb (sp_idle (g_sp w)); w_weight := weight n |}.
  - intros k nc. split; [exists k, nc; apply rtc_refl|by left].
  - done.
  - apply comms_exec_good.
  - intros l w w' c _ (a & Ha & Hx & _)%comms_exec_cases. by rewrite (exec_sp _ _ _ Ha Hx).
  - apply comms_exec_count.
  - apply comms_exec_stopped.
  - apply comms_exec_weight.
  - apply comms_stop_good.
  - apply comms_stop_rests.
Defined.

(** ** The client *)

Section client.
Context {URL : Type} (o : ClientOptions URL).

Definition client_step : client -> client -> Prop := life_step (L := worker_label) o.
Definition own_client_step : client -> client -> Prop := own_life_step (L := worker_label) o.
Definition client_reachable : client -> Prop := life_reachable (L := worker_label) o.

(** The goroutines of generation [g] and its connection are gone. *)
Definition gen_wound_down (s : client) (g : nat) : Prop :=
  exists w, gens s !! g = Some (Running w) /\ wound_down w.

Lemma over_wound_down (s : client) g : life_inv s -> over g s -> gen_wound_down s g.
Proof.
  intros Hi (w & Hw & Hs & Hn & Hc & _). destruct (li_good _ Hi g w Hw) as [Hg _]. cbn in Hs, Hn, Hc, Hg.
  exists w. split; [done|]. destruct (stopped_done w Hg Hc) as (Hdi & _).
  destruct Hg as [(k & nc & Hr) Hsp]. apply (workers_gone_wound_down n).
  - by eapply wf_reachable.
  - by eapply calls_inv_reachable.
  - destruct Hsp as [E|E]; by rewrite E in *.
  - done.
  - done.
Qed.

(** An attempt that has not reached startWorkers. *)
Definition reaching (t : goroutine) : bool :=
  match t with GAttempt _ | GPause _ _ | GGiveUp | GStartWorkers _ _ => true | _ => false end.

Lemma reaching_over (s : client) t g :
  life_inv s -> t ∈ gos s -> reaching t = true -> g < length (gens s) -> over g s.
Proof.
  intros Hi Ht Hr. apply (attempt_disconnected s t Hi Ht); [by destruct t|].
  apply (unconnected_none s t Hi Ht). by destruct t.
Qed.

Lemma disconnected_over (s : client) :
  life_inv s -> st (cs s) = disconnected ->
  c_conn s = None /\ forall g, g < length (gens s) -> over g s.
Proof.
  intros Hi Hs. assert (Hc : c_conn s = None).
  { destruct (c_conn s) as [g|] eqn:Hc; [|done]. by destruct (li_conn _ Hi g Hc) as (_ & ? & _). }
  split; [done|]. destruct (li_none _ Hi Hc) as [_ [(u & Hu & Ha)|?]]; [|done]. exfalso.
  apply list_elem_of_split in Hu as (pre & post & Hg).
  destruct (awaits_status u Ha) as (th & Hth & Ho & Hj).
  destruct (owner_alone s pre u post th (li_status _ Hi) Hg Hth Ho Hj) as [Hd _]. congruence.
Qed.

End client.

End workers.

(** ** The theorems *)

#[local] Existing Instances comms_workers comms_laws.

(** That branch is taken for losses that are not to be reconnected, and no others. *)
Lemma bug_branch c t : no_reconnect_function c t = true -> t = GLostDone false.
Proof.
  destruct t; try done. unfold no_reconnect_function, connectionLostHandler.
  destruct will; [|done]. by repeat case_match.
Qed.

(** C12: the client of the program is safe, whatever the interleaving of any number of
    Connect and Disconnect calls, lost connections and reconnections with the
    goroutines of its connections: no function of the status machine and no channel
    is closed twice; of the three branches the program takes for a bug, two are not
    reached (startWorkers that finds workers running, internalConnLost whose
    stopCommsWorkers finds none), and the third ("BUG BUG BUG reconnection function is
    nil") is taken only after a loss that is not to be reconnected (without
    AutoReconnect that is every loss: [bug_branch_without_reconnect]); every generation of workers, that is the
    goroutines of a connection handed to startWorkers, runs as in [ClientComms], at most
    the last one is still running, and whenever the status is disconnected, or a new
    attempt to connect is under way, c.conn is nil and all generations are wound down:
    their connections are closed and their goroutines have ended, except calls of
    handlers and, until these have returned, the goroutine that drops
    acknowledgements.  (Connections that attemptConnection opens and gives up never
    reach startWorkers and are not generations; see [ClientNet].) *)
Theorem lifecycle_safe {URL : Type} (n : nat) (o : ClientOptions URL) (s : client) :
  client_reachable n o s ->
  l_panicked s = false /\
  (forall g w, gens s !! g = Some (Running w) ->
     (exists k nc, comms_reachable n k nc w) /\ panicked w = false) /\
  (forall t, t ∈ gos s -> confused t = false /\ (no_reconnect_function (cs s) t = true -> t = GLostDone false)) /\
  (forall g, S g < length (gens s) -> gen_wound_down s g) /\
  (st (cs s) = disconnected \/ (exists t, t ∈ gos s /\ reaching t = true) ->
     c_conn s = None /\ forall g, g < length (gens s) -> gen_wound_down s g).
Proof.
  intros Hr. assert (Hi : life_inv (H := comms_workers n) (H0 := comms_laws n) s) by by eapply life_inv_reachable.
  split; [apply Hi|]. split.
  { intros g w Hw. destruct (li_good _ Hi g w Hw) as [[Hw' _] _]. split; [done|].
    destruct Hw' as (k & nc & Hw'). by apply (wf_panic _ (wf_reachable _ _ _ _ Hw')). }
  split. { intros t Ht. split; [by apply Hi|apply bug_branch]. } split.
  { intros g Hg. eapply over_wound_down; [exact Hi|]. by apply (li_old _ Hi). }
  intros [Hs|(t & Ht & Hrt)].
  - destruct (disconnected_over n s Hi Hs) as [Hc Ho]. split; [done|]. intros g Hg.
    eapply over_wound_down; [exact Hi|]. by apply Ho.
  - split; [apply (unconnected_none s t Hi Ht); by destruct t|]. intros g Hg.
    eapply over_wound_down; [exact Hi|]. by eapply reaching_over.
Qed.

(** C13: the client cannot deadlock or spin: from every reachable state its goroutines
    make boundedly many moves, and when none can move any more, all that is left
    of them is waiting for the network or for an attempt to connect that is under
    way.  Without such an attempt, every call of Connect has completed its token
    exactly once, and the client is disconnected with every generation of workers (the
    goroutines of a connection handed to startWorkers) wound down, its connection
    closed, or connected with the last generation running and the others wound down, or
    at one of the dead ends of [only_dead_ends], where only calls of Disconnect wait
    that can never return. *)
Theorem lifecycle_rests {URL : Type} (n : nat) (o : ClientOptions URL) (s : client) :
  client_reachable n o s ->
  (forall m s', nsteps (own_client_step n o) m s s' ->
     m <= life_weight (H := comms_workers n) (H0 := comms_laws n) o s) /\
  (forall s', rtc (own_client_step n o) s s' -> nf (own_client_step n o) s' ->
     (forall t, t ∈ gos s' -> resting t = true) /\
     ((forall t, t ∈ gos s' -> attempting t = false) ->
        l_connects s' = length (l_tokens s') /\
        (forall t, t ∈ gos s' -> t = GDisWait None) /\
        match st (cs s') with
        | disconnected => c_conn s' = None /\ forall g, g < length (gens s') -> gen_wound_down s' g
        | connected => exists g w, c_conn s' = Some g /\ S g = length (gens s') /\
            gens s' !! g = Some (Running w) /\ g_sp w = SpIdle /\ forall i, i < g -> gen_wound_down s' i
        | disconnecting => actionCompleted (cs s') = None
        | connecting | reconnecting => False
        end)).
Proof.
  intros Hr. assert (Hi : life_inv (H := comms_workers n) (H0 := comms_laws n) s) by by eapply life_inv_reachable.
  split; [intros m s' Hn; apply own_life_steps_bounded in Hn; [lia|done]|].
  intros s' Hs Hnf.
  assert (Hi' : life_inv (H := comms_workers n) (H0 := comms_laws n) s').
  { apply (life_inv_reachable o). unfold life_reachable. etransitivity; [exact Hr|]. eapply rtc_subrel; [|exact Hs].
    intros x y (l & _ & He). by exists l. }
  assert (Hst : forall l, own_life (H := comms_workers n) l = true ->
    exec_life (H := comms_workers n) o l s' = None).
  { intros l Hl. destruct (exec_life o l s') eqn:He; [|done]. exfalso. apply Hnf. eexists. by exists l. }
  split; [intros t; exact (stuck_resting o s' Hi' Hst t)|]. intros Hno.
  assert (Hwait : forall t, t ∈ gos s' -> t = GDisWait None).
  { intros t Ht. by destruct (quiet_waits o s' Hi' Hst Hno t Ht). }
  split; [|split; [exact Hwait|]].
  { rewrite (li_tokens _ Hi'), (count_none pending); [lia|]. intros t Ht. by rewrite (Hwait t Ht). }
  pose proof (quiet_state o s' Hi' Hst Hno) as Hq. destruct (st (cs s')).
  - destruct Hq as [Hc Ho]. split; [done|]. intros g Hg. eapply over_wound_down; [exact Hi'|auto].
  - done.
  - done.
  - done.
  - destruct Hq as (g & w & Hc & Hl & Hw & Hrun & Ho). exists g, w. cbn in Hrun.
    split; [done|]. split; [done|]. split; [done|]. split; [by destruct (g_sp w)|].
    intros i Hlt. eapply over_wound_down; [exact Hi'|auto].
Qed.

(** The client is left in the status disconnecting only by a Disconnect that gave
    up because another one was called while it waited for a reconnection, or by a
    lost connection that was reported while Connect was still starting: in a run
    without these, a client that has come to rest with no attempt under way is
    connected or disconnected and no call is left waiting. *)
Theorem only_dead_ends {URL : Type} (n : nat) (o : ClientOptions URL) (s : client) :
  rtc (clean_step (H := comms_workers n) o) new_client s ->
  nf (own_client_step n o) s -> (forall t, t ∈ gos s -> attempting t = false) ->
  st (cs s) = connected \/ st (cs s) = disconnected.
Proof.
  intros Hr Hnf Hno.
  destruct (clean_reachable (H := comms_workers n) (H0 := comms_laws n) o s Hr) as [Hi Ho].
  assert (Hst : forall l, own_life (H := comms_workers n) l = true ->
    exec_life (H := comms_workers n) o l s = None).
  { intros l Hl. destruct (exec_life o l s) eqn:He; [|done]. exfalso. apply Hnf. eexists. by exists l. }
  pose proof (clean_quiet o s Hi Ho Hst Hno) as Hd. pose proof (quiet_state o s Hi Hst Hno) as Hq.
  destruct (st (cs s)); auto; done.
Qed.

(** ** A loss reported while Connect is still starting *)

(** Nothing is left that could end the disconnect or close the connection. *)
Record dead (g : nat) (s : client) : Prop := mkDead {
  dead_status : st (cs s) = disconnecting;
  dead_action : actionCompleted (cs s) = None;
  dead_conn : c_conn s = Some g;
  dead_gos : forall t, t ∈ gos s -> match t with
    | GConnect | GDisconnect | GDisWait None | GLost _ | GLostCall _ _ => True | _ => False end;
  dead_gens : forall i kp nc, gens s !! i <> Some (Starting kp nc);
}.

Lemma dead_step {URL : Type} n (o : ClientOptions URL) g (s s' : client) :
  dead g s -> client_step n o s s' -> dead g s'.
Proof.
  intros [Hs Ha Hc Hg Hgens] [l He].
  assert (Hrep : forall i t new, gos s !! i = Some t ->
    (forall u, u ∈ new -> match u with
      | GConnect | GDisconnect | GDisWait None | GLost _ | GLostCall _ _ => True | _ => False end) ->
    forall u, u ∈ replace i new (gos s) -> match u with
      | GConnect | GDisconnect | GDisWait None | GLost _ | GLostCall _ _ => True | _ => False end).
  { intros i t new Ht Hnew u Hu. destruct (replace_split i (gos s) t new Ht) as (pre & post & Hgs & Hr).
    rewrite Hr in Hu. assert (u ∈ new \/ u ∈ gos s) as [Hin|Hin] by (rewrite Hgs; set_solver);
      [by apply Hnew|by apply Hg]. }
  destruct l as [i|g' l|i g'|i res|g'|g'| |]; cbn in He.
  - destruct (gos s !! i) as [t|] eqn:Ht; [|done].
    pose proof (Hg t (list_elem_of_lookup_2 _ _ _ Ht)) as Hd.
    destruct t as [| | | | | | | | |[ch|]| | | | | | |og|og will| | | | | |]; try done; cbn in He; try done.
    + unfold life_Connect, client_Connect, Connecting in He. rewrite Hs in He. cbn in He.
      injection He as <-. split; try done. cbn. apply (Hrep i _ [] Ht). by intros u ?%not_elem_of_nil.
    + unfold Disconnecting in He. rewrite Hs, Ha in He. injection He as <-. split; try done. cbn.
      apply (Hrep i _ [GDisWait None] Ht). by intros u ->%list_elem_of_singleton.
    + injection He as <-. split; try done. cbn. eapply (Hrep i _ [_] Ht).
      by intros u ->%list_elem_of_singleton.
    + unfold ConnectionLost in He. rewrite Hs in He. injection He as <-. split; try done. cbn.
      apply (Hrep i _ [] Ht). by intros u ?%not_elem_of_nil.
  - unfold inside in He. destruct (gens s !! g') as [[|w]|] eqn:Hw; [done| |done].
    destruct (w_exec l w) as [[w' c]|]; [|done]. injection He as <-. split; try done; cbn.
    + intros t [?|Ht]%elem_of_app; [by apply Hg|]. destruct c as [[]|]; cbn in Ht; [..|by apply not_elem_of_nil in Ht];
        by apply list_elem_of_singleton in Ht as ->.
    + intros i kp nc. destruct (decide (i = g')) as [->|Hne].
      * by rewrite list_lookup_insert_eq by (by eapply lookup_lt_Some).
      * by rewrite list_lookup_insert_ne.
  - destruct (gos s !! i) as [t|] eqn:Ht; [|done].
    pose proof (Hg t (list_elem_of_lookup_2 _ _ _ Ht)) as Hd. by destruct t as [| | | | | | | | |[]| | | | | | | | | | | | | |].
  - destruct (gos s !! i) as [t|] eqn:Ht; [|done].
    pose proof (Hg t (list_elem_of_lookup_2 _ _ _ Ht)) as Hd. by destruct t.
  - destruct (gens s !! g') as [[kp nc|]|] eqn:Hw; [by apply Hgens in Hw|done..].
  - destruct (gens s !! g') as [[kp nc|]|] eqn:Hw; [by apply Hgens in Hw|done..].
  - injection He as <-. split; try done. cbn.
    intros t [?| ->%list_elem_of_singleton]%elem_of_app; [by apply Hg|done].
  - injection He as <-. split; try done. cbn.
    intros t [?| ->%list_elem_of_singleton]%elem_of_app; [by apply Hg|done].
Qed.

Definition early_loss (nc : netconn) : list (life_label worker_label) :=
  [AppConnect; GoOn 0; AttemptEnds 0 (inr nc); GoOn 0;   (* connected; keepalive is started *)
   EarlyLoss 0; GoOn 1; GoOn 1;                          (* it reports a loss, which waits *)
   GoOn 0; GoOn 0;                                       (* startWorkers goes on all the same *)
   GoOn 0].                                              (* the loss is given up *)

(** If the keepalive goroutine reports a loss before startWorkers has called
    connectionUp, which it could only if startWorkers stood still for longer than
    the receive timeout, then Connect's token reports success, the workers run,
    and the client is in the status disconnecting for good: no later Connect or
    Disconnect has any effect and the connection is never closed. *)
Theorem early_loss_wedges {URL : Type} (n : nat) (o : ClientOptions URL) (nc : netconn) :
  Servers o <> [] -> has_keepalive o = true ->
  exists s : client, client_reachable n o s /\ gos s = [] /\ l_tokens s = [None] /\
    gens s !! 0 = Some (Running (start false nc)) /\
    forall s', rtc (client_step n o) s s' -> st (cs s') = disconnecting /\ c_conn s' = Some 0.
Proof.
  intros Hs Hk.
  assert (exists s : client, life_run (H := comms_workers n) o (early_loss nc) new_client = Some s /\ gos s = [] /\
    l_tokens s = [None] /\ gens s = [Running (start false nc)] /\ dead 0 s)
    as (s & Hrun & Hg & Ht & Hw & Hd).
  { set (cs1 := mkStatus connecting false (Some 0) 1 ∅).
    set (cs2 := mkStatus disconnecting false (Some 0) 1 ∅).
    set (cs3 := mkStatus disconnecting false None 1 ({[0]} ∪ ∅)).
    assert (Hup : connected_fn true cs2 = Returns (Some errAbortConnection) cs3) by done.
    assert (Hjoin : advance true (ConnectionLostJoin false (Some 0)) cs3 =
      Returns (Some errAlreadyDisconnected) cs3) by done.
    exists (mkLife cs3 [] (Some 0) false [Running (start false nc)] false 1 [None]). split.
    - unfold early_loss.
      apply life_run_cons with (mkLife fresh [GConnect] None false [] false 1 []); [done|].
      apply life_run_cons with (mkLife cs1 [GAttempt FromConnect] None false [] false 1 []).
      { cbn. unfold life_Connect. cbn. destruct (Servers o); [exfalso; by apply Hs|done]. }
      apply life_run_cons with (mkLife cs1 [GStartWorkers FromConnect nc] None false [] false 1 []); [done|].
      apply life_run_cons with (mkLife cs1 [GUp FromConnect 0] (Some 0) true [Starting true nc] false 1 []).
      { cbn. unfold begin_workers. cbn -[has_keepalive]. by rewrite Hk. }
      apply life_run_cons with
        (mkLife cs1 [GUp FromConnect 0; GLost (0, true)] (Some 0) true [Starting false nc] false 1 []); [done|].
      apply life_run_cons with
        (mkLife cs1 [GUp FromConnect 0; GLostCall (0, true) false] (Some 0) true [Starting false nc] false 1 []).
      { cbn. unfold lost_will_reconnect. cbn. by rewrite andb_false_r. }
      apply life_run_cons with (mkLife cs2 [GUp FromConnect 0; GLostJoin (0, true) false (Some 0)] (Some 0)
        true [Starting false nc] false 1 []); [done|].
      apply life_run_cons with (mkLife cs3 [GComms FromConnect 0; GLostJoin (0, true) false (Some 0)] (Some 0)
        true [Starting false nc] false 1 []); [cbn [exec_life gos lookup list_lookup go cs]; by rewrite Hup|].
      apply life_run_cons with (mkLife cs3 [GLostJoin (0, true) false (Some 0)] (Some 0)
        false [Running (start false nc)] false 1 [None]); [done|].
      apply life_run_cons with (mkLife cs3 [] (Some 0) false [Running (start false nc)] false 1 [None]); [|done].
      cbn [exec_life gos lookup list_lookup go cs]. by rewrite Hjoin.
    - split; [done|]. split; [done|]. split; [done|]. split; try done.
      + by intros t ?%not_elem_of_nil.
      + intros [|[|i]] kp nc'; done. }
  exists s. split; [eapply life_run_reachable; [apply rtc_refl|exact Hrun]|].
  split; [done|]. split; [done|]. rewrite Hw. split; [done|]. intros s' Hr.
  assert (Hd' : dead 0 s').
  { clear Hrun Hg Ht Hw. revert Hd. induction Hr as [|x y z Hxy _ IH]; [done|]. intros Hx. apply IH. by eapply dead_step. }
  by destruct Hd'.
Qed.

(** ** Witnesses *)

(** Connect; traffic and an error of the reader; the loss is handled; the first
    reconnection succeeds and is lost again; a Disconnect ends the next one. *)
Definition inside_all (g : nat) (ls : list label) : list (life_label worker_label) :=
  (fun l => Inside g (CommsLabel l)) <$> List.filter (fun l => negb (is_stopper l)) ls.

Definition life_demo_connect : list (life_label worker_label) :=
  [AppConnect; GoOn 0; AttemptEnds 0 (inr demo_conn); GoOn 0; GoOn 0; GoOn 0] ++
  inside_all 0 demo_traffic.

Definition life_demo_lost : list (life_label worker_label) :=
  [GoOn 0; GoOn 0; GoOn 0] ++ inside_all 0 demo_shutdown ++ [GoOn 0; GoOn 0; GoOn 0].

Definition life_demo_disconnect : list (life_label worker_label) :=
  [AppDisconnect; GoOn 1; AttemptEnds 0 (inl io_EOF); GoOn 0; GoOn 0; GoOn 0; GoOn 0; GoOn 0; GoOn 0].

Definition life_demo (ls : list (life_label worker_label)) : client :=
  default new_client (life_run (H := comms_workers 1) client_options ls new_client).

Lemma life_demo_reachable ls :
  is_Some (life_run (H := comms_workers 1) client_options ls new_client) ->
  client_reachable 1 client_options (life_demo ls).
Proof.
  intros [s Hs]. unfold life_demo. rewrite Hs. eapply life_run_reachable; [apply rtc_refl|exact Hs].
Qed.

Definition life_demo_end : client :=
  life_demo (life_demo_connect ++ life_demo_lost ++ life_demo_disconnect).

Example life_demo_ends :
  gos life_demo_end = [] /\ st (cs life_demo_end) = disconnected /\ length (gens life_demo_end) = 1 /\
  l_tokens life_demo_end = [None] /\
  gos (life_demo (life_demo_connect ++ life_demo_lost)) = [GAttempt FromReconnect].
Proof. vm_compute. repeat split. Qed.

Lemma life_demo_end_reachable : client_reachable 1 client_options life_demo_end.
Proof. apply life_demo_reachable. vm_compute. eexists. reflexivity. Qed.

(** A client without goroutines whose workers are stuck has no own move. *)
Definition own_labels : list label :=
  [LRead; LIbound; LReadEnd; LStoreClosed; LIboundClosed; LCloseConnect; LIncomingEnd; LOutput;
   LOutputClosed; LPublish; LMxError; LFromIncoming; LMxClose; LMxEnd; LOboundErr; LFeError;
   LOboundErrClosed; LCloseOutError; LWrite; LOboundPClosed; LOboundClosed; LFromIncomingClosed;
   LOutgoingEnd; LSendOboundP; LSendObound; LAckClosed; LStop; LDrained; LRtClose; LRtEnd;
   LIncomingPub; LPublishClosed; LOutErrorClosed; LCommsStopped; LIncomingPubClosed; LStopAck;
   LAckStopped; LCloseAckOut; LAckCopyStop; LAckCopyEnd; LHandlerCall 0; LConnectEnd; LKeepaliveStop].

(** None of these actions is possible. *)
Definition cannot (n : nat) (ls : list label) (w : comms) : bool :=
  forallb (fun l => match exec n l w with None => true | _ => false end) ls.

(** One goroutine that is about to call stands for all of them. *)
Lemma label_quiet n ls l w :
  ((forall i, l <> LHandlerCall i) -> In l ls) -> In (LHandlerCall 0) ls -> cannot n ls w = true ->
  exec n l w = None.
Proof.
  unfold cannot. rewrite forallb_forall. intros Hl H0 Hs. destruct (call_action l) as [[i ->]|Hno].
  - specialize (Hs _ H0). cbn [exec] in *. rewrite exec_call in *.
    rewrite call_handler_none; [done|]. apply call_handler_stuck. by destruct (call_handler 0 (hcalls w)).
  - specialize (Hs l (Hl Hno)). by destruct (exec n l w).
Qed.

Definition gen_stuck (n : nat) (x : generation comms) : bool :=
  match x with
  | Starting _ _ => true
  | Running w => cannot n own_labels w
  end.

Lemma quiet_client {URL : Type} n (o : ClientOptions URL) (s : client) :
  gos s = [] -> forallb (gen_stuck n) (gens s) = true -> nf (own_client_step n o) s.
Proof.
  intros Hg Hs [s' (l & Hl & He)]. destruct l as [i|g [l|]|i g|i res|g|g| |]; try discriminate Hl.
  - unfold exec_life in He. by rewrite Hg in He.
  - unfold exec_life, inside in He. destruct (gens s !! g) as [[|w]|] eqn:Hw; [done| |done].
    rewrite forallb_forall in Hs.
    specialize (Hs (Running w) (proj1 (list_elem_of_In _ _) (list_elem_of_lookup_2 _ _ _ Hw))).
    cbn [gen_stuck] in Hs.
    assert (Hn : exec n l w = None).
    { apply (label_quiet n own_labels); [| |exact Hs]; [|unfold own_labels; cbn [In]; tauto].
      intros Hno. destruct l; try discriminate Hl; try (by destruct (Hno i)); unfold own_labels; cbn [In]; tauto. }
    cbn [w_exec comms_workers comms_exec] in He. rewrite Hn in He. by destruct (is_stopper l).
Qed.

Lemma life_demo_quiet : nf (own_client_step 1 client_options) life_demo_end.
Proof. apply quiet_client; vm_compute; reflexivity. Qed.

Lemma lifecycle_safe_witness :
  st (cs life_demo_end) = disconnected /\ c_conn life_demo_end = None /\ gen_wound_down life_demo_end 0.
Proof.
  assert (Hs : st (cs life_demo_end) = disconnected) by (vm_compute; reflexivity).
  destruct (lifecycle_safe 1 client_options life_demo_end life_demo_end_reachable)
    as (_ & _ & _ & _ & H).
  destruct (H (or_introl Hs)) as [Hc Hf]. split; [exact Hs|]. split; [exact Hc|].
  apply Hf. vm_compute. lia.
Defined.

Lemma lifecycle_rests_witness :
  l_connects life_demo_end = length (l_tokens life_demo_end) /\ c_conn life_demo_end = None /\
  forall g, g < length (gens life_demo_end) -> gen_wound_down life_demo_end g.
Proof.
  destruct (lifecycle_rests 1 client_options life_demo_end life_demo_end_reachable) as [_ H].
  destruct (H life_demo_end (rtc_refl _ _) life_demo_quiet) as [_ H2].
  destruct H2 as (Ht & _ & Hm).
  { vm_compute. intros t Ht. by apply not_elem_of_nil in Ht. }
  assert (Hs : st (cs life_demo_end) = disconnected) by (vm_compute; reflexivity).
  rewrite Hs in Hm. split; [exact Ht|exact Hm].
Defined.

Lemma only_dead_ends_witness :
  st (cs life_demo_end) = connected \/ st (cs life_demo_end) = disconnected.
Proof.
  refine (only_dead_ends 1 client_options life_demo_end _ life_demo_quiet _).
  - apply (clean_run_steps (H := comms_workers 1) client_options
      (life_demo_connect ++ life_demo_lost ++ life_demo_disconnect)). vm_compute. reflexivity.
  - vm_compute. intros t Ht. by apply not_elem_of_nil in Ht.
Defined.

Lemma early_loss_wedges_witness : exists s : client,
  client_reachable 1 client_options s /\ gos s = [] /\ l_tokens s = [None] /\
  gens s !! 0 = Some (Running (start false demo_conn)) /\
  forall s', rtc (client_step 1 client_options) s s' -> st (cs s') = disconnecting /\ c_conn s' = Some 0.
Proof. refine (early_loss_wedges 1 client_options demo_conn _ _); [discriminate|reflexivity]. Defined.

(** A Disconnect that arrives while Connect is attempting aborts the connection, but
    Connect's token reports success all the same, in a run in which the status was
    never connected. *)
Definition aborted_connect : list (life_label worker_label) :=
  [AppConnect; GoOn 0; AppDisconnect; GoOn 1; AttemptEnds 0 (inr demo_conn); GoOn 0; GoOn 0; GoOn 0].

Theorem aborted_connect_reports_success :
  client_reachable 1 client_options (life_demo aborted_connect) /\
  l_tokens (life_demo aborted_connect) = [None] /\ st (cs (life_demo aborted_connect)) = disconnecting /\
  Forall (fun x => x <> connected)
    ((fun k => st (cs (life_demo (take k aborted_connect)))) <$> seq 0 9).
Proof.
  split; [apply life_demo_reachable; vm_compute; by eexists|].
  vm_compute. split; [done|]. split; [done|]. repeat (constructor; [done|]). constructor.
Qed.
