(* ===== verification/ClientCallbacks.v ===== *)
(** * Client lifecycle: what the application is told

    The callbacks of client/client.go along the runs of [ClientLife]: every
    connection that was made ends in exactly one call of OnConnectionLost or is
    closed by a Disconnect, and the call comes when nothing of it is left. *)

From Stdlib Require Import ZArith Lia String.
From stdpp Require Import base list strings gmap numbers relations.
From S2P Require Import Prelude Codec GoTime Server Status ClientOptions ClientNet ClientToken Client.
From S2P Require Import ClientComms ClientCommsProps ClientLife ClientLifeFacts ClientLifeRest ClientLifeProps.

Local Open Scope nat_scope.

Definition same_event (e e' : event) : bool :=
  match e, e' with
  | TellsLost, TellsLost | TellsReconnecting, TellsReconnecting | DisconnectCloses, DisconnectCloses => true
  | _, _ => false
  end.

Definition times (e : event) (evs : list event) : nat :=
  length (List.filter (same_event e) evs).

Lemma times_app e l k : times e (l ++ k) = times e l + times e k.
Proof. unfold times. by rewrite List.filter_app, length_app. Qed.

Lemma times_one e e' : times e [e'] = if same_event e e' then 1 else 0.
Proof. by destruct e, e'. Qed.

Lemma times_none e : times e [] = 0.
Proof. done. Qed.

Arguments times : simpl never.

(** A goroutine of internalConnLost that has closed a connection and will call
    OnConnectionLost. *)
Definition owes_call (t : goroutine) : bool :=
  match t with GLostWorkers _ | GLostComms _ | GLostDone _ => true | _ => false end.

Section callbacks.
Context {W L URL : Type} `{WorkersLaws W L} (o : ClientOptions URL).

Abbreviation client := (life W).

(** ** Accounts of the connections *)

Definition open_conn (s : client) : nat := match c_conn s with Some _ => 1 | None => 0 end.

Definition closed_or_told (evs : list event) (s : client) : nat :=
  times TellsLost evs + times DisconnectCloses evs + count owes_call (gos s) + open_conn s.

Lemma on_status_owes r goes (s s' : client) new :
  (forall th, count owes_call (goes th) = 0) -> on_status r goes s = Some (new, s') ->
  count owes_call new = 0 /\ open_conn s' = open_conn s /\ gens s' = gens s.
Proof. unfold on_status. intros Hg. destruct r; intros Hr; simplify_eq/=; by rewrite ?Hg. Qed.

Lemma stop_owes found none (s s' : client) new :
  stopCommsWorkers found none s = Some (new, s') -> l_panicked s' = false ->
  length (gens s') = length (gens s) /\ open_conn s' = 0 /\
  new = [match c_conn s with Some _ => found | None => none end].
Proof.
  unfold stopCommsWorkers. intros Hs Hp. destruct (conn_mu s); [done|].
  destruct (c_conn s) as [g|] eqn:Hc; [|simplify_eq/=; by unfold open_conn; rewrite Hc].
  destruct (gens s !! g) as [[|w]|]; [done| |done].
  destruct (w_stop w); simplify_eq/=. by rewrite length_insert.
Qed.

Ltac owes :=
  unfold open_conn in *; cbn in *; rewrite ?count_cons, ?count_nil, ?times_one, ?times_none in *;
  cbn in *; lia.

(** What a stretch of code changes. *)
Lemma go_accounts t (s s' : client) new (i : nat) :
  OnConnectionLost o = true -> gos s !! i = Some t -> l_panicked s' = false ->
  go o t s = Some (new, s') ->
  let evs := observes o (GoOn (L := L) i) s in
  times TellsLost evs + times DisconnectCloses evs + count owes_call new + open_conn s' + length (gens s) =
    (if owes_call t then 1 else 0) + open_conn s + length (gens s').
Proof.
  intros Hcb Hi Hp Hgo evs. unfold evs, observes. rewrite Hi, Hcb. clear evs Hi.
  destruct t; cbn [go] in Hgo; cbn [owes_call];
    try (apply on_status_owes in Hgo as (Hn & Hc & Hg); [|by intros []]; rewrite Hn, Hc, Hg; by owes).
  - unfold life_Connect in Hgo. destruct (client_Connect o (cs s)) as [tok [c|]]; [destruct (Servers o)|];
      injection Hgo as <- <-; by owes.
  - done.
  - unfold after_failure in Hgo. destruct r; case_match; injection Hgo as <- <-; by owes.
  - unfold begin_workers in Hgo. destruct (conn_mu s); [done|].
    destruct (c_conn s) as [g|] eqn:Hc; injection Hgo as <- <-; unfold open_conn; cbn; rewrite ?Hc, ?length_app; by owes.
  - destruct r; apply on_status_owes in Hgo as (Hn & Hc & Hg); try (by intros []);
      rewrite Hn, Hc, Hg; by owes.
  - destruct (connected_fn true (cs s)); try done; injection Hgo as <- <-; by owes.
  - unfold end_workers in Hgo. destruct (gens s !! g) as [[kp nc|]|]; try done. injection Hgo as <- <-.
    destruct r; cbn; rewrite length_insert; by owes.
  - injection Hgo as <- <-. by owes.
  - apply stop_owes in Hgo as (Hg & Hc & ->); [|done]. rewrite Hg, Hc. unfold open_conn.
    destruct (c_conn s); by owes.
  - destruct (workers_gone s); [|done]. injection Hgo as <- <-. by owes.
  - destruct (comms_gone s); [|done]. injection Hgo as <- <-. by owes.
  - injection Hgo as <- <-. by owes.
  - apply stop_owes in Hgo as (Hg & Hc & ->); [|done]. rewrite Hg, Hc. unfold open_conn.
    destruct (c_conn s); by owes.
  - destruct (workers_gone s); [|done]. injection Hgo as <- <-. by owes.
  - destruct (comms_gone s); [|done]. injection Hgo as <- <-. by owes.
Qed.

Lemma calls_owe_nothing g c : count owes_call (calls_start g c) = 0.
Proof. by destruct c as [[]|]. Qed.

Lemma inside_accounts (s s' : client) g l :
  inside g l s = Some s' ->
  count owes_call (gos s') = count owes_call (gos s) /\ open_conn s' = open_conn s /\
  length (gens s') = length (gens s) /\ exists ts, gos s' = gos s ++ ts.
Proof.
  unfold inside. intros Hin. destruct (gens s !! g) as [[|w]|]; [done| |done].
  destruct (w_exec l w) as [[w' c]|]; [|done]. injection Hin as <-. cbn.
  rewrite gcount_app, calls_owe_nothing, length_insert. split; [lia|eauto].
Qed.

(** Goroutine [i] becomes [new], in the list [ts]. *)
Lemma replace_owes i ts t new :
  ts !! i = Some t ->
  count owes_call (replace i new ts) + (if owes_call t then 1 else 0) = count owes_call ts + count owes_call new.
Proof.
  intros Ht. destruct (replace_split i ts t new Ht) as (pre & post & -> & ->).
  rewrite !gcount_app, count_cons. lia.
Qed.

Lemma exec_accounts l (s s' : client) evs :
  OnConnectionLost o = true -> l_panicked s' = false -> exec_life o l s = Some s' ->
  closed_or_told evs s = length (gens s) ->
  closed_or_told (observes o l s ++ evs) s' = length (gens s').
Proof.
  unfold closed_or_told. intros Hcb Hp He Hs. rewrite !times_app.
  destruct l as [i|g l|i g|i res|g|g| |]; cbn [exec_life] in He.
  - destruct (gos s !! i) as [t|] eqn:Ht; [|done]. destruct (go o t s) as [[new s1]|] eqn:Hgo; [|done].
    injection He as <-. pose proof (go_accounts t s s1 new i Hcb Ht Hp Hgo) as Ha.
    pose proof (replace_owes i (gos s) t new Ht) as Hr. cbn [gos gens set_gos]. cbn zeta in Ha.
    change (open_conn (set_gos _ s1)) with (open_conn s1). lia.
  - apply inside_accounts in He as (-> & -> & -> & _). by owes.
  - destruct (gos s !! i) as [[]|] eqn:Ht; try done.
    destruct (inside g w_take s) as [s1|] eqn:Hin; [|done]. injection He as <-.
    apply inside_accounts in Hin as (Ho & Hc & Hg & ts & Hts). cbn [gos gens set_gos].
    change (open_conn (set_gos _ s1)) with (open_conn s1).
    assert (Ht' : gos s1 !! i = Some GDisSend) by (rewrite Hts; by apply lookup_app_l_Some).
    pose proof (replace_owes i (gos s1) GDisSend [GDisStop] Ht') as Hr. by owes.
  - destruct (gos s !! i) as [[]|] eqn:Ht; try done. injection He as <-. cbn [observes]. rewrite Ht.
    match goal with |- context [replace i ?new _] => pose proof (replace_owes i (gos s) _ new Ht) as Hr end.
    cbn [gos gens set_gos]. change (open_conn (set_gos _ s)) with (open_conn s).
    destruct r, res, (OnReconnecting o); by owes.
  - destruct (gens s !! g) as [[[] nc|]|]; try done. injection He as <-. cbn.
    rewrite gcount_app, length_insert. by owes.
  - destruct (gens s !! g) as [[[] nc|]|]; try done. injection He as <-. cbn.
    rewrite length_insert. by owes.
  - injection He as <-. cbn. rewrite gcount_app. by owes.
  - injection He as <-. cbn. rewrite gcount_app. by owes.
Qed.

Lemma observed_accounts evs (s : client) :
  OnConnectionLost o = true -> observed (L := L) o evs s -> closed_or_told evs s = length (gens s).
Proof.
  intros Hcb. induction 1 as [|evs s l s' Hr IH He]; [done|]. apply (exec_accounts l s s' evs); [done| |done|done].
  apply (li_panic _ (life_inv_reachable o s' (observed_reachable o _ _ (observed_step o _ _ _ _ Hr He)))).
Qed.

(** ** When the call comes *)

Lemma told_over l (s s' : client) :
  life_inv s -> exec_life o l s = Some s' -> TellsLost ∈ observes o l s ->
  forall g, g < length (gens s) -> over g s.
Proof.
  intros Hi He Hin. assert (exists i will, gos s !! i = Some (GLostDone will)) as (i & will & Ht).
  { destruct l as [i| | |i res| | | |]; cbn in Hin; try (by apply not_elem_of_nil in Hin).
    - destruct (gos s !! i) as [t|] eqn:Ht; [|by apply not_elem_of_nil in Hin].
      destruct t; try (by apply not_elem_of_nil in Hin); [|by eauto].
      destruct (c_conn s); apply list_elem_of_In in Hin; cbn in Hin; naive_solver.
    - destruct (gos s !! i) as [[]|]; try (by apply not_elem_of_nil in Hin).
      destruct r, (OnReconnecting o); apply list_elem_of_In in Hin; cbn in Hin; naive_solver. }
  pose proof (list_elem_of_lookup_2 _ _ _ Ht) as Hel.
  apply list_elem_of_split in Hel as (pre & post & Hg).
  assert (Hc : c_conn s = None) by (apply (unconnected_none s (GLostDone will) Hi); [by eapply list_elem_of_lookup_2|done]).
  destruct (owner_alone s pre (GLostDone will) post (LostHandledFn will) (li_status _ Hi) Hg eq_refl eq_refl eq_refl)
    as [_ Hal].
  destruct (li_none _ Hi Hc) as [_ [(u & Hu & Ha)|Ho]]; [|done]. exfalso.
  destruct (awaits_status u Ha) as (th & Hth & Hown & _).
  rewrite Hg, elem_of_app, elem_of_cons in Hu.
  assert (u ∈ pre ++ post \/ u = GLostDone will) as [Hu'| ->] by (rewrite elem_of_app; tauto); [|done].
  destruct (Hal u th Hu' Hth). congruence.
Qed.

(** ** Without AutoReconnect *)

Definition unwilling (th : thread) : bool :=
  match th with
  | CallConnectionLost will | ConnectionLostJoin will _ | LostHandledFn will => negb will
  | _ => true
  end.

Lemma close_action_will c c' : close_action c = Some c' -> willReconnect c' = willReconnect c.
Proof. unfold close_action. by repeat case_match; intros [= <-]. Qed.

Lemma advance_unwilling b th c :
  willReconnect c = false -> unwilling th = true ->
  match advance b th c with
  | Goes th' c' => willReconnect c' = false /\ unwilling th' = true /\ (th' = ConnectedFn -> th = CallConnecting)
  | Returns _ c' => willReconnect c' = false
  | _ => True
  end.
Proof.
  intros Hc Ht. destruct th; cbn in Ht; try apply negb_true_iff in Ht; subst; cbn;
    unfold Connecting, connected_fn, Disconnecting, Disconnecting_join, disconnectionCompleted,
      ConnectionLost, ConnectionLost_join, connectionLostHandler; rewrite ?Hc; cbn;
    repeat case_match; simplify_eq/=;
    repeat match goal with Hx : close_action _ = Some _ |- _ => apply close_action_will in Hx; cbn in Hx end;
    try done; by rewrite ?Hc; congruence.
Qed.

(** A goroutine that is not reconnecting and will not. *)
Definition settled (t : goroutine) : bool :=
  match t with
  | GAttempt r | GPause r _ | GStartWorkers r _ | GRunning r | GUp r _ | GComms r _ =>
      match r with FromConnect => true | FromReconnect => false end
  | GLostCall _ will | GLostJoin _ will _ | GLostStop _ will | GLostNil _ will
  | GLostWorkers will | GLostComms will | GLostDone will => negb will
  | _ => true
  end.

Definition calm (s : client) : Prop :=
  willReconnect (cs s) = false /\ forall t, t ∈ gos s -> settled t = true.

Lemma on_status_calm b th goes (s s' : client) new :
  willReconnect (cs s) = false -> unwilling th = true ->
  (forall th', unwilling th' = true -> (th' = ConnectedFn -> th = CallConnecting) ->
     Forall (fun u => settled u = true) (goes th')) ->
  on_status (advance b th (cs s)) goes s = Some (new, s') ->
  willReconnect (cs s') = false /\ Forall (fun u => settled u = true) new.
Proof.
  intros Hc Ht Hg Ho. pose proof (advance_unwilling b th (cs s) Hc Ht) as Ha. unfold on_status in Ho.
  destruct (advance b th (cs s)); simplify_eq/=; [|by split..]. destruct Ha as (Hc' & Hu & Hn). auto.
Qed.

Lemma dis_goes_settled th' : Forall (fun u => settled u = true) (dis_goes th').
Proof. destruct th'; by repeat constructor. Qed.

Lemma lost_goes_settled og th' : unwilling th' = true -> Forall (fun u => settled u = true) (lost_goes og th').
Proof. destruct th'; intros Hu; by repeat constructor. Qed.

Lemma stop_settled found none (s s' : client) new :
  settled found = true -> settled none = true -> stopCommsWorkers found none s = Some (new, s') ->
  cs s' = cs s /\ Forall (fun u => settled u = true) new.
Proof.
  unfold stopCommsWorkers. intros Hf Hn Hs. repeat case_match; simplify_eq/=; by repeat constructor.
Qed.

Lemma go_calm t (s s' : client) new :
  AutoReconnect o = false -> settled t = true -> willReconnect (cs s) = false ->
  go o t s = Some (new, s') ->
  willReconnect (cs s') = false /\ Forall (fun u => settled u = true) new.
Proof.
  intros Ha Ht Hc Hgo.
  assert (Hone : forall u, settled u = true -> Forall (fun u => settled u = true) [u]) by by repeat constructor.
  pose proof (fun b th goes => on_status_calm b th goes s s' new Hc) as Hst.
  assert (Hlost : forall b will, negb will = true -> on_status (connectionLostHandler will b (cs s)) reconnect_goes s =
    Some (new, s') -> willReconnect (cs s') = false /\ Forall (fun u => settled u = true) new).
  { intros b will Hw. apply (Hst b (LostHandledFn will)); [done|]. intros th' _ Hn.
    destruct th'; try by constructor. by specialize (Hn eq_refl). }
  destruct t; cbn [go] in Hgo; cbn [settled] in Ht.
  - injection Hgo as Hgo. unfold life_Connect, client_Connect in Hgo.
    pose proof (advance_unwilling true CallConnecting (cs s) Hc eq_refl) as H1. cbn [advance] in H1.
    destruct (Connecting (cs s)) as [th c|[err|] c| |]; [destruct H1 as [H1 _]|..];
      repeat case_match; simplify_eq/=; by repeat constructor.
  - done.
  - destruct r; [|done]. unfold after_failure in Hgo. case_match; simplify_eq/=; by repeat constructor.
  - apply (Hst false ConnectedFn) in Hgo; [done|done|by constructor].
  - destruct r; [|done]. unfold begin_workers in Hgo. repeat case_match; simplify_eq/=; by repeat constructor.
  - destruct r; [|done]. refine (on_status_calm false ConnectedFn _ (finish_token _ None (set_conn_mu false s))
      s' new _ _ _ Hgo); [done..|by constructor].
  - destruct r; [|done]. pose proof (advance_unwilling true ConnectedFn (cs s) Hc eq_refl) as H1. cbn [advance] in H1.
    destruct (connected_fn true (cs s)); simplify_eq/=; by repeat constructor.
  - unfold end_workers in Hgo. destruct r; [|done]. repeat case_match; simplify_eq/=; by repeat constructor.
  - apply (Hst true CallDisconnecting) in Hgo; [done|done|intros; apply dis_goes_settled].
  - apply (Hst true (DisconnectingWait ch)) in Hgo; [done|done|intros; apply dis_goes_settled].
  - apply (Hst true (DisconnectingJoin prev ch)) in Hgo; [done|done|intros; apply dis_goes_settled].
  - injection Hgo as <- <-. auto.
  - apply stop_settled in Hgo as [-> ?]; done.
  - destruct (workers_gone s); simplify_eq/=. auto.
  - destruct (comms_gone s); simplify_eq/=. auto.
  - apply (Hst true DisconnectedFn) in Hgo; [done|done|by constructor].
  - injection Hgo as <- <-. unfold lost_will_reconnect. rewrite Ha. auto.
  - apply (Hst true (CallConnectionLost will)) in Hgo; [done|done|intros; by apply lost_goes_settled].
  - apply (Hst true (ConnectionLostJoin will ch)) in Hgo; [done|done|intros; by apply lost_goes_settled].
  - apply stop_settled in Hgo as [-> ?]; done.
  - by apply (Hlost false will).
  - destruct (workers_gone s); simplify_eq/=. auto.
  - destruct (comms_gone s); simplify_eq/=. auto.
  - by apply (Hlost true will).
Qed.

Lemma calm_spawn (s : client) ts :
  calm s -> (forall u, u ∈ ts -> settled u = true) -> calm (spawn ts s).
Proof. intros [Hc Hs] Hts. split; [done|]. cbn. intros t [Ht|Ht]%elem_of_app; auto. Qed.

Lemma calm_gens (s : client) gs : calm s -> calm (set_gens gs s).
Proof. done. Qed.

Lemma inside_calm (s s' : client) g l : calm s -> inside g l s = Some s' -> calm s'.
Proof.
  unfold inside. intros Hc Hin. destruct (gens s !! g) as [[|w]|]; [done| |done].
  destruct (w_exec l w) as [[w' c]|]; [|done]. injection Hin as <-. apply calm_spawn; [done|].
  destruct c as [[]|]; set_solver.
Qed.

Lemma calm_replace (s : client) i t new c :
  calm s -> gos s !! i = Some t -> willReconnect (cs c) = false -> (forall u, u ∈ new -> settled u = true) ->
  calm (set_gos (replace i new (gos s)) c).
Proof.
  intros [_ Hs] Ht Hc Hn. destruct (replace_split i (gos s) t new Ht) as (pre & post & Hg & ->).
  split; [done|]. cbn. intros u. rewrite !elem_of_app. intros [Hu|[Hu|Hu]]; [|by apply Hn|];
    apply Hs; rewrite Hg, elem_of_app, elem_of_cons; tauto.
Qed.

Lemma exec_calm_life l (s s' : client) :
  AutoReconnect o = false -> calm s -> exec_life o l s = Some s' ->
  calm s' /\ TellsReconnecting ∉ observes o l s.
Proof.
  intros Ha Hc He. split.
  - destruct l as [i|g l|i g|i res|g|g| |]; cbn [exec_life] in He.
    + destruct (gos s !! i) as [t|] eqn:Ht; [|done]. destruct (go o t s) as [[new s1]|] eqn:Hgo; [|done].
      injection He as <-. destruct (go_calm t s s1 new Ha) as [Hc1 Hn]; [|apply Hc|done|].
      { apply (proj2 Hc). by eapply list_elem_of_lookup_2. }
      eapply calm_replace; [exact Hc|exact Ht|done|]. by rewrite <- Forall_forall.
    + by eapply inside_calm.
    + destruct (gos s !! i) as [[]|] eqn:Ht; try done.
      destruct (inside g w_take s) as [s1|] eqn:Hin; [|done]. injection He as <-.
      pose proof (inside_calm _ _ _ _ Hc Hin) as Hc1.
      apply inside_accounts in Hin as (_ & _ & _ & ts & Hts).
      apply (calm_replace s1 i GDisSend); [done| |apply Hc1|].
      * rewrite Hts. by apply lookup_app_l_Some.
      * by intros u ->%list_elem_of_singleton.
    + destruct (gos s !! i) as [[]|] eqn:Ht; try done. injection He as <-.
      pose proof (proj2 Hc _ (list_elem_of_lookup_2 _ _ _ Ht)) as Hr. cbn in Hr.
      eapply calm_replace; [exact Hc|exact Ht|apply Hc|].
      intros u ->%list_elem_of_singleton. by destruct r, res.
    + destruct (gens s !! g) as [[[] nc|]|]; try done. injection He as <-.
      apply calm_spawn; [done|]. by intros u ->%list_elem_of_singleton.
    + destruct (gens s !! g) as [[[] nc|]|]; try done. by injection He as <-.
    + injection He as <-. apply calm_spawn; [done|]. by intros u ->%list_elem_of_singleton.
    + injection He as <-. apply calm_spawn; [done|]. by intros u ->%list_elem_of_singleton.
  - destruct l as [i| | |i res| | | |]; cbn; try apply not_elem_of_nil.
    + destruct (gos s !! i) as [[]|]; try apply not_elem_of_nil; case_match;
        try apply not_elem_of_nil; by intros ?%list_elem_of_singleton.
    + destruct (gos s !! i) as [[]|] eqn:Ht; try apply not_elem_of_nil.
      pose proof (proj2 Hc _ (list_elem_of_lookup_2 _ _ _ Ht)) as Hr. destruct r; [|done].
      apply not_elem_of_nil.
Qed.

Lemma observed_calm evs (s : client) :
  AutoReconnect o = false -> observed (L := L) o evs s -> calm s /\ TellsReconnecting ∉ evs.
Proof.
  intros Ha. induction 1 as [|evs s l s' _ [Hc Hn] He].
  - split; [split; [done|]; by intros t ?%not_elem_of_nil|apply not_elem_of_nil].
  - destruct (exec_calm_life l s s' Ha Hc He) as [Hc' Ho]. split; [done|]. rewrite elem_of_app. tauto.
Qed.

End callbacks.

#[local] Existing Instances comms_workers comms_laws.

(** C15: the connections that were handed to startWorkers and started their workers there
    are accounted for in every interleaving of the lifecycle: at every moment there are
    as many as calls of OnConnectionLost, connections closed by a Disconnect, losses
    being handled, and the open one, if there is one; when the client has come to rest
    none is being handled any more.  When OnConnectionLost is called, all generations of
    workers made so far are wound down: their connections are closed and their
    goroutines have ended, except calls of handlers that have not returned and, until
    they have, the goroutine that drops acknowledgements.  Without AutoReconnect
    OnReconnecting is never called.  (Connections that attemptConnection opens and gives
    up are not among these.) *)
Theorem connections_accounted {URL : Type} (n : nat) (o : ClientOptions URL) (evs : list event)
    (s : client) :
  OnConnectionLost o = true -> observed (H := comms_workers n) o evs s ->
  times TellsLost evs + times DisconnectCloses evs + count owes_call (gos s) + open_conn s =
    length (gens s) /\
  (nf (own_client_step n o) s ->
     times TellsLost evs + times DisconnectCloses evs + open_conn s = length (gens s)) /\
  (forall l s', exec_life (H := comms_workers n) o l s = Some s' -> TellsLost ∈ observes o l s ->
     forall g, g < length (gens s) -> gen_wound_down s g) /\
  (AutoReconnect o = false -> TellsReconnecting ∉ evs).
Proof.
  intros Hcb Hr. pose proof (observed_accounts (H := comms_workers n) o evs s Hcb Hr) as Ha.
  assert (Hi : life_inv (H := comms_workers n) (H0 := comms_laws n) s).
  { apply (life_inv_reachable o). by eapply observed_reachable. }
  split; [exact Ha|]. split; [|split].
  - intros Hnf. assert (Hst : forall l, own_life (H := comms_workers n) l = true ->
      exec_life (H := comms_workers n) o l s = None).
    { intros l Hl. destruct (exec_life o l s) eqn:He; [|done]. exfalso. apply Hnf. eexists. by exists l. }
    assert (Hz : count owes_call (gos s) = 0).
    { apply count_none. intros t Ht. pose proof (stuck_resting o s Hi Hst t Ht). by destruct t. }
    unfold closed_or_told in Ha. lia.
  - intros l s' He Hin g Hg. eapply over_wound_down; [exact Hi|]. by eapply told_over.
  - intros Hauto. by apply (observed_calm (H := comms_workers n) o evs s Hauto Hr).
Qed.

(** Without AutoReconnect every loss that has been handled takes the branch the program
    calls a bug. *)
Lemma bug_branch_without_reconnect {URL : Type} (n : nat) (o : ClientOptions URL) evs (s : client) will :
  AutoReconnect o = false -> observed (H := comms_workers n) o evs s -> GLostDone will ∈ gos s ->
  no_reconnect_function (cs s) (GLostDone will) = true.
Proof.
  intros Ha Hr Ht. destruct (observed_calm (H := comms_workers n) o evs s Ha Hr) as [[Hc Hset] _].
  pose proof (Hset _ Ht) as Hs.
  apply list_elem_of_lookup in Ht as [i Ht]. destruct will; [done|].
  destruct (connectionLostHandler false true (cs s)) as [| [] c| |] eqn:Hh; cbn; rewrite Hh; try done;
    unfold connectionLostHandler in Hh; rewrite Hc in Hh; cbn in Hh; try (by case_match).
  assert (He : exec_life (H := comms_workers n) o (GoOn i) s = Some (set_gos (replace i [] (gos s)) (panic s))).
  { cbn [exec_life]. rewrite Ht. cbn [go]. unfold on_status, connectionLostHandler. rewrite Hc. cbn.
    by destruct (close_action _). }
  pose proof (li_panic _ (life_inv_reachable (H := comms_workers n) (H0 := comms_laws n) o _
    (observed_reachable _ _ _ (observed_step _ _ _ _ _ Hr He)))). done.
Qed.

(** ** A run *)

(** [client_options] with both callbacks. *)
Definition listening_options : ClientOptions nat :=
  mkOptions (Servers client_options) (opt_Credential client_options) (Heartbeat client_options) 0
    true 0 0 0 true true 0 true None None 0 (GoTime.float64_of_int 0) false 0 0 0 0 0 None.

Fixpoint observe_run (ls : list (life_label worker_label)) (s : client) : option (list event * client) :=
  match ls with
  | [] => Some ([], s)
  | l :: ls =>
      match exec_life (H := comms_workers 1) listening_options l s with
      | Some s' =>
          match observe_run ls s' with
          | Some (evs, s2) => Some (evs ++ observes listening_options l s, s2)
          | None => None
          end
      | None => None
      end
  end.

Lemma observe_run_observed ls evs (s : client) evs' s' :
  observed (H := comms_workers 1) listening_options evs s -> observe_run ls s = Some (evs', s') ->
  observed (H := comms_workers 1) listening_options (evs' ++ evs) s'.
Proof.
  revert evs s evs' s'. induction ls as [|l ls IH]; cbn; intros evs s evs' s' Hr Hs; [by simplify_eq|].
  destruct (exec_life listening_options l s) as [s1|] eqn:He; [|done].
  destruct (observe_run ls s1) as [[evs1 s2]|] eqn:Hl; [|done]. simplify_eq.
  rewrite <- app_assoc. eapply IH; [|exact Hl]. by eapply observed_step.
Qed.

Definition told_run : list event * client :=
  default ([], new_client)
    (observe_run (life_demo_connect ++ life_demo_lost ++ life_demo_disconnect) new_client).

Lemma told_run_observed : observed (H := comms_workers 1) listening_options told_run.1 told_run.2.
Proof.
  unfold told_run. destruct (observe_run _ _) as [[evs s]|] eqn:Hs; [|by constructor].
  cbn. rewrite <- (app_nil_r evs). eapply observe_run_observed; [by constructor|exact Hs].
Qed.

Lemma connections_accounted_witness :
  told_run.1 = [TellsReconnecting; TellsLost] /\ length (gens told_run.2) = 1 /\
  times TellsLost told_run.1 + times DisconnectCloses told_run.1 + open_conn told_run.2 =
    length (gens told_run.2).
Proof.
  split; [vm_compute; reflexivity|]. split; [vm_compute; reflexivity|].
  refine (proj1 (proj2 (connections_accounted 1 listening_options told_run.1 told_run.2 eq_refl told_run_observed)) _).
  apply quiet_client; vm_compute; reflexivity.
Defined.
