(* ===== verification/ClientPush.v ===== *)
(** * Client: Push through the lifecycle

    Calls of Push (client/client.go) next to the client of [ClientLife] and
    [ClientComms]: a call reads the status twice, then offers its message on
    c.obound, where whatever connection is up takes it, until its timer fires.  What
    becomes of the token of every call. *)

From Stdlib Require Import ZArith Lia String.
From stdpp Require Import base list strings gmap numbers relations.
From S2P Require Import Prelude GoIO Codec CodecFacts GoTime Server Status ClientOptions ClientNet ClientToken.
From S2P Require Import Client ClientComms ClientCommsFacts ClientCommsProps.
From S2P Require Import ClientLife ClientLifeFacts ClientLifeRest ClientLifeProps.

Local Open Scope nat_scope.

(** ** Calls of Push *)

(** Where a call stands; [PushTaken g j bs]: the redirector of generation [g] took
    the message as its [j]-th, and the call returned a token which that generation
    completes; [PushDropped]: the call found the status reconnecting, completed its
    token without an error and dropped the message. *)
Inductive push_call : Type :=
| PushBegins (p : payload)
| PushChecked (p : payload)
| PushOffers (bs : list Z)
| PushTaken (g j : nat) (bs : list Z)
| PushReturned (tok : baseToken)
| PushDropped (tok : baseToken).

(** What a call has left to do by itself. *)
Definition push_work (t : push_call) : nat :=
  match t with PushBegins _ => 3 | PushChecked _ => 2 | PushOffers _ => 1 | _ => 0 end.

Section push.
Context {URL : Type} (n : nat) (o : ClientOptions URL).

#[local] Existing Instances comms_workers comms_laws.

(** A call goes on; at [PushOffers] its timer fires. *)
Definition push_go (t : push_call) (c : connectionStatus) : option push_call :=
  match t with
  | PushBegins p =>
      Some (if negb (IsConnected o c) then PushReturned (setError ErrNotConnected open_token)
            else PushChecked p)
  | PushChecked p =>
      Some (if bool_decide (ConnectionStatus c = reconnecting) then PushDropped (flowComplete open_token)
            else match payload_bytes p with
                 | None => PushReturned (setError errUnknownPayload open_token)
                 | Some bs => PushOffers bs
                 end)
  | PushOffers _ => Some (PushReturned (setError errPushTimeout open_token))
  | _ => None
  end.

Record pushing : Type := mkPushing { cl : client; pushes : list push_call }.

(** A move of the client; a call of Push; a call goes on; the redirector of
    generation [g] takes the message of call [i]. *)
Inductive push_label : Type :=
| Lives (l : life_label worker_label)
| AppPush (p : payload)
| PushGoes (i : nat)
| PushTakes (i g : nat).

(** Generations take no messages but those of the calls. *)
Definition takes_push (l : life_label worker_label) : bool :=
  match l with Inside _ (CommsLabel (EPush _)) => true | _ => false end.

Definition exec_push (l : push_label) (x : pushing) : option pushing :=
  match l with
  | Lives l =>
      if takes_push l then None
      else match exec_life (H := comms_workers n) o l (cl x) with
           | Some c => Some (mkPushing c (pushes x))
           | None => None
           end
  | AppPush p => Some (mkPushing (cl x) (pushes x ++ [PushBegins p]))
  | PushGoes i =>
      match pushes x !! i with
      | Some t =>
          match push_go t (cs (cl x)) with
          | Some t' => Some (mkPushing (cl x) (<[i := t']> (pushes x)))
          | None => None
          end
      | None => None
      end
  | PushTakes i g =>
      match pushes x !! i, gens (cl x) !! g with
      | Some (PushOffers bs), Some (Running w) =>
          match inside (H := comms_workers n) g (CommsLabel (EPush bs)) (cl x) with
          | Some c => Some (mkPushing c (<[i := PushTaken g (length (accepted w)) bs]> (pushes x)))
          | None => None
          end
      | _, _ => None
      end
  end.

Definition own_push (l : push_label) : bool :=
  match l with
  | Lives l => own_life (H := comms_workers n) l
  | PushGoes _ => true
  | _ => false
  end.

Definition push_step (x y : pushing) : Prop := exists l, exec_push l x = Some y.
Definition own_push_step (x y : pushing) : Prop := exists l, own_push l = true /\ exec_push l x = Some y.

Definition push_reachable : pushing -> Prop := rtc push_step (mkPushing new_client []).

(** The sequential reading of Push in [Client]. *)
Lemma push_go_client_Push p c1 c2 (taken : bool) :
  let '(tok, queued) := client_Push o c1 c2 p taken in
  match push_go (PushBegins p) c1 with
  | Some (PushChecked p) =>
      match push_go (PushChecked p) c2 with
      | Some (PushOffers bs) =>
          if taken then queued = Some bs else push_go (PushOffers bs) c2 = Some (PushReturned tok) /\ queued = None
      | t => (t = Some (PushReturned tok) \/ t = Some (PushDropped tok)) /\ queued = None
      end
  | t => t = Some (PushReturned tok) /\ queued = None
  end.
Proof.
  unfold client_Push. cbn -[IsConnected]. unfold ConnectionStatus. destruct (negb (IsConnected o c1)); [done|].
  case_bool_decide; [by auto|]. destruct (payload_bytes p); [|by auto]. by destruct taken.
Qed.

(** ** What generations accepted *)

Lemma exec_accepts l w w' :
  exec n l w = Some w' -> accepted w' = accepted w ++ match l with EPush bs => [bs] | _ => [] end.
Proof.
  intros He. destruct w, l; try (rewrite app_nil_r); exec_cases He; step_cases.
Qed.

(** A generation goes from [x] to [y] and accepts [l] on the way. *)
Definition gen_accepts (l : list (list Z)) (x y : generation comms) : Prop :=
  match x, y with
  | Running w, Running w' => accepted w' = accepted w ++ l
  | Running _, Starting _ _ => False
  | Starting _ _, Running w' => accepted w' = []
  | _, _ => True
  end.

(** No generation is lost or accepts anything, and new ones start empty. *)
Definition gens_kept (c c' : client) : Prop :=
  length (gens c) <= length (gens c') /\
  (forall g y, gens c' !! g = Some y ->
     match gens c !! g with
     | Some x => gen_accepts [] x y
     | None => exists kp nc, y = Starting kp nc
     end).

Lemma gens_kept_same c c' : gens c' = gens c -> gens_kept c c'.
Proof.
  intros Hg. split; [by rewrite Hg|]. intros g y Hy. rewrite <- Hg, Hy.
  destruct y; cbn; [done|by rewrite app_nil_r].
Qed.

Lemma gens_kept_insert c c' g x y :
  gens c !! g = Some x -> gens c' = <[g := y]> (gens c) -> gen_accepts [] x y -> gens_kept c c'.
Proof.
  intros Hx Hg Ha. split; [by rewrite Hg, length_insert|]. intros i z. rewrite Hg.
  intros [(<- & <- & _)|[_ Hz]]%list_lookup_insert_Some; [by rewrite Hx|].
  rewrite Hz. destruct z; cbn; [done|by rewrite app_nil_r].
Qed.

Lemma comms_stop_accepts w w' : comms_stop n w = Some w' -> accepted w' = accepted w.
Proof.
  unfold comms_stop. destruct (exec n EStop w) as [w1|] eqn:H1; [|done]. intros H2.
  apply exec_accepts in H1, H2. by rewrite H2, H1, !app_nil_r.
Qed.

Lemma stop_kept found none (c c' : client) new :
  stopCommsWorkers (H := comms_workers n) found none c = Some (new, c') -> gens_kept c c'.
Proof.
  unfold stopCommsWorkers. destruct (conn_mu c); [done|]. destruct (c_conn c) as [g|].
  2: { intros Hs. simplify_eq. by apply gens_kept_same. }
  destruct (gens c !! g) as [[|w]|] eqn:Hw; [done| |done]. cbn [w_stop comms_workers].
  destruct (comms_stop n w) as [w'|] eqn:Hs; intros Heq; simplify_eq; [|by apply gens_kept_same].
  eapply gens_kept_insert; [exact Hw|done|]. cbn. by rewrite app_nil_r, (comms_stop_accepts w w').
Qed.

Lemma on_status_gens r goes (c c' : client) new : on_status r goes c = Some (new, c') -> gens c' = gens c.
Proof. unfold on_status. by destruct r; intros; simplify_eq/=. Qed.

Lemma go_kept t (c c' : client) new :
  go (H := comms_workers n) o t c = Some (new, c') -> gens_kept c c'.
Proof.
  intros Hgo. destruct t; cbn [go] in Hgo;
    try (apply on_status_gens in Hgo; by apply gens_kept_same);
    try (by apply stop_kept in Hgo).
  - unfold life_Connect in Hgo. repeat case_match; simplify_eq/=; by apply gens_kept_same.
  - done.
  - unfold after_failure in Hgo. repeat case_match; simplify_eq/=; by apply gens_kept_same.
  - unfold begin_workers in Hgo. repeat case_match; simplify_eq/=; [by apply gens_kept_same|].
    split; [cbn; rewrite length_app; lia|]. cbn. intros g y Hy.
    apply lookup_snoc_Some in Hy as [[Hlt Hy]|[-> <-]].
    + rewrite Hy. destruct y; cbn; [done|by rewrite app_nil_r].
    + rewrite (proj2 (lookup_ge_None _ _)) by lia. eauto.
  - apply on_status_gens in Hgo. apply gens_kept_same. by destruct r.
  - destruct (connected_fn true (cs c)); simplify_eq/=; by apply gens_kept_same.
  - unfold end_workers in Hgo. destruct (gens c !! g) as [[kp nc|]|] eqn:Hg; try done. simplify_eq/=.
    eapply gens_kept_insert; [exact Hg|by destruct r|]. done.
  - simplify_eq. by apply gens_kept_same.
  - destruct (workers_gone c); simplify_eq. by apply gens_kept_same.
  - destruct (comms_gone c); simplify_eq. by apply gens_kept_same.
  - simplify_eq. by apply gens_kept_same.
  - destruct (workers_gone c); simplify_eq. by apply gens_kept_same.
  - destruct (comms_gone c); simplify_eq. by apply gens_kept_same.
Qed.

(** An action inside generation [g], with the messages it accepts. *)
Definition took (l : worker_label) : list (list Z) :=
  match l with CommsLabel (EPush bs) => [bs] | _ => [] end.

Lemma inside_gens g l (c c' : client) :
  inside (H := comms_workers n) g l c = Some c' ->
  exists w w', gens c !! g = Some (Running w) /\ gens c' = <[g := Running w']> (gens c) /\
    accepted w' = accepted w ++ took l.
Proof.
  unfold inside. destruct (gens c !! g) as [[|w]|]; [done| |done]. cbn [w_exec comms_workers].
  destruct (comms_exec n l w) as [[w' k]|] eqn:He; [|done]. intros Hc. simplify_eq/=.
  exists w, w'. split; [done|]. split; [done|].
  unfold comms_exec in He. destruct l as [l|].
  - destruct (is_stopper l); [done|]. destruct (exec n l w) as [v|] eqn:Hx; [|done]. simplify_eq.
    rewrite (exec_accepts _ _ _ Hx). by destruct l.
  - destruct (exec n EKeepaliveLost w) as [v|] eqn:Hx; [|done]. simplify_eq.
    by rewrite (exec_accepts _ _ _ Hx).
Qed.

Lemma inside_kept g l (c c' : client) :
  took l = [] -> inside (H := comms_workers n) g l c = Some c' -> gens_kept c c'.
Proof.
  intros Hl (w & w' & Hw & Hg & Ha)%inside_gens. eapply gens_kept_insert; [exact Hw|exact Hg|].
  cbn. by rewrite Ha, Hl.
Qed.

Lemma life_kept l (c c' : client) :
  takes_push l = false -> exec_life (H := comms_workers n) o l c = Some c' -> gens_kept c c'.
Proof.
  intros Hl He. destruct l as [i|g l|i g|i res|g|g| |]; cbn [exec_life] in He.
  - destruct (gos c !! i) as [t|]; [|done]. destruct (go o t c) as [[new c1]|] eqn:Hgo; [|done].
    simplify_eq. by apply (go_kept t c c1 new).
  - eapply inside_kept; [|exact He]. destruct l as [[]|]; done.
  - destruct (gos c !! i) as [[]|]; try done.
    cbn [w_take comms_workers] in He.
    destruct (inside (H := comms_workers n) g (CommsLabel EDisconnect) c) as [c1|] eqn:Hin; [|done].
    simplify_eq. by apply (inside_kept g (CommsLabel EDisconnect) c c1).
  - destruct (gos c !! i) as [[]|]; try done. simplify_eq. by apply gens_kept_same.
  - destruct (gens c !! g) as [[[] nc|]|] eqn:Hg; try done. simplify_eq.
    by eapply gens_kept_insert; [exact Hg|done|].
  - destruct (gens c !! g) as [[[] nc|]|] eqn:Hg; try done. simplify_eq.
    by eapply gens_kept_insert; [exact Hg|done|].
  - simplify_eq. by apply gens_kept_same.
  - simplify_eq. by apply gens_kept_same.
Qed.

(** ** Calls and generations agree *)

(** The tokens of calls whose message nobody took: complete, with an error unless the
    call found the status reconnecting. *)
Definition answered (t : push_call) : Prop :=
  match t with
  | PushReturned tok => complete tok = true /\ t_err tok <> None
  | PushDropped tok => complete tok = true /\ t_err tok = None
  | _ => True
  end.

(** A token that was returned is complete; the messages accepted by the generations
    are those of the calls that say so, each once. *)
Record push_inv (x : pushing) : Prop := mkPushInv {
  pi_life : life_reachable (H := comms_workers n) o (cl x);
  pi_complete : forall i t, pushes x !! i = Some t -> answered t;
  pi_taken : forall i g j bs, pushes x !! i = Some (PushTaken g j bs) ->
    exists w, gens (cl x) !! g = Some (Running w) /\ accepted w !! j = Some bs;
  pi_accepted : forall g w j bs, gens (cl x) !! g = Some (Running w) -> accepted w !! j = Some bs ->
    exists i, pushes x !! i = Some (PushTaken g j bs);
  pi_once : forall i i' g j bs bs', pushes x !! i = Some (PushTaken g j bs) ->
    pushes x !! i' = Some (PushTaken g j bs') -> i = i';
}.

Lemma push_inv_life x c :
  push_inv x -> life_reachable (H := comms_workers n) o c -> gens_kept (cl x) c ->
  push_inv (mkPushing c (pushes x)).
Proof.
  intros [_ Hc Ht Ha Ho] Hr [Hlen Hk]. split; cbn; [done|done| | |done].
  - intros i g j bs Hi. destruct (Ht i g j bs Hi) as (w & Hw & Hj).
    destruct (lookup_lt_is_Some_2 (gens c) g) as [y Hy].
    { apply lookup_lt_Some in Hw. lia. }
    specialize (Hk g y Hy). rewrite Hw in Hk. destruct y as [|w']; [done|]. cbn in Hk.
    rewrite app_nil_r in Hk. exists w'. by rewrite Hk.
  - intros g w' j bs Hg Hj. specialize (Hk g _ Hg). destruct (gens (cl x) !! g) as [[|w]|] eqn:Hw.
    + cbn in Hk. by rewrite Hk in Hj.
    + cbn in Hk. rewrite Hk, app_nil_r in Hj. by apply (Ha g w).
    + by destruct Hk as (kp & nc & ?).
Qed.

Definition is_taken (t : push_call) : bool := match t with PushTaken _ _ _ => true | _ => false end.

Lemma push_go_answers t c t' : push_go t c = Some t' -> answered t'.
Proof. intros Hg. unfold push_go in Hg. destruct t; repeat case_match; by simplify_eq/=. Qed.

(** Only a client that is reconnecting drops messages. *)
Lemma push_go_drops t c t' :
  push_go t c = Some t' -> (exists tok, t' = PushDropped tok) -> ConnectionStatus c = reconnecting.
Proof.
  intros Hg [tok ->]. unfold push_go in Hg. destruct t; repeat (case_match; try done); simplify_eq/=.
  by case_bool_decide.
Qed.

Lemma push_go_untaken t c t' : push_go t c = Some t' -> is_taken t = false /\ is_taken t' = false.
Proof. unfold push_go. destruct t; repeat case_match; intros; by simplify_eq/=. Qed.

Lemma push_go_work t c t' : push_go t c = Some t' -> push_work t' < push_work t.
Proof. unfold push_go. destruct t; repeat case_match; intros; simplify_eq/=; lia. Qed.

(** A call that is not taken changes, or a new one appears. *)
Lemma push_inv_calls x ps :
  push_inv x ->
  (forall i t, ps !! i = Some t -> is_taken t = true -> pushes x !! i = Some t) ->
  (forall i t, pushes x !! i = Some t -> is_taken t = true -> ps !! i = Some t) ->
  (forall i t, ps !! i = Some t -> answered t) ->
  push_inv (mkPushing (cl x) ps).
Proof.
  intros [Hr Hc Ht Ha Ho] H1 H2 H3. split; cbn; [done|done| | |].
  - intros i g j bs Hi. by apply (Ht i), H1.
  - intros g w j bs Hg Hj. destruct (Ha g w j bs Hg Hj) as [i Hi]. exists i. by apply H2.
  - intros i i' g j bs bs' Hi Hi'. apply (Ho i i' g j bs bs'); by apply H1.
Qed.

Lemma push_inv_takes x i g bs w c :
  push_inv x -> pushes x !! i = Some (PushOffers bs) -> gens (cl x) !! g = Some (Running w) ->
  inside (H := comms_workers n) g (CommsLabel (EPush bs)) (cl x) = Some c ->
  push_inv (mkPushing c (<[i := PushTaken g (length (accepted w)) bs]> (pushes x))).
Proof.
  intros [Hr Hc Ht Ha Ho] Hi Hw Hin.
  pose proof (inside_gens _ _ _ _ Hin) as (w0 & w' & Hw0 & Hg & Hacc). rewrite Hw in Hw0.
  injection Hw0 as <-. cbn [took] in Hacc. pose proof (lookup_lt_Some _ _ _ Hi) as Hlt.
  pose proof (lookup_lt_Some _ _ _ Hw) as Hltg.
  assert (Hold : forall k g' j b, pushes x !! k = Some (PushTaken g' j b) -> k <> i).
  { intros k g' j b Hk ->. congruence. }
  assert (Hfresh : forall k b, pushes x !! k <> Some (PushTaken g (length (accepted w)) b)).
  { intros k b Hk. destruct (Ht _ _ _ _ Hk) as (v & Hv & Hj). rewrite Hw in Hv. injection Hv as <-.
    apply lookup_lt_Some in Hj. lia. }
  split; cbn; rewrite ?Hg.
  - eapply rtc_r; [exact Hr|]. by exists (Inside g (CommsLabel (EPush bs))).
  - intros k t [(_ & <- & _)|[_ Hk]]%list_lookup_insert_Some; [done|by eapply Hc].
  - intros k g' j b [(_ & Heq & _)|[_ Hk]]%list_lookup_insert_Some.
    + simplify_eq. exists w'. rewrite list_lookup_insert_eq, Hacc by done.
      by rewrite lookup_app_r, Nat.sub_diag by lia.
    + destruct (Ht _ _ _ _ Hk) as (v & Hv & Hj). destruct (decide (g' = g)) as [->|Hng].
      * exists w'. rewrite list_lookup_insert_eq, Hacc by done. rewrite Hw in Hv. injection Hv as <-.
        split; [done|]. by apply lookup_app_l_Some.
      * exists v. by rewrite list_lookup_insert_ne by done.
  - intros g' v j b Hv Hj. apply list_lookup_insert_Some in Hv as [(<- & Hv & _)|[_ Hv]].
    + injection Hv as <-. rewrite Hacc in Hj. apply lookup_snoc_Some in Hj as [[_ Hj]|[-> <-]].
      * destruct (Ha g w j b Hw Hj) as [k Hk]. exists k. rewrite list_lookup_insert_ne; [done|].
        intros <-. by eapply Hold.
      * exists i. by rewrite list_lookup_insert_eq.
    + destruct (Ha g' v j b Hv Hj) as [k Hk]. exists k. rewrite list_lookup_insert_ne; [done|].
      intros <-. by eapply Hold.
  - intros k k' g' j b b' [(<- & Heq & _)|[_ Hk]]%list_lookup_insert_Some
      [(<- & Heq' & _)|[_ Hk']]%list_lookup_insert_Some; simplify_eq; [done|by apply Hfresh in Hk'
      |by apply Hfresh in Hk|by eapply Ho].
Qed.

Lemma exec_push_inv l x y : push_inv x -> exec_push l x = Some y -> push_inv y.
Proof.
  intros Hi He. destruct l as [l|p|i|i g]; cbn in He.
  - destruct (takes_push l) eqn:Hl; [done|].
    destruct (exec_life (H := comms_workers n) o l (cl x)) as [c|] eqn:Hc; [|done]. simplify_eq.
    apply push_inv_life; [done| |by eapply life_kept].
    eapply rtc_r; [apply (pi_life x Hi)|by exists l].
  - simplify_eq. apply push_inv_calls; [done| | |].
    + intros i t [[_ Ht]|[-> <-]]%lookup_snoc_Some Hk; [done|done].
    + intros i t Ht _. by apply lookup_app_l_Some.
    + intros i t [[_ Ht]|[-> <-]]%lookup_snoc_Some; [by apply (pi_complete x Hi i)|done].
  - destruct (pushes x !! i) as [t|] eqn:Ht; [|done].
    destruct (push_go t (cs (cl x))) as [t'|] eqn:Hg; [|done]. simplify_eq.
    destruct (push_go_untaken _ _ _ Hg) as [Hu Hu']. pose proof (lookup_lt_Some _ _ _ Ht) as Hlt.
    apply push_inv_calls; [done| | |].
    + intros k u [(_ & <- & _)|[_ Hk]]%list_lookup_insert_Some Hku; [congruence|done].
    + intros k u Hk Hku. rewrite list_lookup_insert_ne; [done|]. intros ->. congruence.
    + intros k u [(_ & <- & _)|[_ Hk]]%list_lookup_insert_Some; [by eapply push_go_answers|].
      by apply (pi_complete x Hi k).
  - destruct (pushes x !! i) as [[]|] eqn:Ht; try done.
    destruct (gens (cl x) !! g) as [[|w]|] eqn:Hw; try done.
    destruct (inside (H := comms_workers n) g (CommsLabel (EPush bs)) (cl x)) as [c|] eqn:Hin; [|done].
    simplify_eq. by apply push_inv_takes.
Qed.

Lemma push_inv_reachable x : push_reachable x -> push_inv x.
Proof.
  apply (rtc_ind_r push_inv).
  - split; cbn; [apply rtc_refl|done|done| |done]. by intros g w j bs Hg.
  - intros x' y _ [l He] Hi. by eapply exec_push_inv.
Qed.

Lemma exec_push_drops l x y i tok :
  exec_push l x = Some y -> pushes y !! i = Some (PushDropped tok) ->
  pushes x !! i = Some (PushDropped tok) \/ st (cs (cl x)) = reconnecting.
Proof.
  intros He Ht. destruct l as [l|p|k|k g]; cbn in He.
  - destruct (takes_push l); [done|]. destruct (exec_life o l (cl x)); simplify_eq. by left.
  - simplify_eq. cbn in Ht. apply lookup_snoc_Some in Ht as [[_ Ht]|[_ ?]]; [by left|done].
  - destruct (pushes x !! k) as [t|] eqn:Hk; [|done].
    destruct (push_go t (cs (cl x))) as [t'|] eqn:Hg; [|done]. simplify_eq. cbn in Ht.
    apply list_lookup_insert_Some in Ht as [(_ & -> & _)|[_ Ht]]; [right|by left].
    eapply push_go_drops; eauto.
  - destruct (pushes x !! k) as [[]|]; try done. destruct (gens (cl x) !! g) as [[|w]|]; try done.
    destruct (inside g (CommsLabel (EPush bs)) (cl x)); [|done]. simplify_eq. cbn in Ht.
    apply list_lookup_insert_Some in Ht as [(_ & ? & _)|[_ Ht]]; [done|by left].
Qed.

(** ** Coming to rest *)

Definition push_weight (x : pushing) : nat :=
  life_weight (H := comms_workers n) (H0 := comms_laws n) o (cl x) + sum_list_with push_work (pushes x).

Lemma own_push_lighter x y : push_inv x -> own_push_step x y -> push_weight y < push_weight x.
Proof.
  intros Hi (l & Hl & He). unfold push_weight. destruct l as [l|p|i|i g]; try done; cbn in *.
  - destruct (takes_push l); [done|].
    destruct (exec_life (H := comms_workers n) o l (cl x)) as [c|] eqn:Hc; [|done]. simplify_eq/=.
    apply Nat.add_lt_mono_r, (own_life_step_weight o); [|by exists l].
    apply (life_inv_reachable o). apply (pi_life x Hi).
  - destruct (pushes x !! i) as [t|] eqn:Ht; [|done].
    destruct (push_go t (cs (cl x))) as [t'|] eqn:Hg; [|done]. simplify_eq/=.
    pose proof (sum_insert push_work (pushes x) i t t' Ht). pose proof (push_go_work _ _ _ Hg). lia.
Qed.

Lemma own_push_bounded m x y :
  push_inv x -> nsteps own_push_step m x y -> m + push_weight y <= push_weight x /\ push_inv y.
Proof.
  intros Hi Hs. induction Hs as [x|m x y z Hxy _ IH]; [done|].
  pose proof (own_push_lighter x y Hi Hxy). destruct Hxy as (l & _ & He).
  destruct (IH (exec_push_inv l x y Hi He)). split; [lia|done].
Qed.

(** When none of a generation's goroutines can move, all its tokens are complete. *)
Lemma stuck_results w :
  comms_good n w -> (forall l, comms_own l = true -> comms_exec n l w = None) ->
  (results w).*1 = accepted w.
Proof.
  intros Hg Hst. pose proof (comms_good_wf n w Hg) as Hw. destruct Hg as [(k & nc & Hr) Hsp].
  assert (Hoth : forall a, is_own a = true -> is_stopper a = false -> exec n a w = None).
  { intros a Ha Hsa. specialize (Hst (CommsLabel a)). cbn in Hst. rewrite Ha, Hsa in Hst.
    specialize (Hst eq_refl). by destruct (exec n a w). }
  rewrite <- (flow_up _ _ (flow_reachable _ _ _ _ Hr)).
  assert (Hany : forall w1, wf w1 -> (forall a, is_own a = true -> exec n a w1 = None) ->
    results w1 = results w -> uplink w1 = uplink w -> (results w).*1 = uplink w).
  { intros w1 Hw1 Hs1 H1 H2. rewrite <- H2, <- H1. symmetry. by apply (stuck_empty n w1). }
  destruct (exec n LWorkersWait w) as [w1|] eqn:H1.
  - assert (Hw1e : w1 = set_g_sp SpComms w /\ g_sp w = SpWorkers).
    { cbn in H1. destruct (g_sp w) eqn:Hg; try done. case_match; by simplify_eq. }
    destruct Hw1e as [-> Hg]. pose proof (exec_wf n _ _ _ Hw H1) as Hw1.
    destruct (exec n LCommsWait (set_g_sp SpComms w)) as [w2|] eqn:H2.
    + assert (w2 = set_g_sp SpDone w) as ->.
      { cbn in H2. case_match; by simplify_eq. }
      apply (Hany (set_g_sp SpDone w)); [by eapply exec_wf| |done..].
      intros a Ha. destruct (is_stopper a) eqn:Hsa; [by destruct a|]. by apply exec_any_sp, Hoth.
    + apply (Hany (set_g_sp SpComms w)); [done| |done..].
      intros a Ha. destruct (is_stopper a) eqn:Hsa; [by destruct a|]. by apply exec_any_sp, Hoth.
  - apply (Hany w); [done| |done..]. intros a Ha. destruct (is_stopper a) eqn:Hsa; [|by apply Hoth].
    destruct a; try done; cbn; by destruct Hsp as [-> | ->].
Qed.

Lemma result_frame l j bs : l !! j = Some (bs, None) -> frame (new_push bs) ∈ sent_frames l.
Proof.
  intros Hj. apply list_elem_of_lookup_2, list_elem_of_split in Hj as (l1 & l2 & ->).
  unfold sent_frames. rewrite fmap_app, concat_app, elem_of_app. right. cbn. by left.
Qed.

(** A result without error is a frame that was written. *)
Lemma result_written w j bs :
  comms_good n w -> results w !! j = Some (bs, None) -> frame (new_push bs) ∈ nc_out (conn w).
Proof.
  intros [(k & nc & Hr) _] Hj. apply flow_reachable in Hr. eapply elem_of_sublist; [|apply Hr].
  by apply result_frame in Hj.
Qed.

End push.

(** C8: every Push is answered.  Whatever the interleaving of any number of calls with
    connecting, losing, reconnecting and disconnecting, the calls and the client make
    boundedly many moves, and when none is left every call has returned a token that
    is complete: by the connection whose redirector took the message, and then, if the
    token reports success, the frame of the message was written on that connection; by
    the call itself with an error; or by the call itself without an error although the
    message is dropped, which happens to calls that find the status reconnecting and to
    no others.  At every moment a message is with at
    most one connection, at one place of what that connection accepted, and
    connections accept no messages but those of the calls. *)
Theorem every_push_answered {URL : Type} (n : nat) (o : ClientOptions URL) (x : pushing) :
  push_reachable n o x ->
  (forall m y, nsteps (own_push_step n o) m x y -> m <= push_weight n o x) /\
  (forall y, rtc (own_push_step n o) x y -> nf (own_push_step n o) y ->
     forall i t, pushes y !! i = Some t ->
       match t with
       | PushReturned tok => complete tok = true /\ t_err tok <> None
       | PushDropped tok => complete tok = true /\ t_err tok = None
       | PushTaken g j bs => exists w err, gens (cl y) !! g = Some (Running w) /\
           results w !! j = Some (bs, err) /\ (err = None -> frame (new_push bs) ∈ nc_out (conn w))
       | _ => False
       end) /\
  (forall l y i tok, exec_push n o l x = Some y -> pushes y !! i = Some (PushDropped tok) ->
     pushes x !! i = Some (PushDropped tok) \/ st (cs (cl x)) = reconnecting) /\
  (forall g w j bs, gens (cl x) !! g = Some (Running w) -> accepted w !! j = Some bs ->
     exists i, pushes x !! i = Some (PushTaken g j bs) /\
       forall i' bs', pushes x !! i' = Some (PushTaken g j bs') -> i' = i) /\
  (forall i g j bs, pushes x !! i = Some (PushTaken g j bs) ->
     exists w, gens (cl x) !! g = Some (Running w) /\ accepted w !! j = Some bs).
Proof.
  intros Hr. pose proof (push_inv_reachable n o x Hr) as Hi.
  split; [|split; [|split; [|split; [|apply Hi]]]].
  - intros m y Hs. destruct (own_push_bounded n o m x y Hi Hs). lia.
  - intros y Hs Hnf i t Ht.
    assert (Hy : push_inv n o y).
    { apply push_inv_reachable. unfold push_reachable. etransitivity; [exact Hr|].
      eapply rtc_subrel; [|exact Hs]. intros a b (l & _ & He). by exists l. }
    assert (Hst : forall l, own_push n l = true -> exec_push n o l y = None).
    { intros l Hl. destruct (exec_push n o l y) eqn:He; [|done]. exfalso. apply Hnf. eexists. by exists l. }
    destruct t as [p|p|bs|g j bs|tok|tok]; [by specialize (Hst (PushGoes i) eq_refl); cbn in Hst; rewrite Ht in Hst..| | |].
    + destruct (pi_taken n o y Hy i g j bs Ht) as (w & Hw & Hj).
      assert (Hli : life_inv (H := comms_workers n) (H0 := comms_laws n) (cl y)).
      { apply (life_inv_reachable o). apply (pi_life n o y Hy). }
      destruct (li_good _ Hli g w Hw) as [Hg _]. cbn in Hg.
      assert (Hres : (results w).*1 = accepted w).
      { apply (stuck_results n); [done|]. intros l Hl.
        specialize (Hst (Lives (Inside g l))). cbn in Hst.
        assert (Htp : takes_push (Inside g l) = false) by by destruct l as [[]|].
        cbn in Htp. rewrite Htp in Hst. specialize (Hst Hl). unfold inside in Hst. rewrite Hw in Hst.
        cbn in Hst. by destruct (comms_exec n l w) as [[]|]. }
      rewrite <- Hres, list_lookup_fmap in Hj. destruct (results w !! j) as [[bs' err]|] eqn:Hrj; [|done].
      cbn in Hj. simplify_eq. exists w, err. split; [done|]. split; [done|]. intros ->.
      by eapply result_written.
    + by apply (pi_complete n o y Hy i _ Ht).
    + by apply (pi_complete n o y Hy i _ Ht).
  - intros l y i tok He Ht. by apply (exec_push_drops n o l x y i tok).
  - intros g w j bs Hw Hj. destruct (pi_accepted n o x Hi g w j bs Hw Hj) as [i Hp].
    exists i. split; [done|]. intros i' bs' Hp'. by eapply (pi_once n o x Hi).
Qed.

(** ** A run *)

(** The run of [life_demo_end], in which Push is called for the message. *)
Definition called (l : life_label worker_label) : list push_label :=
  match l with
  | Inside g (CommsLabel (EPush bs)) => [AppPush (BytesPayload bs); PushGoes 0; PushGoes 0; PushTakes 0 g]
  | l => [Lives l]
  end.

Fixpoint push_run {URL} (o : ClientOptions URL) (ls : list push_label) (x : pushing) : option pushing :=
  match ls with
  | [] => Some x
  | l :: ls => match exec_push 1 o l x with Some y => push_run o ls y | None => None end
  end.

Lemma push_run_reachable {URL} (o : ClientOptions URL) ls x y :
  push_reachable 1 o x -> push_run o ls x = Some y -> push_reachable 1 o y.
Proof.
  revert x. induction ls as [|l ls IH]; cbn; intros x Hr Hy; [by simplify_eq|].
  destruct (exec_push 1 o l x) as [z|] eqn:Hz; [|done].
  apply (IH z); [|done]. eapply rtc_r; [exact Hr|by exists l].
Qed.

Definition push_demo_end : pushing :=
  default (mkPushing new_client [])
    (push_run client_options (concat (called <$> life_demo_connect ++ life_demo_lost ++ life_demo_disconnect))
       (mkPushing new_client [])).

Lemma push_demo_reachable : push_reachable 1 client_options push_demo_end.
Proof.
  unfold push_demo_end. destruct (push_run _ _ _) as [x|] eqn:Hx; [|apply rtc_refl].
  by eapply push_run_reachable; [apply rtc_refl|].
Qed.

Lemma quiet_push x :
  nf (own_client_step 1 client_options) (cl x) ->
  forallb (fun t => match push_work t with O => true | _ => false end) (pushes x) = true ->
  nf (own_push_step 1 client_options) x.
Proof.
  intros Hc Hp [y (l & Hl & He)]. destruct l as [l|p|i|i g]; try done; cbn in *.
  - destruct (takes_push l); [done|]. destruct (exec_life _ l (cl x)) as [c|] eqn:Hx; [|done].
    apply Hc. exists c, l. done.
  - rewrite forallb_forall in Hp. destruct (pushes x !! i) as [t|] eqn:Ht; [|done].
    specialize (Hp t (proj1 (list_elem_of_In _ _) (list_elem_of_lookup_2 _ _ _ Ht))). by destruct t.
Qed.

Lemma every_push_answered_witness :
  pushes push_demo_end = [PushTaken 0 0 [1%Z; 2%Z]] /\
  exists w err, gens (cl push_demo_end) !! 0 = Some (Running w) /\
    results w !! 0 = Some ([1%Z; 2%Z], err) /\
    (err = None -> frame (new_push [1%Z; 2%Z]) ∈ nc_out (conn w)).
Proof.
  split; [vm_compute; reflexivity|].
  destruct (every_push_answered 1 client_options push_demo_end push_demo_reachable) as (_ & H & _).
  refine (H push_demo_end (rtc_refl _ _) _ 0 (PushTaken 0 0 [1%Z; 2%Z]) _); [|vm_compute; reflexivity].
  apply quiet_push; [apply quiet_client; vm_compute; reflexivity|vm_compute; reflexivity].
Defined.
