(* ===== verification/Devices.v ===== *)
(** * A device that connects again

    One client of [ClientPush], with its lost connections and reconnections, at the
    other end of all connections of a device of [Server]: what is handed over
    across all of them is bounded by the calls of Push on either side. *)

From Stdlib Require Import ZArith Lia String.
From stdpp Require Import base list strings gmap numbers relations.
From S2P Require Import Prelude GoIO Codec CodecFacts GoTime Store Server ServerFacts ServerDrain.
From S2P Require Import ServerProps ServerSpec ServerRefine Wire ServerCalls ClientOptions ClientNet.
From S2P Require Import HandlerCalls ClientComms ClientCommsFacts ClientCommsProps ClientWire.
From S2P Require Import EndToEnd Programs.
From S2P Require Import Status Client ClientLife ClientLifeProps ClientPush.

Local Open Scope nat_scope.

(** ** Sums *)

Lemma map_sum_add {A} (f g : nat -> A -> nat) m :
  map_sum (fun k v => f k v + g k v) m = map_sum f m + map_sum g m.
Proof.
  induction m as [|k v m Hk IH] using map_ind; [done|]. rewrite !map_sum_insert by done. lia.
Qed.

(** At most one key counts. *)
Lemma map_sum_one {A} (f : nat -> A -> nat) m :
  (forall k v, m !! k = Some v -> f k v <= 1) ->
  (forall k v k' v', m !! k = Some v -> f k v <> 0 -> m !! k' = Some v' -> f k' v' <> 0 -> k = k') ->
  map_sum f m <= 1.
Proof.
  intros Hle Hone. destruct (decide (map_sum f m = 0)) as [->|Hne]; [lia|].
  assert (Hex : exists k v, m !! k = Some v /\ f k v <> 0).
  { destruct (decide (map_Exists (fun k v => f k v <> 0) m)) as [Hx|Hx]; [exact Hx|]. exfalso. apply Hne.
    apply map_sum_zero. intros k v Hk. destruct (decide (f k v = 0)); [done|]. exfalso. apply Hx. by exists k, v. }
  destruct Hex as (k0 & v0 & Hk0 & Hf0).
  enough (map_sum f m <= 1 + map_sum (fun _ (_ : unit) => 0) ∅) by done.
  apply (map_sum_bump _ _ _ _ k0). intros k. rewrite lookup_empty. cbn.
  destruct (m !! k) as [v|] eqn:Hk; cbn; [|lia]. case_decide as Hd.
  - specialize (Hle k v Hk). lia.
  - destruct (decide (f k v = 0)) as [->|Hf]; [lia|]. exfalso. apply Hd. by apply (Hone k v k0 v0).
Qed.

(** ** Calls of Push and what connections accepted *)

Definition carries (payload : list Z) (t : push_call) : bool :=
  match t with PushTaken _ _ bs => bool_decide (bs = payload) | _ => false end.

Definition carries_on (payload : list Z) (g : nat) (t : push_call) : bool :=
  match t with PushTaken g' _ bs => (g' =? g) && bool_decide (bs = payload) | _ => false end.

Definition how_many (p : push_call -> bool) (ts : list push_call) : nat := length (List.filter p ts).

(** The positions at which a list has a payload. *)
Definition positions (payload : list Z) (l : list (list Z)) : list nat :=
  List.filter (fun j => bool_decide (l !! j = Some payload)) (seq 0 (length l)).

Lemma positions_length payload l : length (positions payload l) = occurrences payload l.
Proof.
  induction l as [|x l IH] using rev_ind; [done|]. unfold positions, occurrences in *.
  rewrite length_app, seq_app, !List.filter_app, !length_app. cbn.
  rewrite lookup_app_r, Nat.sub_diag by lia. cbn. f_equal; [rewrite <- IH|by repeat case_bool_decide; simplify_eq].
  f_equal. apply filter_ext_in. intros j [_ Hj]%in_seq. rewrite lookup_app_l by lia. done.
Qed.

Lemma positions_nodup payload l : NoDup (positions payload l).
Proof. apply NoDup_ListNoDup, List.NoDup_filter, List.seq_NoDup. Qed.

Lemma positions_lookup payload l j : j ∈ positions payload l -> l !! j = Some payload.
Proof.
  unfold positions. intros Hj%list_elem_of_In. apply filter_In in Hj as [_ Hj].
  by apply bool_decide_eq_true in Hj.
Qed.

Section device.
Context {URL : Type} (n : nat) (o : ClientOptions URL).

(** A connection accepted a payload as often as calls put it there. *)
Lemma accepted_calls p g w payload :
  push_reachable n o p -> gens (cl p) !! g = Some (Running w) ->
  occurrences payload (accepted w) <= how_many (carries_on payload g) (pushes p).
Proof.
  intros Hr%push_inv_reachable Hw. unfold how_many. rewrite <- positions_length.
  rewrite <- (length_fmap (fun j => PushTaken g j payload)). apply submseteq_length, NoDup_submseteq.
  - apply NoDup_fmap_2; [|apply positions_nodup]. intros j j' Hj. by injection Hj.
  - intros t (j & -> & Hj)%list_elem_of_fmap. apply positions_lookup in Hj.
    destruct (pi_accepted n o p Hr g w j payload Hw Hj) as [i Hi].
    apply list_elem_of_In, filter_In. split; [apply list_elem_of_In; by eapply list_elem_of_lookup_2|].
    cbn. rewrite Nat.eqb_refl. by apply bool_decide_eq_true.
Qed.

(** Distinct connections, distinct calls. *)
Lemma calls_apart {A} (m : gmap nat A) (q : nat -> A -> bool) (gen_of : nat -> nat) payload ts :
  (forall c v c' v', m !! c = Some v -> q c v = true -> m !! c' = Some v' -> q c' v' = true ->
     gen_of c = gen_of c' -> c = c') ->
  map_sum (fun c v => if q c v then how_many (carries_on payload (gen_of c)) ts else 0) m <=
    how_many (carries payload) ts.
Proof.
  intros Hinj. induction ts as [|t ts IH].
  - rewrite map_sum_zero; [done|]. intros c v _. by destruct (q c v).
  - rewrite (map_sum_ext _ (fun c v => (if q c v then (if carries_on payload (gen_of c) t then 1 else 0) else 0) +
      (if q c v then how_many (carries_on payload (gen_of c)) ts else 0))).
    2: { intros c v _. destruct (q c v); [|done]. unfold how_many. cbn.
         by destruct (carries_on payload (gen_of c) t). }
    rewrite map_sum_add.
    assert (Hone : map_sum (fun c v => if q c v then (if carries_on payload (gen_of c) t then 1 else 0) else 0) m <=
      if carries payload t then 1 else 0).
    { destruct (carries payload t) eqn:Ht.
      - apply map_sum_one; [intros c v _; repeat case_match; lia|]. intros c v c' v' Hc Hf Hc' Hf'.
        destruct (q c v) eqn:Hq, (q c' v') eqn:Hq'; try lia. apply (Hinj c v c' v'); [done..|].
        destruct t; try done. cbn in Hf, Hf'.
        destruct (Nat.eqb_spec g (gen_of c)), (Nat.eqb_spec g (gen_of c')); cbn in *; congruence.
      - rewrite map_sum_zero; [done|]. intros c v _. destruct (q c v); [|done].
        destruct t; try done. cbn in *. rewrite Ht. by destruct (_ =? _). }
    unfold how_many in *. cbn. destruct (carries payload t); cbn; lia.
Qed.

End device.

(** ** The client of the device *)

(** The goroutines behind connection [c]: its generation is [gen_of c]. *)
Definition client_at (p : pushing) (gen_of : connid -> nat) (c : connid) : comms :=
  match gens (cl p) !! gen_of c with Some (Running w) => w | _ => start false (peer_sends []) end.

(** Every connection that authenticated as the device is one of the client's, and no
    connection of the client is at the other end of two of them. *)
Record one_client {URL} (o : ClientOptions URL) (n : nat) (p : pushing) (gen_of : connid -> nat)
    (d : gostring) (s : server) : Prop := mkOneClient {
  oc_joined : forall c y nc, dcs s !! c = Some y -> deviceID y = d -> nets s !! c = Some nc ->
    exists w, gens (cl p) !! gen_of c = Some (Running w) /\ joined o n nc w /\ sendable o w;
  oc_apart : forall c y c' y', dcs s !! c = Some y -> deviceID y = d ->
    dcs s !! c' = Some y' -> deviceID y' = d -> gen_of c = gen_of c' -> c = c';
}.

Lemma one_client_joined {URL} (o : ClientOptions URL) n p gen_of d s :
  one_client o n p gen_of d s -> all_joined o n (client_at p gen_of) d s.
Proof.
  intros [Hj _] c y nc Hy Hd Hnc. destruct (Hj c y nc Hy Hd Hnc) as (w & Hw & Hx).
  unfold client_at. by rewrite Hw.
Qed.

Lemma device_calls {URL} (o : ClientOptions URL) n so x p gen_of d payload :
  push_reachable n o p -> inv so x -> one_client o n p gen_of d (srv x) ->
  over_clients (client_at p gen_of) d (srv x) (fun s => occurrences payload (accepted s)) <=
    how_many (carries payload) (pushes p).
Proof.
  intros Hp Hi [Hj Ha]. unfold over_clients.
  etransitivity; [|apply (calls_apart (dcs (srv x)) (fun _ y => bool_decide (deviceID y = d)) gen_of)].
  - apply map_sum_le. intros c y Hy. unfold of_device. case_decide as Hd; [|lia].
    rewrite bool_decide_eq_true_2 by done. destruct (inv_dc _ _ Hi c y Hy) as (nc & Hnc & _).
    destruct (Hj c y nc Hy Hd Hnc) as (w & Hw & _). unfold client_at. rewrite Hw.
    by apply (accepted_calls n o).
  - intros c y c' y' Hy Hq%bool_decide_eq_true Hy' Hq'%bool_decide_eq_true. by apply (Ha c y c' y').
Qed.

(** C9: across all connections of a device, with the client losing them and
    reconnecting in between, every call of Push is worth at most one message on
    either side: the server's application is handed a payload from the device at
    most as often as the device called Push with it and a connection took it, and
    each handler of the client, over all its connections, is called with a payload at
    most as often as the server's application called Push with it for the device. *)
Theorem pushes_delivered_at_most_once {URL : Type} (so : ServerOptions) (o : ClientOptions URL) (n : nat)
    (hist : list (gostring * list Z)) (x : config) (p : pushing) (gen_of : connid -> nat)
    (d : gostring) (payload : list Z) (h : nat) :
  h < n -> ServerCalls.calls so hist x -> push_reachable n o p -> one_client o n p gen_of d (srv x) ->
  count (is_delivery d payload) (events (srv x)) <= how_many (carries payload) (pushes p) /\
  over_clients (client_at p gen_of) d (srv x) (fun s => occurrences payload (heard h s)) <=
    in_mailbox d payload hist.
Proof.
  intros Hh Hc Hp Hone. pose proof (calls_reachable _ _ _ Hc) as Hr. pose proof (inv_reachable _ _ Hr) as Hi.
  destruct (messages_accounted_end_to_end so o n _ hist x d payload h Hh Hc (one_client_joined _ _ _ _ _ _ Hone)).
  pose proof (device_calls o n so x p gen_of d payload Hp Hi Hone). lia.
Qed.

(** ** A run *)

(** The run of [Programs.e2e_client] as that of a client that connects and calls Push
    five times. *)
Definition e2e_inside (ls : list label) : list push_label := (fun l => Lives (Inside 0 (CommsLabel l))) <$> ls.

Definition e2e_call (k : nat) : list push_label :=
  [AppPush (BytesPayload (ping k)); PushGoes k; PushGoes k; PushTakes k 0] ++ e2e_inside [LSendObound; LWrite].

Definition e2e_device_labels : list push_label :=
  (Lives <$> [AppConnect; GoOn 0; AttemptEnds 0 (inr e2e_conn); GoOn 0; GoOn 0; GoOn 0]) ++
  e2e_inside [LConnectEnd] ++ concat (e2e_call <$> seq 0 n_pings) ++
  e2e_inside (concat (replicate 5 [LRead; LIbound; LOutput; LPublish; LIncomingPub; LHandlerCall 0])).

Definition e2e_device : pushing :=
  default (mkPushing new_client []) (push_run e2e_options e2e_device_labels (mkPushing new_client [])).

Lemma e2e_device_reachable : push_reachable 1 e2e_options e2e_device.
Proof.
  unfold e2e_device. destruct (push_run _ _ _) as [x|] eqn:Hx; [|apply rtc_refl].
  by eapply push_run_reachable; [apply rtc_refl|].
Qed.

Lemma e2e_device_client : gens (cl e2e_device) = [Running e2e_client].
Proof. vm_compute. reflexivity. Qed.

Lemma e2e_one_client : one_client e2e_options 1 e2e_device (fun _ => 0) e2e (srv e2e_served).
Proof.
  split.
  - intros c y nc Hy _ Hnc. exists e2e_client. rewrite e2e_device_client. split; [done|].
    rewrite e2e_devices in Hy. apply lookup_singleton_Some in Hy as [<- _].
    assert (Hnet : e2e_net = nc) by (unfold e2e_net; rewrite Hnc; reflexivity).
    rewrite <- Hnet. exact e2e_joined.
  - intros c y c' y' Hy _ Hy' _ _. rewrite e2e_devices in Hy, Hy'.
    apply lookup_singleton_Some in Hy as [<- _], Hy' as [<- _]. done.
Qed.

Lemma pushes_delivered_at_most_once_witness :
  count (is_delivery e2e (ping 0)) (events (srv e2e_served)) = 1 /\
  how_many (carries (ping 0)) (pushes e2e_device) = 1 /\
  count (is_delivery e2e (ping 0)) (events (srv e2e_served)) <= how_many (carries (ping 0)) (pushes e2e_device).
Proof.
  split; [vm_compute; reflexivity|]. split; [vm_compute; reflexivity|].
  exact (proj1 (pushes_delivered_at_most_once (go_server []) e2e_options 1 e2e_history e2e_served e2e_device
    (fun _ => 0) e2e (ping 0) 0 Nat.lt_0_1 (echo_run_calls _ _ _ e2e_echo_run) e2e_device_reachable e2e_one_client)).
Defined.

(** The same client when its goroutines have come to rest: the server's end of the
    connection has no more bytes for it, and nobody has closed it yet. *)
Definition e2e_rest : list label :=
  [LRead; LIbound; LReadEnd; LOutput; LStoreClosed; LIboundClosed; LIncomingEnd; LMxError;
   LOutputClosed; LMxClose; LMxEnd; LFromIncomingClosed; LPublishClosed; LIncomingPubClosed;
   LStopAck; LAckCopyStop; LAckStopped; LCloseAckOut; LAckClosed].

Definition e2e_rested : comms := default e2e_client (comms_run 1 e2e_rest e2e_client).

Lemma e2e_rested_reachable : comms_reachable 1 true e2e_conn e2e_rested.
Proof.
  unfold e2e_rested. destruct (comms_run 1 e2e_rest e2e_client) as [s|] eqn:Hs; [|exact e2e_client_runs].
  apply comms_run_steps in Hs. unfold comms_reachable in *. etransitivity; [exact e2e_client_runs|exact Hs].
Qed.

Lemma quiet_comms s :
  cannot 1 (own_labels ++ [LCloseConn; LWorkersWait; LCommsWait]) s = true -> nf (own_step 1) s.
Proof.
  intros Hs [s' (l & Hl & He)]. rewrite (label_quiet 1 (own_labels ++ [LCloseConn; LWorkersWait; LCommsWait]) l s) in He; [done| | |exact Hs].
  - intros Hno. destruct l; try discriminate Hl; try (by destruct (Hno i));
      unfold own_labels; cbn [In app]; tauto.
  - unfold own_labels. cbn [In app]. tauto.
Qed.

Lemma e2e_client_frames :
  nc_out (conn e2e_rested) =
  frame <$> PConnect (newConnectMsgFromOptions (NewClient e2e_options)) :: (new_push <$> e2e_pings).
Proof. vm_compute. reflexivity. Qed.

Lemma e2e_whole : joined_whole e2e_options 1 e2e_net e2e_rested.
Proof.
  exists e2e_downstream. split; [|split].
  - exists e2e_fresh, 30%Z, e2e_conn, true. split; [reflexivity|]. split; [reflexivity|].
    split; [vm_compute; reflexivity|apply e2e_rested_reachable].
  - assert (Hi : inv (go_server []) e2e_served).
    { apply inv_reachable. exact (calls_reachable _ _ _ (echo_run_calls _ _ _ e2e_echo_run)). }
    split; [|reflexivity]. apply (inv_out _ _ Hi 0); vm_compute; reflexivity.
  - split; [|vm_compute; reflexivity]. rewrite e2e_client_frames. apply Forall_fmap.
    constructor; [by eexists; split; [|reflexivity]; apply connect_packet_ok|].
    apply Forall_fmap, Forall_forall. intros bs Hbs. exists (new_push bs). split; [|reflexivity].
    apply new_push_ok. revert bs Hbs. apply Forall_forall. apply (bool_decide_unpack _). vm_compute. exact I.
Qed.

Lemma nothing_lost_end_to_end_witness :
  push_payloads (packets (nc_all e2e_net)) = e2e_pings /\ dispatched e2e_rested = echo <$> e2e_pings /\
  push_payloads (packets (nc_all e2e_net)) = accepted e2e_rested /\
  dispatched e2e_rested = push_payloads (outbox e2e_net) /\
  forall h, h < 1 -> heard h e2e_rested ≡ₚ push_payloads (outbox e2e_net).
Proof.
  split; [vm_compute; reflexivity|]. split; [vm_compute; reflexivity|].
  refine (nothing_lost_end_to_end e2e_options 1 e2e_net e2e_rested e2e_whole _ _ _ _).
  - split; [vm_compute; reflexivity|]. apply (bool_decide_unpack _). vm_compute. exact I.
  - apply quiet_comms. vm_compute. reflexivity.
  - vm_compute. reflexivity.
  - apply Forall_forall. intros [bs e] Hr. revert Hr. vm_compute. intros Hr.
    repeat (apply elem_of_cons in Hr as [Hr|Hr]; [by injection Hr|]). by apply not_elem_of_nil in Hr.
Defined.
