(* ===== verification/Delivery.v ===== *)
(** * Exactly once, end to end

    What the client and the server promise together when nothing cuts them short:
    the half of the accounting that [EndToEnd.messages_accounted_end_to_end] leaves
    open.  The server is at rest ([ServerComplete]), the clients are ([EndToEnd]),
    and the network between them has carried every byte. *)

From Stdlib Require Import ZArith Lia String.
From stdpp Require Import base list strings gmap numbers relations.
From S2P Require Import Prelude GoIO Codec CodecFacts GoTime Store Server ServerFacts ServerDrain.
From S2P Require Import ServerProps ServerSpec ServerRefine Wire ServerCalls ServerPushes ServerComplete.
From S2P Require Import ClientOptions ClientNet HandlerCalls ClientComms ClientCommsFacts ClientCommsProps ClientWire.
From S2P Require Import EndToEnd Programs Devices.

Local Open Scope Z_scope.

Section whole.
Context {URL : Type} (o : ClientOptions URL) (n : nat).

(** A connection on which everything went well: the network has lost nothing, the
    client is at rest with its connection open and all its tokens successful, and it
    has sent nothing but messages and pings. *)
Record undisturbed (nc : netconn) (s : comms) : Prop := mkUndisturbed {
  und_joined : joined_whole o n nc s;
  und_sendable : sendable o s;
  und_rest : nf (own_step n) s;
  und_open : nc_closed (conn s) = false;
  und_results : Forall (fun r => snd r = None) (results s);
  und_chatty : forallb chatty (tail (packets (nc_all nc))) = true;
}.

(** All messages the client accepted are the server's to serve. *)
Lemma undisturbed_serve nc s : undisturbed nc s -> to_serve nc = accepted s.
Proof.
  intros [Hj Hs Hnf Hc Hall Hch]. destruct (Hj) as (f & Hon & _).
  destruct (rested o n f s Hon Hnf) as (_ & _ & Hres & _).
  pose proof (uplink_whole o n nc s Hj Hs Hres Hall) as Hup. unfold to_serve. rewrite (served_chatty _ Hch).
  rewrite <- Hup. destruct (Hj) as (f' & (fresh & kp & nc0 & k & Hin & Hout & Hcs & Hr) & _ & Hcar).
  destruct (connectServer_accepted _ _ _ _ Hcs) as [Ho _]. rewrite Hout in Ho. cbn [app] in Ho.
  destruct (client_spoken _ _ _ _ Hr (proj2 Hs)) as (l & Hl0 & _). rewrite Ho in Hl0.
  assert (Hok : packet_ok (PConnect (newConnectMsgFromOptions (NewClient o)))) by by apply connect_packet_ok, Hs.
  rewrite (carried_whole_outbox _ _ Hcar). unfold outbox. rewrite Hl0. cbn [app].
  rewrite fmap_cons. cbn [concat]. rewrite (sent_frame _ Hok). done.
Qed.

(** All PUSH packets of the server reached every handler of the client. *)
Lemma undisturbed_heard nc s h : undisturbed nc s -> (h < n)%nat -> heard h s ≡ₚ pushed (nc_out nc).
Proof.
  intros [Hj Hs Hnf Hc Hall Hch] Hh. destruct (Hj) as (f & Hon & _).
  destruct (rested o n f s Hon Hnf) as (Hrd & Hd & _ & Hall'). rewrite (Hall' h Hh).
  by rewrite (downlink_whole o n nc s Hj Hd Hrd Hc).
Qed.

End whole.

(** C3: end to end, exactly once.  If every connection that authenticated as a device
    went well, and the server, now at rest, shut none of them and answered no call of
    Push for the device with an error, then for every payload the server's
    application was handed the payload from the device exactly as often as the Push of
    the device's clients accepted it, and each handler of the clients was called with
    it exactly as often as the application called Push with it for the device. *)
Theorem delivered_exactly_once {URL : Type} (so : ServerOptions) (o : ClientOptions URL) (n : nat)
    (clients : connid -> comms) (l : ledger) (hist : list (gostring * list Z)) (x : config) (d : gostring) :
  recorded so l x -> ServerCalls.calls so hist x -> at_rest so x -> has_MessageHandler so = true ->
  failed_pushes d (srv x) = 0%nat ->
  (forall c y nc, dcs (srv x) !! c = Some y -> deviceID y = d -> nets (srv x) !! c = Some nc ->
     c ∉ shut l /\ undisturbed o n nc (clients c)) ->
  forall payload h, (h < n)%nat ->
    count (is_delivery d payload) (events (srv x)) =
      over_clients clients d (srv x) (fun s => occurrences payload (accepted s)) /\
    over_clients clients d (srv x) (fun s => occurrences payload (heard h s)) =
      in_mailbox d payload hist.
Proof.
  intros Hr Hcalls Hrest Ho Hfail Hall payload h Hh. destruct (books_closed so l x Hr Hrest) as [Hp Hs].
  pose proof (inv_reachable _ _ (recorded_reachable _ _ _ Hr)) as Hi. split.
  - rewrite (Hs Ho). apply map_sum_ext. intros c y Hy. unfold of_device. case_decide as Hd; [|done].
    destruct (inv_dc _ _ Hi c y Hy) as (nc & Hnc & _). destruct (Hall c y nc Hy Hd Hnc) as [Hc Hu].
    by rewrite (proj2 (Hp c y nc Hy Hnc) Hc), (undisturbed_serve o n nc _ Hu).
  - rewrite <- (rested_pushes _ _ _ d payload Hcalls Hrest Hfail). apply map_sum_ext. intros c y Hy.
    unfold sent_conn, of_device. destruct (inv_dc _ _ Hi c y Hy) as (nc & Hnc & _). rewrite Hnc.
    case_decide as Hd; [|done]. destruct (Hall c y nc Hy Hd Hnc) as [Hc Hu].
    unfold sent_on_net. by apply occurrences_permutation, (undisturbed_heard o n nc _ h Hu).
Qed.

(** ** The run of the end-to-end program

    The upstream of [Programs.e2e_upstream] ends where the client's bytes end; the
    server reads that end and tears the connection down. *)

Definition e2e_through : list action :=
  Accept 0 e2e_upstream :: replicate 11 (Handler 0) ++ replicate 5 (Task 0) ++
  ((fun p => CallPush e2e (echo p)) <$> reverse e2e_pings) ++ replicate 10 (Task 0) ++ replicate 5 (Handler 0).

Definition e2e_over : config := default init (schedule (go_server []) e2e_through init).

Definition e2e_ledger : ledger := schedule_ledger (go_server []) e2e_through init (mkLedger ∅ ∅).

Lemma e2e_over_recorded : recorded (go_server []) e2e_ledger e2e_over.
Proof.
  unfold e2e_over, e2e_ledger. destruct (schedule _ e2e_through init) as [y|] eqn:Hy.
  - by apply (schedule_recorded _ e2e_through _ init); [constructor|].
  - exfalso. revert Hy. vm_compute. discriminate.
Qed.

Lemma e2e_over_rests : at_rest (go_server []) e2e_over.
Proof. apply at_rest_intro; [vm_compute; reflexivity|]. apply (bool_decide_unpack _). vm_compute. exact I. Qed.

Lemma e2e_over_device : dcs (srv e2e_over) = {[0%nat := mkDC e2e false]}.
Proof. vm_compute. reflexivity. Qed.

(** The same bytes both ways as in [Devices.e2e_whole]. *)
Definition e2e_over_net : netconn := default (peer_sends []) (nets (srv e2e_over) !! 0%nat).

Lemma e2e_over_whole : joined_whole e2e_options 1 e2e_over_net e2e_rested.
Proof.
  assert (Hout : nc_out e2e_over_net = nc_out e2e_net) by (vm_compute; reflexivity).
  assert (Hall : nc_all e2e_over_net = nc_all e2e_net) by (vm_compute; reflexivity).
  destruct e2e_whole as (f & Hon & Hd & Hu). exists f. unfold carried_whole in *. rewrite Hout, Hall.
  exact (conj Hon (conj Hd Hu)).
Qed.

Lemma e2e_undisturbed : undisturbed e2e_options 1 e2e_over_net e2e_rested.
Proof.
  split.
  - exact e2e_over_whole.
  - split; [vm_compute; reflexivity|]. apply (bool_decide_unpack _). vm_compute. exact I.
  - apply quiet_comms. vm_compute. reflexivity.
  - vm_compute. reflexivity.
  - apply Forall_forall. intros [bs e] Hr. revert Hr. vm_compute. intros Hr.
    repeat (apply elem_of_cons in Hr as [Hr|Hr]; [by injection Hr|]). by apply not_elem_of_nil in Hr.
  - vm_compute. reflexivity.
Qed.

Lemma e2e_over_calls : ServerCalls.calls (go_server []) e2e_history e2e_over.
Proof.
  unfold e2e_over. destruct (schedule _ e2e_through init) as [y|] eqn:Hy.
  - replace e2e_history with (concat (asked <$> reverse e2e_through) ++ []) by (vm_compute; reflexivity).
    by apply (schedule_calls _ e2e_through [] init); [constructor|].
  - exfalso. revert Hy. vm_compute. discriminate.
Qed.

Lemma e2e_over_undisturbed c y nc :
  dcs (srv e2e_over) !! c = Some y -> deviceID y = e2e -> nets (srv e2e_over) !! c = Some nc ->
  c ∉ shut e2e_ledger /\ undisturbed e2e_options 1 nc e2e_rested.
Proof.
  intros Hy _ Hnc. rewrite e2e_over_device in Hy. apply lookup_singleton_Some in Hy as [<- _].
  assert (Hnet : e2e_over_net = nc) by (unfold e2e_over_net; rewrite Hnc; reflexivity).
  split; [|rewrite <- Hnet; exact e2e_undisturbed].
  apply (bool_decide_unpack _). vm_compute. exact I.
Qed.

Lemma delivered_exactly_once_witness :
  count (is_delivery e2e (ping 0)) (events (srv e2e_over)) = 1%nat /\
  in_mailbox e2e (echo (ping 0)) e2e_history = 1%nat /\
  count (is_delivery e2e (ping 0)) (events (srv e2e_over)) =
    over_clients (fun _ => e2e_rested) e2e (srv e2e_over) (fun s => occurrences (ping 0) (accepted s)) /\
  over_clients (fun _ => e2e_rested) e2e (srv e2e_over) (fun s => occurrences (echo (ping 0)) (heard 0 s)) =
    in_mailbox e2e (echo (ping 0)) e2e_history.
Proof.
  assert (Hf : failed_pushes e2e (srv e2e_over) = 0%nat) by (vm_compute; reflexivity).
  pose proof (delivered_exactly_once (go_server []) e2e_options 1 (fun _ => e2e_rested) e2e_ledger e2e_history
    e2e_over e2e e2e_over_recorded e2e_over_calls e2e_over_rests eq_refl Hf e2e_over_undisturbed) as H.
  split; [vm_compute; reflexivity|]. split; [vm_compute; reflexivity|].
  exact (conj (proj1 (H (ping 0) 0%nat Nat.lt_0_1)) (proj2 (H (echo (ping 0)) 0%nat Nat.lt_0_1))).
Defined.
